(** * Image-Gallery: the metadata-and-file consistency engine of [server.js]

    A shallow embedding of the last (most complete) server in
    [src/server.js] (the program text from [const archiver = require('archiver')]
    on): the metadata store, the start-up reconciler, group assembly, order
    derivation on upload and link registration, group deletion and reordering.

    Conventions of the embedding.
    - A JavaScript string is a [string] (a sequence of 8-bit code units).
    - The metadata object (a JS object used as a map from item id to record)
      is an association list in insertion order, which is the order
      [Object.keys] enumerates ids that are not array indices.
    - The file system is explicit state ([FS]); a handler is a computation in
      the monad [JS], which threads the state and an exception. A read of a
      missing file throws, [JSON.parse] of text that is not JSON throws;
      a write, a rename onto an existing target and a copy succeed.
    - [console.log], [console.warn] and [console.error] append to [console].
    - [path] is Node's POSIX [path]. *)

From Stdlib Require Import List String Ascii ZArith Bool Arith Lia.
From Stdlib Require Import Sorted Permutation.
Import ListNotations.

Local Open Scope string_scope.
Local Open Scope list_scope.

Set Implicit Arguments.

(* ================================================================= *)
(** ** Strings *)

Module Str.

Definition chars (s : string) : list ascii := list_ascii_of_string s.
Definition ofChars (l : list ascii) : string := string_of_list_ascii l.

Definition code (c : ascii) : nat := nat_of_ascii c.

(** [\d] of a JavaScript regular expression: the ASCII digits. *)
Definition isDigit (c : ascii) : bool := (48 <=? code c)%nat && (code c <=? 57)%nat.

Definition digitVal (c : ascii) : Z := Z.of_nat (code c - 48).

(** [String.prototype.toLowerCase] on 8-bit code units changes the ASCII
    capitals only, as far as a comparison with an ASCII literal can tell. *)
Definition lowerChar (c : ascii) : ascii :=
  if (65 <=? code c)%nat && (code c <=? 90)%nat then ascii_of_nat (code c + 32) else c.

Definition toLowerCase (s : string) : string := ofChars (map lowerChar (chars s)).

Fixpoint takeWhile (p : ascii -> bool) (l : list ascii) : list ascii :=
  match l with
  | [] => []
  | c :: r => if p c then c :: takeWhile p r else []
  end.

Fixpoint dropWhile (p : ascii -> bool) (l : list ascii) : list ascii :=
  match l with
  | [] => []
  | c :: r => if p c then dropWhile p r else l
  end.

Fixpoint isPrefix (p l : list ascii) : bool :=
  match p, l with
  | [], _ => true
  | _ :: _, [] => false
  | a :: p', b :: l' => Ascii.eqb a b && isPrefix p' l'
  end.

(** [s.startsWith(p)] *)
Definition startsWith (p s : string) : bool := isPrefix (chars p) (chars s).

(** [s.endsWith(p)] *)
Definition endsWith (p s : string) : bool := isPrefix (rev (chars p)) (rev (chars s)).

Fixpoint includesChars (p l : list ascii) : bool :=
  isPrefix p l || match l with [] => false | _ :: r => includesChars p r end.

(** [s.includes(p)] *)
Definition includes (p s : string) : bool := includesChars (chars p) (chars s).

(** [s.split(sep)] for a non-empty separator: [cur] holds, reversed, the
    characters of the piece being read; [skip] counts the characters of a
    separator just recognised that are still to be passed over. *)
Fixpoint splitChars (sep l cur : list ascii) (skip : nat) : list (list ascii) :=
  match l with
  | [] => [rev cur]
  | c :: r =>
      match skip with
      | S k => splitChars sep r cur k
      | O => if isPrefix sep l
             then rev cur :: splitChars sep r [] (List.length sep - 1)
             else splitChars sep r (c :: cur) 0
      end
  end.

Definition split (sep s : string) : list string :=
  map ofChars (splitChars (chars sep) (chars s) [] 0).

(** Comparison of code units, the order of [Array.prototype.sort] without a
    comparator. *)
Definition codeUnitCompare (a b : string) : Z :=
  match String.compare a b with Lt => (-1)%Z | Eq => 0%Z | Gt => 1%Z end.

End Str.

(* ================================================================= *)
(** ** Node's [path] (POSIX) *)

Module Path.
Import Str.

Definition isSlash (c : ascii) : bool := Ascii.eqb c "/"%char.
Definition notSlash (c : ascii) : bool := negb (isSlash c).
Definition notDot (c : ascii) : bool := negb (Ascii.eqb c "."%char).

(** The last component of a path, trailing slashes dropped. *)
Definition baseChars (p : list ascii) : list ascii :=
  rev (takeWhile notSlash (dropWhile isSlash (rev p))).

(** The component split at its last dot into name and extension. There is
    no extension when the component has no dot, when its only dot is its
    first character, or when it is [".."]. *)
Definition splitExt (base : list ascii) : list ascii * list ascii :=
  let rb := rev base in
  match dropWhile notDot rb with
  | [] => (base, [])
  | _ :: [] => (base, [])
  | d :: rpre =>
      if (ofChars base =? "..")%string then (base, [])
      else (rev rpre, d :: rev (takeWhile notDot rb))
  end.

(** [path.extname(p)] *)
Definition extname (p : string) : string := ofChars (snd (splitExt (baseChars (chars p)))).

(** [path.parse(p).name]. [path.parse] scans a rooted path down to the
    character after the root only, so in [/..] (with or without trailing
    slashes) it does not find where the component starts and takes its
    second dot for an extension: the name is [.] there. *)
Definition parseName (p : string) : string :=
  match chars p with
  | "/"%char :: "."%char :: "."%char :: r =>
      if forallb isSlash r then "."
      else ofChars (fst (splitExt (baseChars (chars p))))
  | _ => ofChars (fst (splitExt (baseChars (chars p))))
  end.

End Path.

(* ================================================================= *)
(** ** Order extraction from a file name (server.js, extractOrderFromFilename) *)

Import Str.

(** The rest of a run of digits: the characters matched by [\d*]. *)
Definition digitRun (l : list ascii) : list ascii := takeWhile isDigit l.

(** [s.match(/\d+/)]: the leftmost, longest run of digits, if any. *)
Fixpoint matchDigits (l : list ascii) : option (list ascii) :=
  match l with
  | [] => None
  | c :: r => if isDigit c then Some (c :: digitRun r) else matchDigits r
  end.

(** [parseInt(ds, 10)] on a string of digits. *)
Definition parseInt (ds : list ascii) : Z :=
  fold_left (fun acc c => (10 * acc + digitVal c)%Z) ds 0%Z.

(** [null] is [None]. *)
Definition extractOrderFromFilename (filename : string) : option Z :=
  let nameWithoutExt := Path.parseName filename in
  match matchDigits (chars nameWithoutExt) with
  | Some numberMatch =>
      let number := parseInt numberMatch in
      if (1 <=? number)%Z && (number <=? 9999)%Z
      then Some (number - 1)%Z
      else None
  | None => None
  end.

(* ================================================================= *)
(** ** Metadata records and the metadata map *)

(** One value of the metadata object. A field the record lacks
    ([undefined]) and a field that is [null] are [None]. *)
Record FileMeta : Type := mkMeta {
  category : option string;
  description : option string;
  uploadDate : option string;
  type : option string;
  groupId : option string;
  order : option Z;
  isExternal : bool;
  externalUrl : option string;
  embedUrl : option string;
  videoType : option string;
  titleImageId : option string
}.

Definition withOrder (r : FileMeta) (o : Z) : FileMeta :=
  mkMeta (category r) (description r) (uploadDate r) (type r) (groupId r)
         (Some o) (isExternal r) (externalUrl r) (embedUrl r) (videoType r)
         (titleImageId r).

Definition withTitleImageId (r : FileMeta) (t : string) : FileMeta :=
  mkMeta (category r) (description r) (uploadDate r) (type r) (groupId r)
         (order r) (isExternal r) (externalUrl r) (embedUrl r) (videoType r)
         (Some t).

(** Truthiness of a string-valued field: set and not empty. *)
Definition truthy (o : option string) : bool :=
  match o with
  | Some s => negb (s =? "")%string
  | None => false
  end.

(** [o || d] *)
Definition orElse (o : option string) (d : string) : string :=
  match o with
  | Some s => if (s =? "")%string then d else s
  | None => d
  end.

(** [o !== undefined ? o : 999] *)
Definition orderOr999 (o : option Z) : Z :=
  match o with Some z => z | None => 999%Z end.

(** [meta?.groupId === groupId] for a string [groupId] *)
Definition groupIs (meta : option FileMeta) (g : string) : bool :=
  match meta with
  | Some r => match groupId r with Some g' => (g' =? g)%string | None => false end
  | None => false
  end.

(** [meta?.isExternal] *)
Definition isExternalOpt (meta : option FileMeta) : bool :=
  match meta with Some r => isExternal r | None => false end.

Definition Metadata : Type := list (string * FileMeta).

(** [metadata[k]] *)
Fixpoint get (m : Metadata) (k : string) : option FileMeta :=
  match m with
  | [] => None
  | (k', v) :: r => if (k' =? k)%string then Some v else get r k
  end.

(** [metadata[k] = v]: an existing key keeps its place, a new one goes last. *)
Fixpoint set (m : Metadata) (k : string) (v : FileMeta) : Metadata :=
  match m with
  | [] => [(k, v)]
  | (k', v') :: r => if (k' =? k)%string then (k, v) :: r else (k', v') :: set r k v
  end.

(** [delete metadata[k]] *)
Definition delete (m : Metadata) (k : string) : Metadata :=
  filter (fun kv => negb (fst kv =? k)%string) m.

(** [Object.keys(metadata)] *)
Definition keys (m : Metadata) : list string := map fst m.

(** [names.includes(x)] / [set.has(x)] / [names.indexOf(x) !== -1] *)
Definition has (names : list string) (x : string) : bool :=
  existsb (fun y => (y =? x)%string) names.

(** [names.indexOf(x)], [None] for -1 *)
Fixpoint indexOf (names : list string) (x : string) : option nat :=
  match names with
  | [] => None
  | y :: r => if (y =? x)%string then Some O
              else match indexOf r x with Some i => Some (S i) | None => None end
  end.

(* ================================================================= *)
(** ** Media file names *)

Definition mediaExtensions : list string :=
  [".jpg"; ".jpeg"; ".png"; ".gif"; ".webp"; ".mp4"; ".webm"; ".ogg"; ".mov"; ".avi"].

Definition imageExtensions : list string :=
  [".jpg"; ".jpeg"; ".png"; ".gif"; ".webp"].

Definition videoExtensions : list string :=
  [".mp4"; ".webm"; ".ogg"; ".mov"; ".avi"].

(** [exts.includes(path.extname(f).toLowerCase())] *)
Definition hasExtension (exts : list string) (f : string) : bool :=
  has exts (toLowerCase (Path.extname f)).

Definition isMedia (f : string) : bool := hasExtension mediaExtensions f.

(** [file.match(/\.(mp4|webm|ogg|mov|avi)$/i)] *)
Definition matchesVideoPattern (file : string) : bool :=
  existsb (fun e => endsWith e (toLowerCase file)) videoExtensions.

(* ================================================================= *)
(** ** The file system, the console and the clock *)

(** The text of a metadata file: the serialization of a metadata object,
    or text that [JSON.parse] rejects. *)
Inductive content : Type :=
  | Json (m : Metadata)
  | NotJson (text : string).

(** A regular file of the uploads directory; [mtime] is the modification
    time as [toISOString] prints it. *)
Record DiskFile : Type := mkFile {
  fname : string;
  mtime : string;
  bytes : string
}.

(** A snapshot directory [backups/backup-...]: its copy of the metadata
    file and its [uploads] subdirectory, either of which may be missing. *)
Record Snapshot : Type := mkSnapshot {
  snapMetadata : option content;
  snapUploads : option (list DiskFile)
}.

Record FS : Type := mkFS {
  primary : option content;        (* image-metadata.json *)
  primaryTmp : option content;     (* image-metadata.json.tmp *)
  mirror : option content;         (* backups/image-metadata.json *)
  mirrorTmp : option content;      (* backups/image-metadata.json.tmp *)
  uploads : list DiskFile;         (* uploads/, in directory order *)
  snapshots : list (string * Snapshot)  (* the subdirectories of backups/ *)
}.

Inductive Level : Type := LOG | WARN | ERROR.

(** A console line: the fixed text and the interpolated value, if any. *)
Inductive LogArg : Type := NoArg | StrArg (s : string) | NumArg (n : nat).

Record LogLine : Type := mkLog { level : Level; text : string; arg : LogArg }.

Record World : Type := mkWorld {
  disk : FS;
  console : list LogLine;
  clock : string;        (* new Date().toISOString() *)
  uniqueSuffix : string  (* Date.now() + '-' + Math.round(Math.random() * 1E9) *)
}.

(* ================================================================= *)
(** ** Computations: state and exceptions *)

Inductive outcome (A : Type) : Type :=
  | Ret (a : A)
  | Throw (message : string).
Arguments Ret {A} a.
Arguments Throw {A} message.

Definition JS (A : Type) : Type := World -> outcome A * World.

Definition ret {A : Type} (a : A) : JS A := fun w => (Ret a, w).

Definition throw {A : Type} (message : string) : JS A := fun w => (Throw message, w).

Definition bind {A B : Type} (c : JS A) (k : A -> JS B) : JS B :=
  fun w => match c w with
           | (Ret a, w') => k a w'
           | (Throw e, w') => (Throw e, w')
           end.

(** [try { body } catch (error) { handler }] *)
Definition tryCatch {A : Type} (body : JS A) (handler : string -> JS A) : JS A :=
  fun w => match body w with
           | (Ret a, w') => (Ret a, w')
           | (Throw e, w') => handler e w'
           end.

Declare Scope js_scope.
Delimit Scope js_scope with js.
Notation "x <- c ;; k" := (bind c (fun x => k))
  (at level 61, c at next level, right associativity) : js_scope.
Notation "c ;; k" := (bind c (fun _ => k))
  (at level 61, right associativity) : js_scope.
Local Open Scope js_scope.

(** [l.forEach(body)] where the body updates local variables [s]. *)
Fixpoint forEach {A S : Type} (l : list A) (body : A -> S -> JS S) (s : S) : JS S :=
  match l with
  | [] => ret s
  | a :: r => s' <- body a s ;; forEach r body s'
  end.

Definition getDisk : JS FS := fun w => (Ret (disk w), w).

Definition putDisk (d : FS) : JS unit :=
  fun w => (Ret tt, mkWorld d (console w) (clock w) (uniqueSuffix w)).

Definition now : JS string := fun w => (Ret (clock w), w).

Definition emit (l : Level) (t : string) (a : LogArg) : JS unit :=
  fun w => (Ret tt, mkWorld (disk w) (console w ++ [mkLog l t a]) (clock w) (uniqueSuffix w)).

Definition console_log (t : string) : JS unit := emit LOG t NoArg.
Definition console_warn (t : string) : JS unit := emit WARN t NoArg.
Definition console_error (t : string) : JS unit := emit ERROR t NoArg.

(* ----------------------------------------------------------------- *)
(** *** [fs] on the two metadata files and their temporaries *)

Inductive JsonPath : Type :=
  | metadataFile | metadataFile_tmp | backupMetadataFile | backupMetadataFile_tmp.

Definition fileAt (p : JsonPath) (d : FS) : option content :=
  match p with
  | metadataFile => primary d
  | metadataFile_tmp => primaryTmp d
  | backupMetadataFile => mirror d
  | backupMetadataFile_tmp => mirrorTmp d
  end.

Definition putFile (p : JsonPath) (v : option content) (d : FS) : FS :=
  match p with
  | metadataFile => mkFS v (primaryTmp d) (mirror d) (mirrorTmp d) (uploads d) (snapshots d)
  | metadataFile_tmp => mkFS (primary d) v (mirror d) (mirrorTmp d) (uploads d) (snapshots d)
  | backupMetadataFile => mkFS (primary d) (primaryTmp d) v (mirrorTmp d) (uploads d) (snapshots d)
  | backupMetadataFile_tmp => mkFS (primary d) (primaryTmp d) (mirror d) v (uploads d) (snapshots d)
  end.

Definition existsSync (p : JsonPath) : JS bool :=
  d <- getDisk ;; ret (match fileAt p d with Some _ => true | None => false end).

Definition readFileSync (p : JsonPath) : JS content :=
  d <- getDisk ;;
  match fileAt p d with
  | Some c => ret c
  | None => throw "ENOENT"
  end.

Definition writeFileSync (p : JsonPath) (data : content) : JS unit :=
  d <- getDisk ;; putDisk (putFile p (Some data) d).

Definition renameSync (src dst : JsonPath) : JS unit :=
  d <- getDisk ;;
  match fileAt src d with
  | Some c => putDisk (putFile dst (Some c) (putFile src None d))
  | None => throw "ENOENT"
  end.

Definition unlinkSync (p : JsonPath) : JS unit :=
  d <- getDisk ;;
  match fileAt p d with
  | Some _ => putDisk (putFile p None d)
  | None => throw "ENOENT"
  end.

Definition JSON_parse (data : content) : JS Metadata :=
  match data with
  | Json m => ret m
  | NotJson _ => throw "SyntaxError"
  end.

(** [JSON.stringify(metadata, null, 2)] *)
Definition JSON_stringify (metadata : Metadata) : content := Json metadata.

(* ----------------------------------------------------------------- *)
(** *** [fs] on the uploads directory *)

Definition names (l : list DiskFile) : list string := map fname l.

Fixpoint findFile (l : list DiskFile) (name : string) : option DiskFile :=
  match l with
  | [] => None
  | f :: r => if (fname f =? name)%string then Some f else findFile r name
  end.

(** Create or overwrite a file of a directory. *)
Fixpoint upsertFile (l : list DiskFile) (f : DiskFile) : list DiskFile :=
  match l with
  | [] => [f]
  | g :: r => if (fname g =? fname f)%string then f :: r else g :: upsertFile r f
  end.

Definition removeFile (l : list DiskFile) (name : string) : list DiskFile :=
  filter (fun f => negb (fname f =? name)%string) l.

Definition setUploads (d : FS) (u : list DiskFile) : FS :=
  mkFS (primary d) (primaryTmp d) (mirror d) (mirrorTmp d) u (snapshots d).

Definition setSnapshots (d : FS) (s : list (string * Snapshot)) : FS :=
  mkFS (primary d) (primaryTmp d) (mirror d) (mirrorTmp d) (uploads d) s.

(** [fs.readdirSync(uploadsDir)] *)
Definition readdirUploads : JS (list string) :=
  d <- getDisk ;; ret (names (uploads d)).

(** [fs.existsSync(path.join(uploadsDir, name))] for a name that is a
    single path component: the path is then that of an entry of the
    uploads directory. (A name with a slash, [.] or [..] leads out of the
    directory, to files that are not modelled.) *)
Definition existsUpload (name : string) : JS bool :=
  d <- getDisk ;; ret (has (names (uploads d)) name).

(** [fs.statSync(path.join(uploadsDir, name)).mtime.toISOString()] *)
Definition statUploadMtime (name : string) : JS string :=
  d <- getDisk ;;
  match findFile (uploads d) name with
  | Some f => ret (mtime f)
  | None => throw "ENOENT"
  end.

(** [fs.unlinkSync(path.join(uploadsDir, name))] *)
Definition unlinkUpload (name : string) : JS unit :=
  d <- getDisk ;;
  match findFile (uploads d) name with
  | Some _ => putDisk (setUploads d (removeFile (uploads d) name))
  | None => throw "ENOENT"
  end.

(** [fs.writeFileSync(path.join(uploadsDir, name), data, 'utf8')] *)
Definition writeUpload (name data : string) : JS unit :=
  t <- now ;; d <- getDisk ;;
  putDisk (setUploads d (upsertFile (uploads d) (mkFile name t data))).

(** [fs.readFileSync(path.join(uploadsDir, name), 'utf8')] *)
Definition readUpload (name : string) : JS string :=
  d <- getDisk ;;
  match findFile (uploads d) name with
  | Some f => ret (bytes f)
  | None => throw "ENOENT"
  end.

(* ----------------------------------------------------------------- *)
(** *** [fs] on the snapshot directories of [backups/] *)

Fixpoint getSnapshot (l : list (string * Snapshot)) (name : string) : option Snapshot :=
  match l with
  | [] => None
  | (n, s) :: r => if (n =? name)%string then Some s else getSnapshot r name
  end.

Fixpoint putSnapshot (l : list (string * Snapshot)) (name : string) (s : Snapshot)
  : list (string * Snapshot) :=
  match l with
  | [] => [(name, s)]
  | (n, s') :: r => if (n =? name)%string then (name, s) :: r else (n, s') :: putSnapshot r name s
  end.

(** The directories among [fs.readdirSync(backupsDir)]; the mirror of the
    metadata file, which lives there too, is a regular file. *)
Definition readdirBackupDirs : JS (list string) :=
  d <- getDisk ;; ret (map fst (snapshots d)).

Definition readSnapshot (name : string) : JS Snapshot :=
  d <- getDisk ;;
  match getSnapshot (snapshots d) name with
  | Some s => ret s
  | None => throw "ENOENT"
  end.

Definition writeSnapshot (name : string) (s : Snapshot) : JS unit :=
  d <- getDisk ;; putDisk (setSnapshots d (putSnapshot (snapshots d) name s)).

(** [fs.existsSync(path.join(backupsDir, name))] for the name of a
    snapshot directory, or for a single path component that is not the
    name of the mirror metadata file or of its temporary file, which are
    kept in the backups directory too. *)
Definition existsBackupDir (name : string) : JS bool :=
  d <- getDisk ;;
  ret (match getSnapshot (snapshots d) name with Some _ => true | None => false end).

(** [fs.copyFileSync(src, dst)] into the uploads directory: the copy
    carries the bytes of [src] and the time of the copy. *)
Definition copyIntoUploads (src : DiskFile) : JS unit :=
  writeUpload (fname src) (bytes src).

(* ================================================================= *)
(** ** [Array.prototype.sort] *)

(** For a comparator that is a consistent ordering the result of [sort] is
    the stable sorted permutation; insertion from the right computes it. *)
Fixpoint insertSorted {A : Type} (cmp : A -> A -> Z) (x : A) (l : list A) : list A :=
  match l with
  | [] => [x]
  | y :: r => if (cmp x y <=? 0)%Z then x :: y :: r else y :: insertSorted cmp x r
  end.

Definition sort {A : Type} (cmp : A -> A -> Z) (l : list A) : list A :=
  fold_right (insertSorted cmp) [] l.

(* ================================================================= *)
(** ** Metadata store (server.js, loadMetadataWithFallback .. saveMetadata) *)

(** A [return] inside the [try] is [Some]; falling out of it is [None]. *)
Definition loadMetadataWithFallback : JS Metadata :=
  r <- tryCatch
         (ex <- existsSync metadataFile ;;
          if ex : bool then
            data <- readFileSync metadataFile ;;
            m <- JSON_parse data ;;
            ret (Some m)
          else ret None)
         (fun error =>
            emit WARN "Could not load primary metadata, trying backup:" (StrArg error) ;;
            ret None) ;;
  match r with
  | Some m => ret m
  | None =>
      r2 <- tryCatch
              (ex <- existsSync backupMetadataFile ;;
               if ex : bool then
                 console_log "Loading metadata from backup location" ;;
                 data <- readFileSync backupMetadataFile ;;
                 metadata <- JSON_parse data ;;
                 tryCatch
                   (writeFileSync metadataFile_tmp data ;;
                    renameSync metadataFile_tmp metadataFile ;;
                    console_log "Restored metadata to primary location")
                   (fun restoreError =>
                      emit WARN "Could not restore metadata to primary location:"
                           (StrArg restoreError)) ;;
                 ret (Some metadata)
               else ret None)
              (fun error =>
                 emit WARN "Could not load backup metadata:" (StrArg error) ;;
                 ret None) ;;
      match r2 with
      | Some m => ret m
      | None => ret []
      end
  end.

Definition loadMetadata : JS Metadata := loadMetadataWithFallback.

Definition saveMetadata (metadata : Metadata) : JS unit :=
  tryCatch
    (writeFileSync metadataFile_tmp (JSON_stringify metadata) ;;
     renameSync metadataFile_tmp metadataFile ;;
     tryCatch
       (writeFileSync backupMetadataFile_tmp (JSON_stringify metadata) ;;
        renameSync backupMetadataFile_tmp backupMetadataFile)
       (fun backupError =>
          emit WARN "Could not save metadata backup (non-critical):" (StrArg backupError)) ;;
     console_log "Metadata saved successfully")
    (fun error =>
       emit ERROR "Error saving metadata:" (StrArg error) ;;
       tryCatch
         (ex <- existsSync metadataFile_tmp ;;
          if ex : bool then unlinkSync metadataFile_tmp else ret tt)
         (fun cleanupError =>
            emit ERROR "Error cleaning up temp file:" (StrArg cleanupError))).

(* ================================================================= *)
(** ** Backup manager (server.js, createBackup and restoreFromBackup) *)

(** [new Date().toISOString().replace(/[:.]/g, '-')] *)
Definition timestampOf (iso : string) : string :=
  ofChars (map (fun c => if Ascii.eqb c ":"%char || Ascii.eqb c "."%char
                         then "-"%char else c) (chars iso)).

(** [null] is [None]. *)
Definition createBackup : JS (option string) :=
  tryCatch
    (t <- now ;;
     let timestamp := timestampOf t in
     let backupName := ("backup-" ++ timestamp)%string in
     ex <- existsBackupDir backupName ;;
     (if ex : bool then ret tt else writeSnapshot backupName (mkSnapshot None None)) ;;
     (* Backup metadata *)
     hasMeta <- existsSync metadataFile ;;
     (if hasMeta : bool then
        data <- readFileSync metadataFile ;;
        s <- readSnapshot backupName ;;
        writeSnapshot backupName (mkSnapshot (Some data) (snapUploads s))
      else ret tt) ;;
     (* Backup all uploads *)
     s <- readSnapshot backupName ;;
     (match snapUploads s with
      | Some _ => ret tt
      | None => writeSnapshot backupName (mkSnapshot (snapMetadata s) (Some []))
      end) ;;
     d <- getDisk ;;
     forEach (uploads d)
       (fun file (_ : unit) =>
          s <- readSnapshot backupName ;;
          match snapUploads s with
          | Some copies =>
              writeSnapshot backupName
                (mkSnapshot (snapMetadata s)
                            (Some (upsertFile copies (mkFile (fname file) t (bytes file)))))
          | None => throw "ENOENT"
          end) tt ;;
     emit LOG "Backup created: " (StrArg backupName) ;;
     ret (Some backupName))
    (fun error =>
       emit ERROR "Error creating backup:" (StrArg error) ;;
       ret None).

Definition restoreFromBackup (backupName : string) : JS bool :=
  tryCatch
    (ex <- existsBackupDir backupName ;;
     (if ex : bool then ret tt else throw "Backup not found") ;;
     s <- readSnapshot backupName ;;
     (* Restore metadata *)
     (match snapMetadata s with
      | Some data => d <- getDisk ;; putDisk (putFile metadataFile (Some data) d)
      | None => ret tt
      end) ;;
     (* Restore uploads *)
     (match snapUploads s with
      | Some files => forEach files (fun file (_ : unit) => copyIntoUploads file) tt
      | None => ret tt
      end) ;;
     emit LOG "Restored from backup: " (StrArg backupName) ;;
     ret true)
    (fun error =>
       emit ERROR "Error restoring backup:" (StrArg error) ;;
       ret false).

(* ================================================================= *)
(** ** Start-up reconciliation (server.js, checkStoragePersistence and
       syncMetadataWithFiles) *)

Record PersistenceCheck : Type := mkCheck {
  writable : bool;
  markerExists : bool;
  markerContent : option string;
  checkError : option string
}.

Definition checkStoragePersistence : JS PersistenceCheck :=
  tryCatch
    (markerContent <- now ;;
     writeUpload ".persistence-marker" markerContent ;;
     readContent <- readUpload ".persistence-marker" ;;
     markerExists <- existsUpload ".persistence-marker" ;;
     ret (mkCheck true markerExists (Some readContent) None))
    (fun error => ret (mkCheck false false None (Some error))).

(** [new Set(l)]: the first occurrence of each element, in order. *)
Fixpoint dedupe (seen l : list string) : list string :=
  match l with
  | [] => []
  | x :: r => if has seen x then dedupe seen r else x :: dedupe (x :: seen) r
  end.

(** The record synthesized for a file found on disk without metadata. *)
Definition defaultRecord (file mtimeISO : string) : FileMeta :=
  mkMeta (Some "fun") (Some "") (Some mtimeISO)
         (Some (if matchesVideoPattern file then "video" else "image"))
         None (Some 999%Z) false None None None None.

(** Lines 1260-1296: an uploads directory without media files is refilled
    from the snapshot whose name sorts last. *)
Definition restoreIfEmpty : JS unit :=
  all <- readdirUploads ;;
  let files := filter isMedia all in
  let isEmpty := (List.length files =? 0)%nat in
  p <- existsSync metadataFile ;;
  b <- existsSync backupMetadataFile ;;
  let metadataExists := p || b in
  if isEmpty then
    dirs <- readdirBackupDirs ;;
    let backups := rev (sort codeUnitCompare (filter (startsWith "backup-") dirs)) in
    match backups with
    | b0 :: _ =>
        emit LOG "Uploads directory is empty - attempting to restore from backup: " (StrArg b0) ;;
        restored <- restoreFromBackup b0 ;;
        if restored : bool then
          console_log "Successfully restored from backup" ;;
          all' <- readdirUploads ;;
          let restoredFiles := filter isMedia all' in
          emit LOG "Restored files from backup" (NumArg (List.length restoredFiles))
        else console_warn "Could not restore from backup - data may be lost"
    | [] =>
        if metadataExists
        then console_warn "Images missing but metadata exists - data may have been lost"
        else ret tt
    end
  else ret tt.

(** Lines 1298-1306. *)
Definition reportPersistence : JS unit :=
  persistenceCheck <- checkStoragePersistence ;;
  if negb (writable persistenceCheck) then
    console_warn "WARNING: Storage may be ephemeral - data may not persist across deployments!" ;;
    console_warn "Consider using persistent volumes on your hosting platform." ;;
    console_warn "Set PERSISTENT_DATA_DIR environment variable to use persistent storage."
  else console_log "Storage persistence verified".

(** Lines 1318-1327: the first loop, over [Object.keys(metadata)]. *)
Definition removeOrphans (fileSet : list string) (metadata : Metadata) : JS (Metadata * bool) :=
  forEach (keys metadata)
    (fun key (st : Metadata * bool) =>
       let (md, updated) := st in
       let meta := get md key in
       if negb (isExternalOpt meta) && negb (has fileSet key) then
         emit LOG "Removing orphaned metadata entry: " (StrArg key) ;;
         ret (delete md key, true)
       else ret (md, updated))
    (metadata, false).

(** Lines 1329-1343: the second loop, over the set of media files. *)
Definition addMissing (fileSet : list string) (st : Metadata * bool) : JS (Metadata * bool) :=
  forEach fileSet
    (fun file (st : Metadata * bool) =>
       let (md, updated) := st in
       match get md file with
       | Some _ => ret (md, updated)
       | None =>
           emit LOG "Adding missing metadata entry for file: " (StrArg file) ;;
           t <- statUploadMtime file ;;
           ret (set md file (defaultRecord file t), true)
       end)
    st.

(** Lines 1308-1350: load, prune, complete, save when something changed.
    Returns the metadata object and the directory listing for the report
    that follows. *)
Definition reconcile : JS (Metadata * list string) :=
  metadata <- loadMetadata ;;
  files <- readdirUploads ;;
  let fileSet := dedupe [] (filter isMedia files) in
  st <- removeOrphans fileSet metadata ;;
  st <- addMissing fileSet st ;;
  let (metadata, updated) := st : Metadata * bool in
  (if updated then
     saveMetadata metadata ;;
     console_log "Metadata synced successfully"
   else console_log "Metadata is already in sync") ;;
  ret (metadata, files).

(** Lines 1352-1368. *)
Definition reportCounts (metadata : Metadata) (files : list string) : JS unit :=
  let imageCount := List.length (filter (hasExtension imageExtensions) files) in
  let videoCount := List.length (filter (hasExtension videoExtensions) files) in
  let externalCount := List.length (filter (fun kv => isExternal (snd kv)) metadata) in
  console_log "Image persistence verified:" ;;
  emit LOG "images stored on disk" (NumArg imageCount) ;;
  emit LOG "videos stored on disk" (NumArg videoCount) ;;
  emit LOG "external links in metadata" (NumArg externalCount) ;;
  emit LOG "total items in metadata" (NumArg (List.length (keys metadata))) ;;
  console_log "All files persist to disk and will survive server restarts".

(** Lines 1252-1306, up to the reconciliation proper. The uploads and
    backups directories exist from module load on, so the [existsSync]
    tests on them hold and the [mkdirSync] branches are not entered. *)
Definition syncPrelude : JS unit :=
  console_log "Syncing metadata with files on disk..." ;;
  restoreIfEmpty ;;
  reportPersistence.

(** The statements of the [try] block and of the [catch] clause, in
    source order; at each place [files] stands for the declaration that
    precedes it. *)
Definition syncBody : JS unit :=
  tryCatch
    (syncPrelude ;;
     r <- reconcile ;;
     reportCounts (fst r) (snd r))
    (fun error => emit ERROR "Error syncing metadata:" (StrArg error)).

(* ----------------------------------------------------------------- *)
(** *** Early errors *)

(** A name declared twice with [let] or [const] directly in one block is
    an early error (ECMA-262, 14.2.1: the LexicallyDeclaredNames of a
    StatementList hold no duplicate). The script is rejected when it is
    parsed, and none of its statements runs. *)
Fixpoint redeclared (names : list string) : option string :=
  match names with
  | [] => None
  | x :: r => if has r x then Some x else redeclared r
  end.

Inductive Parsed (A : Type) : Type :=
  | SyntaxError (identifier : string)
  | Function (body : A).
Arguments SyntaxError {A} identifier.
Arguments Function {A} body.

Definition parseBlock {A : Type} (declarations : list string) (body : A) : Parsed A :=
  match redeclared declarations with
  | Some identifier => SyntaxError identifier
  | None => Function body
  end.

(** What a call comes to: of a rejected function nothing runs, and the
    error is the one the parser reports. *)
Definition call {A : Type} (f : Parsed (JS A)) : JS A :=
  match f with
  | SyntaxError identifier =>
      throw ("SyntaxError: Identifier '" ++ identifier ++ "' has already been declared")
  | Function body => body
  end.

(** The names that the [try] block of [syncMetadataWithFiles] declares
    with [const] or [let] directly in the block, in source order (lines
    1261, 1266, 1267, 1299, 1309, 1310, 1311, 1316, 1353, 1357, 1361). *)
Definition syncDeclarations : list string :=
  ["files"; "isEmpty"; "metadataExists"; "persistenceCheck"; "metadata"; "files";
   "fileSet"; "updated"; "imageCount"; "videoCount"; "externalCount"].

(** Lines 1250-1382. *)
Definition syncMetadataWithFiles : Parsed (JS unit) :=
  parseBlock syncDeclarations syncBody.

(* ================================================================= *)
(** ** HTTP responses *)

(** [res.json(body)] or [res.status(code).json({ error })]. *)
Inductive Response (A : Type) : Type :=
  | Ok (body : A)
  | Error (status : nat) (error : string).
Arguments Ok {A} body.
Arguments Error {A} status error.

(** [a || b] on optional strings. *)
Definition orOpt (a b : option string) : option string :=
  if truthy a then a else b.

(** An element of [group.files] in the listing. *)
Record GroupFile : Type := mkGroupFile {
  gf_id : string;
  gf_url : option string;
  gf_filename : string;
  gf_type : string;
  gf_order : Z;
  gf_isExternal : bool;
  gf_externalUrl : option string;
  gf_embedUrl : option string;
  gf_videoType : option string
}.

Record TitleImage : Type := mkTitleImage {
  ti_id : string;
  ti_url : option string;
  ti_filename : string
}.

Record Group : Type := mkGroup {
  g_id : string;
  g_files : list GroupFile;
  g_category : string;
  g_description : string;
  g_uploadDate : string;
  g_titleImage : option TitleImage
}.

(** An element of the [images] array of the listing. *)
Record Item : Type := mkItem {
  i_id : string;
  i_url : option string;
  i_filename : string;
  i_category : string;
  i_description : string;
  i_uploadDate : string;
  i_type : string;
  i_isGroup : bool;
  i_files : list GroupFile;
  i_isExternal : bool;
  i_externalUrl : option string;
  i_embedUrl : option string;
  i_videoType : option string;
  i_order : option Z;
  i_groupId : option string
}.

(** An element of [groupFiles] in the group detail. *)
Record DetailFile : Type := mkDetailFile {
  df_id : string;
  df_url : option string;
  df_filename : string;
  df_type : string;
  df_isExternal : bool;
  df_externalUrl : option string;
  df_embedUrl : option string;
  df_videoType : option string
}.

Record GroupDetail : Type := mkGroupDetail {
  gd_id : string;
  gd_files : list (DetailFile * bool);   (* { ...file, isTitle } *)
  gd_category : string;
  gd_description : string;
  gd_uploadDate : string
}.

(** An element of [allItems] in the zip export: a stored file has a
    [path], an external link a [url]. *)
Record ZipItem : Type := mkZipItem {
  zi_id : string;
  zi_path : option string;
  zi_filename : option string;
  zi_url : option string;
  zi_embedUrl : option string;
  zi_order : Z
}.

(** The group object of the listing, keyed by group id. *)
Fixpoint getGroup (groups : list (string * Group)) (g : string) : option Group :=
  match groups with
  | [] => None
  | (k, v) :: r => if (k =? g)%string then Some v else getGroup r g
  end.

Fixpoint putGroup (groups : list (string * Group)) (g : string) (v : Group)
  : list (string * Group) :=
  match groups with
  | [] => [(g, v)]
  | (k, v') :: r => if (k =? g)%string then (g, v) :: r else (k, v') :: putGroup r g v
  end.

(** A key that is an array index: the decimal numeral, without a leading
    zero, of an integer below 2^32 - 1. *)
Definition arrayIndex (k : string) : option Z :=
  match chars k with
  | [] => None
  | c :: r =>
      if forallb isDigit (c :: r) && (negb (Ascii.eqb c "0") || (List.length r =? 0)%nat)
      then if (parseInt (c :: r) <? 4294967295)%Z then Some (parseInt (c :: r)) else None
      else None
  end.

Definition isArrayIndex (k : string) : bool :=
  match arrayIndex k with Some _ => true | None => false end.

(** The own properties of a plain object in the order [Object.keys] and
    [Object.values] give them: the array indices in ascending numeric
    order, then the other keys in the order of their creation (ECMA-262,
    OrdinaryOwnPropertyKeys). *)
Definition ownEntries {A : Type} (o : list (string * A)) : list (string * A) :=
  sort (fun a b => (match arrayIndex (fst a) with Some i => i | None => 0 end
                    - match arrayIndex (fst b) with Some i => i | None => 0 end)%Z)
       (filter (fun kv => isArrayIndex (fst kv)) o)
  ++ filter (fun kv => negb (isArrayIndex (fst kv))) o.

(** [Object.values(groups)] *)
Definition objectValues {A : Type} (o : list (string * A)) : list A :=
  map snd (ownEntries o).

(** The properties a plain object inherits from [Object.prototype]
    (ECMA-262, 20.1.3 and B.2.2): for each of these names [groups[name]]
    is a function, or the prototype itself for [__proto__], also when the
    object has no key of that name of its own. *)
Definition objectPrototypeKeys : list string :=
  ["constructor"; "hasOwnProperty"; "isPrototypeOf"; "propertyIsEnumerable";
   "toLocaleString"; "toString"; "valueOf"; "__proto__";
   "__defineGetter__"; "__defineSetter__"; "__lookupGetter__"; "__lookupSetter__"].

Definition inherited (name : string) : bool := has objectPrototypeKeys name.

(** The groups object once [entry] is pushed to the group [g], which is
    created from [fileMeta] where [groups] has no key [g]. *)
Definition pushed (groups : list (string * Group)) (g : string)
    (fileMeta : FileMeta) (t : string) (entry : GroupFile) : list (string * Group) :=
  let grp :=
    match getGroup groups g with
    | Some grp => grp
    | None => mkGroup g [] (orElse (category fileMeta) "fun")
                      (orElse (description fileMeta) "")
                      (orElse (uploadDate fileMeta) t) None
    end in
  putGroup groups g
    (mkGroup (g_id grp) (g_files grp ++ [entry]) (g_category grp)
             (g_description grp) (g_uploadDate grp) (g_titleImage grp)).

(** [if (!groups[g]) groups[g] = {...}; groups[g].files.push(entry)].
    [groups] is a plain object: for a group id that names an inherited
    property, [groups[g]] is that property, so no group is created, its
    [.files] is [undefined] and the push throws a TypeError, for which
    [None] stands. *)
Definition pushToGroup (groups : list (string * Group)) (g : string)
    (fileMeta : FileMeta) (t : string) (entry : GroupFile)
  : option (list (string * Group)) :=
  if inherited g then None else Some (pushed groups g fileMeta t entry).

(** [for (const file of files) { if (metadata[file.id]?.titleImageId) ... break }] *)
Fixpoint findTitleImageId (metadata : Metadata) (ids : list string) : option string :=
  match ids with
  | [] => None
  | id :: r =>
      match get metadata id with
      | Some meta => if truthy (titleImageId meta) then titleImageId meta
                     else findTitleImageId metadata r
      | None => findTitleImageId metadata r
      end
  end.

Section Collation.

(** [a.localeCompare(b)]: the collation of the host. *)
Variable localeCompare : string -> string -> Z.

(** The comparator of the three sorts of group members. *)
Definition compareOrderId (oa : Z) (ida : string) (ob : Z) (idb : string) : Z :=
  if negb (oa =? ob)%Z then (oa - ob)%Z else localeCompare ida idb.

(* ----------------------------------------------------------------- *)
(** *** GET /api/images *)

(** Lines 1436-1485: the external links of the metadata object. The loop
    ends with the first push that throws. *)
Definition collectLinks (t : string) (metadata : Metadata)
  : option (list (string * Group) * list Item) :=
  fold_left
    (fun (acc : option (list (string * Group) * list Item)) linkId =>
       match acc with
       | None => None
       | Some (groups, individualFiles) =>
           match get metadata linkId with
           | Some fileMeta =>
               if isExternal fileMeta then
                 let item :=
                   mkItem linkId (orOpt (embedUrl fileMeta) (externalUrl fileMeta)) linkId
                          (orElse (category fileMeta) "fun")
                          (orElse (description fileMeta) "")
                          (orElse (uploadDate fileMeta) t)
                          (orElse (type fileMeta) "video")
                          (truthy (groupId fileMeta)) []
                          true (externalUrl fileMeta) (embedUrl fileMeta)
                          (videoType fileMeta)
                          (Some (orderOr999 (order fileMeta)))
                          (if truthy (groupId fileMeta) then groupId fileMeta else None) in
                 match groupId fileMeta with
                 | Some g =>
                     if truthy (groupId fileMeta) then
                       match pushToGroup groups g fileMeta t
                               (mkGroupFile linkId
                                  (orOpt (embedUrl fileMeta) (externalUrl fileMeta))
                                  linkId "video" (orderOr999 (order fileMeta)) true
                                  (externalUrl fileMeta) (embedUrl fileMeta)
                                  (videoType fileMeta)) with
                       | Some groups' => Some (groups', individualFiles)
                       | None => None
                       end
                     else Some (groups, individualFiles ++ [item])
                 | None => Some (groups, individualFiles ++ [item])
                 end
               else acc
           | None => acc
           end
       end)
    (keys metadata) (Some ([], [])).

(** Lines 1487-1522: the media files of the uploads directory. *)
Definition collectFiles (t : string) (metadata : Metadata) (mediaFiles : list string)
    (acc : list (string * Group) * list Item)
  : option (list (string * Group) * list Item) :=
  fold_left
    (fun (acc : option (list (string * Group) * list Item)) file =>
       match acc with
       | None => None
       | Some (groups, individualFiles) =>
           let fileMeta := get metadata file in
           let individual :=
             mkItem file (Some ("/uploads/" ++ file)%string) file
                    (orElse (match fileMeta with Some r => category r | None => None end) "fun")
                    (orElse (match fileMeta with Some r => description r | None => None end) "")
                    (orElse (match fileMeta with Some r => uploadDate r | None => None end) t)
                    (orElse (match fileMeta with Some r => type r | None => None end) "image")
                    false [] false None None None None None in
           match fileMeta with
           | Some r =>
               match groupId r with
               | Some g =>
                   if truthy (groupId r) then
                     match pushToGroup groups g r t
                             (mkGroupFile file (Some ("/uploads/" ++ file)%string) file
                                          (orElse (type r) "image") (orderOr999 (order r))
                                          false None None None) with
                     | Some groups' => Some (groups', individualFiles)
                     | None => None
                     end
                   else Some (groups, individualFiles ++ [individual])
               | None => Some (groups, individualFiles ++ [individual])
               end
           | None => Some (groups, individualFiles ++ [individual])
           end
       end)
    mediaFiles (Some acc).

(** What [collectLinks] gives where no push throws. *)
Definition collectedLinks (t : string) (metadata : Metadata)
  : list (string * Group) * list Item :=
  fold_left
    (fun (acc : list (string * Group) * list Item) linkId =>
       let (groups, individualFiles) := acc in
       match get metadata linkId with
       | Some fileMeta =>
           if isExternal fileMeta then
             let item :=
               mkItem linkId (orOpt (embedUrl fileMeta) (externalUrl fileMeta)) linkId
                      (orElse (category fileMeta) "fun")
                      (orElse (description fileMeta) "")
                      (orElse (uploadDate fileMeta) t)
                      (orElse (type fileMeta) "video")
                      (truthy (groupId fileMeta)) []
                      true (externalUrl fileMeta) (embedUrl fileMeta) (videoType fileMeta)
                      (Some (orderOr999 (order fileMeta)))
                      (if truthy (groupId fileMeta) then groupId fileMeta else None) in
             match groupId fileMeta with
             | Some g =>
                 if truthy (groupId fileMeta) then
                   (pushed groups g fileMeta t
                      (mkGroupFile linkId (orOpt (embedUrl fileMeta) (externalUrl fileMeta))
                                   linkId "video" (orderOr999 (order fileMeta)) true
                                   (externalUrl fileMeta) (embedUrl fileMeta)
                                   (videoType fileMeta)),
                    individualFiles)
                 else (groups, individualFiles ++ [item])
             | None => (groups, individualFiles ++ [item])
             end
           else acc
       | None => acc
       end)
    (keys metadata) ([], []).

(** What [collectFiles] gives where no push throws. *)
Definition collectedFiles (t : string) (metadata : Metadata) (mediaFiles : list string)
    (acc : list (string * Group) * list Item) : list (string * Group) * list Item :=
  fold_left
    (fun (acc : list (string * Group) * list Item) file =>
       let (groups, individualFiles) := acc in
       let fileMeta := get metadata file in
       let individual :=
         mkItem file (Some ("/uploads/" ++ file)%string) file
                (orElse (match fileMeta with Some r => category r | None => None end) "fun")
                (orElse (match fileMeta with Some r => description r | None => None end) "")
                (orElse (match fileMeta with Some r => uploadDate r | None => None end) t)
                (orElse (match fileMeta with Some r => type r | None => None end) "image")
                false [] false None None None None None in
       match fileMeta with
       | Some r =>
           match groupId r with
           | Some g =>
               if truthy (groupId r) then
                 (pushed groups g r t
                    (mkGroupFile file (Some ("/uploads/" ++ file)%string) file
                                 (orElse (type r) "image") (orderOr999 (order r))
                                 false None None None),
                  individualFiles)
               else (groups, individualFiles ++ [individual])
           | None => (groups, individualFiles ++ [individual])
           end
       | None => (groups, individualFiles ++ [individual])
       end)
    mediaFiles acc.

(** [group.files.sort(...)] of lines 1527-1532. *)
Definition sortGroupFiles (files : list GroupFile) : list GroupFile :=
  sort (fun a b => compareOrderId (gf_order a) (gf_id a) (gf_order b) (gf_id b)) files.

(** Lines 1534-1555 on the sorted files: [None] where the source would
    read a property of [undefined]. *)
Definition resolveTitle (metadata : Metadata) (files : list GroupFile) : option TitleImage :=
  let titleImageId :=
    match findTitleImageId metadata (map gf_id files) with
    | Some t => Some t
    | None => match files with f :: _ => Some (gf_id f) | [] => None end
    end in
  let titleFile :=
    match find (fun f => match titleImageId with
                         | Some t => (gf_id f =? t)%string
                         | None => false
                         end) files with
    | Some f => Some f
    | None => hd_error files
    end in
  match titleFile with
  | Some f => Some (mkTitleImage (gf_id f) (gf_url f) (gf_filename f))
  | None => None
  end.

(** Lines 1525-1556: sort each group and find its title image. *)
Definition finishGroup (metadata : Metadata) (group : Group) : JS Group :=
  let files := sortGroupFiles (g_files group) in
  match resolveTitle metadata files with
  | Some ti =>
      ret (mkGroup (g_id group) files (g_category group) (g_description group)
                   (g_uploadDate group) (Some ti))
  | None => throw "TypeError"
  end.

Definition groupItem (group : Group) : JS Item :=
  match g_titleImage group with
  | Some ti =>
      ret (mkItem (g_id group) (ti_url ti) (ti_filename ti) (g_category group)
                  (g_description group) (g_uploadDate group) "group" true
                  (g_files group) false None None None None None)
  | None => throw "TypeError"
  end.

(** The groups of the listing, sorted and titled, before they are turned
    into items. *)
Definition assembleGroups : JS (list Group * list Item) :=
  metadata <- loadMetadata ;;
  files <- readdirUploads ;;
  let mediaFiles := filter isMedia files in
  t <- now ;;
  match collectLinks t metadata with
  | None => throw "TypeError"
  | Some links =>
      match collectFiles t metadata mediaFiles links with
      | None => throw "TypeError"
      | Some (groups, individualFiles) =>
          groups' <- forEach (objectValues groups)
                       (fun group (done : list Group) =>
                          g <- finishGroup metadata group ;; ret (done ++ [g])) [] ;;
          ret (groups', individualFiles)
      end
  end.

Definition getImages : JS (Response (list Item)) :=
  tryCatch
    (r <- assembleGroups ;;
     groupItems <- forEach (fst r)
                     (fun group (done : list Item) =>
                        i <- groupItem group ;; ret (done ++ [i])) [] ;;
     let allItems :=
       sort (fun a b => localeCompare (i_uploadDate b) (i_uploadDate a))
            (snd r ++ groupItems) in
     ret (Ok allItems))
    (fun _ => ret (Error 500 "Failed to load images")).

(* ----------------------------------------------------------------- *)
(** *** GET /api/groups/:groupId *)

(** Lines 1678-1692. *)
Definition detailFiles (metadata : Metadata) (files : list string) (groupId : string)
  : list DetailFile :=
  flat_map
    (fun file =>
       match get metadata file with
       | Some fileMeta =>
           if groupIs (Some fileMeta) groupId && isMedia file
           then [mkDetailFile file (Some ("/uploads/" ++ file)%string) file
                              (orElse (type fileMeta) "image") false None None None]
           else []
       | None => []
       end)
    files.

(** Lines 1695-1709. *)
Definition detailLinks (metadata : Metadata) (groupId : string) : list DetailFile :=
  flat_map
    (fun linkId =>
       match get metadata linkId with
       | Some fileMeta =>
           if isExternal fileMeta && groupIs (Some fileMeta) groupId
           then [mkDetailFile linkId (orOpt (embedUrl fileMeta) (externalUrl fileMeta))
                              linkId "video" true (externalUrl fileMeta)
                              (embedUrl fileMeta) (videoType fileMeta)]
           else []
       | None => []
       end)
    (keys metadata).

(** [metaA?.order !== undefined ? metaA.order : 999] *)
Definition orderIn (metadata : Metadata) (id : string) : Z :=
  match get metadata id with
  | Some meta => orderOr999 (order meta)
  | None => 999%Z
  end.

Definition sortDetailFiles (metadata : Metadata) (groupFiles : list DetailFile)
  : list DetailFile :=
  sort (fun a b => compareOrderId (orderIn metadata (df_id a)) (df_id a)
                                  (orderIn metadata (df_id b)) (df_id b))
       groupFiles.

(** Lines 1741-1744. *)
Definition markTitle (titleImageId : option string) (groupFiles : list DetailFile)
  : list (DetailFile * bool) :=
  map (fun file =>
         (file,
          match titleImageId with
          | Some t => (df_id file =? t)%string
          | None => match groupFiles with
                    | first :: _ => (df_id file =? df_id first)%string
                    | [] => false
                    end
          end))
      groupFiles.

Definition getGroupDetail (groupId : string) : JS (Response GroupDetail) :=
  tryCatch
    (metadata <- loadMetadata ;;
     files <- readdirUploads ;;
     let groupFiles := detailFiles metadata files groupId ++ detailLinks metadata groupId in
     match groupFiles with
     | [] => ret (Error 404 "Group not found")
     | firstFile :: _ =>
         let fileMeta := get metadata (df_id firstFile) in
         (* Find the title image ID from any file in the group *)
         let titleImageId := findTitleImageId metadata (map df_id groupFiles) in
         (* Sort files by order if available *)
         let sorted := sortDetailFiles metadata groupFiles in
         let filesWithTitle := markTitle titleImageId sorted in
         t <- now ;;
         ret (Ok (mkGroupDetail groupId filesWithTitle
                    (orElse (match fileMeta with Some r => category r | None => None end) "fun")
                    (orElse (match fileMeta with Some r => description r | None => None end) "")
                    (orElse (match fileMeta with Some r => uploadDate r | None => None end) t)))
     end)
    (fun _ => ret (Error 500 "Failed to load group")).

(* ----------------------------------------------------------------- *)
(** *** GET /api/groups/:groupId/download *)

Definition zipFiles (metadata : Metadata) (files : list string) (groupId : string)
  : list ZipItem :=
  flat_map
    (fun file =>
       match get metadata file with
       | Some fileMeta =>
           if groupIs (Some fileMeta) groupId && isMedia file
           then [mkZipItem file (Some ("uploads/" ++ file)%string) (Some file) None None
                           (orderOr999 (order fileMeta))]
           else []
       | None => []
       end)
    files.

Definition zipLinks (metadata : Metadata) (groupId : string) : list ZipItem :=
  flat_map
    (fun linkId =>
       match get metadata linkId with
       | Some fileMeta =>
           if isExternal fileMeta && groupIs (Some fileMeta) groupId
           then [mkZipItem linkId None None (externalUrl fileMeta) (embedUrl fileMeta)
                           (orderOr999 (order fileMeta))]
           else []
       | None => []
       end)
    (keys metadata).

(** The download up to the sorted [allItems], which the archive then
    numbers in that order. *)
Definition getGroupDownload (groupId : string) : JS (Response (list ZipItem)) :=
  tryCatch
    (metadata <- loadMetadata ;;
     files <- readdirUploads ;;
     let groupFiles := zipFiles metadata files groupId in
     let externalLinks := zipLinks metadata groupId in
     if ((List.length groupFiles =? 0)%nat && (List.length externalLinks =? 0)%nat)%bool
     then ret (Error 404 "Group not found")
     else
       let allItems :=
         sort (fun a b => compareOrderId (zi_order a) (zi_id a) (zi_order b) (zi_id b))
              (groupFiles ++ externalLinks) in
       ret (Ok allItems))
    (fun _ => ret (Error 500 "Failed to create zip file")).

End Collation.

(* ================================================================= *)
(** ** Ingestion (server.js, POST /api/upload and POST /api/upload-link) *)

(** [req.file] as multer leaves it: the file is already stored in the
    uploads directory under [filename] when the handler runs. *)
Record UploadedFile : Type := mkUploadedFile {
  filename : string;
  originalname : string;
  mimetype : string
}.

Record UploadRequest : Type := mkUploadRequest {
  req_file : option UploadedFile;
  req_category : option string;
  req_description : option string;
  req_groupId : option string
}.

Record LinkRequest : Type := mkLinkRequest {
  lr_url : option string;
  lr_category : option string;
  lr_description : option string;
  lr_groupId : option string
}.

(** The JSON answer of both ingestion routes: the id and the record. *)
Record Created : Type := mkCreated {
  c_id : string;
  c_url : string;
  c_filename : string;
  c_meta : FileMeta
}.

(** The loop of lines 1623-1632 (and 2101-2108): the largest order among
    the entries of the uploads directory that the metadata puts in the
    group, plus one. *)
Definition nextOrder (metadata : Metadata) (files : list string) (groupId : string) : Z :=
  let maxOrder :=
    fold_left
      (fun maxOrder file =>
         match get metadata file with
         | Some fileMeta =>
             if groupIs (Some fileMeta) groupId then
               match order fileMeta with
               | Some o => Z.max maxOrder o
               | None => maxOrder
               end
             else maxOrder
         | None => maxOrder
         end)
      files (-1)%Z in
  (maxOrder + 1)%Z.

(** Lines 1617-1635 and 2097-2111, the same text twice: the order of a new
    item from its original name and its group. *)
Definition deriveOrder (originalFilename : string) (groupId : option string) : JS Z :=
  match extractOrderFromFilename originalFilename with
  | Some order => ret order
  | None =>
      match groupId with
      | Some g =>
          if truthy groupId then
            metadata <- loadMetadata ;;
            files <- readdirUploads ;;
            ret (nextOrder metadata files g)
          else ret 999%Z
      | None => ret 999%Z
      end
  end.

Definition postUpload (req : UploadRequest) : JS (Response Created) :=
  match req_file req with
  | None => ret (Error 400 "No file provided")
  | Some file =>
      let category := orElse (req_category req) "fun" in
      let description := orElse (req_description req) "" in
      let filename := filename file in
      uploadDate <- now ;;
      let groupId := if truthy (req_groupId req) then req_groupId req else None in
      let fileType := if startsWith "video/" (mimetype file) then "video" else "image" in
      order <- deriveOrder (originalname file) groupId ;;
      metadata <- loadMetadata ;;
      let record :=
        mkMeta (Some category) (Some description) (Some uploadDate) (Some fileType)
               groupId (Some order) false None None None None in
      let metadata := set metadata filename record in
      saveMetadata metadata ;;
      (if (List.length (keys metadata) mod 5 =? 0)%nat then
         console_log "Creating automatic backup..." ;;
         createBackup ;; ret tt
       else ret tt) ;;
      ret (Ok (mkCreated filename ("/uploads/" ++ filename)%string filename record))
  end.

(** [a[1]?.split(sep)[0]] *)
Definition secondThenFirst (parts : list string) (sep : string) : option string :=
  match nth_error parts 1 with
  | Some s => hd_error (split sep s)
  | None => None
  end.

(** Lines 2060-2090: the kind of the link and its embeddable URL. *)
Definition classifyUrl (url : string) : string * string :=
  if includes "youtube.com" url || includes "youtu.be" url then
    let videoId :=
      if includes "youtube.com/watch?v=" url then secondThenFirst (split "v=" url) "&"
      else if includes "youtu.be/" url then secondThenFirst (split "youtu.be/" url) "?"
      else None in
    ("youtube",
     if truthy videoId then ("https://www.youtube.com/embed/" ++ orElse videoId "")%string
     else url)
  else if includes "drive.google.com" url then
    let fileId :=
      if includes "/file/d/" url then secondThenFirst (split "/file/d/" url) "/"
      else None in
    ("googledrive",
     if truthy fileId
     then ("https://drive.google.com/file/d/" ++ orElse fileId "" ++ "/preview")%string
     else url)
  else ("unknown", url).

Definition postUploadLink (req : LinkRequest) : JS (Response Created) :=
  tryCatch
    (match lr_url req with
     | None => ret (Error 400 "URL is required")
     | Some url =>
         if (url =? "")%string then ret (Error 400 "URL is required")
         else
           let (videoType, embedUrl) := classifyUrl url in
           uploadDate <- now ;;
           suffix <- (fun w => (Ret (uniqueSuffix w), w)) ;;
           let linkId := ("link-" ++ suffix)%string in
           let originalFilename := url in
           order <- deriveOrder originalFilename (lr_groupId req) ;;
           metadata <- loadMetadata ;;
           let record :=
             mkMeta (Some (orElse (lr_category req) "fun"))
                    (Some (orElse (lr_description req) ""))
                    (Some uploadDate) (Some "video") (lr_groupId req) (Some order)
                    true (Some url) (Some embedUrl) (Some videoType) None in
           saveMetadata (set metadata linkId record) ;;
           ret (Ok (mkCreated linkId embedUrl linkId record))
     end)
    (fun _ => ret (Error 500 "Failed to save link")).

(* ================================================================= *)
(** ** Group title and order (server.js, PUT /api/groups/:groupId/...) *)

Definition putGroupTitle (groupId : string) (titleImageId : option string)
  : JS (Response string) :=
  tryCatch
    (match titleImageId with
     | None => ret (Error 400 "Title image ID required")
     | Some t =>
         if (t =? "")%string then ret (Error 400 "Title image ID required")
         else
           metadata <- loadMetadata ;;
           onDisk <- existsUpload t ;;
           let fileMeta := get metadata t in
           if startsWith "link-" t
              && negb (isExternalOpt fileMeta && groupIs fileMeta groupId)
           then ret (Error 404 "Link not found or does not belong to group")
           else if negb (startsWith "link-" t) && negb onDisk
           then ret (Error 404 "File not found")
           else if negb (groupIs fileMeta groupId)
           then ret (Error 400 "File/Link does not belong to this group")
           else
             files <- readdirUploads ;;
             let md1 :=
               fold_left
                 (fun md file =>
                    match get md file with
                    | Some meta =>
                        if groupIs (Some meta) groupId
                        then set md file (withTitleImageId meta t)
                        else md
                    | None => md
                    end)
                 files metadata in
             let md2 :=
               fold_left
                 (fun md linkId =>
                    match get md linkId with
                    | Some meta =>
                        if isExternal meta && groupIs (Some meta) groupId
                        then set md linkId (withTitleImageId meta t)
                        else md
                    | None => md
                    end)
                 (keys md1) md1 in
             saveMetadata md2 ;;
             ret (Ok t)
     end)
    (fun _ => ret (Error 500 "Failed to update title image")).

(** Lines 1828-1836: the entries of the uploads directory. *)
Definition reorderFiles (groupId : string) (fileOrder files : list string)
    (metadata : Metadata) : Metadata :=
  fold_left
    (fun md file =>
       match get md file with
       | Some meta =>
           if groupIs (Some meta) groupId then
             match indexOf fileOrder file with
             | Some orderIndex => set md file (withOrder meta (Z.of_nat orderIndex))
             | None => md
             end
           else md
       | None => md
       end)
    files metadata.

(** Lines 1839-1847: the external links. *)
Definition reorderLinks (groupId : string) (fileOrder : list string)
    (metadata : Metadata) : Metadata :=
  fold_left
    (fun md linkId =>
       match get md linkId with
       | Some meta =>
           if isExternal meta && groupIs (Some meta) groupId then
             match indexOf fileOrder linkId with
             | Some orderIndex => set md linkId (withOrder meta (Z.of_nat orderIndex))
             | None => md
             end
           else md
       | None => md
       end)
    (keys metadata) metadata.

(** [fileOrder] is [None] when the body does not hold an array. *)
Definition putGroupOrder (groupId : string) (fileOrder : option (list string))
  : JS (Response unit) :=
  tryCatch
    (match fileOrder with
     | None => ret (Error 400 "File order must be an array")
     | Some fileOrder =>
         metadata <- loadMetadata ;;
         files <- readdirUploads ;;
         let metadata := reorderFiles groupId fileOrder files metadata in
         let metadata := reorderLinks groupId fileOrder metadata in
         saveMetadata metadata ;;
         ret (Ok tt)
     end)
    (fun _ => ret (Error 500 "Failed to update order")).

(* ================================================================= *)
(** ** Deletion (server.js, DELETE /api/images/:id) *)

Inductive Deleted : Type :=
  | GroupDeleted (deletedCount : nat)
  | LinkDeleted
  | FileDeleted.

(** Lines 1959-1969: unlink the group's files and drop their records. *)
Definition deleteGroupFiles (groupId : string) (files : list string)
    (st : Metadata * nat) : JS (Metadata * nat) :=
  forEach files
    (fun file (st : Metadata * nat) =>
       let (md, deletedCount) := st in
       if groupIs (get md file) groupId then
         ex <- existsUpload file ;;
         if ex : bool then
           unlinkUpload file ;;
           ret (delete md file, S deletedCount)
         else ret (md, deletedCount)
       else ret (md, deletedCount))
    st.

(** Lines 1972-1978: drop the records of the group's external links. *)
Definition deleteGroupLinks (groupId : string) (st : Metadata * nat) : Metadata * nat :=
  fold_left
    (fun (st : Metadata * nat) linkId =>
       let (md, deletedCount) := st in
       let fileMeta := get md linkId in
       if isExternalOpt fileMeta && groupIs fileMeta groupId
       then (delete md linkId, S deletedCount)
       else (md, deletedCount))
    (keys (fst st)) st.

Definition deleteImage (itemId : string) : JS (Response Deleted) :=
  tryCatch
    (metadata <- loadMetadata ;;
     if startsWith "group-" itemId then
       let groupId := itemId in
       files <- readdirUploads ;;
       st <- deleteGroupFiles groupId files (metadata, O) ;;
       let (metadata, deletedCount) := deleteGroupLinks groupId st in
       saveMetadata metadata ;;
       ret (Ok (GroupDeleted deletedCount))
     else if startsWith "link-" itemId then
       match get metadata itemId with
       | Some _ =>
           saveMetadata (delete metadata itemId) ;;
           ret (Ok LinkDeleted)
       | None => ret (Error 404 "Link not found")
       end
     else
       ex <- existsUpload itemId ;;
       if ex : bool then
         unlinkUpload itemId ;;
         (match get metadata itemId with
          | Some _ => saveMetadata (delete metadata itemId)
          | None => ret tt
          end) ;;
         ret (Ok FileDeleted)
       else ret (Error 404 "File not found"))
    (fun _ => ret (Error 500 "Failed to delete")).

(* ================================================================= *)
(** ** Readings of the state, and what the statements speak about *)

(** The metadata object that [loadMetadata] returns on a disk: the
    primary file when it parses, else the mirror when it parses, else
    the empty object. *)
Definition currentMetadata (d : FS) : Metadata :=
  match primary d with
  | Some (Json m) => m
  | _ => match mirror d with
         | Some (Json b) => b
         | _ => []
         end
  end.

(** The disk that [loadMetadata] leaves: the primary file rewritten from
    the mirror when the fallback was taken and succeeded. *)
Definition diskAfterLoad (d : FS) : FS :=
  match primary d with
  | Some (Json _) => d
  | _ => match mirror d with
         | Some (Json b) =>
             mkFS (mirror d) None (mirror d) (mirrorTmp d) (uploads d) (snapshots d)
         | _ => d
         end
  end.

(** The lines [loadMetadata] prints. *)
Definition linesOfLoad (d : FS) : list LogLine :=
  match primary d with
  | Some (Json _) => []
  | p =>
      match p with
      | Some _ => [mkLog WARN "Could not load primary metadata, trying backup:"
                         (StrArg "SyntaxError")]
      | None => []
      end ++
      match mirror d with
      | Some (Json _) => [mkLog LOG "Loading metadata from backup location" NoArg;
                          mkLog LOG "Restored metadata to primary location" NoArg]
      | Some (NotJson _) => [mkLog LOG "Loading metadata from backup location" NoArg;
                             mkLog WARN "Could not load backup metadata:"
                                   (StrArg "SyntaxError")]
      | None => []
      end
  end.

(** The disk that [saveMetadata metadata] leaves. *)
Definition diskAfterSave (metadata : Metadata) (d : FS) : FS :=
  mkFS (Some (Json metadata)) None (Some (Json metadata)) None (uploads d) (snapshots d).

Definition savedLine : LogLine := mkLog LOG "Metadata saved successfully" NoArg.
Definition syncedLine : LogLine := mkLog LOG "Metadata synced successfully" NoArg.
Definition inSyncLine : LogLine := mkLog LOG "Metadata is already in sync" NoArg.

(** [c] run in [w] returns, and [Q] holds of its result and final world. *)
Definition wp {A : Type} (c : JS A) (Q : A -> World -> Prop) (w : World) : Prop :=
  match c w with
  | (Ret a, w') => Q a w'
  | (Throw _, _) => False
  end.

(** [w'] is [w] with another disk and [lines] more on the console. *)
Definition emits (w w' : World) (lines : list LogLine) : Prop :=
  clock w' = clock w /\ uniqueSuffix w' = uniqueSuffix w /\
  console w' = console w ++ lines.

(** [c] never leaves the relation [R], whether it returns or throws. *)
Definition preserves {A : Type} (R : World -> World -> Prop) (c : JS A) : Prop :=
  forall w, R w (snd (c w)).

(** The metadata files and the uploads directory are the same. *)
Definition sameStore (w w' : World) : Prop :=
  primary (disk w') = primary (disk w) /\
  primaryTmp (disk w') = primaryTmp (disk w) /\
  mirror (disk w') = mirror (disk w) /\
  mirrorTmp (disk w') = mirrorTmp (disk w) /\
  uploads (disk w') = uploads (disk w).

(** What a step leaves of the world for the steps that follow: the
    metadata a load returns, the directories, the clock. *)
Definition sameView (w w' : World) : Prop :=
  currentMetadata (disk w') = currentMetadata (disk w) /\
  uploads (disk w') = uploads (disk w) /\
  snapshots (disk w') = snapshots (disk w) /\
  clock w' = clock w /\ uniqueSuffix w' = uniqueSuffix w.

(** The names of the media files of the uploads directory. *)
Definition mediaOnDisk (d : FS) : list string := filter isMedia (names (uploads d)).

(** A name without a slash, as the entries of a directory are. *)
Definition slashFree (f : string) : bool := forallb Path.notSlash (chars f).

(** A name that is a single path component: joined to a directory it
    names an entry of that directory, and nothing outside it. *)
Definition plainName (name : string) : bool :=
  negb (name =? "")%string && negb (name =? ".")%string && negb (name =? "..")%string
  && slashFree name.

(** The entries of the backups directory that are no snapshot
    directories: the mirror metadata file and its temporary file. *)
Definition mirrorName (name : string) : bool :=
  (name =? "image-metadata.json")%string || (name =? "image-metadata.json.tmp")%string.

(** The modification time [statSync] reports for an upload. *)
Definition mtimeOf (d : FS) (name : string) : string :=
  match findFile (uploads d) name with
  | Some f => mtime f
  | None => ""
  end.

(* ----------------------------------------------------------------- *)
(** *** Orderings *)

(** [a] may stand before [b] under the comparator [cmp]. *)
Definition cmpLe {A : Type} (cmp : A -> A -> Z) (a b : A) : Prop := (cmp a b <= 0)%Z.

(** The pair (order, id) of one member is not after that of another:
    a smaller order, or the same order and an id that the collation does
    not put after. *)
Definition pairLe (localeCompare : string -> string -> Z)
    (oa : Z) (ida : string) (ob : Z) (idb : string) : Prop :=
  (oa < ob)%Z \/ (oa = ob /\ (localeCompare ida idb <= 0)%Z).

(** What [Array.prototype.sort] asks of a comparator of strings. *)
Definition ConsistentCollation (localeCompare : string -> string -> Z) : Prop :=
  (forall a b, (localeCompare a b <= 0)%Z \/ (localeCompare b a <= 0)%Z) /\
  (forall a b c, (localeCompare a b <= 0)%Z -> (localeCompare b c <= 0)%Z ->
                 (localeCompare a c <= 0)%Z).

(** A collation of the kind [localeCompare] has under ICU: strings are
    compared without regard to the case of their letters first, and two
    that differ in case only have the lower-case letter first. *)
Definition caseBlindCompare (a b : string) : Z :=
  let primary := codeUnitCompare (toLowerCase a) (toLowerCase b) in
  if (primary =? 0)%Z then codeUnitCompare b a else primary.

(** The order an entry of a member list carries is the order of the
    member's metadata record, 999 when the record has none. *)
Definition orderFromMetadata (m : Metadata) (f : GroupFile) : Prop :=
  gf_order f = orderIn m (gf_id f).

(** A group under construction: it has a member, and its members carry
    the orders of their records. *)
Definition GroupOpen (m : Metadata) (grp : Group) : Prop :=
  g_files grp <> [] /\ Forall (orderFromMetadata m) (g_files grp).

(** A group of the listing once sorted and titled. *)
Definition GroupDone (localeCompare : string -> string -> Z) (m : Metadata)
    (grp : Group) : Prop :=
  g_files grp <> [] /\
  Forall (orderFromMetadata m) (g_files grp) /\
  StronglySorted
    (fun a b => pairLe localeCompare (gf_order a) (gf_id a) (gf_order b) (gf_id b))
    (g_files grp) /\
  g_titleImage grp = resolveTitle m (g_files grp).

(* ----------------------------------------------------------------- *)
(** *** File names and their first run of digits *)

(** [ds] is the first run of digits of [l]: no digit before it, digits
    only and at least one in it, no digit right after it. *)
Definition FirstDigitRun (l ds : list ascii) : Prop :=
  exists pre post,
    l = pre ++ ds ++ post /\
    Forall (fun c => isDigit c = false) pre /\
    ds <> [] /\
    Forall (fun c => isDigit c = true) ds /\
    match post with [] => True | c :: _ => isDigit c = false end.

(** The number a string of decimal digits denotes. *)
Fixpoint decimal (ds : list ascii) : Z :=
  match ds with
  | [] => 0%Z
  | c :: r => (digitVal c * 10 ^ Z.of_nat (List.length r) + decimal r)%Z
  end.

(* ----------------------------------------------------------------- *)
(** *** The members of a group and their orders, as the specification
        counts them *)

(** The orders of all members of a group: the stored files of the uploads
    directory and the external links that the metadata puts in the group. *)
Definition memberOrders (metadata : Metadata) (files : list string) (g : string) : list Z :=
  flat_map (fun file =>
              match get metadata file with
              | Some r => if groupIs (Some r) g
                          then match order r with Some o => [o] | None => [] end
                          else []
              | None => []
              end) files ++
  flat_map (fun kv =>
              if isExternal (snd kv) && groupIs (Some (snd kv)) g
              then match order (snd kv) with Some o => [o] | None => [] end
              else []) metadata.

(** One more than the largest order among all members, 0 for none. *)
Definition nextOrderOverMembers (metadata : Metadata) (files : list string) (g : string) : Z :=
  (fold_left Z.max (memberOrders metadata files g) (-1) + 1)%Z.

(** The order [deriveOrder] computes on a disk. *)
Definition derivedOrder (d : FS) (name : string) (groupId : option string) : Z :=
  match extractOrderFromFilename name with
  | Some o => o
  | None =>
      match groupId with
      | Some g => if truthy groupId
                  then nextOrder (currentMetadata d) (names (uploads d)) g
                  else 999%Z
      | None => 999%Z
      end
  end.

(** The record [postUpload] writes for a request. *)
Definition uploadedRecord (clockNow : string) (file : UploadedFile)
    (cat desc groupId : option string) (o : Z) : FileMeta :=
  mkMeta (Some (orElse cat "fun")) (Some (orElse desc "")) (Some clockNow)
         (Some (if startsWith "video/" (mimetype file) then "video" else "image"))
         (if truthy groupId then groupId else None) (Some o)
         false None None None None.

(** The record [postUploadLink] writes for a request. *)
Definition linkedRecord (clockNow url : string) (cat desc groupId : option string)
    (o : Z) : FileMeta :=
  mkMeta (Some (orElse cat "fun")) (Some (orElse desc "")) (Some clockNow)
         (Some "video") groupId (Some o) true (Some url)
         (Some (snd (classifyUrl url))) (Some (fst (classifyUrl url))) None.

(* ----------------------------------------------------------------- *)
(** *** Reordering and deleting, record by record *)

(** The body of both loops of the reorder, for the test [cond] on the
    record that selects the members the loop is about. *)
Definition reorderStep (cond : FileMeta -> bool) (fileOrder : list string)
    (md : Metadata) (id : string) : Metadata :=
  match get md id with
  | Some meta =>
      if cond meta then
        match indexOf fileOrder id with
        | Some orderIndex => set md id (withOrder meta (Z.of_nat orderIndex))
        | None => md
        end
      else md
  | None => md
  end.

(** One record as a loop of the reorder leaves it. *)
Definition reordered (cond : FileMeta -> bool) (fileOrder : list string)
    (id : string) (r : FileMeta) : FileMeta :=
  if cond r then
    match indexOf fileOrder id with
    | Some i => withOrder r (Z.of_nat i)
    | None => r
    end
  else r.

(** A loop that deletes the keys whose current record passes a test. *)
Definition deleteStep (cond : string -> option FileMeta -> bool)
    (md : Metadata) (key : string) : Metadata :=
  if cond key (get md key) then delete md key else md.

(** The stored files of a group: the entries of the uploads directory
    whose record carries the group id. *)
Definition storedMember (m : Metadata) (files : list string) (g id : string) : Prop :=
  In id files /\ groupIs (get m id) g = true.

(** The external links of a group. *)
Definition linkMember (m : Metadata) (g id : string) : Prop :=
  isExternalOpt (get m id) = true /\ groupIs (get m id) g = true.

(* ----------------------------------------------------------------- *)
(** *** Start-up reconciliation, step by step *)

(** The snapshot directory that [restoreIfEmpty] picks: the last of the
    sorted names that start with [backup-]. *)
Definition latestSnapshot (d : FS) : option string :=
  hd_error (rev (sort codeUnitCompare
                      (filter (startsWith "backup-") (map fst (snapshots d))))).

(** The uploads directory after the files of a snapshot were copied in
    at time [t]. *)
Definition restoredUploads (t : string) (files u : list DiskFile) : list DiskFile :=
  fold_left (fun u f => upsertFile u (mkFile (fname f) t (bytes f))) files u.

(** The disk after [restoreFromBackup] of the snapshot [s] at time [t]. *)
Definition diskAfterRestore (t : string) (s : Snapshot) (d : FS) : FS :=
  mkFS (match snapMetadata s with Some c => Some c | None => primary d end)
       (primaryTmp d) (mirror d) (mirrorTmp d)
       (match snapUploads s with
        | Some files => restoredUploads t files (uploads d)
        | None => uploads d
        end)
       (snapshots d).

(** The snapshot that a run of the reconciliation restores, if any. *)
Definition snapshotToRestore (d : FS) : option Snapshot :=
  match mediaOnDisk d with
  | [] => match latestSnapshot d with
          | Some b0 => getSnapshot (snapshots d) b0
          | None => None
          end
  | _ :: _ => None
  end.

Definition diskAfterRestoreIfEmpty (t : string) (d : FS) : FS :=
  match snapshotToRestore d with
  | Some s => diskAfterRestore t s d
  | None => d
  end.

(** The disk after [checkStoragePersistence] at time [t]. *)
Definition diskAfterMarker (t : string) (d : FS) : FS :=
  setUploads d (upsertFile (uploads d) (mkFile ".persistence-marker" t t)).

(** The test of the first loop of the reconciliation. *)
Definition isOrphan (fileSet : list string) (key : string) (meta : option FileMeta) : bool :=
  negb (isExternalOpt meta) && negb (has fileSet key).

(** The two loops of the reconciliation without their console lines. *)
Definition pruneStep (fileSet : list string) (st : Metadata * bool) (key : string)
  : Metadata * bool :=
  let (md, updated) := st in
  if isOrphan fileSet key (get md key) then (delete md key, true) else (md, updated).

Definition completeStep (d : FS) (st : Metadata * bool) (file : string) : Metadata * bool :=
  let (md, updated) := st in
  match get md file with
  | Some _ => (md, updated)
  | None => (set md file (defaultRecord file (mtimeOf d file)), true)
  end.

(** The metadata object and the [updated] flag at the end of the loops. *)
Definition reconciled (d : FS) : Metadata * bool :=
  let fileSet := dedupe [] (mediaOnDisk d) in
  fold_left (completeStep d) fileSet
            (fold_left (pruneStep fileSet) (keys (currentMetadata d))
                       (currentMetadata d, false)).

Definition diskAfterReconcile (d : FS) : FS :=
  if snd (reconciled d)
  then diskAfterSave (fst (reconciled d)) (diskAfterLoad d)
  else diskAfterLoad d.

Definition diskAfterSync (t : string) (d : FS) : FS :=
  diskAfterReconcile (diskAfterMarker t (diskAfterRestoreIfEmpty t d)).

(** The primary metadata file after a load, from the two files before. *)
Definition loadedPrimary (p mi : option content) : option content :=
  match p with
  | Some (Json _) => p
  | _ => match mi with
         | Some (Json _) => mi
         | _ => p
         end
  end.

(** The metadata a load returns, from the two files. *)
Definition currentOf (p mi : option content) : Metadata :=
  match p with
  | Some (Json m) => m
  | _ => match mi with
         | Some (Json b) => b
         | _ => []
         end
  end.

(** No line of [lines] reports a save. *)
Definition quiet (lines : list LogLine) : Prop :=
  Forall (fun l => text l <> "Metadata saved successfully" /\
                   text l <> "Metadata synced successfully") lines.

(** [w'] is [w] with more lines on the console, none of which reports
    a save. *)
Definition logsQuietly (w w' : World) : Prop :=
  exists lines, emits w w' lines /\ quiet lines.

(** A later moment of the same machine: the console and the disk as they
    are, another clock and another source of unique suffixes. *)
Definition later (w : World) (t u : string) : World :=
  mkWorld (disk w) (console w) t u.

(* ----------------------------------------------------------------- *)
(** *** Scenarios *)

Definition emptyDisk : FS := mkFS None None None None [] [].

Definition emptyWorld : World :=
  mkWorld emptyDisk [] "2024-02-01T00:00:00.000Z" "1706745600000-123456789".

Definition youtuBeRequest : LinkRequest :=
  mkLinkRequest (Some "https://youtu.be/abc123") None None None.

Definition linkRecord (g : option string) (o : Z) : FileMeta :=
  mkMeta (Some "fun") (Some "") (Some "2024-01-01T00:00:00.000Z") (Some "video")
         g (Some o) true (Some "https://example.org/v") (Some "https://example.org/v")
         (Some "unknown") None.

Definition fileRecord (g : option string) (o : Z) (t : option string) : FileMeta :=
  mkMeta (Some "fun") (Some "") (Some "2024-01-01T00:00:00.000Z") (Some "image")
         g (Some o) false None None None t.

Definition diskOf (m : Metadata) (u : list DiskFile) (s : list (string * Snapshot)) : FS :=
  mkFS (Some (Json m)) None (Some (Json m)) None u s.

Definition worldOf (d : FS) : World :=
  mkWorld d [] "2024-02-01T00:00:00.000Z" "1706745600000-123456789".

Definition stored (name : string) : DiskFile :=
  mkFile name "2024-01-02T00:00:00.000Z" "...".

(** A group whose only member is an external link of order 5; the file
    [1706745600000-1.jpg] has just been stored by multer. *)
Definition linkOnlyGroupWorld : World :=
  worldOf (diskOf [("link-1700000000000-1", linkRecord (Some "group-1") 5)]
                  [stored "1706745600000-1.jpg"] []).

Definition photoIntoGroup : UploadRequest :=
  mkUploadRequest (Some (mkUploadedFile "1706745600000-1.jpg" "photo.jpg" "image/jpeg"))
                  None None (Some "group-1").

(** A group with two stored files (orders 3 and 7) and an external link
    (order 20); the file [1706745600000-9.jpg] has just been stored. *)
Definition mixedGroupWorld : World :=
  worldOf (diskOf [("1700000000000-1.jpg", fileRecord (Some "group-1") 3 None);
                   ("1700000000000-2.jpg", fileRecord (Some "group-1") 7 None);
                   ("link-1700000000000-3", linkRecord (Some "group-1") 20)]
                  [stored "1700000000000-1.jpg"; stored "1700000000000-2.jpg";
                   stored "1706745600000-9.jpg"] []).

(** A group of three stored files, two of them with the same order. *)
Definition tiedGroupWorld : World :=
  worldOf (diskOf [("B.jpg", fileRecord (Some "group-1") 1 None);
                   ("a.jpg", fileRecord (Some "group-1") 1 None);
                   ("c.jpg", fileRecord (Some "group-1") 0 None)]
                  [stored "B.jpg"; stored "a.jpg"; stored "c.jpg"] []).

(** A group of three stored files, none of them chosen as title yet. *)
Definition threeFileGroupWorld : World :=
  worldOf (diskOf [("a.jpg", fileRecord (Some "group-1") 0 None);
                   ("b.jpg", fileRecord (Some "group-1") 1 None);
                   ("t.jpg", fileRecord (Some "group-1") 2 None)]
                  [stored "a.jpg"; stored "b.jpg"; stored "t.jpg"] []).

(** The same group after [t.jpg] was made its title image and then
    deleted on its own. *)
Definition titleDeletedWorld : World :=
  snd (deleteImage "t.jpg" (snd (putGroupTitle "group-1" (Some "t.jpg") threeFileGroupWorld))).

(** The uploads directory is empty; the only snapshot holds a metadata
    file that still lists [a.jpg], and no file. *)
Definition staleSnapshotWorld : World :=
  worldOf (diskOf [("a.jpg", fileRecord None 999 None)] []
                  [("backup-2024-01-01T00-00-00-000Z",
                    mkSnapshot (Some (Json [("a.jpg", fileRecord None 999 None)]))
                               (Some []))]).

(** Two files on disk, one with a record and one without; one record
    without a file; one external link. *)
Definition driftedWorld : World :=
  worldOf (diskOf [("1700000000000-1.jpg", fileRecord None 999 None);
                   ("1700000000000-2.jpg", fileRecord None 999 None);
                   ("link-1700000000000-3", linkRecord None 999)]
                  [stored "1700000000000-1.jpg"; stored "1700000000000-4.MP4";
                   stored "notes.txt"] []).

(* ================================================================= *)
(** ** Upload acceptance and naming (server.js, the multer configuration) *)

(** [storage.filename], lines 1393-1396: the unique suffix and the
    extension of the original name. *)
Definition storageFilename (suffix original : string) : string :=
  (suffix ++ Path.extname original)%string.

(** [/jpeg|jpg|png|gif|webp/.test(ext)]: a pattern without anchors looks
    for one of its alternatives anywhere in the string. *)
Definition allowedImageTypes (ext : string) : bool :=
  existsb (fun t => includes t ext) ["jpeg"; "jpg"; "png"; "gif"; "webp"].

(** [/mp4|webm|ogg|mov|avi/.test(ext)] *)
Definition allowedVideoTypes (ext : string) : bool :=
  existsb (fun t => includes t ext) ["mp4"; "webm"; "ogg"; "mov"; "avi"].

(** [fileFilter], lines 1402-1414: [true] for [cb(null, true)], [false]
    for the error. *)
Definition fileFilter (original mime : string) : bool :=
  let ext := toLowerCase (Path.extname original) in
  let extname := allowedImageTypes ext || allowedVideoTypes ext in
  let mimetype := startsWith "image/" mime || startsWith "video/" mime in
  extname && mimetype.

(** The characters of [Date.now() + '-' + Math.round(Math.random() * 1E9)]. *)
Definition isSuffixChar (c : ascii) : bool := isDigit c || Ascii.eqb c "-"%char.

(* ================================================================= *)
(** ** Backup route (server.js, POST /api/backup) *)

Definition postBackup : JS (Response string) :=
  tryCatch
    (backupName <- createBackup ;;
     if truthy backupName
     then ret (Ok (orElse backupName ""))
     else ret (Error 500 "Failed to create backup"))
    (fun error => ret (Error 500 error)).

(* ----------------------------------------------------------------- *)
(** *** The backup manager in closed form *)

(** The directory name [createBackup] uses at time [t]. *)
Definition backupNameAt (t : string) : string := ("backup-" ++ timestampOf t)%string.

(** The snapshot directory [createBackup] leaves at time [t]: a directory
    of that name that is already there keeps what the run does not
    overwrite. *)
Definition snapshotAfterBackup (t : string) (d : FS) : Snapshot :=
  let s0 := match getSnapshot (snapshots d) (backupNameAt t) with
            | Some s => s
            | None => mkSnapshot None None
            end in
  mkSnapshot (match primary d with Some c => Some c | None => snapMetadata s0 end)
             (Some (restoredUploads t (uploads d)
                      (match snapUploads s0 with Some c => c | None => [] end))).

Definition diskAfterBackup (t : string) (d : FS) : FS :=
  setSnapshots d (putSnapshot (snapshots d) (backupNameAt t) (snapshotAfterBackup t d)).

(* ================================================================= *)
(** ** The title of a group in closed form *)

(** The body of both loops of PUT /api/groups/:groupId/title, for the
    test [cond] on the record that selects the members the loop is about. *)
Definition titleStep (cond : FileMeta -> bool) (t : string)
    (md : Metadata) (id : string) : Metadata :=
  match get md id with
  | Some meta => if cond meta then set md id (withTitleImageId meta t) else md
  | None => md
  end.

(** One record as the two loops leave it: the record of an entry of the
    uploads directory or of an external link that carries the group id
    takes the title; any other record is as it was. *)
Definition titledRecord (g t : string) (files : list string) (id : string)
    (r : FileMeta) : FileMeta :=
  if groupIs (Some r) g && (has files id || isExternal r)
  then withTitleImageId r t else r.

(** The checks of lines 1764-1788 in the order the route makes them:
    [None] when the request passes them all. *)
Definition titleRefusal (m : Metadata) (files : list string) (g : string)
    (titleImageId : option string) : option (nat * string) :=
  match titleImageId with
  | None => Some (400, "Title image ID required")
  | Some t =>
      if (t =? "")%string then Some (400, "Title image ID required")
      else if startsWith "link-" t
              && negb (isExternalOpt (get m t) && groupIs (get m t) g)
      then Some (404, "Link not found or does not belong to group")
      else if negb (startsWith "link-" t) && negb (has files t)
      then Some (404, "File not found")
      else if negb (groupIs (get m t) g)
      then Some (400, "File/Link does not belong to this group")
      else None
  end.

(* ================================================================= *)
(** ** The listing in closed form *)

(** The item GET /api/images makes of an external link (lines 1441-1456). *)
Definition linkItem (t linkId : string) (fileMeta : FileMeta) : Item :=
  mkItem linkId (orOpt (embedUrl fileMeta) (externalUrl fileMeta)) linkId
         (orElse (category fileMeta) "fun")
         (orElse (description fileMeta) "")
         (orElse (uploadDate fileMeta) t)
         (orElse (type fileMeta) "video")
         (truthy (groupId fileMeta)) []
         true (externalUrl fileMeta) (embedUrl fileMeta) (videoType fileMeta)
         (Some (orderOr999 (order fileMeta)))
         (if truthy (groupId fileMeta) then groupId fileMeta else None).

(** The item it makes of a media file outside any group (lines 1511-1520). *)
Definition fileItem (t file : string) (fileMeta : option FileMeta) : Item :=
  mkItem file (Some ("/uploads/" ++ file)%string) file
         (orElse (match fileMeta with Some r => category r | None => None end) "fun")
         (orElse (match fileMeta with Some r => description r | None => None end) "")
         (orElse (match fileMeta with Some r => uploadDate r | None => None end) t)
         (orElse (match fileMeta with Some r => type r | None => None end) "image")
         false [] false None None None None None.

(** [fileMeta?.groupId] as a condition: the record has a group id that is
    not empty. *)
Definition grouped (fileMeta : option FileMeta) : bool :=
  match fileMeta with Some r => truthy (groupId r) | None => false end.

(** The ids the listing puts in the group [g]: the external links of the
    metadata map, in the order of its keys, then the media files of the
    uploads directory, in directory order. *)
Definition listedLinks (m : Metadata) (g : string) : list string :=
  filter (fun k => isExternalOpt (get m k) && grouped (get m k) && groupIs (get m k) g)
         (keys m).

Definition listedFiles (m : Metadata) (mediaFiles : list string) (g : string) : list string :=
  filter (fun f => grouped (get m f) && groupIs (get m f) g) mediaFiles.

Definition listedMembers (m : Metadata) (mediaFiles : list string) (g : string)
  : list string :=
  listedLinks m g ++ listedFiles m mediaFiles g.

(** The group id the listing looks up in its [groups] object for a
    record: [fileMeta.groupId], where that is truthy. *)
Definition lookedUp (fileMeta : option FileMeta) : list string :=
  match fileMeta with
  | Some r =>
      match groupId r with
      | Some g => if truthy (groupId r) then [g] else []
      | None => []
      end
  | None => []
  end.

(** All the group ids it looks up: those of the external links of the
    metadata map, then those of the media files of the uploads directory. *)
Definition listedGroupIds (m : Metadata) (mediaFiles : list string) : list string :=
  flat_map (fun k => if isExternalOpt (get m k) then lookedUp (get m k) else []) (keys m)
  ++ flat_map (fun f => lookedUp (get m f)) mediaFiles.

(** One of them names a property that [groups] inherits. *)
Definition inheritedGroupId (m : Metadata) (mediaFiles : list string) : bool :=
  existsb inherited (listedGroupIds m mediaFiles).

(** The ids of the members of a group of the listing under construction. *)
Definition membersOf (groups : list (string * Group)) (g : string) : list string :=
  match getGroup groups g with
  | Some grp => map gf_id (g_files grp)
  | None => []
  end.

(** The groups of the listing under construction are kept under their
    ids, one entry per id, each with a member, and every member is filed
    under its id. *)
Definition groupsKeyed (groups : list (string * Group)) : Prop :=
  NoDup (map fst groups) /\
  Forall (fun kv => g_id (snd kv) = fst kv /\ g_files (snd kv) <> [] /\
                    Forall (fun f => gf_filename f = gf_id f) (g_files (snd kv)))
         groups.

(* ================================================================= *)
(** ** The zip export (server.js, GET /api/groups/:groupId/download),
       from the sorted items to the entries of the archive *)

From Stdlib Require DecimalString DecimalNat.

(** [`${n}`] for a natural number. *)
Definition decimalString (n : nat) : string :=
  DecimalString.NilEmpty.string_of_uint (Nat.to_uint n).

(** [/[^a-z0-9]/gi] matches every code unit but the ASCII letters and
    digits. *)
Definition isAsciiLetterOrDigit (c : ascii) : bool :=
  isDigit c
  || ((97 <=? code c)%nat && (code c <=? 122)%nat)
  || ((65 <=? code c)%nat && (code c <=? 90)%nat).

(** [description.replace(/[^a-z0-9]/gi, '_').toLowerCase() || 'group'] *)
Definition zipFilename (description : string) : string :=
  orElse (Some (toLowerCase
                  (ofChars (map (fun c => if isAsciiLetterOrDigit c then c else "_"%char)
                                (chars description)))))
         "group".

(** What the route hands to the archiver: a stored file under a name, by
    [archive.file], or a text under a name, by [archive.append]. *)
Record ArchiveEntry : Type := mkEntry {
  ae_name : string;
  ae_path : option string;
  ae_text : option string
}.

Definition newline : string := String (ascii_of_nat 10) EmptyString.

(** Lines 1923-1937: the calls of [archive.file] and [archive.append] in
    the order the loop makes them; [fileIndex] is its counter. [None]
    where [path.extname] would be given an item without a file name. The
    order in which the archiver writes the entries into the zip is its
    own and is not modelled. *)
Fixpoint archiveEntries (fileIndex : nat) (allItems : list ZipItem)
  : option (list ArchiveEntry) :=
  match allItems with
  | [] => Some []
  | item :: rest =>
      if truthy (zi_path item) then
        match zi_filename item with
        | Some filename =>
            let ext := Path.extname filename in
            let numberedName := (decimalString (fileIndex + 1) ++ ext)%string in
            option_map (cons (mkEntry numberedName (zi_path item) None))
                       (archiveEntries (S fileIndex) rest)
        | None => None
        end
      else if truthy (zi_url item) then
        let linkName := (decimalString (fileIndex + 1) ++ "_external_link.txt")%string in
        let url := orElse (zi_url item) "" in
        option_map
          (cons (mkEntry linkName None
                   (Some ("External Video Link:" ++ newline ++ url ++ newline ++ newline
                          ++ "Embed URL:" ++ newline ++ orElse (zi_embedUrl item) url)%string)))
          (archiveEntries (S fileIndex) rest)
      else archiveEntries fileIndex rest
  end.

(** The whole route: the name of the attachment and what is handed to
    the archiver. *)
Definition getGroupArchive (localeCompare : string -> string -> Z) (groupId : string)
  : JS (Response (string * list ArchiveEntry)) :=
  tryCatch
    (metadata <- loadMetadata ;;
     files <- readdirUploads ;;
     let groupFiles := zipFiles metadata files groupId in
     let externalLinks := zipLinks metadata groupId in
     if ((List.length groupFiles =? 0)%nat && (List.length externalLinks =? 0)%nat)%bool
     then ret (Error 404 "Group not found")
     else
       let allItems :=
         sort (fun a b => compareOrderId localeCompare (zi_order a) (zi_id a)
                                         (zi_order b) (zi_id b))
              (groupFiles ++ externalLinks) in
       let firstFileMeta :=
         match groupFiles with
         | first :: _ => get metadata (zi_id first)
         | [] => match externalLinks with
                 | first :: _ => get metadata (zi_id first)
                 | [] => None
                 end
         end in
       let description :=
         orElse (match firstFileMeta with Some r => description r | None => None end)
                "group" in
       match archiveEntries 0 allItems with
       | Some entries => ret (Ok ((zipFilename description ++ ".zip")%string, entries))
       | None => throw "TypeError"
       end)
    (fun _ => ret (Error 500 "Failed to create zip file")).

(** An item that gets an entry: a stored file, or a link with a URL. *)
Definition archived (item : ZipItem) : bool :=
  truthy (zi_path item) || truthy (zi_url item).

(** What follows the number in the name of the entry of an item. *)
Definition entrySuffix (item : ZipItem) : string :=
  if truthy (zi_path item)
  then Path.extname (orElse (zi_filename item) "")
  else "_external_link.txt".

(** A character that is safe in the name of an attachment: a lower-case
    ASCII letter, a digit or an underscore. *)
Definition isSafeNameChar (c : ascii) : bool :=
  isDigit c || ((97 <=? code c)%nat && (code c <=? 122)%nat) || Ascii.eqb c "_"%char.

(** A group of two stored files and a link with a description. *)
Definition tripWorld : World :=
  worldOf (diskOf [("1700000000000-1.jpg",
                    mkMeta (Some "travel") (Some "My Trip: 2024!")
                           (Some "2024-01-01T00:00:00.000Z") (Some "image")
                           (Some "group-7") (Some 1%Z) false None None None None);
                   ("1700000000000-2.MP4",
                    mkMeta (Some "travel") (Some "My Trip: 2024!")
                           (Some "2024-01-01T00:00:00.000Z") (Some "video")
                           (Some "group-7") (Some 0%Z) false None None None None);
                   ("link-1700000000000-3", linkRecord (Some "group-7") 2)]
                  [stored "1700000000000-1.jpg"; stored "1700000000000-2.MP4"] []).

(* ================================================================= *)
(** * Proofs *)

Unset Implicit Arguments.

(* ================================================================= *)
(** ** Strings, lists and the metadata map *)

Lemma get_set_same (m : Metadata) k v : get (set m k v) k = Some v.
Proof.
  induction m as [|[k' v'] m IH]; simpl.
  - now rewrite String.eqb_refl.
  - destruct (k' =? k)%string eqn:E; simpl.
    + now rewrite String.eqb_refl.
    + now rewrite E.
Qed.

Lemma get_set_other (m : Metadata) k v k' : k <> k' -> get (set m k v) k' = get m k'.
Proof.
  intros N. induction m as [|[k0 v0] m IH]; simpl.
  - apply String.eqb_neq in N. now rewrite N.
  - destruct (k0 =? k)%string eqn:E; simpl.
    + apply String.eqb_eq in E. subst k0.
      apply String.eqb_neq in N. now rewrite N.
    + destruct (k0 =? k')%string; auto.
Qed.

Lemma get_set (m : Metadata) k v k' :
  get (set m k v) k' = if (k =? k')%string then Some v else get m k'.
Proof.
  destruct (k =? k')%string eqn:E.
  - apply String.eqb_eq in E. subst. apply get_set_same.
  - apply String.eqb_neq in E. now apply get_set_other.
Qed.

Lemma get_delete (m : Metadata) k k' :
  get (delete m k) k' = if (k =? k')%string then None else get m k'.
Proof.
  unfold delete. induction m as [|[k0 v0] m IH]; simpl.
  - now destruct (k =? k')%string.
  - destruct (k0 =? k)%string eqn:E; simpl.
    + apply String.eqb_eq in E. subst k0. rewrite IH.
      now destruct (k =? k')%string.
    + rewrite IH. destruct (k0 =? k')%string eqn:E'; auto.
      apply String.eqb_eq in E'. subst k0. now rewrite String.eqb_sym, E.
Qed.

Lemma get_In_keys (m : Metadata) k r : get m k = Some r -> In k (keys m).
Proof.
  induction m as [|[k0 v0] m IH]; simpl; [discriminate|].
  destruct (k0 =? k)%string eqn:E.
  - apply String.eqb_eq in E. now left.
  - intros H. right. now apply IH.
Qed.

Lemma keys_In_get (m : Metadata) k : In k (keys m) -> exists r, get m k = Some r.
Proof.
  induction m as [|[k0 v0] m IH]; simpl; [tauto|].
  intros [->|H].
  - rewrite String.eqb_refl. eauto.
  - destruct (k0 =? k)%string; eauto.
Qed.

Lemma get_None_not_key (m : Metadata) k : get m k = None <-> ~ In k (keys m).
Proof.
  split.
  - intros H I. apply keys_In_get in I. destruct I as [r I]. congruence.
  - intros N. destruct (get m k) eqn:E; auto. apply get_In_keys in E. tauto.
Qed.

Lemma has_In (l : list string) x : has l x = true <-> In x l.
Proof.
  unfold has. rewrite existsb_exists. split.
  - intros [y [I E]]. apply String.eqb_eq in E. now subst.
  - intros I. exists x. split; auto. apply String.eqb_refl.
Qed.

Lemma has_false (l : list string) x : has l x = false <-> ~ In x l.
Proof.
  rewrite <- has_In. destruct (has l x); split; intros; try tauto; congruence.
Qed.

Lemma has_app (l1 l2 : list string) x : has (l1 ++ l2) x = has l1 x || has l2 x.
Proof. unfold has. apply existsb_app. Qed.

Lemma In_dedupe (l seen : list string) x :
  In x (dedupe seen l) <-> In x l /\ ~ In x seen.
Proof.
  revert seen. induction l as [|y l IH]; intros seen; simpl; [tauto|].
  destruct (has seen y) eqn:E.
  - apply has_In in E. rewrite IH. split.
    + tauto.
    + intros [[->|I] N]; tauto.
  - apply has_false in E. simpl. rewrite IH. simpl. split.
    + intros [->|[I N]]; [tauto|]. split; [tauto|]. intros I'. apply N. now right.
    + intros [[->|I] N]; [tauto|].
      destruct (string_dec y x) as [->|D]; [tauto|]. right. split; auto.
      intros [->|I']; tauto.
Qed.

Lemma has_dedupe (l : list string) x : has (dedupe [] l) x = has l x.
Proof.
  destruct (has l x) eqn:E.
  - apply has_In. apply In_dedupe. apply has_In in E. simpl. tauto.
  - apply has_false. apply has_false in E. rewrite In_dedupe. tauto.
Qed.

Lemma findFile_has (l : list DiskFile) name :
  has (names l) name = true -> exists f, findFile l name = Some f.
Proof.
  induction l as [|g l IH]; simpl; [discriminate|].
  destruct (fname g =? name)%string; simpl; eauto.
Qed.

Lemma findFile_None (l : list DiskFile) name :
  has (names l) name = false -> findFile l name = None.
Proof.
  induction l as [|g l IH]; simpl; auto.
  destruct (fname g =? name)%string; simpl; [discriminate|auto].
Qed.

Lemma names_removeFile (l : list DiskFile) name x :
  In x (names (removeFile l name)) <-> In x (names l) /\ x <> name.
Proof.
  unfold names, removeFile. rewrite !in_map_iff. split.
  - intros [f [E I]]. apply filter_In in I. destruct I as [I N].
    apply negb_true_iff, String.eqb_neq in N. subst x. split; eauto.
  - intros [[f [E I]] N]. exists f. split; auto. apply filter_In. split; auto.
    apply negb_true_iff, String.eqb_neq. congruence.
Qed.

Lemma names_upsertFile (l : list DiskFile) f x :
  In x (names (upsertFile l f)) <-> In x (names l) \/ x = fname f.
Proof.
  induction l as [|g l IH]; simpl.
  - intuition.
  - destruct (fname g =? fname f)%string eqn:E; simpl.
    + apply String.eqb_eq in E. rewrite E. intuition.
    + rewrite IH. intuition.
Qed.

(* ================================================================= *)
(** ** Reasoning about computations *)

Lemma wp_elim {A} (c : JS A) Q w :
  wp c Q w -> exists a w', c w = (Ret a, w') /\ Q a w'.
Proof.
  unfold wp. destruct (c w) as [[a|e] w']; [eauto|tauto].
Qed.

Lemma wp_intro {A} (c : JS A) (Q : A -> World -> Prop) w a w' :
  c w = (Ret a, w') -> Q a w' -> wp c Q w.
Proof. unfold wp. now intros ->. Qed.

Lemma wp_ret {A} (a : A) (Q : A -> World -> Prop) w : Q a w -> wp (ret a) Q w.
Proof. auto. Qed.

Lemma wp_bind {A B} (c : JS A) (k : A -> JS B) Q w :
  wp c (fun a w' => wp (k a) Q w') w -> wp (bind c k) Q w.
Proof.
  unfold wp, bind. destruct (c w) as [[a|e] w']; auto.
Qed.

Lemma wp_conseq {A} (c : JS A) (Q Q' : A -> World -> Prop) w :
  wp c Q w -> (forall a w', Q a w' -> Q' a w') -> wp c Q' w.
Proof.
  unfold wp. destruct (c w) as [[a|e] w']; auto.
Qed.

Lemma wp_tryCatch {A} (body : JS A) handler Q w :
  wp body Q w -> wp (tryCatch body handler) Q w.
Proof.
  unfold wp, tryCatch. destruct (body w) as [[a|e] w']; auto; tauto.
Qed.

Lemma wp_forEach {A S} (I : list A -> S -> World -> Prop) (body : A -> S -> JS S) :
  (forall a r s w, I (a :: r) s w -> wp (body a s) (fun s' w' => I r s' w') w) ->
  forall l s w, I l s w -> wp (forEach l body s) (fun s' w' => I [] s' w') w.
Proof.
  intros Hbody. induction l as [|a r IH]; intros s w HI; simpl.
  - now apply wp_ret.
  - apply wp_bind. apply wp_conseq with (Q := fun s' w' => I r s' w').
    + exact (Hbody a r s w HI).
    + intros s' w' HI'. now apply IH.
Qed.

Lemma emits_refl w : emits w w [].
Proof. unfold emits. now rewrite app_nil_r. Qed.

Lemma emits_trans w1 w2 w3 l1 l2 :
  emits w1 w2 l1 -> emits w2 w3 l2 -> emits w1 w3 (l1 ++ l2).
Proof.
  unfold emits. intros (A1 & B1 & C1) (A2 & B2 & C2).
  repeat split; try congruence. now rewrite C2, C1, app_assoc.
Qed.

Lemma wp_emit l t a (Q : unit -> World -> Prop) w :
  Q tt (mkWorld (disk w) (console w ++ [mkLog l t a]) (clock w) (uniqueSuffix w)) ->
  wp (emit l t a) Q w.
Proof. auto. Qed.

(* ================================================================= *)
(** ** The metadata store *)

Lemma loadMetadata_run w :
  loadMetadataWithFallback w =
  (Ret (currentMetadata (disk w)),
   mkWorld (diskAfterLoad (disk w)) (console w ++ linesOfLoad (disk w))
           (clock w) (uniqueSuffix w)).
Proof.
  destruct w as [[p pt mi mt u s] cs t sfx].
  unfold currentMetadata, diskAfterLoad, linesOfLoad. simpl.
  destruct p as [[m|x]|]; [now rewrite app_nil_r| |];
    destruct mi as [[b|y]|]; cbn; rewrite <- ?app_assoc, ?app_nil_r; reflexivity.
Qed.

Lemma saveMetadata_run metadata w :
  saveMetadata metadata w =
  (Ret tt,
   mkWorld (diskAfterSave metadata (disk w)) (console w ++ [savedLine])
           (clock w) (uniqueSuffix w)).
Proof.
  destruct w as [[p pt mi mt u s] cs t sfx]. reflexivity.
Qed.

Lemma wp_load (Q : Metadata -> World -> Prop) w :
  Q (currentMetadata (disk w))
    (mkWorld (diskAfterLoad (disk w)) (console w ++ linesOfLoad (disk w))
             (clock w) (uniqueSuffix w)) ->
  wp loadMetadata Q w.
Proof.
  intros H. unfold wp, loadMetadata. now rewrite loadMetadata_run.
Qed.

Lemma wp_save metadata (Q : unit -> World -> Prop) w :
  Q tt (mkWorld (diskAfterSave metadata (disk w)) (console w ++ [savedLine])
                (clock w) (uniqueSuffix w)) ->
  wp (saveMetadata metadata) Q w.
Proof.
  intros H. unfold wp. now rewrite saveMetadata_run.
Qed.

Lemma currentMetadata_afterLoad d : currentMetadata (diskAfterLoad d) = currentMetadata d.
Proof.
  destruct d as [[[m|x]|] pt [[b|y]|] mt u s]; reflexivity.
Qed.

Lemma diskAfterLoad_idem d : diskAfterLoad (diskAfterLoad d) = diskAfterLoad d.
Proof.
  destruct d as [[[m|x]|] pt [[b|y]|] mt u s]; reflexivity.
Qed.

Lemma uploads_afterLoad d : uploads (diskAfterLoad d) = uploads d.
Proof.
  destruct d as [[[m|x]|] pt [[b|y]|] mt u s]; reflexivity.
Qed.

Lemma snapshots_afterLoad d : snapshots (diskAfterLoad d) = snapshots d.
Proof.
  destruct d as [[[m|x]|] pt [[b|y]|] mt u s]; reflexivity.
Qed.

Lemma currentMetadata_afterSave m d : currentMetadata (diskAfterSave m d) = m.
Proof. reflexivity. Qed.

(** C2. [load()] never throws: it returns the contents of the primary
    metadata file when that file exists and parses, leaving the disk as
    it is; otherwise the contents of the backup file when that one
    parses, and then the primary file has been rewritten to hold the
    text of the backup file; otherwise the empty map, the disk again
    untouched. *)
Theorem load_falls_back_and_never_throws :
  forall w : World,
    exists m : Metadata,
      fst (loadMetadataWithFallback w) = Ret m /\
      let d := disk w in
      let d' := disk (snd (loadMetadataWithFallback w)) in
      match primary d with
      | Some (Json p) => m = p /\ d' = d
      | _ =>
          match mirror d with
          | Some (Json b) =>
              m = b /\ primary d' = Some (Json b) /\ primary d' = mirror d /\
              mirror d' = mirror d /\ uploads d' = uploads d /\
              snapshots d' = snapshots d
          | _ => m = [] /\ d' = d
          end
      end.
Proof.
  intros w. rewrite loadMetadata_run. simpl.
  exists (currentMetadata (disk w)). split; [reflexivity|].
  destruct w as [[[[m|x]|] pt [[b|y]|] mt u s] cs t sfx]; cbn; auto 10.
Qed.

(* ================================================================= *)
(** ** Frames: what a computation leaves alone, whether it returns or
       throws *)

Section Preserves.

Variable R : World -> World -> Prop.
Hypothesis R_refl : forall w, R w w.
Hypothesis R_trans : forall w1 w2 w3, R w1 w2 -> R w2 w3 -> R w1 w3.

Lemma preserves_ret {A} (a : A) : preserves R (ret a).
Proof. intros w. apply R_refl. Qed.

Lemma preserves_throw {A} e : preserves R (@throw A e).
Proof. intros w. apply R_refl. Qed.

Lemma preserves_bind {A B} (c : JS A) (k : A -> JS B) :
  preserves R c -> (forall a, preserves R (k a)) -> preserves R (bind c k).
Proof.
  intros Hc Hk w. unfold bind. specialize (Hc w).
  destruct (c w) as [[a|e] w1]; simpl in *; auto.
  eapply R_trans; [exact Hc|apply Hk].
Qed.

Lemma preserves_tryCatch {A} (body : JS A) handler :
  preserves R body -> (forall e, preserves R (handler e)) -> preserves R (tryCatch body handler).
Proof.
  intros Hb Hh w. unfold tryCatch. specialize (Hb w).
  destruct (body w) as [[a|e] w1]; simpl in *; auto.
  eapply R_trans; [exact Hb|apply Hh].
Qed.

Lemma preserves_forEach {A S} (l : list A) (body : A -> S -> JS S) :
  (forall a s, preserves R (body a s)) -> forall s, preserves R (forEach l body s).
Proof.
  intros Hb. induction l as [|a r IH]; intros s; simpl.
  - apply preserves_ret.
  - apply preserves_bind; auto.
Qed.

Lemma preserves_if {A} (b : bool) (c1 c2 : JS A) :
  preserves R c1 -> preserves R c2 -> preserves R (if b then c1 else c2).
Proof. now destruct b. Qed.

End Preserves.

Lemma tryCatch_returns {A} (body : JS A) handler :
  (forall e w, exists a w', handler e w = (Ret a, w')) ->
  forall w, exists a w', tryCatch body handler w = (Ret a, w').
Proof.
  intros Hh w. unfold tryCatch. destruct (body w) as [[a|e] w1]; eauto.
Qed.

Lemma wp_returns_preserves {A} (c : JS A) (R : World -> World -> Prop) w :
  (exists a w', c w = (Ret a, w')) -> R w (snd (c w)) -> wp c (fun _ w' => R w w') w.
Proof.
  intros (a & w' & E) H. unfold wp. rewrite E in *. exact H.
Qed.

(* ================================================================= *)
(** ** Order extraction *)

Lemma takeWhile_app_stop p (l1 l2 : list ascii) :
  Forall (fun c => p c = true) l1 ->
  match l2 with [] => True | c :: _ => p c = false end ->
  takeWhile p (l1 ++ l2) = l1.
Proof.
  induction 1 as [|c l1 Hc Hl IH]; simpl; intros H2.
  - destruct l2 as [|c l2]; simpl; auto. now rewrite H2.
  - rewrite Hc. f_equal. auto.
Qed.

Lemma matchDigits_first_run l ds : FirstDigitRun l ds -> matchDigits l = Some ds.
Proof.
  intros (pre & post & -> & Hpre & Hne & Hds & Hpost).
  induction Hpre as [|c pre Hc Hpre IH]; simpl.
  - destruct Hds as [|c ds Hc Hds]; [congruence|]. simpl. rewrite Hc.
    unfold digitRun. now rewrite takeWhile_app_stop.
  - now rewrite Hc.
Qed.

Lemma matchDigits_no_digit l :
  Forall (fun c => isDigit c = false) l -> matchDigits l = None.
Proof.
  induction 1 as [|c l Hc Hl IH]; simpl; auto. now rewrite Hc.
Qed.

Lemma takeWhile_split p (l : list ascii) :
  exists post, l = takeWhile p l ++ post /\
               Forall (fun c => p c = true) (takeWhile p l) /\
               match post with [] => True | c :: _ => p c = false end.
Proof.
  induction l as [|c l (post & E & F & H)]; simpl.
  - exists []. auto.
  - destruct (p c) eqn:Hc.
    + exists post. simpl. rewrite <- E. auto.
    + exists (c :: l). simpl. auto.
Qed.

Lemma first_run_or_no_digit l :
  (exists ds, FirstDigitRun l ds) \/ Forall (fun c => isDigit c = false) l.
Proof.
  induction l as [|c l IH]; [now right|].
  destruct (isDigit c) eqn:Hc.
  - left. destruct (takeWhile_split isDigit l) as (post & E & F & H).
    exists (c :: takeWhile isDigit l), [], post. simpl.
    rewrite <- E. repeat split; auto. discriminate.
  - destruct IH as [(ds & pre & post & E & Hpre & Hne & Hds & Hpost)|Hno].
    + left. exists ds, (c :: pre), post. subst l. simpl. repeat split; auto.
    + right. now constructor.
Qed.

Lemma parseInt_acc ds acc :
  fold_left (fun a c => (10 * a + digitVal c)%Z) ds acc =
  (acc * 10 ^ Z.of_nat (List.length ds) + decimal ds)%Z.
Proof.
  revert acc. induction ds as [|c ds IH]; intros acc.
  - simpl. lia.
  - cbn [fold_left decimal List.length]. rewrite IH.
    rewrite Nat2Z.inj_succ, Z.pow_succ_r by lia. ring.
Qed.

Lemma parseInt_decimal ds : parseInt ds = decimal ds.
Proof. unfold parseInt. rewrite parseInt_acc. lia. Qed.

Lemma extractOrder_of_run filename ds :
  FirstDigitRun (chars (Path.parseName filename)) ds ->
  extractOrderFromFilename filename =
  if (1 <=? decimal ds)%Z && (decimal ds <=? 9999)%Z
  then Some (decimal ds - 1)%Z else None.
Proof.
  intros H. unfold extractOrderFromFilename.
  rewrite (matchDigits_first_run _ _ H). now rewrite parseInt_decimal.
Qed.

Lemma extractOrder_no_digit filename :
  Forall (fun c => isDigit c = false) (chars (Path.parseName filename)) ->
  extractOrderFromFilename filename = None.
Proof.
  intros H. unfold extractOrderFromFilename. now rewrite matchDigits_no_digit.
Qed.


(* ================================================================= *)
(** ** Backups leave the metadata files and the uploads alone *)

Lemma sameStore_refl w : sameStore w w.
Proof. unfold sameStore. auto. Qed.

Lemma sameStore_trans w1 w2 w3 : sameStore w1 w2 -> sameStore w2 w3 -> sameStore w1 w3.
Proof. unfold sameStore. intuition congruence. Qed.

Ltac open_world w :=
  let p := fresh "p" in let pt := fresh "pt" in let mi := fresh "mi" in
  let mt := fresh "mt" in let u := fresh "u" in let s := fresh "s" in
  let cs := fresh "cs" in let t := fresh "t" in let sfx := fresh "sfx" in
  destruct w as [[p pt mi mt u s] cs t sfx].

Ltac break_match :=
  match goal with
  | |- context [match ?x with _ => _ end] => destruct x eqn:?
  end.

Lemma sameStore_emit l t a : preserves sameStore (emit l t a).
Proof. intros w. unfold sameStore. simpl. auto. Qed.

Lemma sameStore_writeSnapshot name s : preserves sameStore (writeSnapshot name s).
Proof. intros w. unfold sameStore. simpl. auto. Qed.

Lemma sameStore_readSnapshot name : preserves sameStore (readSnapshot name).
Proof.
  intros w. unfold sameStore, readSnapshot, bind, getDisk. simpl.
  destruct (getSnapshot (snapshots (disk w)) name); simpl; auto.
Qed.

Lemma sameStore_readFileSync p : preserves sameStore (readFileSync p).
Proof.
  intros w. unfold sameStore, readFileSync, bind, getDisk. simpl.
  destruct (fileAt p (disk w)); simpl; auto.
Qed.

Ltac frame_sameStore :=
  repeat first
    [ exact sameStore_refl | exact sameStore_trans
    | apply sameStore_emit | apply sameStore_writeSnapshot | apply sameStore_readSnapshot
    | apply sameStore_readFileSync
    | apply preserves_ret | apply preserves_throw
    | apply preserves_tryCatch | apply preserves_forEach
    | apply preserves_bind | apply preserves_if
    | match goal with
      | |- forall _, _ => intro
      | |- preserves _ (match ?x with _ => _ end) => destruct x
      end ].

Lemma sameStore_createBackup : preserves sameStore createBackup.
Proof. unfold createBackup. frame_sameStore. Qed.

Lemma createBackup_returns w : exists r w', createBackup w = (Ret r, w').
Proof.
  apply tryCatch_returns. intros e w0. unfold bind, emit, ret. simpl. eauto.
Qed.

Lemma wp_createBackup w : wp createBackup (fun _ w' => sameStore w w') w.
Proof.
  apply wp_returns_preserves.
  - apply createBackup_returns.
  - apply sameStore_createBackup.
Qed.

(* ================================================================= *)
(** ** Ingestion *)

Lemma wp_now (Q : string -> World -> Prop) w : Q (clock w) w -> wp now Q w.
Proof. auto. Qed.

Lemma wp_readdirUploads (Q : list string -> World -> Prop) w :
  Q (names (uploads (disk w))) w -> wp readdirUploads Q w.
Proof. auto. Qed.

Lemma wp_existsUpload name (Q : bool -> World -> Prop) w :
  Q (has (names (uploads (disk w))) name) w -> wp (existsUpload name) Q w.
Proof. auto. Qed.

Lemma sameView_refl w : sameView w w.
Proof. unfold sameView. auto. Qed.

Lemma sameView_afterLoad w lines :
  sameView w (mkWorld (diskAfterLoad (disk w)) lines (clock w) (uniqueSuffix w)).
Proof.
  unfold sameView. simpl.
  now rewrite currentMetadata_afterLoad, uploads_afterLoad, snapshots_afterLoad.
Qed.

Lemma wp_deriveOrder name g (Q : Z -> World -> Prop) w :
  (forall w', sameView w w' -> Q (derivedOrder (disk w) name g) w') ->
  wp (deriveOrder name g) Q w.
Proof.
  intros H. unfold deriveOrder, derivedOrder in *.
  destruct (extractOrderFromFilename name) as [o|].
  - apply wp_ret, H, sameView_refl.
  - destruct g as [g|]; [|apply wp_ret, H, sameView_refl].
    destruct (truthy (Some g)); [|apply wp_ret, H, sameView_refl].
    apply wp_bind, wp_load. apply wp_bind, wp_readdirUploads. apply wp_ret.
    simpl. rewrite uploads_afterLoad. apply H, sameView_afterLoad.
Qed.

Lemma postUpload_spec w file cat desc g :
  let record :=
    uploadedRecord (clock w) file cat desc g
      (derivedOrder (disk w) (originalname file) (if truthy g then g else None)) in
  exists w',
    postUpload (mkUploadRequest (Some file) cat desc g) w =
    (Ret (Ok (mkCreated (filename file) ("/uploads/" ++ filename file)%string
                        (filename file) record)), w') /\
    currentMetadata (disk w') = set (currentMetadata (disk w)) (filename file) record /\
    uploads (disk w') = uploads (disk w).
Proof.
  intros record.
  assert (W : wp (postUpload (mkUploadRequest (Some file) cat desc g))
                 (fun r w' =>
                    r = Ok (mkCreated (filename file) ("/uploads/" ++ filename file)%string
                                      (filename file) record) /\
                    currentMetadata (disk w') =
                      set (currentMetadata (disk w)) (filename file) record /\
                    uploads (disk w') = uploads (disk w)) w).
  { unfold postUpload. cbn [req_file req_category req_description req_groupId].
    apply wp_bind, wp_now. apply wp_bind, wp_deriveOrder.
    intros w1 (Hm & Hu & Hs & Hc & Hx).
    apply wp_bind, wp_load. apply wp_bind, wp_save. apply wp_bind.
    match goal with |- context [if ?b then _ else _] => destruct b end.
    - apply wp_bind, wp_emit. apply wp_bind.
      eapply wp_conseq; [apply wp_createBackup|].
      intros _ w2 (Hp & _ & Hmi & _ & Hup). apply wp_ret. apply wp_ret.
      unfold currentMetadata. rewrite Hp. cbn. rewrite Hm, Hup. cbn.
      rewrite uploads_afterLoad. auto.
    - apply wp_ret. apply wp_ret. cbn. rewrite Hm, uploads_afterLoad. auto. }
  apply wp_elim in W. destruct W as (r & w' & E & -> & H1 & H2). eauto.
Qed.

Lemma postUploadLink_spec w url cat desc g :
  url <> "" ->
  let record :=
    linkedRecord (clock w) url cat desc g (derivedOrder (disk w) url g) in
  let linkId := ("link-" ++ uniqueSuffix w)%string in
  exists w',
    postUploadLink (mkLinkRequest (Some url) cat desc g) w =
    (Ret (Ok (mkCreated linkId (snd (classifyUrl url)) linkId record)), w') /\
    currentMetadata (disk w') = set (currentMetadata (disk w)) linkId record /\
    uploads (disk w') = uploads (disk w).
Proof.
  intros Hurl record linkId.
  assert (W : wp (postUploadLink (mkLinkRequest (Some url) cat desc g))
                 (fun r w' =>
                    r = Ok (mkCreated linkId (snd (classifyUrl url)) linkId record) /\
                    currentMetadata (disk w') =
                      set (currentMetadata (disk w)) linkId record /\
                    uploads (disk w') = uploads (disk w)) w).
  { unfold postUploadLink. apply wp_tryCatch. cbn [lr_url lr_category lr_description lr_groupId].
    apply String.eqb_neq in Hurl. rewrite Hurl.
    subst record linkId. unfold linkedRecord.
    destruct (classifyUrl url) as [videoType embedUrl]. cbn [fst snd].
    apply wp_bind, wp_now. apply wp_bind. unfold wp at 1. cbn.
    apply wp_bind, wp_deriveOrder.
    intros w1 (Hm & Hu & Hs & Hc & Hx).
    apply wp_bind, wp_load. apply wp_bind, wp_save. apply wp_ret.
    cbn. rewrite Hm, uploads_afterLoad. auto. }
  apply wp_elim in W. destruct W as (r & w' & E & -> & H1 & H2). eauto.
Qed.

Lemma derivedOrder_of_digits d name g o :
  extractOrderFromFilename name = Some o -> derivedOrder d name g = o.
Proof. unfold derivedOrder. now intros ->. Qed.

(** C5. The order extracted from an original file name: when the name
    without its extension has a first run of digits [ds], the result is
    the number [ds] denotes minus one if that number lies in 1..9999, and
    [null] if it does not; when the name without its extension has no
    digit, the result is [null]; one of the two cases always applies.
    Uploading a file whose original name is [photo_2.jpg] stores it with
    order 1. *)
Theorem extractOrder_first_digit_run :
  forall original : string,
    let name := chars (Path.parseName original) in
    ((exists ds, FirstDigitRun name ds) \/ Forall (fun c => isDigit c = false) name) /\
    (forall ds, FirstDigitRun name ds ->
       extractOrderFromFilename original =
       if (1 <=? decimal ds)%Z && (decimal ds <=? 9999)%Z
       then Some (decimal ds - 1)%Z else None) /\
    (Forall (fun c => isDigit c = false) name ->
       extractOrderFromFilename original = None) /\
    Path.parseName "photo_2.jpg" = "photo_2" /\
    extractOrderFromFilename "photo_2.jpg" = Some 1%Z /\
    (forall (w : World) (storedAs mime : string) (cat desc g : option string),
       exists c w',
         postUpload (mkUploadRequest (Some (mkUploadedFile storedAs "photo_2.jpg" mime))
                                     cat desc g) w = (Ret (Ok c), w') /\
         order (c_meta c) = Some 1%Z /\
         get (currentMetadata (disk w')) storedAs = Some (c_meta c)).
Proof.
  intros original name. split; [apply first_run_or_no_digit|].
  split; [intros ds; apply extractOrder_of_run|].
  split; [apply extractOrder_no_digit|].
  split; [reflexivity|]. split; [reflexivity|].
  intros w storedAs mime cat desc g.
  destruct (postUpload_spec w (mkUploadedFile storedAs "photo_2.jpg" mime) cat desc g)
    as (w' & E & Hm & _).
  eexists; exists w'. split; [exact E|]. cbn [c_meta filename originalname] in *.
  split.
  - unfold uploadedRecord. cbn [order].
    rewrite (@derivedOrder_of_digits _ "photo_2.jpg" _ 1%Z); reflexivity.
  - rewrite Hm. apply get_set_same.
Qed.

Lemma extractOrder_first_digit_run_witness :
  FirstDigitRun (chars (Path.parseName "IMG_0042 (7).png")) (chars "0042") /\
  extractOrderFromFilename "IMG_0042 (7).png" = Some 41%Z.
Proof.
  assert (H : FirstDigitRun (chars (Path.parseName "IMG_0042 (7).png")) (chars "0042")).
  { exists (chars "IMG_"), (chars " (7)"). repeat split.
    - repeat constructor.
    - discriminate.
    - repeat constructor. }
  split; [exact H|].
  exact (proj1 (proj2 (extractOrder_first_digit_run "IMG_0042 (7).png")) (chars "0042") H).
Defined.

(** C6, as the code has it. Registering the link
    [https://youtu.be/abc123] without a group yields an item with
    videoType [youtube], embedUrl [https://www.youtube.com/embed/abc123]
    and order 122: the order is derived from the URL by the function that
    derives it from an uploaded file's name, and the last path segment
    [abc123] has the digits [123]. *)
Theorem youtu_be_link_registration :
  forall (w : World) (cat desc : option string),
    exists c w',
      postUploadLink (mkLinkRequest (Some "https://youtu.be/abc123") cat desc None) w
        = (Ret (Ok c), w') /\
      videoType (c_meta c) = Some "youtube" /\
      embedUrl (c_meta c) = Some "https://www.youtube.com/embed/abc123" /\
      order (c_meta c) = Some 122%Z /\
      order (c_meta c) = Some (derivedOrder (disk w) "https://youtu.be/abc123" None) /\
      Path.parseName "https://youtu.be/abc123" = "abc123" /\
      extractOrderFromFilename "https://youtu.be/abc123" = Some 122%Z /\
      get (currentMetadata (disk w')) (c_id c) = Some (c_meta c).
Proof.
  intros w cat desc.
  destruct (postUploadLink_spec w "https://youtu.be/abc123" cat desc None)
    as (w' & E & Hm & _); [discriminate|].
  eexists; exists w'. split; [exact E|]. cbn [c_meta c_id].
  repeat split; try reflexivity.
  rewrite Hm. apply get_set_same.
Qed.

Lemma youtu_be_order_is_not_999 :
  ~ (exists c w',
       postUploadLink youtuBeRequest emptyWorld = (Ret (Ok c), w') /\
       videoType (c_meta c) = Some "youtube" /\
       embedUrl (c_meta c) = Some "https://www.youtube.com/embed/abc123" /\
       order (c_meta c) = Some 999%Z).
Proof.
  intros (c & w' & E & _ & _ & O).
  vm_compute in E. inversion E; subst c. discriminate O.
Qed.

(* ----------------------------------------------------------------- *)
(** *** The next order in a group *)

Lemma nextOrder_step metadata g acc f :
  let next :=
    match get metadata f with
    | Some fileMeta =>
        if groupIs (Some fileMeta) g then
          match order fileMeta with
          | Some o => Z.max acc o
          | None => acc
          end
        else acc
    | None => acc
    end in
  (acc <= next)%Z /\
  (forall r n, get metadata f = Some r -> groupId r = Some g ->
               order r = Some n -> (n <= next)%Z) /\
  (next = acc \/
   exists r, get metadata f = Some r /\ groupId r = Some g /\ order r = Some next) /\
  ((forall r, get metadata f = Some r -> groupId r = Some g -> order r = None) ->
   next = acc).
Proof.
  cbn zeta. destruct (get metadata f) as [r|] eqn:G.
  2: { repeat split; auto; try lia. intros r n E. discriminate. }
  unfold groupIs. destruct (groupId r) as [g'|] eqn:Gr.
  2: { repeat split; auto; try lia. intros r' n [= <-] E. congruence. }
  destruct (g' =? g)%string eqn:Eg.
  2: { apply String.eqb_neq in Eg.
       repeat split; auto; try lia. intros r' n [= <-] E. congruence. }
  apply String.eqb_eq in Eg. subst g'.
  destruct (order r) as [o|] eqn:Or.
  2: { repeat split; auto; try lia. intros r' n [= <-] _ E. congruence. }
  split; [lia|]. split; [|split].
  - intros r' n [= <-] _ E. rewrite Or in E. injection E as <-. lia.
  - destruct (Z.max_spec acc o) as [[_ ->]|[_ ->]]; [right|left; auto].
    exists r. auto.
  - intros H. specialize (H r eq_refl Gr). congruence.
Qed.

Lemma nextOrder_loop metadata g files acc :
  let step := fun maxOrder file =>
    match get metadata file with
    | Some fileMeta =>
        if groupIs (Some fileMeta) g then
          match order fileMeta with
          | Some o => Z.max maxOrder o
          | None => maxOrder
          end
        else maxOrder
    | None => maxOrder
    end in
  let top := fold_left step files acc in
  (acc <= top)%Z /\
  (forall f r n, In f files -> get metadata f = Some r -> groupId r = Some g ->
                 order r = Some n -> (n <= top)%Z) /\
  (top = acc \/
   exists f r, In f files /\ get metadata f = Some r /\ groupId r = Some g /\
               order r = Some top) /\
  ((forall f r, In f files -> get metadata f = Some r -> groupId r = Some g ->
                order r = None) -> top = acc).
Proof.
  intros step. revert acc. induction files as [|f files IH]; intros acc; cbn zeta.
  - simpl. repeat split; auto; try lia; try (now intros ? ? ? []).
  - cbn [fold_left]. specialize (IH (step acc f)).
    cbn zeta in IH. destruct IH as (Hle & Hub & Hatt & Hnone).
    destruct (nextOrder_step metadata g acc f) as (S1 & S2 & S3 & S4).
    cbn zeta in *. fold (step acc f) in S1, S2, S3, S4.
    split; [lia|]. split; [|split].
    + intros f' r n [<-|I] G Gr Or.
      * specialize (S2 r n G Gr Or). lia.
      * eauto.
    + destruct Hatt as [->|(f' & r & I & G & Gr & Or)].
      * destruct S3 as [->|(r & G & Gr & Or)]; [now left|].
        right. exists f, r. simpl. auto.
      * right. exists f', r. simpl. auto.
    + intros H. rewrite Hnone.
      * apply S4. intros r G Gr. apply (H f r); simpl; auto.
      * intros f' r I. apply H. now right.
Qed.

(** C7, as the code has it. When the name or URL of a new item yields no
    order and a group id is supplied, the assigned order is one more than
    the largest order among the entries of the uploads directory whose
    metadata record carries that group id and an order: it exceeds every
    such order, it is 0 or exceeds one of them by exactly one, and it is 0
    when no such entry has an order. The records of external links are
    not read for this, whether the new item is a file or a link. *)
Theorem next_order_counts_stored_files_only :
  forall (w : World) (name g : string),
    extractOrderFromFilename name = None ->
    g <> "" ->
    let m := currentMetadata (disk w) in
    let files := names (uploads (disk w)) in
    let o := derivedOrder (disk w) name (Some g) in
    (forall f r n, In f files -> get m f = Some r -> groupId r = Some g ->
                   order r = Some n -> (n < o)%Z) /\
    (o = 0%Z \/
     exists f r, In f files /\ get m f = Some r /\ groupId r = Some g /\
                 order r = Some (o - 1)%Z) /\
    ((forall f r, In f files -> get m f = Some r -> groupId r = Some g ->
                  order r = None) -> o = 0%Z) /\
    (forall (file : UploadedFile) (cat desc : option string),
       originalname file = name ->
       exists c w',
         postUpload (mkUploadRequest (Some file) cat desc (Some g)) w = (Ret (Ok c), w') /\
         order (c_meta c) = Some o) /\
    (name <> "" ->
     forall cat desc : option string,
       exists c w',
         postUploadLink (mkLinkRequest (Some name) cat desc (Some g)) w = (Ret (Ok c), w') /\
         order (c_meta c) = Some o).
Proof.
  intros w name g Hname Hg m files o.
  assert (Ho : o = (fold_left
                      (fun maxOrder file =>
                         match get m file with
                         | Some fileMeta =>
                             if groupIs (Some fileMeta) g then
                               match order fileMeta with
                               | Some o => Z.max maxOrder o
                               | None => maxOrder
                               end
                             else maxOrder
                         | None => maxOrder
                         end) files (-1) + 1)%Z).
  { subst o. unfold derivedOrder. rewrite Hname. cbn [truthy].
    apply String.eqb_neq in Hg. rewrite Hg. reflexivity. }
  destruct (nextOrder_loop m g files (-1)) as (Hle & Hub & Hatt & Hnone).
  cbn zeta in *.
  split; [|split; [|split; [|split]]].
  - intros f r n I G Gr Or. specialize (Hub f r n I G Gr Or). lia.
  - destruct Hatt as [E|(f & r & I & G & Gr & Or)].
    + left. lia.
    + right. exists f, r. repeat split; auto. rewrite Or. f_equal. lia.
  - intros H. rewrite Ho, (Hnone H). reflexivity.
  - intros file cat desc <-.
    destruct (postUpload_spec w file cat desc (Some g)) as (w' & E & _).
    eexists; exists w'. split; [exact E|]. cbn [c_meta]. unfold uploadedRecord. cbn [order].
    cbn [truthy]. apply String.eqb_neq in Hg. rewrite Hg. reflexivity.
  - intros Hurl cat desc.
    destruct (postUploadLink_spec w name cat desc (Some g) Hurl) as (w' & E & _).
    eexists; exists w'. split; [exact E|]. reflexivity.
Qed.

Lemma next_order_counts_stored_files_only_witness :
  exists c w',
    postUpload (mkUploadRequest
                  (Some (mkUploadedFile "1706745600000-9.jpg" "photo.jpg" "image/jpeg"))
                  None None (Some "group-1")) mixedGroupWorld = (Ret (Ok c), w') /\
    order (c_meta c) = Some 8%Z.
Proof.
  exact (proj1 (proj2 (proj2 (proj2
           (@next_order_counts_stored_files_only mixedGroupWorld
              "photo.jpg" "group-1" eq_refl ltac:(discriminate)))))
           (mkUploadedFile "1706745600000-9.jpg" "photo.jpg" "image/jpeg")
           None None eq_refl).
Defined.

Lemma upload_ignores_link_orders :
  ~ (exists c w',
       postUpload photoIntoGroup linkOnlyGroupWorld = (Ret (Ok c), w') /\
       order (c_meta c) =
       Some (nextOrderOverMembers (currentMetadata (disk linkOnlyGroupWorld))
                                  (names (uploads (disk linkOnlyGroupWorld))) "group-1")).
Proof.
  intros (c & w' & E & O).
  vm_compute in E. inversion E; subst c. vm_compute in O. discriminate O.
Qed.

(* ================================================================= *)
(** ** Sorting *)

Section SortFacts.

Variable A : Type.
Variable cmp : A -> A -> Z.
Hypothesis cmp_total : forall a b, cmpLe cmp a b \/ cmpLe cmp b a.
Hypothesis cmp_trans : forall a b c, cmpLe cmp a b -> cmpLe cmp b c -> cmpLe cmp a c.

Lemma insertSorted_perm x l : Permutation (x :: l) (insertSorted cmp x l).
Proof.
  induction l as [|y r IH]; simpl; auto.
  destruct (cmp x y <=? 0)%Z; auto.
  eapply perm_trans; [apply perm_swap|]. now constructor.
Qed.

Lemma sort_perm l : Permutation l (sort cmp l).
Proof.
  induction l as [|x l IH]; simpl; auto.
  eapply perm_trans; [|apply insertSorted_perm]. now constructor.
Qed.

Lemma sort_In l x : In x (sort cmp l) <-> In x l.
Proof.
  split; apply Permutation_in; [apply Permutation_sym|]; apply sort_perm.
Qed.

Lemma sort_nil_iff l : sort cmp l = [] <-> l = [].
Proof.
  split; [|now intros ->].
  intros H. apply Permutation_nil. rewrite <- H. apply Permutation_sym, sort_perm.
Qed.

Lemma insertSorted_sorted x l :
  StronglySorted (cmpLe cmp) l -> StronglySorted (cmpLe cmp) (insertSorted cmp x l).
Proof.
  induction 1 as [|y r Hr IH Hy]; simpl.
  - repeat constructor.
  - destruct (cmp x y <=? 0)%Z eqn:E.
    + apply Z.leb_le in E. constructor; [now constructor|].
      constructor; [exact E|].
      eapply Forall_impl; [|exact Hy]. intros z Hz. now apply cmp_trans with y.
    + apply Z.leb_gt in E. constructor; [exact IH|].
      apply Forall_forall. intros z Hz.
      apply (Permutation_in z (Permutation_sym (insertSorted_perm x r))) in Hz.
      destruct Hz as [<-|Hz].
      * destruct (cmp_total x y) as [H|H]; [unfold cmpLe in H; lia|exact H].
      * rewrite Forall_forall in Hy. now apply Hy.
Qed.

Lemma sort_sorted l : StronglySorted (cmpLe cmp) (sort cmp l).
Proof.
  induction l as [|x l IH]; simpl.
  - constructor.
  - now apply insertSorted_sorted.
Qed.

End SortFacts.

Lemma sort_Forall {A} (cmp : A -> A -> Z) (P : A -> Prop) l :
  Forall P l -> Forall P (sort cmp l).
Proof.
  rewrite !Forall_forall. intros H x I. apply H.
  eapply Permutation_in; [apply Permutation_sym, sort_perm|exact I].
Qed.

Lemma StronglySorted_impl {A} (R S : A -> A -> Prop) l :
  (forall a b, R a b -> S a b) -> StronglySorted R l -> StronglySorted S l.
Proof.
  intros H. induction 1 as [|x l Hl IH Hx]; constructor; auto.
  eapply Forall_impl; [|exact Hx]. auto.
Qed.

(* ----------------------------------------------------------------- *)
(** *** The comparator of group members *)

Section OrderThenId.

Variable localeCompare : string -> string -> Z.
Hypothesis consistent : ConsistentCollation localeCompare.

Variable A : Type.
Variable orderOf : A -> Z.
Variable idOf : A -> string.

Lemma compareOrderId_le a b :
  cmpLe (fun a b => compareOrderId localeCompare (orderOf a) (idOf a) (orderOf b) (idOf b)) a b
  <-> pairLe localeCompare (orderOf a) (idOf a) (orderOf b) (idOf b).
Proof.
  unfold cmpLe, compareOrderId, pairLe.
  destruct (orderOf a =? orderOf b)%Z eqn:E; simpl.
  - apply Z.eqb_eq in E. split; [auto|]. intros [H|[_ H]]; [lia|auto].
  - apply Z.eqb_neq in E. split; [left; lia|]. intros [H|[H _]]; lia.
Qed.

Lemma pairLe_total a b :
  pairLe localeCompare (orderOf a) (idOf a) (orderOf b) (idOf b) \/
  pairLe localeCompare (orderOf b) (idOf b) (orderOf a) (idOf a).
Proof.
  unfold pairLe. destruct consistent as [T _].
  destruct (Z.lt_trichotomy (orderOf a) (orderOf b)) as [H|[H|H]]; auto.
  destruct (T (idOf a) (idOf b)); auto.
Qed.

Lemma pairLe_trans a b c :
  pairLe localeCompare (orderOf a) (idOf a) (orderOf b) (idOf b) ->
  pairLe localeCompare (orderOf b) (idOf b) (orderOf c) (idOf c) ->
  pairLe localeCompare (orderOf a) (idOf a) (orderOf c) (idOf c).
Proof.
  unfold pairLe. destruct consistent as [_ T].
  intros [H1|[H1 L1]] [H2|[H2 L2]]; try (left; lia).
  right. split; [lia|]. eapply T; eauto.
Qed.

Lemma sort_by_order_then_id l :
  StronglySorted (fun a b => pairLe localeCompare (orderOf a) (idOf a) (orderOf b) (idOf b))
    (sort (fun a b => compareOrderId localeCompare (orderOf a) (idOf a) (orderOf b) (idOf b)) l).
Proof.
  eapply StronglySorted_impl; [|apply sort_sorted].
  - intros a b. apply compareOrderId_le.
  - intros a b. rewrite !compareOrderId_le. apply pairLe_total.
  - intros a b c. rewrite !compareOrderId_le. apply pairLe_trans.
Qed.

End OrderThenId.

(* ----------------------------------------------------------------- *)
(** *** Code-unit order is a consistent collation *)

Lemma ascii_compare_refl c : Ascii.compare c c = Eq.
Proof. unfold Ascii.compare. apply N.compare_refl. Qed.

Lemma string_compare_refl s : String.compare s s = Eq.
Proof.
  induction s as [|c s IH]; simpl; auto. now rewrite ascii_compare_refl.
Qed.

Lemma string_compare_le_trans a b c :
  String.compare a b <> Gt -> String.compare b c <> Gt -> String.compare a c <> Gt.
Proof.
  revert b c. induction a as [|x a IH]; intros [|y b] [|z c]; simpl; try congruence.
  unfold Ascii.compare.
  destruct (N.compare_spec (N_of_ascii x) (N_of_ascii y)) as [E1|L1|G1];
    destruct (N.compare_spec (N_of_ascii y) (N_of_ascii z)) as [E2|L2|G2];
    try congruence; intros H1 H2.
  - rewrite E1, E2, N.compare_refl. eauto.
  - rewrite E1. apply N.compare_lt_iff in L2. rewrite L2. congruence.
  - rewrite <- E2. apply N.compare_lt_iff in L1. rewrite L1. congruence.
  - assert (L : (N_of_ascii x < N_of_ascii z)%N) by lia.
    apply N.compare_lt_iff in L. rewrite L. congruence.
Qed.

Lemma codeUnitCompare_consistent : ConsistentCollation codeUnitCompare.
Proof.
  unfold codeUnitCompare. split.
  - intros a b. rewrite (String.compare_antisym a b).
    destruct (String.compare b a); simpl; lia.
  - intros a b c H1 H2.
    assert (A1 : String.compare a b <> Gt) by (destruct (String.compare a b); [congruence|congruence|lia]).
    assert (A2 : String.compare b c <> Gt) by (destruct (String.compare b c); [congruence|congruence|lia]).
    pose proof (string_compare_le_trans _ _ _ A1 A2) as A3.
    destruct (String.compare a c); [lia|lia|congruence].
Qed.

(* ================================================================= *)
(** ** Group assembly for the listing *)

Lemma getGroup_Forall (P : Group -> Prop) groups g grp :
  Forall (fun kv => P (snd kv)) groups -> getGroup groups g = Some grp -> P grp.
Proof.
  induction 1 as [|[k v] r Hk Hr IH]; simpl; [discriminate|].
  destruct (k =? g)%string; [now intros [= <-]|auto].
Qed.

Lemma putGroup_Forall (P : Group -> Prop) groups g grp :
  Forall (fun kv => P (snd kv)) groups -> P grp ->
  Forall (fun kv => P (snd kv)) (putGroup groups g grp).
Proof.
  induction 1 as [|[k v] r Hk Hr IH]; simpl; intros Hg.
  - now repeat constructor.
  - destruct (k =? g)%string; constructor; auto.
Qed.

Lemma pushed_open m groups g fileMeta t entry :
  Forall (fun kv => GroupOpen m (snd kv)) groups ->
  orderFromMetadata m entry ->
  Forall (fun kv => GroupOpen m (snd kv)) (pushed groups g fileMeta t entry).
Proof.
  intros H He. unfold pushed. apply putGroup_Forall; [exact H|].
  unfold GroupOpen. cbn [g_files]. split.
  - intros E. apply app_eq_nil in E. destruct E as [_ E]. discriminate.
  - apply Forall_app. split; [|now repeat constructor].
    destruct (getGroup groups g) as [grp|] eqn:G.
    + now destruct (getGroup_Forall _ _ _ _ H G).
    + constructor.
Qed.

Lemma fold_left_invariant {A B} (P : B -> Prop) (f : B -> A -> B) l b :
  P b -> (forall b a, In a l -> P b -> P (f b a)) -> P (fold_left f l b).
Proof.
  revert b. induction l as [|a l IH]; intros b Hb Hf; simpl; auto.
  apply IH; [apply Hf; simpl; auto|]. intros b' a' I. apply Hf. now right.
Qed.

Lemma collectedLinks_ok t m :
  Forall (fun kv => GroupOpen m (snd kv)) (fst (collectedLinks t m)) /\
  Forall (fun it => i_files it = []) (snd (collectedLinks t m)).
Proof.
  unfold collectedLinks.
  apply fold_left_invariant
    with (P := fun acc : list (string * Group) * list Item =>
                 Forall (fun kv => GroupOpen m (snd kv)) (fst acc) /\
                 Forall (fun it => i_files it = []) (snd acc)).
  - simpl. split; constructor.
  - intros [groups inds] linkId _ [Hg Hi]. cbn [fst snd] in *.
    destruct (get m linkId) as [fileMeta|] eqn:G; [|now split].
    destruct (isExternal fileMeta); [|now split].
    assert (Hi' : forall it, i_files it = [] -> Forall (fun it => i_files it = []) (inds ++ [it])).
    { intros it E. apply Forall_app. split; [exact Hi|now repeat constructor]. }
    destruct (groupId fileMeta) as [g|]; [|split; [exact Hg|now apply Hi']].
    destruct (truthy (Some g)); [|split; [exact Hg|now apply Hi']].
    cbn [fst snd]. split; [|exact Hi].
    apply pushed_open; [exact Hg|].
    unfold orderFromMetadata, orderIn. cbn [gf_order gf_id]. now rewrite G.
Qed.

Lemma collectedFiles_ok t m mediaFiles acc :
  Forall (fun kv => GroupOpen m (snd kv)) (fst acc) ->
  Forall (fun it => i_files it = []) (snd acc) ->
  Forall (fun kv => GroupOpen m (snd kv)) (fst (collectedFiles t m mediaFiles acc)) /\
  Forall (fun it => i_files it = []) (snd (collectedFiles t m mediaFiles acc)).
Proof.
  intros H1 H2. unfold collectedFiles.
  apply fold_left_invariant
    with (P := fun acc : list (string * Group) * list Item =>
                 Forall (fun kv => GroupOpen m (snd kv)) (fst acc) /\
                 Forall (fun it => i_files it = []) (snd acc)).
  - now split.
  - intros [groups inds] file _ [Hg Hi]. cbn [fst snd] in *.
    assert (Hi' : forall it, i_files it = [] -> Forall (fun it => i_files it = []) (inds ++ [it])).
    { intros it E. apply Forall_app. split; [exact Hi|now repeat constructor]. }
    destruct (get m file) as [r|] eqn:G; [|split; [exact Hg|now apply Hi']].
    destruct (groupId r) as [g|]; [|split; [exact Hg|now apply Hi']].
    destruct (truthy (Some g)); [|split; [exact Hg|now apply Hi']].
    cbn [fst snd]. split; [|exact Hi].
    apply pushed_open; [exact Hg|].
    unfold orderFromMetadata, orderIn. cbn [gf_order gf_id]. now rewrite G.
Qed.

Lemma resolveTitle_defined m files :
  files <> [] -> exists ti, resolveTitle m files = Some ti.
Proof.
  intros H. unfold resolveTitle.
  destruct (find _ files) as [f|]; [eauto|].
  destruct files as [|f files]; [congruence|]. simpl. eauto.
Qed.

(* ----------------------------------------------------------------- *)
(** *** Where a push throws *)

Lemma fold_option_closed {A B : Type} (F : option B -> A -> option B) (G : B -> A -> B)
    (bad : A -> bool) l :
  (forall x, F None x = None) ->
  (forall b x, F (Some b) x = if bad x then None else Some (G b x)) ->
  forall b, fold_left F l (Some b) = if existsb bad l then None else Some (fold_left G l b).
Proof.
  intros HN HS.
  assert (N : forall l', fold_left F l' None = None).
  { induction l' as [|x l' IH]; cbn [fold_left]; [reflexivity|]. now rewrite HN. }
  induction l as [|x l IH]; intros b; cbn [fold_left existsb]; [reflexivity|].
  rewrite HS. destruct (bad x); cbn [orb]; [apply N|apply IH].
Qed.

Lemma existsb_flat_map {A B : Type} (p : B -> bool) (f : A -> list B) l :
  existsb p (flat_map f l) = existsb (fun x => existsb p (f x)) l.
Proof.
  induction l as [|x l IH]; cbn [flat_map existsb]; [reflexivity|].
  now rewrite existsb_app, IH.
Qed.

Lemma collectLinks_closed t m :
  collectLinks t m =
  if existsb inherited
       (flat_map (fun k => if isExternalOpt (get m k) then lookedUp (get m k) else [])
                 (keys m))
  then None else Some (collectedLinks t m).
Proof.
  unfold collectLinks, collectedLinks. rewrite existsb_flat_map.
  apply fold_option_closed; [reflexivity|].
  intros [groups inds] k. unfold isExternalOpt, lookedUp.
  destruct (get m k) as [r|]; [|reflexivity].
  destruct (isExternal r); [|reflexivity].
  destruct (groupId r) as [g|] eqn:G; [|reflexivity].
  destruct (truthy (Some g)); [|reflexivity].
  unfold pushToGroup. cbn [existsb]. rewrite orb_false_r.
  now destruct (inherited g).
Qed.

Lemma collectFiles_closed t m mediaFiles acc :
  collectFiles t m mediaFiles acc =
  if existsb inherited (flat_map (fun f => lookedUp (get m f)) mediaFiles)
  then None else Some (collectedFiles t m mediaFiles acc).
Proof.
  unfold collectFiles, collectedFiles. rewrite existsb_flat_map.
  apply fold_option_closed; [reflexivity|].
  intros [groups inds] f. unfold lookedUp.
  destruct (get m f) as [r|]; [|reflexivity].
  destruct (groupId r) as [g|] eqn:G; [|reflexivity].
  destruct (truthy (Some g)); [|reflexivity].
  unfold pushToGroup. cbn [existsb]. rewrite orb_false_r.
  now destruct (inherited g).
Qed.

(** The two loops of the listing: a TypeError exactly where a group id
    names an inherited property. *)
Lemma collect_closed t m mediaFiles :
  match collectLinks t m with
  | None => None
  | Some links => collectFiles t m mediaFiles links
  end =
  if inheritedGroupId m mediaFiles then None
  else Some (collectedFiles t m mediaFiles (collectedLinks t m)).
Proof.
  unfold inheritedGroupId, listedGroupIds. rewrite existsb_app.
  rewrite collectLinks_closed.
  destruct (existsb inherited (flat_map _ (keys m))); cbn [orb]; [reflexivity|].
  apply collectFiles_closed.
Qed.

(* ----------------------------------------------------------------- *)
(** *** The order of [Object.values] *)

Lemma filter_partition_perm {A : Type} (p : A -> bool) l :
  Permutation (filter p l ++ filter (fun x => negb (p x)) l) l.
Proof.
  induction l as [|x l IH]; cbn [filter]; [constructor|].
  destruct (p x); cbn [negb app].
  - now constructor.
  - apply Permutation_sym, Permutation_cons_app, Permutation_sym, IH.
Qed.

Lemma ownEntries_perm {A : Type} (o : list (string * A)) : Permutation (ownEntries o) o.
Proof.
  unfold ownEntries.
  eapply Permutation_trans; [|apply (filter_partition_perm (fun kv => isArrayIndex (fst kv)))].
  apply Permutation_app_tail, Permutation_sym, sort_perm.
Qed.

Lemma In_ownEntries {A : Type} (o : list (string * A)) kv : In kv (ownEntries o) <-> In kv o.
Proof.
  split; apply Permutation_in; [|apply Permutation_sym]; apply ownEntries_perm.
Qed.

Section Listing.

Variable localeCompare : string -> string -> Z.
Hypothesis consistent : ConsistentCollation localeCompare.

Lemma finishGroup_done m group w :
  GroupOpen m group ->
  wp (finishGroup localeCompare m group) (fun g w' => GroupDone localeCompare m g /\ w' = w) w.
Proof.
  intros [Hne Hord]. unfold finishGroup.
  assert (Hne' : sortGroupFiles localeCompare (g_files group) <> []).
  { unfold sortGroupFiles. intros E. apply sort_nil_iff in E. contradiction. }
  destruct (resolveTitle_defined m _ Hne') as [ti E]. rewrite E.
  apply wp_ret. split; [|reflexivity].
  unfold GroupDone. cbn [g_files g_titleImage]. repeat split; auto.
  - now apply sort_Forall.
  - apply (sort_by_order_then_id localeCompare consistent _ gf_order gf_id).
Qed.

Lemma wp_assembleGroups (Q : list Group * list Item -> World -> Prop) w :
  inheritedGroupId (currentMetadata (disk w)) (mediaOnDisk (disk w)) = false ->
  (forall groups inds,
     Forall (GroupDone localeCompare (currentMetadata (disk w))) groups ->
     Forall (fun it => i_files it = []) inds ->
     Q (groups, inds)
       (mkWorld (diskAfterLoad (disk w)) (console w ++ linesOfLoad (disk w))
                (clock w) (uniqueSuffix w))) ->
  wp (assembleGroups localeCompare) Q w.
Proof.
  intros Safe HQ. unfold assembleGroups.
  apply wp_bind, wp_load. apply wp_bind, wp_readdirUploads. apply wp_bind, wp_now.
  cbn [disk clock].
  set (m := currentMetadata (disk w)) in *.
  set (w1 := mkWorld _ _ _ _).
  pose proof (collect_closed (clock w) m
                (filter isMedia (names (uploads (diskAfterLoad (disk w)))))) as C.
  rewrite uploads_afterLoad in C. unfold mediaOnDisk in Safe. rewrite Safe in C.
  rewrite uploads_afterLoad.
  destruct (collectLinks (clock w) m) as [links|]; [|discriminate C]. rewrite C.
  destruct (collectedLinks_ok (clock w) m) as [L1 L2].
  destruct (@collectedFiles_ok (clock w) m
              (filter isMedia (names (uploads (disk w)))) _ L1 L2)
    as [F1 F2].
  destruct (collectedFiles _ _ _ _) as [groups inds]. cbn [fst snd] in F1, F2.
  apply wp_bind.
  apply wp_conseq with
    (Q := fun done w' => Forall (GroupOpen m) [] /\
                         Forall (GroupDone localeCompare m) done /\ w' = w1).
  - apply (@wp_forEach _ _
             (fun rest done w' =>
                Forall (GroupOpen m) rest /\
                Forall (GroupDone localeCompare m) done /\ w' = w1)
             (fun group done =>
                bind (finishGroup localeCompare m group)
                     (fun g => ret (done ++ [g])))).
    + intros g rest done w' (Hr & Hd & ->). inversion Hr; subst.
      apply wp_bind. eapply wp_conseq; [now apply finishGroup_done|].
      intros g' w' [Hg ->]. apply wp_ret. repeat split; auto.
      apply Forall_app. split; auto.
    + repeat split; auto.
      apply Forall_forall. intros grp I. unfold objectValues in I. apply in_map_iff in I.
      destruct I as [kv [<- I]]. apply (proj1 (In_ownEntries _ _)) in I.
      rewrite Forall_forall in F1. now apply F1.
  - intros done w' (_ & Hd & ->). apply wp_ret. now apply HQ.
Qed.

Lemma groupItem_run group ti w :
  g_titleImage group = Some ti ->
  wp (groupItem group)
     (fun i w' => i_files i = g_files group /\ i_id i = g_id group /\
                  i_isGroup i = true /\ i_url i = ti_url ti /\
                  i_filename i = ti_filename ti /\ w' = w) w.
Proof.
  intros E. unfold groupItem. rewrite E. apply wp_ret. cbn. auto 10.
Qed.

End Listing.

(* ================================================================= *)
(** ** Listing, group detail and download: what they answer *)

Lemma forEach_collect {A B} (f : A -> JS B) (P : A -> Prop) (R : A -> B -> Prop) l w :
  (forall a, P a -> wp (f a) (fun b w' => R a b /\ w' = w) w) ->
  Forall P l ->
  forall done,
    wp (forEach l (fun a (done : list B) => b <- f a ;; ret (done ++ [b])) done)
       (fun out w' => exists bs, out = done ++ bs /\ Forall2 R l bs /\ w' = w) w.
Proof.
  intros Hf. induction 1 as [|a l Ha Hl IH]; intros done; simpl.
  - apply wp_ret. exists []. rewrite app_nil_r. auto.
  - apply wp_bind. apply wp_bind. eapply wp_conseq; [apply Hf, Ha|].
    intros b w' [Hb ->]. apply wp_ret.
    eapply wp_conseq; [apply IH|].
    intros out w' (bs & -> & H2 & ->). exists (b :: bs).
    rewrite <- app_assoc. simpl. auto.
Qed.

Lemma Forall2_In_l {A B} (R : A -> B -> Prop) l bs a :
  Forall2 R l bs -> In a l -> exists b, In b bs /\ R a b.
Proof.
  induction 1 as [|x y l bs Hxy H IH]; simpl; [tauto|].
  intros [<-|I]; [eauto|]. destruct (IH I) as (b & Ib & Rb). eauto.
Qed.

Lemma Forall2_In_r {A B} (R : A -> B -> Prop) l bs b :
  Forall2 R l bs -> In b bs -> exists a, In a l /\ R a b.
Proof.
  induction 1 as [|x y l bs Hxy H IH]; simpl; [tauto|].
  intros [<-|I]; [eauto|]. destruct (IH I) as (a & Ia & Ra). eauto.
Qed.

(** Where a group id names an inherited property the listing answers 500. *)
Lemma getImages_inherited localeCompare w :
  inheritedGroupId (currentMetadata (disk w)) (mediaOnDisk (disk w)) = true ->
  fst (getImages localeCompare w) = Ret (Error 500 "Failed to load images").
Proof.
  intros Unsafe.
  pose proof (collect_closed (clock w) (currentMetadata (disk w))
                (filter isMedia (names (uploads (disk w))))) as C.
  unfold mediaOnDisk in Unsafe. rewrite Unsafe in C.
  unfold getImages, tryCatch, bind, assembleGroups, bind, loadMetadata.
  rewrite loadMetadata_run.
  cbn [readdirUploads bind getDisk ret disk fst snd now clock]. unfold bind, now.
  cbn [disk clock]. rewrite uploads_afterLoad.
  destruct (collectLinks (clock w) (currentMetadata (disk w))) as [links|];
    [|reflexivity].
  rewrite C. reflexivity.
Qed.

Lemma getImages_spec localeCompare w :
  ConsistentCollation localeCompare ->
  inheritedGroupId (currentMetadata (disk w)) (mediaOnDisk (disk w)) = false ->
  exists items groups inds,
    fst (getImages localeCompare w) = Ret (Ok items) /\
    fst (assembleGroups localeCompare w) = Ret (groups, inds) /\
    Forall (GroupDone localeCompare (currentMetadata (disk w))) groups /\
    Forall (fun it =>
              StronglySorted
                (fun a b => pairLe localeCompare (gf_order a) (gf_id a) (gf_order b) (gf_id b))
                (i_files it) /\
              Forall (orderFromMetadata (currentMetadata (disk w))) (i_files it))
           items /\
    (forall grp, In grp groups ->
                 exists it, In it items /\ i_id it = g_id grp /\ i_files it = g_files grp).
Proof.
  intros C Safe. set (m := currentMetadata (disk w)) in *.
  assert (W : wp (assembleGroups localeCompare)
                 (fun r _ => Forall (GroupDone localeCompare m) (fst r) /\
                             Forall (fun it => i_files it = []) (snd r)) w).
  { apply wp_assembleGroups; [exact C|exact Safe|]. intros groups inds Hd Hi. auto. }
  apply wp_elim in W. destruct W as ([groups inds] & w1 & E & Hd & Hi).
  cbn [fst snd] in Hd, Hi.
  assert (G : wp (forEach groups
                    (fun group (done : list Item) =>
                       i <- groupItem group ;; ret (done ++ [i])) [])
                 (fun out w' =>
                    exists bs, out = [] ++ bs /\
                      Forall2 (fun group i => i_files i = g_files group /\
                                              i_id i = g_id group) groups bs /\
                      w' = w1) w1).
  { apply forEach_collect with (P := GroupDone localeCompare m); [|exact Hd].
    intros g (Hne & _ & _ & Ht).
    destruct (resolveTitle_defined m _ Hne) as [ti Eti]. rewrite Eti in Ht.
    eapply wp_conseq; [apply (groupItem_run _ _ w1 Ht)|].
    cbn beta. intros i w' (H1 & H2 & _ & _ & _ & ->). auto. }
  apply wp_elim in G. destruct G as (out & w2 & EG & bs & -> & H2 & ->).
  cbn [app] in EG.
  exists (sort (fun a b => localeCompare (i_uploadDate b) (i_uploadDate a)) (inds ++ bs)),
         groups, inds.
  split; [|split; [now rewrite E|split; [exact Hd|split]]].
  - assert (W : wp (getImages localeCompare)
                   (fun r _ => r = Ok (sort (fun a b => localeCompare (i_uploadDate b)
                                                                      (i_uploadDate a))
                                            (inds ++ bs))) w).
    { unfold getImages. apply wp_tryCatch, wp_bind. unfold wp at 1. rewrite E.
      cbn [fst snd]. apply wp_bind. unfold wp at 1. rewrite EG. now apply wp_ret. }
    apply wp_elim in W. destruct W as (r & w3 & E3 & ->). now rewrite E3.
  - apply sort_Forall. apply Forall_app. split.
    + eapply Forall_impl; [|exact Hi]. intros it ->. split; constructor.
    + apply Forall_forall. intros it I.
      destruct (@Forall2_In_r _ _ _ _ _ _ H2 I) as (g & Ig & Ef & _). rewrite Ef.
      rewrite Forall_forall in Hd. destruct (Hd g Ig) as (_ & Ho & Hs & _). auto.
  - intros grp I. destruct (@Forall2_In_l _ _ _ _ _ _ H2 I) as (it & Iit & Ef & Eid).
    exists it. split; [|auto]. apply sort_In. apply in_or_app. now right.
Qed.

Lemma map_fst_markTitle t l : map fst (markTitle t l) = l.
Proof.
  unfold markTitle. rewrite map_map. simpl. apply map_id.
Qed.

Lemma getGroupDetail_run localeCompare groupId w :
  fst (getGroupDetail localeCompare groupId w) =
  let m := currentMetadata (disk w) in
  let groupFiles := detailFiles m (names (uploads (disk w))) groupId
                    ++ detailLinks m groupId in
  match groupFiles with
  | [] => Ret (Error 404 "Group not found")
  | firstFile :: _ =>
      let fileMeta := get m (df_id firstFile) in
      Ret (Ok (mkGroupDetail groupId
                 (markTitle (findTitleImageId m (map df_id groupFiles))
                            (sortDetailFiles localeCompare m groupFiles))
                 (orElse (match fileMeta with Some r => category r | None => None end) "fun")
                 (orElse (match fileMeta with Some r => description r | None => None end) "")
                 (orElse (match fileMeta with Some r => uploadDate r | None => None end)
                         (clock w))))
  end.
Proof.
  unfold getGroupDetail, tryCatch, bind, loadMetadata. rewrite loadMetadata_run.
  cbn [readdirUploads bind getDisk ret disk fst snd]. rewrite uploads_afterLoad.
  cbn zeta.
  destruct (detailFiles _ _ _ ++ detailLinks _ _) as [|firstFile rest]; reflexivity.
Qed.

Lemma getGroupDownload_run localeCompare groupId w :
  fst (getGroupDownload localeCompare groupId w) =
  let m := currentMetadata (disk w) in
  let items := zipFiles m (names (uploads (disk w))) groupId ++ zipLinks m groupId in
  match items with
  | [] => Ret (Error 404 "Group not found")
  | _ :: _ =>
      Ret (Ok (sort (fun a b => compareOrderId localeCompare (zi_order a) (zi_id a)
                                               (zi_order b) (zi_id b)) items))
  end.
Proof.
  unfold getGroupDownload, tryCatch, bind, loadMetadata. rewrite loadMetadata_run.
  cbn [readdirUploads bind getDisk ret disk fst snd]. rewrite uploads_afterLoad.
  cbn zeta.
  destruct (zipFiles _ _ _) as [|a l]; destruct (zipLinks _ _) as [|b l']; reflexivity.
Qed.

Lemma zip_orders m files groupId :
  Forall (fun z => zi_order z = orderIn m (zi_id z))
         (zipFiles m files groupId ++ zipLinks m groupId).
Proof.
  apply Forall_app. split; apply Forall_forall; intros z I.
  - unfold zipFiles in I. apply in_flat_map in I. destruct I as (file & _ & I).
    destruct (get m file) as [r|] eqn:G; [|destruct I].
    destruct (groupIs (Some r) groupId && isMedia file); [|destruct I].
    destruct I as [<-|[]]. unfold orderIn. cbn. now rewrite G.
  - unfold zipLinks in I. apply in_flat_map in I. destruct I as (k & _ & I).
    destruct (get m k) as [r|] eqn:G; [|destruct I].
    destruct (isExternal r && groupIs (Some r) groupId); [|destruct I].
    destruct I as [<-|[]]. unfold orderIn. cbn. now rewrite G.
Qed.

Lemma sorted_by_record_order {A : Type} (lc : string -> string -> Z) (m : Metadata)
    (o : A -> Z) (id : A -> string) (l : list A) :
  Forall (fun a => o a = orderIn m (id a)) l ->
  StronglySorted (fun a b => pairLe lc (o a) (id a) (o b) (id b)) l ->
  StronglySorted (fun a b => pairLe lc (orderIn m (id a)) (id a) (orderIn m (id b)) (id b)) l.
Proof.
  intros Ho Hs. induction Hs as [|a l Hl IH Ha]; constructor.
  - apply IH. now inversion Ho.
  - inversion Ho as [|? ? Oa Ol]; subst. rewrite Forall_forall in *.
    intros b Ib. specialize (Ha b Ib). specialize (Ol b Ib). now rewrite <- Oa, <- Ol.
Qed.

Lemma caseBlindCompare_le a b :
  (caseBlindCompare a b <= 0)%Z <->
  String.compare (toLowerCase a) (toLowerCase b) = Lt \/
  (String.compare (toLowerCase a) (toLowerCase b) = Eq /\ String.compare b a <> Gt).
Proof.
  unfold caseBlindCompare, codeUnitCompare.
  destruct (String.compare (toLowerCase a) (toLowerCase b)); cbn [Z.eqb].
  - destruct (String.compare b a); split; intros H.
    + right. split; [reflexivity|discriminate].
    + lia.
    + right. split; [reflexivity|discriminate].
    + lia.
    + lia.
    + destruct H as [H|[_ H]]; [discriminate|congruence].
  - split; [now left|lia].
  - split; [lia|]. intros [H|[H _]]; discriminate.
Qed.

Lemma string_compare_both a b :
  String.compare a b <> Gt -> String.compare b a <> Gt -> String.compare a b = Eq.
Proof.
  intros H1 H2. rewrite (String.compare_antisym b a) in H2.
  destruct (String.compare a b); [reflexivity|cbn in H2; congruence|congruence].
Qed.

Lemma caseBlindCompare_consistent : ConsistentCollation caseBlindCompare.
Proof.
  split.
  - intros a b. rewrite !caseBlindCompare_le.
    rewrite (String.compare_antisym (toLowerCase a) (toLowerCase b)).
    rewrite (String.compare_antisym a b).
    destruct (String.compare (toLowerCase b) (toLowerCase a)); cbn [CompOpp].
    + destruct (String.compare b a); cbn [CompOpp].
      * left. right. split; [reflexivity|discriminate].
      * left. right. split; [reflexivity|discriminate].
      * right. right. split; [reflexivity|discriminate].
    + right. now left.
    + left. now left.
  - intros a b c. rewrite !caseBlindCompare_le. intros H1 H2.
    assert (A1 : String.compare (toLowerCase a) (toLowerCase b) <> Gt)
      by (destruct H1 as [H|[H _]]; rewrite H; discriminate).
    assert (A2 : String.compare (toLowerCase b) (toLowerCase c) <> Gt)
      by (destruct H2 as [H|[H _]]; rewrite H; discriminate).
    pose proof (string_compare_le_trans _ _ _ A1 A2) as A3.
    destruct (String.compare (toLowerCase a) (toLowerCase c)) eqn:E;
      [|now left|congruence].
    right. split; [reflexivity|].
    apply String.compare_eq_iff in E.
    assert (Eab : String.compare (toLowerCase a) (toLowerCase b) = Eq).
    { apply string_compare_both; [exact A1|]. now rewrite E. }
    assert (Ebc : String.compare (toLowerCase b) (toLowerCase c) = Eq).
    { apply string_compare_both; [exact A2|]. now rewrite <- E. }
    destruct H1 as [H|[_ H1]]; [congruence|].
    destruct H2 as [H|[_ H2]]; [congruence|].
    exact (string_compare_le_trans _ _ _ H2 H1).
Qed.

(** C3. The member list of a group is sorted by the pair (order, id), the
    order of a member being that of its metadata record and 999 when the
    record has none, and equal orders being decided by [localeCompare] on
    the ids, the collation of the host, whatever consistent comparator
    that is. This holds in the group detail, which answers 404 or a
    permutation of the members sorted so; in the zip export, likewise; and
    in every group of the listing, which answers its items unless a group
    id names a property that a plain object inherits, where it answers
    500. *)
Theorem group_members_sorted_by_order_then_id :
  forall (localeCompare : string -> string -> Z),
    ConsistentCollation localeCompare ->
    forall (w : World) (groupId : string),
      let m := currentMetadata (disk w) in
      let files := names (uploads (disk w)) in
      (fst (getGroupDetail localeCompare groupId w) = Ret (Error 404 "Group not found") \/
       exists d,
         fst (getGroupDetail localeCompare groupId w) = Ret (Ok d) /\
         gd_files d <> [] /\
         Permutation (map fst (gd_files d))
                     (detailFiles m files groupId ++ detailLinks m groupId) /\
         StronglySorted
           (fun a b => pairLe localeCompare (orderIn m (df_id a)) (df_id a)
                                            (orderIn m (df_id b)) (df_id b))
           (map fst (gd_files d))) /\
      (if inheritedGroupId m (mediaOnDisk (disk w))
       then fst (getImages localeCompare w) = Ret (Error 500 "Failed to load images")
       else
         exists items groups inds,
           fst (getImages localeCompare w) = Ret (Ok items) /\
           fst (assembleGroups localeCompare w) = Ret (groups, inds) /\
           Forall (fun grp =>
                     g_files grp <> [] /\
                     StronglySorted
                       (fun a b => pairLe localeCompare (orderIn m (gf_id a)) (gf_id a)
                                                        (orderIn m (gf_id b)) (gf_id b))
                       (g_files grp) /\
                     exists it, In it items /\ i_id it = g_id grp /\
                                i_files it = g_files grp)
                  groups) /\
      (fst (getGroupDownload localeCompare groupId w) = Ret (Error 404 "Group not found") \/
       exists items,
         fst (getGroupDownload localeCompare groupId w) = Ret (Ok items) /\
         items <> [] /\
         Permutation items (zipFiles m files groupId ++ zipLinks m groupId) /\
         StronglySorted
           (fun a b => pairLe localeCompare (orderIn m (zi_id a)) (zi_id a)
                                            (orderIn m (zi_id b)) (zi_id b))
           items).
Proof.
  intros localeCompare C w groupId m files. split; [|split].
  - rewrite getGroupDetail_run. fold m files. cbn zeta.
    destruct (detailFiles m files groupId ++ detailLinks m groupId)
      as [|firstFile rest] eqn:E; [now left|].
    right. eexists. split; [reflexivity|]. cbn [gd_files]. split; [|split].
    + intros N. apply (f_equal (map fst)) in N. rewrite map_fst_markTitle in N.
      cbn [map] in N. unfold sortDetailFiles in N. apply sort_nil_iff in N. discriminate.
    + rewrite map_fst_markTitle. unfold sortDetailFiles. apply Permutation_sym, sort_perm.
    + rewrite map_fst_markTitle.
      apply (sort_by_order_then_id localeCompare C _ (fun a => orderIn m (df_id a)) df_id).
  - destruct (inheritedGroupId m (mediaOnDisk (disk w))) eqn:Safe.
    + now apply getImages_inherited.
    + destruct (getImages_spec localeCompare w C Safe)
        as (items & groups & inds & E1 & E2 & Hd & Hi & Hc).
      exists items, groups, inds. split; [exact E1|]. split; [exact E2|].
      apply Forall_forall. intros grp I. rewrite Forall_forall in Hd.
      destruct (Hd grp I) as (Hne & Ho & Hs & _). split; [exact Hne|]. split; [|auto].
      now apply (sorted_by_record_order localeCompare m gf_order gf_id).
  - rewrite getGroupDownload_run. fold m files. cbn zeta.
    pose proof (zip_orders m files groupId) as Ho.
    destruct (zipFiles m files groupId ++ zipLinks m groupId)
      as [|z rest] eqn:E; [now left|].
    right. eexists. split; [reflexivity|]. split; [|split].
    + intros N. apply sort_nil_iff in N. discriminate.
    + apply Permutation_sym, sort_perm.
    + apply (sorted_by_record_order localeCompare m zi_order zi_id).
      * now apply sort_Forall.
      * apply (sort_by_order_then_id localeCompare C _ zi_order zi_id).
Qed.

Lemma group_members_sorted_by_order_then_id_witness :
  exists d,
    fst (getGroupDetail caseBlindCompare "group-1" tiedGroupWorld) = Ret (Ok d) /\
    map (fun p => df_id (fst p)) (gd_files d) = ["c.jpg"; "a.jpg"; "B.jpg"] /\
    StronglySorted
      (fun a b => pairLe caseBlindCompare
                    (orderIn (currentMetadata (disk tiedGroupWorld)) (df_id a)) (df_id a)
                    (orderIn (currentMetadata (disk tiedGroupWorld)) (df_id b)) (df_id b))
      (map fst (gd_files d)).
Proof.
  destruct (proj1 (group_members_sorted_by_order_then_id
                     caseBlindCompare caseBlindCompare_consistent
                     tiedGroupWorld "group-1"))
    as [E|(d & E & _ & _ & S)].
  - vm_compute in E. discriminate E.
  - exists d. split; [exact E|]. split; [|exact S].
    vm_compute in E. injection E as <-. reflexivity.
Defined.

(** The two members of [tiedGroupWorld] that have the same order are
    listed [a.jpg] before [B.jpg] under a collation that looks at the
    letters before their case, although [B.jpg] is lexicographically the
    smaller id: the member list is not sorted by the pair of the order and
    the id in lexicographic order. *)
Lemma tie_follows_the_collation_not_the_code_units :
  let m := currentMetadata (disk tiedGroupWorld) in
  orderIn m "a.jpg" = orderIn m "B.jpg" /\
  (codeUnitCompare "B.jpg" "a.jpg" < 0)%Z /\
  (exists d,
     fst (getGroupDetail caseBlindCompare "group-1" tiedGroupWorld) = Ret (Ok d) /\
     map (fun p => df_id (fst p)) (gd_files d) = ["c.jpg"; "a.jpg"; "B.jpg"] /\
     ~ StronglySorted
         (fun a b => pairLe codeUnitCompare (orderIn m (df_id a)) (df_id a)
                                            (orderIn m (df_id b)) (df_id b))
         (map fst (gd_files d))) /\
  (exists items,
     fst (getGroupDownload caseBlindCompare "group-1" tiedGroupWorld) = Ret (Ok items) /\
     map zi_id items = ["c.jpg"; "a.jpg"; "B.jpg"]) /\
  (exists items it,
     fst (getImages caseBlindCompare tiedGroupWorld) = Ret (Ok items) /\
     In it items /\ map gf_id (i_files it) = ["c.jpg"; "a.jpg"; "B.jpg"]).
Proof.
  cbv zeta. split; [reflexivity|]. split; [reflexivity|]. split; [|split].
  - eexists. split; [reflexivity|]. split; [reflexivity|].
    intros S. vm_compute in S.
    inversion S as [|x l S1 F1]; subst. inversion S1 as [|y l' S2 F2]; subst.
    inversion F2 as [|z l'' P _]; subst.
    destruct P as [P|[_ P]]; [discriminate P|]. apply P. reflexivity.
  - eexists. split; reflexivity.
  - eexists. eexists. split; [reflexivity|]. split; [left; reflexivity|reflexivity].
Qed.

(* ================================================================= *)
(** ** Title resolution *)

Lemma find_id_In (t : string) files :
  In t (map gf_id files) ->
  exists f, find (fun f => (gf_id f =? t)%string) files = Some f /\ gf_id f = t.
Proof.
  induction files as [|f files IH]; simpl; [tauto|].
  destruct (gf_id f =? t)%string eqn:E.
  - apply String.eqb_eq in E. eauto.
  - intros [H|H]; [apply String.eqb_neq in E; congruence|auto].
Qed.

Lemma find_id_notIn (t : string) files :
  ~ In t (map gf_id files) -> find (fun f => (gf_id f =? t)%string) files = None.
Proof.
  induction files as [|f files IH]; simpl; auto.
  intros N. destruct (gf_id f =? t)%string eqn:E.
  - apply String.eqb_eq in E. tauto.
  - apply IH. tauto.
Qed.

(** Listing, no member with a title image id: the first member by sort. *)
Lemma resolveTitle_unset m f files :
  findTitleImageId m (map gf_id (f :: files)) = None ->
  resolveTitle m (f :: files) = Some (mkTitleImage (gf_id f) (gf_url f) (gf_filename f)).
Proof.
  intros E. unfold resolveTitle. rewrite E. cbn [find]. now rewrite String.eqb_refl.
Qed.

(** Listing, the title image id found names a member: that member. *)
Lemma resolveTitle_member m files t :
  findTitleImageId m (map gf_id files) = Some t ->
  In t (map gf_id files) ->
  exists ti, resolveTitle m files = Some ti /\ ti_id ti = t.
Proof.
  intros E I. unfold resolveTitle. rewrite E.
  destruct (find_id_In t files I) as (f & -> & <-). eauto.
Qed.

(** Listing, the title image id found names no member: the first member
    by sort. *)
Lemma resolveTitle_dangling m f files t :
  findTitleImageId m (map gf_id (f :: files)) = Some t ->
  ~ In t (map gf_id (f :: files)) ->
  resolveTitle m (f :: files) = Some (mkTitleImage (gf_id f) (gf_url f) (gf_filename f)).
Proof.
  intros E N. unfold resolveTitle. rewrite E. now rewrite find_id_notIn.
Qed.

(** Detail, no member with a title image id: the members flagged are those
    with the id of the first member by sort. *)
Lemma markTitle_unset first rest file flag :
  In (file, flag) (markTitle None (first :: rest)) ->
  flag = (df_id file =? df_id first)%string.
Proof.
  unfold markTitle. intros I. apply in_map_iff in I.
  destruct I as (x & [= <- <-] & _). reflexivity.
Qed.

(** Detail, a title image id was found: the members flagged are those
    with that id, whatever their position. *)
Lemma markTitle_set t files file flag :
  In (file, flag) (markTitle (Some t) files) -> flag = (df_id file =? t)%string.
Proof.
  unfold markTitle. intros I. apply in_map_iff in I.
  destruct I as (x & [= <- <-] & _). reflexivity.
Qed.

(** Detail, the title image id found names no member: no member is
    flagged, the first by sort included. *)
Lemma markTitle_dangling t files file flag :
  ~ In t (map df_id files) ->
  In (file, flag) (markTitle (Some t) files) -> flag = false.
Proof.
  intros N I. rewrite (markTitle_set _ _ _ _ I).
  unfold markTitle in I. apply in_map_iff in I. destruct I as (x & [= <- _] & Ix).
  apply String.eqb_neq. intros E. apply N. rewrite <- E. now apply in_map.
Qed.

(** C4, at the input where the code departs from it. In a group of three
    files [t.jpg] is made the title image and is then deleted on its own;
    both requests succeed, and the two remaining records still name
    [t.jpg]. The listing resolves the title of the group to its first
    member by sort, [a.jpg]; the group detail flags no member as the
    title. *)
Theorem dangling_title_listing_falls_back_detail_does_not :
  forall localeCompare : string -> string -> Z,
    fst (putGroupTitle "group-1" (Some "t.jpg") threeFileGroupWorld) = Ret (Ok "t.jpg") /\
    fst (deleteImage "t.jpg" (snd (putGroupTitle "group-1" (Some "t.jpg") threeFileGroupWorld)))
      = Ret (Ok FileDeleted) /\
    map (fun kv => (fst kv, titleImageId (snd kv)))
        (currentMetadata (disk titleDeletedWorld))
      = [("a.jpg", Some "t.jpg"); ("b.jpg", Some "t.jpg")] /\
    names (uploads (disk titleDeletedWorld)) = ["a.jpg"; "b.jpg"] /\
    (exists grp,
       fst (assembleGroups localeCompare titleDeletedWorld) = Ret ([grp], []) /\
       map gf_id (g_files grp) = ["a.jpg"; "b.jpg"] /\
       option_map ti_id (g_titleImage grp) = Some "a.jpg") /\
    (exists d,
       fst (getGroupDetail localeCompare "group-1" titleDeletedWorld) = Ret (Ok d) /\
       map (fun p => (df_id (fst p), snd p)) (gd_files d)
         = [("a.jpg", false); ("b.jpg", false)]).
Proof.
  intros localeCompare.
  split; [reflexivity|]. split; [reflexivity|]. split; [reflexivity|].
  split; [reflexivity|]. split.
  - eexists. split; [vm_compute; reflexivity|]. split; reflexivity.
  - eexists. split; [vm_compute; reflexivity|]. reflexivity.
Qed.

(* ================================================================= *)
(** ** Reordering a group *)

Lemma indexOf_nth (l : list string) x i :
  indexOf l x = Some i ->
  nth_error l i = Some x /\ forall j, (j < i)%nat -> nth_error l j <> Some x.
Proof.
  revert i. induction l as [|y l IH]; simpl; [discriminate|].
  destruct (y =? x)%string eqn:E.
  - intros i [= <-]. apply String.eqb_eq in E. subst. split; [reflexivity|]. lia.
  - destruct (indexOf l x) as [k|]; [|discriminate].
    intros i [= <-]. destruct (IH k eq_refl) as [H1 H2]. split; [exact H1|].
    intros [|j] Hj; simpl.
    + apply String.eqb_neq in E. congruence.
    + apply H2. lia.
Qed.

Lemma nth_indexOf (l : list string) x i :
  nth_error l i = Some x -> (forall j, (j < i)%nat -> nth_error l j <> Some x) ->
  indexOf l x = Some i.
Proof.
  revert i. induction l as [|y l IH]; intros [|i]; simpl; try discriminate.
  - intros [= ->] _. now rewrite String.eqb_refl.
  - intros H1 H2. destruct (y =? x)%string eqn:E.
    + apply String.eqb_eq in E. subst. exfalso. apply (H2 O); [lia|reflexivity].
    + rewrite (IH i H1); [reflexivity|]. intros j Hj. apply (H2 (S j)). lia.
Qed.

Lemma indexOf_None (l : list string) x : indexOf l x = None <-> ~ In x l.
Proof.
  induction l as [|y l IH]; simpl.
  - split; auto.
  - destruct (y =? x)%string eqn:E.
    + apply String.eqb_eq in E. split; [discriminate|]. intros N. exfalso. apply N. now left.
    + apply String.eqb_neq in E. destruct (indexOf l x) as [k|].
      * split; [discriminate|]. intros N. exfalso.
        assert (H : ~ In x l) by (intros H; apply N; now right).
        apply IH in H. discriminate.
      * split; [|reflexivity]. intros _ [H|H]; [congruence|].
        now apply (proj1 IH).
Qed.

Section Reorder.

Variable fileOrder : list string.
Variable cond : FileMeta -> bool.
Hypothesis cond_withOrder : forall r o, cond (withOrder r o) = cond r.

Lemma reordered_idem id r :
  reordered cond fileOrder id (reordered cond fileOrder id r) = reordered cond fileOrder id r.
Proof.
  unfold reordered. destruct (cond r) eqn:C; [|now rewrite C].
  destruct (indexOf fileOrder id) as [i|]; [|now rewrite C].
  now rewrite cond_withOrder, C.
Qed.

Lemma get_reorderStep md f id :
  get (reorderStep cond fileOrder md f) id =
  if (f =? id)%string then option_map (reordered cond fileOrder id) (get md id)
  else get md id.
Proof.
  unfold reorderStep. destruct (f =? id)%string eqn:E.
  - apply String.eqb_eq in E. subst f.
    destruct (get md id) as [r|] eqn:G; simpl; [|exact G].
    unfold reordered. destruct (cond r); [|exact G].
    destruct (indexOf fileOrder id); [apply get_set_same|exact G].
  - destruct (get md f) as [r|]; [|reflexivity].
    destruct (cond r); [|reflexivity].
    destruct (indexOf fileOrder f); [|reflexivity].
    rewrite get_set. now rewrite E.
Qed.

Lemma get_reorder_fold ids md id :
  get (fold_left (reorderStep cond fileOrder) ids md) id =
  if has ids id then option_map (reordered cond fileOrder id) (get md id) else get md id.
Proof.
  revert md. induction ids as [|f ids IH]; intros md; simpl; [reflexivity|].
  rewrite IH, get_reorderStep. destruct (f =? id)%string eqn:E; simpl.
  - destruct (has ids id); [|reflexivity].
    destruct (get md id); simpl; [|reflexivity]. now rewrite reordered_idem.
  - reflexivity.
Qed.

Lemma keys_reorderStep md f : keys (reorderStep cond fileOrder md f) = keys md.
Proof.
  unfold reorderStep. destruct (get md f) as [r|] eqn:G; [|reflexivity].
  destruct (cond r); [|reflexivity]. destruct (indexOf fileOrder f); [|reflexivity].
  clear - G. induction md as [|[k v] md IH]; simpl in *; [discriminate|].
  destruct (k =? f)%string eqn:E; simpl.
  - apply String.eqb_eq in E. now subst.
  - now rewrite IH.
Qed.

Lemma keys_reorder_fold ids md :
  keys (fold_left (reorderStep cond fileOrder) ids md) = keys md.
Proof.
  revert md. induction ids as [|f ids IH]; intros md; simpl; [reflexivity|].
  now rewrite IH, keys_reorderStep.
Qed.

End Reorder.

Lemma reorderFiles_fold g fo files m :
  reorderFiles g fo files m =
  fold_left (reorderStep (fun r => groupIs (Some r) g) fo) files m.
Proof. reflexivity. Qed.

Lemma reorderLinks_fold g fo m :
  reorderLinks g fo m =
  fold_left (reorderStep (fun r => isExternal r && groupIs (Some r) g) fo) (keys m) m.
Proof. reflexivity. Qed.


Lemma get_reorder g fo files m id :
  get (reorderLinks g fo (reorderFiles g fo files m)) id =
  option_map
    (fun r =>
       reordered (fun r => isExternal r && groupIs (Some r) g) fo id
         (if has files id then reordered (fun r => groupIs (Some r) g) fo id r else r))
    (get m id).
Proof.
  rewrite reorderLinks_fold, get_reorder_fold by reflexivity.
  rewrite reorderFiles_fold, keys_reorder_fold, get_reorder_fold by reflexivity.
  destruct (get m id) as [r|] eqn:G.
  - apply get_In_keys in G. apply has_In in G. rewrite G.
    destruct (has files id); reflexivity.
  - destruct (has (keys m) id); destruct (has files id); reflexivity.
Qed.

Lemma putGroupOrder_spec g fo w :
  exists w',
    putGroupOrder g (Some fo) w = (Ret (Ok tt), w') /\
    currentMetadata (disk w') =
      reorderLinks g fo (reorderFiles g fo (names (uploads (disk w)))
                                      (currentMetadata (disk w))) /\
    uploads (disk w') = uploads (disk w) /\
    snapshots (disk w') = snapshots (disk w).
Proof.
  assert (W : wp (putGroupOrder g (Some fo))
                 (fun r w' =>
                    r = Ok tt /\
                    currentMetadata (disk w') =
                      reorderLinks g fo (reorderFiles g fo (names (uploads (disk w)))
                                                      (currentMetadata (disk w))) /\
                    uploads (disk w') = uploads (disk w) /\
                    snapshots (disk w') = snapshots (disk w)) w).
  { unfold putGroupOrder. apply wp_tryCatch.
    apply wp_bind, wp_load. apply wp_bind, wp_readdirUploads.
    apply wp_bind, wp_save. apply wp_ret. cbn.
    rewrite uploads_afterLoad, snapshots_afterLoad. auto. }
  apply wp_elim in W. destruct W as (r & w' & E & -> & H). eauto.
Qed.



(* ================================================================= *)
(** ** Deleting a group *)

Lemma get_deleteStep_fold cond ks md0 :
  forall md,
    (forall k, get md k = get md0 k \/ (get md k = None /\ cond k (get md0 k) = true)) ->
    forall k,
      get (fold_left (deleteStep cond) ks md) k =
      if has ks k && cond k (get md0 k) then None else get md k.
Proof.
  induction ks as [|key ks IH]; intros md Inv k; [reflexivity|].
  cbn [fold_left].
  assert (Inv1 : forall k, get (deleteStep cond md key) k = get md0 k \/
                           (get (deleteStep cond md key) k = None /\
                            cond k (get md0 k) = true)).
  { intros k'. unfold deleteStep. destruct (cond key (get md key)) eqn:C; [|apply Inv].
    rewrite get_delete. destruct (key =? k')%string eqn:E; [|apply Inv].
    apply String.eqb_eq in E. subst k'. right. split; [reflexivity|].
    destruct (Inv key) as [H|[_ H]]; [now rewrite <- H|exact H]. }
  rewrite (IH _ Inv1 k). unfold has at 2. cbn [existsb]. fold (has ks k).
  unfold deleteStep.
  destruct (key =? k)%string eqn:E.
  - apply String.eqb_eq in E. subst k. cbn [orb].
    destruct (cond key (get md0 key)) eqn:C0.
    + rewrite andb_true_r. destruct (has ks key); [reflexivity|].
      destruct (cond key (get md key)) eqn:C.
      * rewrite get_delete, String.eqb_refl. reflexivity.
      * destruct (Inv key) as [H|[H _]]; [rewrite H in C; congruence|exact H].
    + rewrite andb_false_r.
      destruct (cond key (get md key)) eqn:C; [|reflexivity].
      destruct (Inv key) as [H|[_ H]]; [rewrite H in C|]; congruence.
  - cbn [orb]. destruct (has ks k && cond k (get md0 k)); [reflexivity|].
    destruct (cond key (get md key)); [|reflexivity].
    rewrite get_delete. now rewrite E.
Qed.

Lemma get_deleteStep_keys cond md k :
  cond k None = false ->
  get (fold_left (deleteStep cond) (keys md) md) k =
  if cond k (get md k) then None else get md k.
Proof.
  intros Hn. rewrite (@get_deleteStep_fold cond (keys md) md md) by auto.
  destruct (has (keys md) k) eqn:H; [reflexivity|].
  apply has_false in H. apply get_None_not_key in H. rewrite H, Hn. reflexivity.
Qed.

Lemma deleteStep_fold_idle cond ks md :
  (forall k, In k ks -> cond k (get md k) = false) ->
  fold_left (deleteStep cond) ks md = md.
Proof.
  induction ks as [|key ks IH]; intros H; [reflexivity|].
  cbn [fold_left]. unfold deleteStep at 2. rewrite (H key) by (now left).
  apply IH. intros k I. apply H. now right.
Qed.

Lemma deleteGroupLinks_fst g md n :
  fst (deleteGroupLinks g (md, n)) =
  fold_left (deleteStep (fun _ meta => isExternalOpt meta && groupIs meta g)) (keys md) md.
Proof.
  unfold deleteGroupLinks. cbn [fst]. generalize (keys md) as ks. intros ks.
  revert md n. induction ks as [|k ks IH]; intros md n; [reflexivity|].
  cbn [fold_left]. unfold deleteStep at 2.
  destruct (isExternalOpt (get md k) && groupIs (get md k) g); apply IH.
Qed.

Lemma deleteGroupLinks_idle g md n :
  (forall k, isExternalOpt (get md k) && groupIs (get md k) g = false) ->
  deleteGroupLinks g (md, n) = (md, n).
Proof.
  intros H. unfold deleteGroupLinks. cbn [fst]. generalize (keys md) as ks.
  induction ks as [|k ks IH]; [reflexivity|].
  cbn [fold_left]. now rewrite H.
Qed.

Lemma wp_unlinkUpload name (Q : unit -> World -> Prop) w :
  has (names (uploads (disk w))) name = true ->
  Q tt (mkWorld (setUploads (disk w) (removeFile (uploads (disk w)) name))
                (console w) (clock w) (uniqueSuffix w)) ->
  wp (unlinkUpload name) Q w.
Proof.
  intros H HQ. unfold wp, unlinkUpload, bind, getDisk.
  destruct (findFile_has _ _ H) as [f ->]. exact HQ.
Qed.

Lemma wp_deleteGroupFiles g (w : World) (Q : Metadata * nat -> World -> Prop) :
  let m := currentMetadata (disk w) in
  let files := names (uploads (disk w)) in
  (forall md n w',
     (forall k, get md k = if has files k && groupIs (get m k) g then None else get m k) ->
     (forall x, In x (names (uploads (disk w'))) <->
                In x files /\ groupIs (get m x) g = false) ->
     snapshots (disk w') = snapshots (disk w) ->
     ((forall x, In x files -> groupIs (get m x) g = false) ->
      n = O /\ md = m /\ uploads (disk w') = uploads (disk w)) ->
     Q (md, n) w') ->
  wp (deleteGroupFiles g files (m, O)) Q w.
Proof.
  intros m files HQ. unfold deleteGroupFiles.
  apply wp_conseq with
    (Q := fun st w' =>
            exists processed, files = processed ++ [] /\
              (forall k, get (fst st) k =
                         if has processed k && groupIs (get m k) g then None else get m k) /\
              (forall x, In x (names (uploads (disk w'))) <->
                         In x files /\ ~ (In x processed /\ groupIs (get m x) g = true)) /\
              snapshots (disk w') = snapshots (disk w) /\
              ((forall x, In x processed -> groupIs (get m x) g = false) ->
               snd st = O /\ fst st = m /\ uploads (disk w') = uploads (disk w))).
  - apply (@wp_forEach _ _
             (fun rest st w' =>
                exists processed, files = processed ++ rest /\
                  (forall k, get (fst st) k =
                             if has processed k && groupIs (get m k) g
                             then None else get m k) /\
                  (forall x, In x (names (uploads (disk w'))) <->
                             In x files /\
                             ~ (In x processed /\ groupIs (get m x) g = true)) /\
                  snapshots (disk w') = snapshots (disk w) /\
                  ((forall x, In x processed -> groupIs (get m x) g = false) ->
                   snd st = O /\ fst st = m /\ uploads (disk w') = uploads (disk w)))).
    + intros f rest [md n] w' (processed & Efiles & Hget & Hnames & Hsnap & Hidle).
      cbn [fst snd] in *.
      assert (Efiles' : files = (processed ++ [f]) ++ rest)
        by (now rewrite <- app_assoc).
      assert (Hhas : forall k, has (processed ++ [f]) k = has processed k || (f =? k)%string).
      { intros k. rewrite has_app. unfold has at 2. cbn [existsb]. now rewrite orb_false_r. }
      destruct (groupIs (get md f) g) eqn:Gmd.
      * (* the record in hand puts [f] in the group: unlink and delete *)
        assert (Gf : get md f = get m f /\ groupIs (get m f) g = true /\ has processed f = false).
        { rewrite Hget in Gmd |- *. destruct (has processed f && groupIs (get m f) g) eqn:C.
          - cbn in Gmd. discriminate Gmd.
          - split; [reflexivity|]. split; [exact Gmd|].
            rewrite Gmd in C. now rewrite andb_true_r in C. }
        destruct Gf as (Gf1 & Gf2 & Gf3).
        assert (If : In f (names (uploads (disk w')))).
        { apply Hnames. split.
          - rewrite Efiles. apply in_or_app. right. now left.
          - intros [I _]. apply has_In in I. congruence. }
        apply wp_bind, wp_existsUpload. apply has_In in If. rewrite If.
        apply wp_bind, wp_unlinkUpload; [exact If|]. apply wp_ret.
        exists (processed ++ [f]). cbn [fst snd disk]. split; [exact Efiles'|].
        split; [|split; [|split]].
        -- intros k. rewrite get_delete, Hhas, Hget.
           destruct (f =? k)%string eqn:E.
           ++ apply String.eqb_eq in E. subst k. now rewrite Gf2, orb_true_r.
           ++ now rewrite orb_false_r.
        -- intros x. cbn [uploads setUploads]. rewrite names_removeFile, Hnames.
           split.
           ++ intros [[I N] D]. split; [exact I|]. intros [I' G'].
              apply in_app_or in I'. destruct I' as [I'|[->|[]]]; [tauto|congruence].
           ++ intros [I N]. split; [split; [exact I|]|].
              ** intros [I' G']. apply N. split; [apply in_or_app; now left|exact G'].
              ** intros ->. apply N. split; [apply in_or_app; right; now left|exact Gf2].
        -- exact Hsnap.
        -- intros H. exfalso.
           assert (I : In f (processed ++ [f])) by (apply in_or_app; right; now left).
           specialize (H f I). congruence.
      * (* otherwise nothing happens *)
        apply wp_ret. exists (processed ++ [f]). cbn [fst snd]. split; [exact Efiles'|].
        assert (Gf : has processed f && groupIs (get m f) g = true \/
                     groupIs (get m f) g = false).
        { rewrite Hget in Gmd. destruct (has processed f && groupIs (get m f) g); auto. }
        split; [|split; [|split]].
        -- intros k. rewrite Hhas, Hget.
           destruct (f =? k)%string eqn:E; [|now rewrite orb_false_r].
           apply String.eqb_eq in E. subst k. rewrite orb_true_r. cbn [andb].
           destruct Gf as [C|C]; [|now rewrite C, andb_false_r].
           rewrite C. apply andb_true_iff in C. now rewrite (proj2 C).
        -- intros x. rewrite Hnames. split; intros [I N]; (split; [exact I|]).
           ++ intros [I' G']. apply in_app_or in I'. destruct I' as [I'|[->|[]]]; [tauto|].
              destruct Gf as [C|C]; [|congruence].
              apply andb_true_iff in C. destruct C as [C _]. apply has_In in C. tauto.
           ++ intros [I' G']. apply N. split; [apply in_or_app; now left|exact G'].
        -- exact Hsnap.
        -- intros H. apply Hidle. intros x I. apply H. apply in_or_app. now left.
    + exists []. cbn [fst snd app]. split; [reflexivity|]. split; [|split; [|split]]; auto.
      intros x. split; [|tauto]. intros Hx. split; [exact Hx|]. intros [[] _].
  - intros [md n] w' (processed & Efiles & Hget & Hnames & Hsnap & Hidle).
    rewrite app_nil_r in Efiles. subst processed. cbn [fst snd] in *.
    apply HQ; auto.
    + intros x. rewrite Hnames. split; intros [I N]; (split; [exact I|]).
      * destruct (groupIs (get m x) g); [tauto|reflexivity].
      * intros [_ G]. congruence.
Qed.

Lemma deleteGroup_spec gid w :
  startsWith "group-" gid = true ->
  let m := currentMetadata (disk w) in
  let files := names (uploads (disk w)) in
  exists n w',
    deleteImage gid w = (Ret (Ok (GroupDeleted n)), w') /\
    (forall k, get (currentMetadata (disk w')) k =
               if (has files k && groupIs (get m k) gid)
                  || (isExternalOpt (get m k) && groupIs (get m k) gid)
               then None else get m k) /\
    (forall x, In x (names (uploads (disk w'))) <->
               In x files /\ groupIs (get m x) gid = false) /\
    ((forall x, In x files -> groupIs (get m x) gid = false) ->
     (forall k, isExternalOpt (get m k) && groupIs (get m k) gid = false) ->
     n = O /\ currentMetadata (disk w') = m /\ uploads (disk w') = uploads (disk w)).
Proof.
  intros Hp m files.
  assert (W : wp (deleteImage gid)
                 (fun r w' =>
                    exists n, r = Ok (GroupDeleted n) /\
                    (forall k, get (currentMetadata (disk w')) k =
                               if (has files k && groupIs (get m k) gid)
                                  || (isExternalOpt (get m k) && groupIs (get m k) gid)
                               then None else get m k) /\
                    (forall x, In x (names (uploads (disk w'))) <->
                               In x files /\ groupIs (get m x) gid = false) /\
                    ((forall x, In x files -> groupIs (get m x) gid = false) ->
                     (forall k, isExternalOpt (get m k) && groupIs (get m k) gid = false) ->
                     n = O /\ currentMetadata (disk w') = m /\
                     uploads (disk w') = uploads (disk w))) w).
  { unfold deleteImage. apply wp_tryCatch. apply wp_bind, wp_load. rewrite Hp.
    apply wp_bind, wp_readdirUploads. apply wp_bind.
    set (w1 := mkWorld _ _ _ _).
    assert (Em : currentMetadata (disk w) = currentMetadata (disk w1))
      by (symmetry; apply currentMetadata_afterLoad).
    assert (Eu : uploads (disk w1) = uploads (disk w)) by apply uploads_afterLoad.
    rewrite Em. apply wp_deleteGroupFiles. rewrite <- Em, Eu. fold m files.
    intros md n w' Hget Hnames Hsnap Hidle.
    destruct (deleteGroupLinks gid (md, n)) as [md2 n2] eqn:EL.
    apply wp_bind, wp_save. apply wp_ret.
    exists n2. split; [reflexivity|]. cbn [disk]. rewrite currentMetadata_afterSave.
    cbn [diskAfterSave uploads].
    assert (E2 : md2 = fst (deleteGroupLinks gid (md, n))) by (now rewrite EL).
    rewrite deleteGroupLinks_fst in E2.
    split; [|split; [exact Hnames|]].
    - intros k. rewrite E2, get_deleteStep_keys by reflexivity. rewrite Hget.
      destruct (has files k && groupIs (get m k) gid); reflexivity.
    - intros H1 H2. destruct (Hidle H1) as (-> & -> & Hu).
      rewrite deleteGroupLinks_idle in EL by exact H2.
      injection EL as <- <-. auto. }
  apply wp_elim in W. destruct W as (r & w' & E & n & -> & H). eauto.
Qed.

Lemma flat_map_nil {A B} (f : A -> list B) l :
  (forall a, In a l -> f a = []) -> flat_map f l = [].
Proof.
  induction l as [|a l IH]; intros H; simpl; [reflexivity|].
  rewrite (H a) by (now left). apply IH. intros b I. apply H. now right.
Qed.

(** C8. Deleting a group, an id that starts with [group-]: the request
    succeeds with a count; no stored file of the group (an entry of the
    uploads directory whose record carries the group id) is left on disk
    or in the metadata; no record of an external link of the group is
    left; the files and records of others stay; a group detail request
    that follows answers 404; and when the group has no member at all the
    request still succeeds, with count 0, and changes neither the
    metadata nor the uploads directory. *)
Theorem delete_group_removes_every_member :
  forall (localeCompare : string -> string -> Z) (w : World) (gid : string),
    startsWith "group-" gid = true ->
    let m := currentMetadata (disk w) in
    let files := names (uploads (disk w)) in
    let w' := snd (deleteImage gid w) in
    let m' := currentMetadata (disk w') in
    (exists n, fst (deleteImage gid w) = Ret (Ok (GroupDeleted n))) /\
    (forall id, storedMember m files gid id ->
                ~ In id (names (uploads (disk w'))) /\ get m' id = None) /\
    (forall id, linkMember m gid id -> get m' id = None) /\
    (forall id, In id files -> groupIs (get m id) gid = false ->
                In id (names (uploads (disk w')))) /\
    (forall id, groupIs (get m id) gid = false -> get m' id = get m id) /\
    fst (getGroupDetail localeCompare gid w') = Ret (Error 404 "Group not found") /\
    ((forall id, ~ storedMember m files gid id) ->
     (forall id, ~ linkMember m gid id) ->
     fst (deleteImage gid w) = Ret (Ok (GroupDeleted 0)) /\
     m' = m /\ uploads (disk w') = uploads (disk w)).
Proof.
  intros localeCompare w gid Hp m files w' m'.
  destruct (deleteGroup_spec gid w Hp) as (n & w1 & E & Hget & Hnames & Hidle).
  fold m files in Hget, Hnames, Hidle.
  subst m' w'. rewrite E. cbn [fst snd].
  split; [eauto|]. split; [|split; [|split; [|split; [|split]]]].
  - intros id [I G]. split.
    + rewrite Hnames. intros [_ G']. congruence.
    + rewrite Hget. apply has_In in I. now rewrite I, G.
  - intros id [He G]. rewrite Hget, He, G. now rewrite orb_true_r.
  - intros id I G. apply Hnames. auto.
  - intros id G. rewrite Hget, G. now rewrite !andb_false_r.
  - rewrite getGroupDetail_run. cbn zeta.
    replace (detailFiles (currentMetadata (disk w1)) (names (uploads (disk w1))) gid)
      with (@nil DetailFile).
    2: { symmetry. apply flat_map_nil. intros file I.
         destruct (get (currentMetadata (disk w1)) file) as [r|] eqn:G; [|reflexivity].
         apply Hnames in I. destruct I as [I N].
         rewrite Hget in G.
         destruct ((has files file && groupIs (get m file) gid)
                   || (isExternalOpt (get m file) && groupIs (get m file) gid));
           [discriminate|].
         rewrite G in N. now rewrite N. }
    replace (detailLinks (currentMetadata (disk w1)) gid) with (@nil DetailFile);
      [reflexivity|].
    symmetry. apply flat_map_nil. intros k _.
    destruct (get (currentMetadata (disk w1)) k) as [r|] eqn:G; [|reflexivity].
    rewrite Hget in G.
    destruct (has files k && groupIs (get m k) gid); [discriminate|]. cbn [orb] in G.
    destruct (isExternalOpt (get m k) && groupIs (get m k) gid) eqn:C; [discriminate|].
    rewrite G in C. cbn [isExternalOpt] in C. now rewrite C.
  - intros H1 H2.
    assert (A1 : forall x, In x files -> groupIs (get m x) gid = false).
    { intros x I. destruct (groupIs (get m x) gid) eqn:G; [|reflexivity].
      exfalso. apply (H1 x). now split. }
    assert (A2 : forall k, isExternalOpt (get m k) && groupIs (get m k) gid = false).
    { intros k. destruct (isExternalOpt (get m k)) eqn:X; [|reflexivity].
      destruct (groupIs (get m k) gid) eqn:G; [|reflexivity].
      exfalso. apply (H2 k). now split. }
    destruct (Hidle A1 A2) as (-> & Hm & Hu). auto.
Qed.

Lemma delete_group_removes_every_member_witness :
  fst (deleteImage "group-1" mixedGroupWorld) = Ret (Ok (GroupDeleted 3)) /\
  currentMetadata (disk (snd (deleteImage "group-1" mixedGroupWorld))) = [] /\
  names (uploads (disk (snd (deleteImage "group-1" mixedGroupWorld))))
    = ["1706745600000-9.jpg"] /\
  fst (getGroupDetail codeUnitCompare "group-1" (snd (deleteImage "group-1" mixedGroupWorld)))
    = Ret (Error 404 "Group not found").
Proof.
  split; [reflexivity|]. split; [reflexivity|]. split; [reflexivity|].
  exact (proj1 (proj2 (proj2 (proj2 (proj2 (proj2
           (@delete_group_removes_every_member codeUnitCompare mixedGroupWorld
              "group-1" eq_refl))))))).
Defined.

(* ================================================================= *)
(** ** The two loops of the reconciliation *)

Lemma fst_prune_fold fs ks md u :
  fst (fold_left (pruneStep fs) ks (md, u)) = fold_left (deleteStep (isOrphan fs)) ks md.
Proof.
  revert md u. induction ks as [|k ks IH]; intros md u; [reflexivity|].
  cbn [fold_left]. unfold pruneStep at 2, deleteStep at 2.
  destruct (isOrphan fs k (get md k)); apply IH.
Qed.

Lemma prune_fold_idle fs ks md u :
  (forall k, In k ks -> isOrphan fs k (get md k) = false) ->
  fold_left (pruneStep fs) ks (md, u) = (md, u).
Proof.
  induction ks as [|k ks IH]; intros H; [reflexivity|].
  cbn [fold_left]. unfold pruneStep at 2. rewrite (H k) by (now left).
  apply IH. intros k' I. apply H. now right.
Qed.

Lemma prune_fold_true fs ks md : snd (fold_left (pruneStep fs) ks (md, true)) = true.
Proof.
  revert md. induction ks as [|k ks IH]; intros md; [reflexivity|].
  cbn [fold_left]. unfold pruneStep at 2. destruct (isOrphan fs k (get md k)); apply IH.
Qed.

Lemma prune_fold_cases fs ks md u :
  fold_left (pruneStep fs) ks (md, u) = (md, u) \/
  snd (fold_left (pruneStep fs) ks (md, u)) = true.
Proof.
  revert md u. induction ks as [|k ks IH]; intros md u; [now left|].
  cbn [fold_left]. unfold pruneStep at 2 4.
  destruct (isOrphan fs k (get md k)); [right; apply prune_fold_true|apply IH].
Qed.

Lemma get_pruned fs m k :
  get (fst (fold_left (pruneStep fs) (keys m) (m, false))) k =
  match get m k with
  | Some r => if isExternal r || has fs k then Some r else None
  | None => None
  end.
Proof.
  rewrite fst_prune_fold, (@get_deleteStep_fold (isOrphan fs) (keys m) m m) by auto.
  destruct (get m k) as [r|] eqn:G.
  - apply get_In_keys, has_In in G. rewrite G. unfold isOrphan. cbn.
    destruct (isExternal r); destruct (has fs k); reflexivity.
  - now destruct (has (keys m) k && isOrphan fs k None).
Qed.

Lemma complete_fold_idle d fs md u :
  (forall f, In f fs -> get md f <> None) ->
  fold_left (completeStep d) fs (md, u) = (md, u).
Proof.
  induction fs as [|f fs IH]; intros H; [reflexivity|].
  cbn [fold_left]. unfold completeStep at 2.
  destruct (get md f) eqn:G; [|exfalso; apply (H f); [now left|exact G]].
  apply IH. intros f' I. apply H. now right.
Qed.

Lemma complete_fold_true d fs md : snd (fold_left (completeStep d) fs (md, true)) = true.
Proof.
  revert md. induction fs as [|f fs IH]; intros md; [reflexivity|].
  cbn [fold_left]. unfold completeStep at 2. destruct (get md f); apply IH.
Qed.

Lemma complete_fold_cases d fs md u :
  fold_left (completeStep d) fs (md, u) = (md, u) \/
  snd (fold_left (completeStep d) fs (md, u)) = true.
Proof.
  revert md u. induction fs as [|f fs IH]; intros md u; [now left|].
  cbn [fold_left]. unfold completeStep at 2 4.
  destruct (get md f); [apply IH|right; apply complete_fold_true].
Qed.

Lemma get_completed d fs md u k :
  get (fst (fold_left (completeStep d) fs (md, u))) k =
  match get md k with
  | Some r => Some r
  | None => if has fs k then Some (defaultRecord k (mtimeOf d k)) else None
  end.
Proof.
  revert md u. induction fs as [|f fs IH]; intros md u.
  - cbn. now destruct (get md k).
  - cbn [fold_left]. unfold completeStep at 2. unfold has. cbn [existsb]. fold (has fs k).
    destruct (get md f) as [r|] eqn:G.
    + rewrite IH. destruct (get md k) eqn:Gk; [reflexivity|].
      destruct (f =? k)%string eqn:E; [|reflexivity].
      apply String.eqb_eq in E. subst. congruence.
    + rewrite IH, get_set. destruct (f =? k)%string eqn:E.
      * apply String.eqb_eq in E. subst k. now rewrite G.
      * reflexivity.
Qed.

(** The metadata the loops produce, key by key. *)
Lemma get_reconciled d k :
  get (fst (reconciled d)) k =
  match get (currentMetadata d) k with
  | Some r => if isExternal r || has (mediaOnDisk d) k then Some r else None
  | None => if has (mediaOnDisk d) k
            then Some (defaultRecord k (mtimeOf d k)) else None
  end.
Proof.
  unfold reconciled.
  destruct (fold_left (pruneStep _) _ _) as [m1 u1] eqn:E1.
  rewrite get_completed.
  assert (G1 := get_pruned (dedupe [] (mediaOnDisk d)) (currentMetadata d) k).
  rewrite E1 in G1. cbn [fst] in G1. rewrite G1, !has_dedupe.
  destruct (get (currentMetadata d) k) as [r|]; [|reflexivity].
  destruct (isExternal r); [reflexivity|]. cbn [orb].
  destruct (has (mediaOnDisk d) k) eqn:H; reflexivity.
Qed.

(** When the loops report no update, the metadata is the one loaded. *)
Lemma reconciled_not_updated d :
  snd (reconciled d) = false -> fst (reconciled d) = currentMetadata d.
Proof.
  unfold reconciled.
  destruct (prune_fold_cases (dedupe [] (mediaOnDisk d)) (keys (currentMetadata d))
                             (currentMetadata d) false) as [E|E].
  - rewrite E.
    destruct (complete_fold_cases d (dedupe [] (mediaOnDisk d)) (currentMetadata d) false)
      as [E'|E']; [now rewrite E'|]. congruence.
  - destruct (fold_left (pruneStep _) _ _) as [m1 u1]. cbn [snd] in E. subst u1.
    rewrite complete_fold_true. discriminate.
Qed.

(** The loops are idle on their own result: on any disk that holds the
    reconciled metadata and the same media files, nothing is removed,
    nothing is added, and the flag stays down. *)
Lemma reconciled_idempotent d d' :
  currentMetadata d' = fst (reconciled d) ->
  mediaOnDisk d' = mediaOnDisk d ->
  reconciled d' = (fst (reconciled d), false).
Proof.
  intros Em Ef. unfold reconciled at 1. rewrite Em, Ef.
  set (fs := dedupe [] (mediaOnDisk d)). set (m2 := fst (reconciled d)).
  assert (K : forall k, In k (keys m2) -> isOrphan fs k (get m2 k) = false).
  { intros k I. apply keys_In_get in I. destruct I as [r G]. rewrite G.
    unfold m2 in G. rewrite get_reconciled in G. unfold isOrphan, fs. rewrite has_dedupe.
    cbn [isExternalOpt].
    destruct (get (currentMetadata d) k) as [r0|].
    - destruct (isExternal r0) eqn:X; cbn [orb] in G.
      + injection G as <-. now rewrite X.
      + destruct (has (mediaOnDisk d) k); [|discriminate]. now rewrite andb_false_r.
    - destruct (has (mediaOnDisk d) k); [|discriminate]. now rewrite andb_false_r. }
  rewrite (@prune_fold_idle fs (keys m2) m2 false K).
  apply complete_fold_idle. intros f I.
  unfold m2. rewrite get_reconciled.
  assert (H : has (mediaOnDisk d) f = true).
  { rewrite <- has_dedupe. now apply has_In. }
  rewrite H. destruct (get (currentMetadata d) f) as [r|]; [|discriminate].
  rewrite orb_true_r. discriminate.
Qed.

(* ================================================================= *)
(** ** The phases of the reconciliation as computations *)

Lemma logsQuietly_refl w : logsQuietly w w.
Proof. exists []. split; [apply emits_refl|constructor]. Qed.

Lemma logsQuietly_trans w1 w2 w3 :
  logsQuietly w1 w2 -> logsQuietly w2 w3 -> logsQuietly w1 w3.
Proof.
  intros (l1 & E1 & Q1) (l2 & E2 & Q2). exists (l1 ++ l2).
  split; [eapply emits_trans; eauto|]. apply Forall_app. now split.
Qed.

Lemma logsQuietly_emit w d l t a :
  (t =? "Metadata saved successfully")%string = false ->
  (t =? "Metadata synced successfully")%string = false ->
  logsQuietly w (mkWorld d (console w ++ [mkLog l t a]) (clock w) (uniqueSuffix w)).
Proof.
  intros H1 H2. exists [mkLog l t a]. split; [repeat split|].
  constructor; [|constructor]. cbn [text]. split; now apply String.eqb_neq.
Qed.

Lemma logsQuietly_load w :
  logsQuietly w (mkWorld (diskAfterLoad (disk w)) (console w ++ linesOfLoad (disk w))
                         (clock w) (uniqueSuffix w)).
Proof.
  exists (linesOfLoad (disk w)). split; [repeat split|].
  unfold linesOfLoad.
  destruct (primary (disk w)) as [[m|x]|]; destruct (mirror (disk w)) as [[b|y]|];
    cbn; repeat constructor; cbn; discriminate.
Qed.

Lemma wp_emit_quiet l t a (Q : unit -> World -> Prop) w :
  (t =? "Metadata saved successfully")%string = false ->
  (t =? "Metadata synced successfully")%string = false ->
  (forall w1, disk w1 = disk w -> logsQuietly w w1 -> Q tt w1) ->
  wp (emit l t a) Q w.
Proof.
  intros H1 H2 HQ. apply wp_emit. apply HQ; [reflexivity|now apply logsQuietly_emit].
Qed.

(** A loop whose body computes a pure step and only prints. *)
Lemma forEach_fold {A S} (d0 : FS) (body : A -> S -> JS S) (step : S -> A -> S) l :
  (forall a s w, In a l -> disk w = d0 ->
     wp (body a s) (fun s' w' => s' = step s a /\ disk w' = d0 /\ logsQuietly w w') w) ->
  forall s w, disk w = d0 ->
    wp (forEach l body s)
       (fun s' w' => s' = fold_left step l s /\ disk w' = d0 /\ logsQuietly w w') w.
Proof.
  induction l as [|a l IH]; intros Hb s w Hd; cbn [forEach fold_left].
  - apply wp_ret. repeat split; auto. apply logsQuietly_refl.
  - apply wp_bind. eapply wp_conseq; [apply Hb; [now left|exact Hd]|].
    intros s' w' (-> & Hd' & L). cbn beta.
    eapply wp_conseq; [apply IH; [|exact Hd']|].
    + intros a' s' w0 I. apply Hb. now right.
    + intros s'' w'' (-> & Hd'' & L'). repeat split; auto.
      eapply logsQuietly_trans; eauto.
Qed.

Lemma wp_removeOrphans fileSet m (Q : Metadata * bool -> World -> Prop) w :
  (forall w', disk w' = disk w -> logsQuietly w w' ->
              Q (fold_left (pruneStep fileSet) (keys m) (m, false)) w') ->
  wp (removeOrphans fileSet m) Q w.
Proof.
  intros HQ. unfold removeOrphans.
  eapply wp_conseq.
  - apply (@forEach_fold _ _ (disk w) _ (pruneStep fileSet)); [|reflexivity].
    intros key [md u] w0 _ Hd. unfold pruneStep, isOrphan.
    destruct (negb (isExternalOpt (get md key)) && negb (has fileSet key)).
    + apply wp_bind, wp_emit_quiet; try reflexivity.
      intros w1 Hd1 L. apply wp_ret. repeat split; auto; congruence.
    + apply wp_ret. repeat split; auto. apply logsQuietly_refl.
  - intros st w' (-> & Hd & L). now apply HQ.
Qed.

Lemma wp_statUploadMtime name (Q : string -> World -> Prop) w :
  has (names (uploads (disk w))) name = true ->
  Q (mtimeOf (disk w) name) w ->
  wp (statUploadMtime name) Q w.
Proof.
  intros H HQ. unfold wp, statUploadMtime, bind, getDisk, mtimeOf in *.
  destruct (findFile_has _ _ H) as [f E]. rewrite E in *. exact HQ.
Qed.

Lemma wp_addMissing fileSet st (Q : Metadata * bool -> World -> Prop) w :
  (forall f, In f fileSet -> has (names (uploads (disk w))) f = true) ->
  (forall w', disk w' = disk w -> logsQuietly w w' ->
              Q (fold_left (completeStep (disk w)) fileSet st) w') ->
  wp (addMissing fileSet st) Q w.
Proof.
  intros Hon HQ. unfold addMissing.
  eapply wp_conseq.
  - apply (@forEach_fold _ _ (disk w) _ (completeStep (disk w))); [|reflexivity].
    intros file [md u] w0 I Hd. unfold completeStep.
    destruct (get md file).
    + apply wp_ret. repeat split; auto. apply logsQuietly_refl.
    + apply wp_bind, wp_emit_quiet; try reflexivity.
      intros w1 Hd1 L. apply wp_bind, wp_statUploadMtime.
      * rewrite Hd1, Hd. now apply Hon.
      * apply wp_ret. rewrite Hd1, Hd. repeat split; auto; congruence.
  - intros st' w' (-> & Hd & L). now apply HQ.
Qed.

Lemma mediaOnDisk_afterLoad d : mediaOnDisk (diskAfterLoad d) = mediaOnDisk d.
Proof. unfold mediaOnDisk. now rewrite uploads_afterLoad. Qed.

Lemma mtimeOf_afterLoad d k : mtimeOf (diskAfterLoad d) k = mtimeOf d k.
Proof. unfold mtimeOf. now rewrite uploads_afterLoad. Qed.

Lemma complete_fold_afterLoad d fs st :
  fold_left (completeStep (diskAfterLoad d)) fs st = fold_left (completeStep d) fs st.
Proof.
  revert st. induction fs as [|f fs IH]; intros st; [reflexivity|].
  cbn [fold_left]. rewrite IH. f_equal.
  unfold completeStep. now rewrite mtimeOf_afterLoad.
Qed.

Lemma reconciled_afterLoad d : reconciled (diskAfterLoad d) = reconciled d.
Proof.
  unfold reconciled.
  now rewrite complete_fold_afterLoad, mediaOnDisk_afterLoad, currentMetadata_afterLoad.
Qed.

Lemma mediaOnDisk_on_disk d f :
  In f (dedupe [] (mediaOnDisk d)) -> has (names (uploads d)) f = true.
Proof.
  intros I. apply In_dedupe in I. destruct I as [I _].
  unfold mediaOnDisk in I. apply filter_In in I. now apply has_In.
Qed.

Lemma wp_reconcile (Q : Metadata * list string -> World -> Prop) w :
  (forall w',
     disk w' = diskAfterReconcile (disk w) ->
     clock w' = clock w -> uniqueSuffix w' = uniqueSuffix w ->
     (exists lines, console w' = console w ++ lines /\
        (snd (reconciled (disk w)) = false -> quiet lines /\ In inSyncLine lines) /\
        (snd (reconciled (disk w)) = true ->
           In savedLine lines /\ In syncedLine lines)) ->
     Q (fst (reconciled (disk w)), names (uploads (disk w))) w') ->
  wp reconcile Q w.
Proof.
  intros HQ. unfold reconcile.
  apply wp_bind, wp_load.
  pose proof (logsQuietly_load w) as L0.
  set (w0 := mkWorld _ _ _ _) in *.
  assert (D0 : disk w0 = diskAfterLoad (disk w)) by reflexivity.
  apply wp_bind, wp_readdirUploads. rewrite D0, uploads_afterLoad.
  fold (mediaOnDisk (disk w)).
  apply wp_bind, wp_removeOrphans. intros w1 D1 L1.
  apply wp_bind, wp_addMissing.
  { intros f I. rewrite D1, D0, uploads_afterLoad. now apply mediaOnDisk_on_disk. }
  intros w2 D2 L2. rewrite D1, D0, complete_fold_afterLoad.
  fold (reconciled (disk w)).
  assert (L : logsQuietly w w2)
    by (eapply logsQuietly_trans; [exact L0|eapply logsQuietly_trans; eauto]).
  destruct L as (lines & (Ec & Eu & El) & Ql).
  assert (Dw2 : disk w2 = diskAfterLoad (disk w)) by congruence.
  destruct (reconciled (disk w)) as [m' upd] eqn:ER. cbn [fst snd].
  destruct upd.
  - apply wp_bind. apply wp_bind, wp_save. unfold console_log. apply wp_emit.
    apply wp_ret. apply HQ; cbn [disk clock uniqueSuffix console]; auto.
    + unfold diskAfterReconcile. rewrite ER. cbn [fst snd]. now rewrite Dw2.
    + exists (lines ++ [savedLine; syncedLine]).
      split; [now rewrite El, <- !app_assoc|]. split; [discriminate|].
      intros _. split.
      * apply in_or_app. right. now left.
      * apply in_or_app. right. right. now left.
  - apply wp_bind. unfold console_log. apply wp_emit. apply wp_ret.
    apply HQ; cbn [disk clock uniqueSuffix console]; auto.
    + unfold diskAfterReconcile. rewrite ER. cbn [fst snd]. exact Dw2.
    + exists (lines ++ [inSyncLine]).
      split; [now rewrite El, <- !app_assoc|]. split; [|discriminate].
      intros _. split.
      * apply Forall_app. split; [exact Ql|].
        repeat constructor; cbn; discriminate.
      * apply in_or_app. right. now left.
Qed.

Lemma copy_loop_run files w :
  forEach files (fun file (_ : unit) => copyIntoUploads file) tt w =
  (Ret tt,
   mkWorld (setUploads (disk w) (restoredUploads (clock w) files (uploads (disk w))))
           (console w) (clock w) (uniqueSuffix w)).
Proof.
  revert w. induction files as [|f files IH]; intros w.
  - destruct w as [[p pt mi mt u s] cs t sfx]. reflexivity.
  - cbn [forEach]. unfold bind at 1.
    replace (copyIntoUploads f w)
      with (Ret tt,
            mkWorld (setUploads (disk w)
                       (upsertFile (uploads (disk w)) (mkFile (fname f) (clock w) (bytes f))))
                    (console w) (clock w) (uniqueSuffix w))
      by reflexivity.
    rewrite IH. destruct w as [[p pt mi mt u s] cs t sfx]. reflexivity.
Qed.

Lemma getSnapshot_In (l : list (string * Snapshot)) b :
  In b (map fst l) -> exists s, getSnapshot l b = Some s.
Proof.
  induction l as [|[n s] l IH]; simpl; [tauto|].
  destruct (n =? b)%string eqn:E; [eauto|].
  intros [H|H]; [apply String.eqb_neq in E; congruence|auto].
Qed.

Lemma wp_existsBackupDir name (Q : bool -> World -> Prop) w :
  Q (match getSnapshot (snapshots (disk w)) name with Some _ => true | None => false end) w ->
  wp (existsBackupDir name) Q w.
Proof. auto. Qed.

Lemma wp_readSnapshot name s (Q : Snapshot -> World -> Prop) w :
  getSnapshot (snapshots (disk w)) name = Some s -> Q s w -> wp (readSnapshot name) Q w.
Proof.
  intros G HQ. unfold wp, readSnapshot, bind, getDisk. now rewrite G.
Qed.

Lemma wp_readdirBackupDirs (Q : list string -> World -> Prop) w :
  Q (map fst (snapshots (disk w))) w -> wp readdirBackupDirs Q w.
Proof. auto. Qed.

Lemma wp_restoreFromBackup b s (Q : bool -> World -> Prop) w :
  getSnapshot (snapshots (disk w)) b = Some s ->
  (forall w', disk w' = diskAfterRestore (clock w) s (disk w) ->
              logsQuietly w w' -> Q true w') ->
  wp (restoreFromBackup b) Q w.
Proof.
  intros G HQ. unfold restoreFromBackup. apply wp_tryCatch.
  apply wp_bind, wp_existsBackupDir. rewrite G.
  apply wp_bind, wp_ret. apply wp_bind, (wp_readSnapshot b s); [exact G|].
  apply wp_bind.
  apply wp_conseq with
    (Q := fun _ w1 =>
            w1 = mkWorld (mkFS (match snapMetadata s with
                                | Some c => Some c
                                | None => primary (disk w)
                                end)
                               (primaryTmp (disk w)) (mirror (disk w)) (mirrorTmp (disk w))
                               (uploads (disk w)) (snapshots (disk w)))
                         (console w) (clock w) (uniqueSuffix w)).
  { destruct (snapMetadata s) as [c|].
    - destruct w as [[p pt mi mt u sn] cs t sfx]. reflexivity.
    - destruct w as [[p pt mi mt u sn] cs t sfx]. reflexivity. }
  intros _ w1 ->. apply wp_bind.
  apply wp_conseq with
    (Q := fun _ w2 =>
            w2 = mkWorld (diskAfterRestore (clock w) s (disk w))
                         (console w) (clock w) (uniqueSuffix w)).
  { unfold diskAfterRestore. destruct (snapUploads s) as [files|].
    - unfold wp. rewrite copy_loop_run. reflexivity.
    - apply wp_ret. reflexivity. }
  intros _ w2 ->. apply wp_bind, wp_emit. apply wp_ret.
  apply HQ; [reflexivity|]. cbn [disk console clock uniqueSuffix].
  now apply (@logsQuietly_emit w).
Qed.

Lemma wp_existsSync p (Q : bool -> World -> Prop) w :
  Q (match fileAt p (disk w) with Some _ => true | None => false end) w ->
  wp (existsSync p) Q w.
Proof. auto. Qed.

Lemma wp_restoreIfEmpty (Q : unit -> World -> Prop) w :
  (forall w', disk w' = diskAfterRestoreIfEmpty (clock w) (disk w) ->
              logsQuietly w w' -> Q tt w') ->
  wp restoreIfEmpty Q w.
Proof.
  intros HQ. unfold restoreIfEmpty.
  apply wp_bind, wp_readdirUploads.
  apply wp_bind, wp_existsSync. apply wp_bind, wp_existsSync.
  unfold diskAfterRestoreIfEmpty, snapshotToRestore, mediaOnDisk in HQ.
  destruct (filter isMedia (names (uploads (disk w)))) as [|f0 fs0] eqn:EF; cbn [List.length Nat.eqb].
  2: { apply wp_ret. apply HQ; [reflexivity|apply logsQuietly_refl]. }
  apply wp_bind, wp_readdirBackupDirs.
  unfold latestSnapshot in HQ.
  destruct (rev (sort codeUnitCompare
                      (filter (startsWith "backup-") (map fst (snapshots (disk w))))))
    as [|b0 rest] eqn:EB; cbn [hd_error] in HQ.
  - destruct (_ || _).
    + unfold console_warn. apply wp_emit_quiet; try reflexivity.
      intros w1 D1 L1. apply HQ; auto.
    + apply wp_ret. apply HQ; [reflexivity|apply logsQuietly_refl].
  - assert (Ib : In b0 (map fst (snapshots (disk w)))).
    { assert (I : In b0 (b0 :: rest)) by (now left). rewrite <- EB in I.
      apply in_rev in I. apply sort_In in I. apply filter_In in I. tauto. }
    destruct (getSnapshot_In _ _ Ib) as [s G]. rewrite G in HQ.
    apply wp_bind, wp_emit_quiet; try reflexivity. intros w1 D1 L1.
    apply wp_bind. apply (@wp_restoreFromBackup b0 s); [now rewrite D1|].
    intros w2 D2 L2.
    unfold console_log. apply wp_bind, wp_emit_quiet; try reflexivity. intros w3 D3 L3.
    apply wp_bind, wp_readdirUploads. apply wp_emit_quiet; try reflexivity.
    intros w4 D4 L4.
    assert (C1 : clock w1 = clock w) by (destruct L1 as (l & (C & _) & _); exact C).
    apply HQ.
    + rewrite D4, D3, D2, D1, C1. reflexivity.
    + repeat (eapply logsQuietly_trans; [eassumption|]). apply logsQuietly_refl.
Qed.

Lemma findFile_upsert_same l f : findFile (upsertFile l f) (fname f) = Some f.
Proof.
  induction l as [|g l IH]; simpl.
  - now rewrite String.eqb_refl.
  - destruct (fname g =? fname f)%string eqn:E; simpl.
    + now rewrite String.eqb_refl.
    + now rewrite E.
Qed.

Lemma wp_reportPersistence (Q : unit -> World -> Prop) w :
  (forall w', disk w' = diskAfterMarker (clock w) (disk w) ->
              logsQuietly w w' -> Q tt w') ->
  wp reportPersistence Q w.
Proof.
  intros HQ. unfold reportPersistence. apply wp_bind.
  apply wp_conseq with
    (Q := fun c w1 =>
            writable c = true /\
            w1 = mkWorld (diskAfterMarker (clock w) (disk w))
                         (console w) (clock w) (uniqueSuffix w)).
  - unfold checkStoragePersistence. apply wp_tryCatch.
    apply wp_bind, wp_now. apply wp_bind.
    unfold wp at 1. unfold writeUpload, bind, now, getDisk, putDisk. cbn beta iota.
    apply wp_bind. unfold wp at 1, readUpload, bind, getDisk. cbn [disk uploads setUploads].
    change (findFile (upsertFile (uploads (disk w))
                        (mkFile ".persistence-marker" (clock w) (clock w)))
                     ".persistence-marker")
      with (findFile (upsertFile (uploads (disk w))
                        (mkFile ".persistence-marker" (clock w) (clock w)))
                     (fname (mkFile ".persistence-marker" (clock w) (clock w)))).
    rewrite findFile_upsert_same. cbn beta iota.
    apply wp_bind, wp_existsUpload. apply wp_ret. split; reflexivity.
  - intros c w1 [Hc ->]. rewrite Hc. cbn [negb]. unfold console_log.
    apply wp_emit. apply HQ; [reflexivity|]. cbn [disk console clock uniqueSuffix].
    now apply (logsQuietly_emit w).
Qed.

Lemma wp_reportCounts metadata files (Q : unit -> World -> Prop) w :
  (forall w', disk w' = disk w -> logsQuietly w w' -> Q tt w') ->
  wp (reportCounts metadata files) Q w.
Proof.
  intros HQ. unfold reportCounts, console_log.
  apply wp_bind, wp_emit_quiet; try reflexivity. intros w1 D1 L1.
  apply wp_bind, wp_emit_quiet; try reflexivity. intros w2 D2 L2.
  apply wp_bind, wp_emit_quiet; try reflexivity. intros w3 D3 L3.
  apply wp_bind, wp_emit_quiet; try reflexivity. intros w4 D4 L4.
  apply wp_bind, wp_emit_quiet; try reflexivity. intros w5 D5 L5.
  apply wp_emit_quiet; try reflexivity. intros w6 D6 L6.
  apply HQ; [congruence|].
  repeat (eapply logsQuietly_trans; [eassumption|]). apply logsQuietly_refl.
Qed.

Lemma wp_syncPrelude (Q : unit -> World -> Prop) w :
  (forall w',
     disk w' = diskAfterMarker (clock w) (diskAfterRestoreIfEmpty (clock w) (disk w)) ->
     logsQuietly w w' -> Q tt w') ->
  wp syncPrelude Q w.
Proof.
  intros HQ. unfold syncPrelude, console_log.
  apply wp_bind, wp_emit_quiet; try reflexivity. intros w1 D1 L1.
  apply wp_bind, wp_restoreIfEmpty. intros w2 D2 L2.
  apply wp_reportPersistence. intros w3 D3 L3.
  assert (C1 : clock w1 = clock w) by (destruct L1 as (l & (C & _) & _); exact C).
  assert (C2 : clock w2 = clock w)
    by (destruct L2 as (l & (C & _) & _); congruence).
  apply HQ.
  - rewrite D3, D2, D1, C2, C1. reflexivity.
  - repeat (eapply logsQuietly_trans; [eassumption|]). apply logsQuietly_refl.
Qed.

(** The whole of [syncBody]: it returns, and leaves the disk
    [diskAfterSync]; when the loops report no update, the console gains
    the line that says so and no line that reports a save. *)
Lemma syncBody_spec w :
  exists w',
    syncBody w = (Ret tt, w') /\
    w' = snd (syncBody w) /\
    disk w' = diskAfterSync (clock w) (disk w) /\
    clock w' = clock w /\ uniqueSuffix w' = uniqueSuffix w /\
    exists lines,
      console w' = console w ++ lines /\
      (snd (reconciled (diskAfterMarker (clock w)
                          (diskAfterRestoreIfEmpty (clock w) (disk w)))) = false ->
       quiet lines /\ In inSyncLine lines) /\
      (snd (reconciled (diskAfterMarker (clock w)
                          (diskAfterRestoreIfEmpty (clock w) (disk w)))) = true ->
       In savedLine lines /\ In syncedLine lines).
Proof.
  set (pre := diskAfterMarker (clock w) (diskAfterRestoreIfEmpty (clock w) (disk w))).
  assert (W : wp syncBody
                 (fun r w' =>
                    r = tt /\
                    disk w' = diskAfterSync (clock w) (disk w) /\
                    clock w' = clock w /\ uniqueSuffix w' = uniqueSuffix w /\
                    exists lines,
                      console w' = console w ++ lines /\
                      (snd (reconciled pre) = false -> quiet lines /\ In inSyncLine lines) /\
                      (snd (reconciled pre) = true ->
                       In savedLine lines /\ In syncedLine lines)) w).
  { unfold syncBody. apply wp_tryCatch.
    apply wp_bind, wp_syncPrelude. intros w1 D1 L1. fold pre in D1.
    apply wp_bind, wp_reconcile. intros w2 D2 C2 U2 (l2 & E2 & Hq & Hs).
    cbn [fst snd]. apply wp_reportCounts. intros w3 D3 L3.
    destruct L1 as (l1 & (C1 & U1 & E1) & Q1).
    destruct L3 as (l3 & (C3 & U3 & E3) & Q3).
    split; [reflexivity|]. split; [|split; [congruence|split; [congruence|]]].
    - rewrite D3, D2, D1. reflexivity.
    - exists (l1 ++ l2 ++ l3). split; [now rewrite E3, E2, E1, <- !app_assoc|].
      rewrite D1 in Hq, Hs. split.
      + intros H. destruct (Hq H) as [Hq1 Hq2]. split.
        * apply Forall_app. split; [exact Q1|]. apply Forall_app. now split.
        * apply in_or_app. right. apply in_or_app. now left.
      + intros H. destruct (Hs H) as [Hs1 Hs2].
        split; apply in_or_app; right; apply in_or_app; now left. }
  apply wp_elim in W. destruct W as ([] & w' & E & _ & H).
  exists w'. rewrite E. auto.
Qed.

(* ================================================================= *)
(** ** The disk across a run of the reconciliation *)

Lemma currentMetadata_of d : currentMetadata d = currentOf (primary d) (mirror d).
Proof. reflexivity. Qed.

Lemma primary_afterLoad d : primary (diskAfterLoad d) = loadedPrimary (primary d) (mirror d).
Proof. destruct d as [[[m|x]|] pt [[b|y]|] mt u s]; reflexivity. Qed.

Lemma mirror_afterLoad d : mirror (diskAfterLoad d) = mirror d.
Proof. destruct d as [[[m|x]|] pt [[b|y]|] mt u s]; reflexivity. Qed.

Lemma loadedPrimary_idem p mi : loadedPrimary (loadedPrimary p mi) mi = loadedPrimary p mi.
Proof. destruct p as [[m|x]|]; destruct mi as [[b|y]|]; reflexivity. Qed.

Lemma currentOf_loadedPrimary p mi : currentOf (loadedPrimary p mi) mi = currentOf p mi.
Proof. destruct p as [[m|x]|]; destruct mi as [[b|y]|]; reflexivity. Qed.

Lemma primary_afterReconcile d :
  primary (diskAfterReconcile d) =
  if snd (reconciled d) then Some (Json (fst (reconciled d)))
  else loadedPrimary (primary d) (mirror d).
Proof.
  unfold diskAfterReconcile. destruct (snd (reconciled d)); [reflexivity|apply primary_afterLoad].
Qed.

Lemma mirror_afterReconcile d :
  mirror (diskAfterReconcile d) =
  if snd (reconciled d) then Some (Json (fst (reconciled d))) else mirror d.
Proof.
  unfold diskAfterReconcile. destruct (snd (reconciled d)); [reflexivity|apply mirror_afterLoad].
Qed.

Lemma uploads_afterReconcile d : uploads (diskAfterReconcile d) = uploads d.
Proof.
  unfold diskAfterReconcile. destruct (snd (reconciled d)); cbn; apply uploads_afterLoad.
Qed.

Lemma snapshots_afterReconcile d : snapshots (diskAfterReconcile d) = snapshots d.
Proof.
  unfold diskAfterReconcile. destruct (snd (reconciled d)); cbn; apply snapshots_afterLoad.
Qed.

Lemma currentMetadata_afterReconcile d :
  currentMetadata (diskAfterReconcile d) = fst (reconciled d).
Proof.
  unfold diskAfterReconcile. destruct (snd (reconciled d)) eqn:U; [reflexivity|].
  rewrite currentMetadata_afterLoad. symmetry. now apply reconciled_not_updated.
Qed.

(** The marker is not a media file, and writing it keeps every name. *)
Lemma filter_names_upsert (keep : string -> bool) l f :
  keep (fname f) = false ->
  filter keep (names (upsertFile l f)) = filter keep (names l).
Proof.
  intros H. induction l as [|g l IH]; simpl.
  - now rewrite H.
  - destruct (fname g =? fname f)%string eqn:E; simpl.
    + apply String.eqb_eq in E. now rewrite E.
    + now rewrite IH.
Qed.

Lemma mediaOnDisk_afterMarker t d : mediaOnDisk (diskAfterMarker t d) = mediaOnDisk d.
Proof.
  unfold mediaOnDisk, diskAfterMarker. cbn [uploads setUploads].
  now apply filter_names_upsert.
Qed.

Lemma primary_afterMarker t d : primary (diskAfterMarker t d) = primary d.
Proof. reflexivity. Qed.

Lemma mirror_afterMarker t d : mirror (diskAfterMarker t d) = mirror d.
Proof. reflexivity. Qed.

Lemma snapshots_afterMarker t d : snapshots (diskAfterMarker t d) = snapshots d.
Proof. reflexivity. Qed.

Lemma names_restoredUploads t files u x :
  In x (names u) -> In x (names (restoredUploads t files u)).
Proof.
  revert u. induction files as [|f files IH]; intros u I; [exact I|].
  cbn [restoredUploads fold_left]. apply IH. apply names_upsertFile. now left.
Qed.

Lemma names_restoredUploads_from t files u f :
  In f files -> In (fname f) (names (restoredUploads t files u)).
Proof.
  revert u. induction files as [|g files IH]; intros u; [intros []|].
  intros [->|I]; cbn [restoredUploads fold_left].
  - apply names_restoredUploads. apply names_upsertFile. now right.
  - now apply IH.
Qed.

Lemma names_upsert_existing l f :
  In (fname f) (names l) -> names (upsertFile l f) = names l.
Proof.
  induction l as [|g l IH]; simpl; [tauto|].
  destruct (fname g =? fname f)%string eqn:E; simpl.
  - apply String.eqb_eq in E. now rewrite E.
  - intros [H|H]; [apply String.eqb_neq in E; congruence|]. now rewrite IH.
Qed.

Lemma names_restoredUploads_existing t files u :
  (forall f, In f files -> In (fname f) (names u)) ->
  names (restoredUploads t files u) = names u.
Proof.
  revert u. induction files as [|f files IH]; intros u H; [reflexivity|].
  cbn [restoredUploads fold_left].
  assert (E : names (upsertFile u (mkFile (fname f) t (bytes f))) = names u).
  { apply names_upsert_existing. cbn [fname]. apply H. now left. }
  fold (restoredUploads t files (upsertFile u (mkFile (fname f) t (bytes f)))).
  rewrite IH, E; [reflexivity|].
  intros g I. rewrite E. apply H. now right.
Qed.

Lemma names_afterRestoreIfEmpty t d x :
  In x (names (uploads d)) -> In x (names (uploads (diskAfterRestoreIfEmpty t d))).
Proof.
  intros I. unfold diskAfterRestoreIfEmpty.
  destruct (snapshotToRestore d) as [s|]; [|exact I].
  unfold diskAfterRestore. cbn [uploads].
  destruct (snapUploads s); [now apply names_restoredUploads|exact I].
Qed.

Lemma names_afterMarker t d x :
  In x (names (uploads d)) -> In x (names (uploads (diskAfterMarker t d))).
Proof.
  intros I. unfold diskAfterMarker. cbn [uploads setUploads].
  apply names_upsertFile. now left.
Qed.

Lemma names_afterSync t d x :
  In x (names (uploads d)) -> In x (names (uploads (diskAfterSync t d))).
Proof.
  intros I. unfold diskAfterSync. rewrite uploads_afterReconcile.
  now apply names_afterMarker, names_afterRestoreIfEmpty.
Qed.

Lemma snapshots_afterRestoreIfEmpty t d :
  snapshots (diskAfterRestoreIfEmpty t d) = snapshots d.
Proof.
  unfold diskAfterRestoreIfEmpty. now destruct (snapshotToRestore d).
Qed.

Lemma snapshots_afterSync t d : snapshots (diskAfterSync t d) = snapshots d.
Proof.
  unfold diskAfterSync.
  now rewrite snapshots_afterReconcile, snapshots_afterMarker, snapshots_afterRestoreIfEmpty.
Qed.

Lemma reconciled_no_media d :
  mediaOnDisk d = [] ->
  reconciled d =
  fold_left (pruneStep []) (keys (currentMetadata d)) (currentMetadata d, false).
Proof. intros E. unfold reconciled. rewrite E. reflexivity. Qed.

(** A second pass of load-and-reconcile over the result of a first one.
    The second pass starts from the metadata files the first one left,
    except that the primary file may have been overwritten by the copy
    [sm] of a snapshot, the same copy that the first pass started from. *)
Lemma reconcile_again pre0 pre1 (sm : option content) :
  mediaOnDisk pre1 = mediaOnDisk pre0 ->
  (forall ms, sm = Some (Json ms) -> reconciled pre1 = reconciled pre0) ->
  (forall c, sm = Some c -> primary pre0 = Some c) ->
  primary pre1 = match sm with
                 | Some c => Some c
                 | None => primary (diskAfterReconcile pre0)
                 end ->
  mirror pre1 = mirror (diskAfterReconcile pre0) ->
  primary (diskAfterReconcile pre1) = primary (diskAfterReconcile pre0) /\
  mirror (diskAfterReconcile pre1) = mirror (diskAfterReconcile pre0) /\
  ((forall ms, sm <> Some (Json ms)) -> snd (reconciled pre1) = false).
Proof.
  intros Emedia Hsame Hsm Hp Hm.
  assert (Hidem : currentMetadata pre1 = fst (reconciled pre0) ->
                  reconciled pre1 = (fst (reconciled pre0), false))
    by (intros E; now apply reconciled_idempotent).
  pose proof (reconciled_not_updated pre0) as Hnot.
  rewrite !primary_afterReconcile, !mirror_afterReconcile in *.
  rewrite (currentMetadata_of pre1), (currentMetadata_of pre0) in *.
  rewrite Hp, Hm in *. clear Hp Hm.
  destruct sm as [[ms|x]|].
  - (* the snapshot's metadata parses: the second pass repeats the first *)
    rewrite (Hsame ms eq_refl). rewrite (Hsm _ eq_refl).
    destruct (snd (reconciled pre0)); cbn; repeat split; auto;
      intros H; exfalso; apply (H ms); reflexivity.
  - (* the snapshot's metadata does not parse *)
    rewrite (Hsm _ eq_refl) in *.
    destruct (snd (reconciled pre0)) eqn:U.
    + rewrite Hidem by reflexivity. cbn. auto.
    + specialize (Hnot eq_refl).
      destruct (mirror pre0) as [[b|y]|]; cbn in *;
        rewrite Hidem by (symmetry; exact Hnot); cbn; auto.
  - (* no snapshot metadata was copied *)
    destruct (snd (reconciled pre0)) eqn:U.
    + rewrite Hidem by reflexivity. cbn. auto.
    + specialize (Hnot eq_refl).
      rewrite currentOf_loadedPrimary in Hidem.
      rewrite Hidem by (symmetry; exact Hnot). cbn [fst snd].
      rewrite loadedPrimary_idem. auto.
Qed.

Lemma latestSnapshot_snapshots d d' :
  snapshots d' = snapshots d -> latestSnapshot d' = latestSnapshot d.
Proof. unfold latestSnapshot. now intros ->. Qed.

Lemma snapshotToRestore_media d s : snapshotToRestore d = Some s -> mediaOnDisk d = [].
Proof.
  unfold snapshotToRestore. destruct (mediaOnDisk d); [reflexivity|discriminate].
Qed.

(** A run that restores was preceded by a run that restored the same
    snapshot: the runs add files and leave the snapshots alone. *)
Lemma snapshotToRestore_back t d s :
  snapshotToRestore (diskAfterSync t d) = Some s -> snapshotToRestore d = Some s.
Proof.
  intros H. pose proof (snapshotToRestore_media _ _ H) as M.
  unfold snapshotToRestore in *. rewrite M in H.
  rewrite (latestSnapshot_snapshots d (diskAfterSync t d)) in H
    by apply snapshots_afterSync.
  rewrite snapshots_afterSync in H.
  destruct (mediaOnDisk d) as [|x l] eqn:E; [exact H|].
  exfalso. assert (I : In x (mediaOnDisk d)) by (rewrite E; now left).
  unfold mediaOnDisk in I. apply filter_In in I. destruct I as [I F].
  apply (names_afterSync t) in I.
  assert (I' : In x (mediaOnDisk (diskAfterSync t d)))
    by (unfold mediaOnDisk; apply filter_In; now split).
  rewrite M in I'. destruct I'.
Qed.

Lemma uploads_afterSync_restored t d s files :
  snapshotToRestore d = Some s -> snapUploads s = Some files ->
  forall f, In f files -> In (fname f) (names (uploads (diskAfterSync t d))).
Proof.
  intros H Hf f I. unfold diskAfterSync. rewrite uploads_afterReconcile.
  apply names_afterMarker. unfold diskAfterRestoreIfEmpty. rewrite H.
  unfold diskAfterRestore. cbn [uploads]. rewrite Hf.
  now apply names_restoredUploads_from.
Qed.

Lemma mediaOnDisk_afterRestoreIfEmpty_again t0 t d :
  mediaOnDisk (diskAfterRestoreIfEmpty t (diskAfterSync t0 d)) =
  mediaOnDisk (diskAfterSync t0 d).
Proof.
  unfold diskAfterRestoreIfEmpty.
  destruct (snapshotToRestore (diskAfterSync t0 d)) as [s|] eqn:H; [|reflexivity].
  unfold mediaOnDisk, diskAfterRestore. cbn [uploads].
  destruct (snapUploads s) as [files|] eqn:Hf; [|reflexivity].
  rewrite names_restoredUploads_existing; [reflexivity|].
  apply (uploads_afterSync_restored t0 d s files); [|exact Hf].
  now apply (snapshotToRestore_back t0).
Qed.

(** Two runs in a row, on the disk. *)
Lemma sync_twice_on_disk t0 t d :
  let d1 := diskAfterSync t0 d in
  let d2 := diskAfterSync t d1 in
  primary d2 = primary d1 /\ mirror d2 = mirror d1 /\
  names (uploads d2) = names (uploads d1) /\
  (snapshotToRestore d1 = None ->
   snd (reconciled (diskAfterMarker t (diskAfterRestoreIfEmpty t d1))) = false).
Proof.
  intros d1 d2.
  set (pre0 := diskAfterMarker t0 (diskAfterRestoreIfEmpty t0 d)).
  set (pre1 := diskAfterMarker t (diskAfterRestoreIfEmpty t d1)).
  assert (E1 : d1 = diskAfterReconcile pre0) by reflexivity.
  assert (E2 : d2 = diskAfterReconcile pre1) by reflexivity.
  set (sm := match snapshotToRestore d1 with
             | Some s => snapMetadata s
             | None => None
             end).
  assert (Emedia : mediaOnDisk pre1 = mediaOnDisk pre0).
  { unfold pre1. rewrite mediaOnDisk_afterMarker.
    unfold d1 at 1. rewrite mediaOnDisk_afterRestoreIfEmpty_again.
    unfold mediaOnDisk. fold d1. rewrite E1, uploads_afterReconcile. reflexivity. }
  assert (Hp0 : forall c, sm = Some c -> primary pre0 = Some c).
  { intros c Hc. unfold sm in Hc.
    destruct (snapshotToRestore d1) as [s|] eqn:H; [|discriminate].
    apply snapshotToRestore_back in H.
    unfold pre0. rewrite primary_afterMarker. unfold diskAfterRestoreIfEmpty.
    rewrite H. unfold diskAfterRestore. cbn [primary]. now rewrite Hc. }
  assert (Hp1 : primary pre1 = match sm with
                               | Some c => Some c
                               | None => primary (diskAfterReconcile pre0)
                               end).
  { unfold pre1. rewrite primary_afterMarker. unfold diskAfterRestoreIfEmpty, sm.
    destruct (snapshotToRestore d1) as [s|]; [|now rewrite E1].
    unfold diskAfterRestore. cbn [primary]. rewrite E1. reflexivity. }
  assert (Hm1 : mirror pre1 = mirror (diskAfterReconcile pre0)).
  { unfold pre1. rewrite mirror_afterMarker. unfold diskAfterRestoreIfEmpty.
    destruct (snapshotToRestore d1) as [s|]; now rewrite E1. }
  assert (Hsame : forall ms, sm = Some (Json ms) -> reconciled pre1 = reconciled pre0).
  { intros ms Hc.
    assert (M1 : mediaOnDisk d1 = []).
    { unfold sm in Hc. destruct (snapshotToRestore d1) as [s|] eqn:H; [|discriminate].
      now apply snapshotToRestore_media in H. }
    assert (M0 : mediaOnDisk pre0 = []).
    { rewrite <- M1. unfold mediaOnDisk. rewrite E1, uploads_afterReconcile. reflexivity. }
    rewrite !reconciled_no_media by congruence.
    rewrite !currentMetadata_of. rewrite Hp1, Hc, (Hp0 _ Hc). reflexivity. }
  destruct (reconcile_again pre0 pre1 sm Emedia Hsame Hp0 Hp1 Hm1) as (R1 & R2 & R3).
  rewrite E2, E1. split; [exact R1|]. split; [exact R2|]. split.
  - rewrite !uploads_afterReconcile. unfold pre1.
    unfold diskAfterMarker at 1. cbn [uploads setUploads].
    rewrite names_upsert_existing.
    + assert (N := mediaOnDisk_afterRestoreIfEmpty_again t0 t d). fold d1 in N.
      unfold diskAfterRestoreIfEmpty in *.
      destruct (snapshotToRestore d1) as [s|] eqn:H; [|now rewrite E1, uploads_afterReconcile].
      unfold diskAfterRestore. cbn [uploads].
      destruct (snapUploads s) as [files|] eqn:Hf;
        [|now rewrite E1, uploads_afterReconcile].
      rewrite names_restoredUploads_existing; [now rewrite E1, uploads_afterReconcile|].
      apply (uploads_afterSync_restored t0 d s files); [|exact Hf].
      now apply (snapshotToRestore_back t0).
    + cbn [fname]. apply names_afterRestoreIfEmpty. rewrite E1, uploads_afterReconcile.
      unfold pre0, diskAfterMarker. cbn [uploads setUploads].
      apply names_upsertFile. now right.
  - intros H. rewrite <- E1 in H. apply R3. intros ms. unfold sm. rewrite H. discriminate.
Qed.

(* ================================================================= *)
(** ** The video pattern and the video extensions *)

Lemma takeWhile_dropWhile p l : takeWhile p l ++ dropWhile p l = l.
Proof.
  induction l as [|c r IH]; [reflexivity|]. cbn [takeWhile dropWhile].
  destruct (p c); [cbn [app]; now rewrite IH|reflexivity].
Qed.

Lemma takeWhile_all p l : forallb p l = true -> takeWhile p l = l.
Proof.
  induction l as [|c r IH]; [reflexivity|]. cbn [forallb takeWhile].
  intros H. apply andb_true_iff in H. destruct H as [-> H]. now rewrite IH.
Qed.

Lemma dropWhile_slash_free l :
  forallb Path.notSlash l = true -> dropWhile Path.isSlash l = l.
Proof.
  destruct l as [|c r]; [reflexivity|]. cbn [forallb dropWhile].
  intros H. apply andb_true_iff in H. destruct H as [H _].
  unfold Path.notSlash in H. apply negb_true_iff in H. now rewrite H.
Qed.

Lemma forallb_rev (p : ascii -> bool) l : forallb p (rev l) = forallb p l.
Proof.
  destruct (forallb p l) eqn:E.
  - apply forallb_forall. intros x I. apply in_rev in I.
    rewrite forallb_forall in E. now apply E.
  - destruct (forallb p (rev l)) eqn:E'; [|reflexivity].
    rewrite <- E. symmetry. apply forallb_forall. intros x I.
    rewrite forallb_forall in E'. apply E'. now apply in_rev in I.
Qed.

Lemma baseChars_slashFree l : forallb Path.notSlash l = true -> Path.baseChars l = l.
Proof.
  intros H. unfold Path.baseChars.
  rewrite dropWhile_slash_free by now rewrite forallb_rev.
  rewrite takeWhile_all by now rewrite forallb_rev.
  apply rev_involutive.
Qed.

(** The extension is the end of the component. *)
Lemma splitExt_suffix base : exists pre, base = pre ++ snd (Path.splitExt base).
Proof.
  unfold Path.splitExt.
  assert (S := takeWhile_dropWhile Path.notDot (rev base)).
  destruct (dropWhile Path.notDot (rev base)) as [|d [|c rpre]] eqn:E;
    try (exists base; cbn [snd]; now rewrite app_nil_r).
  destruct (ofChars base =? "..")%string;
    [exists base; cbn [snd]; now rewrite app_nil_r|].
  exists (rev (c :: rpre)). cbn [snd].
  assert (B : base = rev (takeWhile Path.notDot (rev base) ++ d :: c :: rpre))
    by (rewrite S; symmetry; apply rev_involutive).
  rewrite B at 1. rewrite rev_app_distr.
  change (d :: c :: rpre) with ([d] ++ c :: rpre).
  rewrite (rev_app_distr [d]). cbn [rev app]. now rewrite <- app_assoc.
Qed.

Lemma chars_ofChars l : chars (ofChars l) = l.
Proof. apply list_ascii_of_string_of_list_ascii. Qed.

Lemma ofChars_chars s : ofChars (chars s) = s.
Proof. apply string_of_list_ascii_of_string. Qed.

(** A lower-cased name ends with its lower-cased extension. *)
Lemma lowered_name_ends_with_extension f :
  slashFree f = true ->
  exists pre, chars (toLowerCase f) = pre ++ chars (toLowerCase (Path.extname f)).
Proof.
  intros H. unfold toLowerCase, Path.extname. rewrite !chars_ofChars.
  rewrite baseChars_slashFree by exact H.
  destruct (splitExt_suffix (chars f)) as [pre E].
  exists (map lowerChar pre). rewrite <- map_app. now rewrite <- E.
Qed.

(** On the names that pass the media filter, the pattern of the type test
    accepts the names with a video extension. *)
Lemma video_pattern_on_media f :
  slashFree f = true -> isMedia f = true ->
  matchesVideoPattern f = hasExtension videoExtensions f.
Proof.
  intros S M. destruct (lowered_name_ends_with_extension f S) as [pre E].
  unfold isMedia, hasExtension in *. unfold matchesVideoPattern, endsWith.
  rewrite E, rev_app_distr.
  apply has_In in M. unfold mediaExtensions in M. cbn [In] in M.
  repeat (destruct M as [M|M]; [rewrite <- M; reflexivity|]).
  destruct M.
Qed.

(* ================================================================= *)
(** ** Start-up reconciliation *)

Lemma findFile_upsert_other l f k :
  (fname f =? k)%string = false -> findFile (upsertFile l f) k = findFile l k.
Proof.
  intros N. induction l as [|g l IH]; cbn [upsertFile findFile].
  - now rewrite N.
  - destruct (fname g =? fname f)%string eqn:E; cbn [findFile].
    + apply String.eqb_eq in E. rewrite E, N. reflexivity.
    + now rewrite IH.
Qed.

Lemma mtimeOf_afterMarker t d k :
  isMedia k = true -> mtimeOf (diskAfterMarker t d) k = mtimeOf d k.
Proof.
  intros M. unfold mtimeOf, diskAfterMarker. cbn [uploads setUploads].
  rewrite findFile_upsert_other; [reflexivity|]. cbn [fname].
  destruct (".persistence-marker" =? k)%string eqn:E; [|reflexivity].
  apply String.eqb_eq in E. subst k. discriminate M.
Qed.

Lemma syncPrelude_disk w :
  disk (snd (syncPrelude w)) =
  diskAfterMarker (clock w) (diskAfterRestoreIfEmpty (clock w) (disk w)).
Proof.
  assert (W : wp syncPrelude
                 (fun _ w' => disk w' = diskAfterMarker (clock w)
                                          (diskAfterRestoreIfEmpty (clock w) (disk w))) w)
    by (apply wp_syncPrelude; intros w' D _; exact D).
  apply wp_elim in W. destruct W as (a & w' & E & D). now rewrite E.
Qed.

(** The statements of the body, were they to run, on the metadata they
    load and the media files they list once the restore step of an empty
    uploads directory is over (the initial ones when that step restores
    nothing): an entry is kept exactly when it is marked external or named
    by a media file of the uploads directory; a media file without an
    entry gets the default record; no other entry appears; and no file of
    the uploads directory is removed. *)
Lemma syncBody_prunes_and_completes (w : World) :
  let seen := disk (snd (syncPrelude w)) in
  let m := currentMetadata seen in
  let onDisk := mediaOnDisk seen in
  let w' := snd (syncBody w) in
  let m' := currentMetadata (disk w') in
  fst (syncBody w) = Ret tt /\
  (forall k r, get m k = Some r ->
     get m' k = if isExternal r || has onDisk k then Some r else None) /\
  (forall k, get m k = None -> has onDisk k = true ->
     get m' k = Some (mkMeta (Some "fun") (Some "") (Some (mtimeOf seen k))
                             (Some (if matchesVideoPattern k then "video" else "image"))
                             None (Some 999%Z) false None None None None)) /\
  (forall k, get m k = None -> has onDisk k = false -> get m' k = None) /\
  (forall k, has onDisk k = true -> slashFree k = true ->
     matchesVideoPattern k = hasExtension videoExtensions k) /\
  (forall k, has onDisk k = true <->
     In k (names (uploads seen)) /\ hasExtension mediaExtensions k = true) /\
  (forall f, In f (names (uploads (disk w))) -> In f (names (uploads (disk w')))) /\
  (snapshotToRestore (disk w) = None ->
     m = currentMetadata (disk w) /\ onDisk = mediaOnDisk (disk w) /\
     forall k, has onDisk k = true -> mtimeOf seen k = mtimeOf (disk w) k).
Proof.
  intros seen m onDisk w' m'.
  destruct (syncBody_spec w) as (w1 & E & Ew & D & _).
  assert (Eseen : seen = diskAfterMarker (clock w)
                           (diskAfterRestoreIfEmpty (clock w) (disk w)))
    by apply syncPrelude_disk.
  assert (Em' : m' = fst (reconciled seen)).
  { unfold m', w'. rewrite <- Ew, D. unfold diskAfterSync. rewrite <- Eseen.
    apply currentMetadata_afterReconcile. }
  assert (G := get_reconciled seen). fold m onDisk in G. rewrite <- Em' in G.
  split; [now rewrite E|].
  split; [intros k r H; now rewrite G, H|].
  split; [intros k H F; now rewrite G, H, F|].
  split; [intros k H F; now rewrite G, H, F|].
  split.
  { intros k H S. apply video_pattern_on_media; [exact S|].
    apply has_In in H. unfold onDisk, mediaOnDisk in H. now apply filter_In in H. }
  split.
  { intros k. rewrite has_In. unfold onDisk, mediaOnDisk. rewrite filter_In.
    reflexivity. }
  split.
  { intros f I. unfold w'. rewrite <- Ew, D. now apply names_afterSync. }
  intros N.
  assert (Es : seen = diskAfterMarker (clock w) (disk w))
    by (rewrite Eseen; unfold diskAfterRestoreIfEmpty; now rewrite N).
  split; [unfold m; now rewrite Es|].
  split; [unfold onDisk; rewrite Es; apply mediaOnDisk_afterMarker|].
  intros k H. rewrite Es. apply mtimeOf_afterMarker.
  apply has_In in H. unfold onDisk, mediaOnDisk in H. now apply filter_In in H.
Qed.

(** The statements of the body run a second time right after a first
    time: the metadata map, the primary metadata file, its mirror and the
    names in the uploads directory stay as the first run left them, and
    unless a snapshot is restored again the run reports 'Metadata is
    already in sync' and logs no save. *)
Lemma syncBody_twice (w : World) (t u : string) :
  let w1 := snd (syncBody w) in
  let w2 := snd (syncBody (later w1 t u)) in
  fst (syncBody (later w1 t u)) = Ret tt /\
  currentMetadata (disk w2) = currentMetadata (disk w1) /\
  primary (disk w2) = primary (disk w1) /\
  mirror (disk w2) = mirror (disk w1) /\
  names (uploads (disk w2)) = names (uploads (disk w1)) /\
  (snapshotToRestore (disk w1) = None ->
   exists lines, console w2 = console w1 ++ lines /\
                 In inSyncLine lines /\ quiet lines) /\
  (snapshotToRestore (disk w) = None -> snapshotToRestore (disk w1) = None).
Proof.
  intros w1 w2.
  destruct (syncBody_spec w) as (x1 & _ & Ex1 & D1 & _).
  destruct (syncBody_spec (later w1 t u))
    as (x2 & E2 & Ex2 & D2 & _ & _ & lines & C2 & Q2 & _).
  fold w2 in Ex2. subst x2. fold w1 in Ex1. subst x1.
  change (disk (later w1 t u)) with (disk w1) in *.
  change (clock (later w1 t u)) with t in *.
  change (console (later w1 t u)) with (console w1) in *.
  destruct (sync_twice_on_disk (clock w) t (disk w)) as (P & M & N & U).
  rewrite <- D1 in P, M, N, U. rewrite <- D2 in P, M, N.
  split; [now rewrite E2|].
  split; [now rewrite !currentMetadata_of, P, M|].
  split; [exact P|]. split; [exact M|]. split; [exact N|].
  split.
  - intros H. exists lines. split; [exact C2|].
    destruct (Q2 (U H)) as [Q I]. now split.
  - intros H. destruct (snapshotToRestore (disk w1)) as [s|] eqn:S; [|reflexivity].
    rewrite D1 in S. apply snapshotToRestore_back in S. congruence.
Qed.

(** Where the restore step repeats, so does the save. *)
Lemma syncBody_twice_after_restore :
  let w1 := snd (syncBody staleSnapshotWorld) in
  let w2 := snd (syncBody (later w1 "2024-02-02T00:00:00.000Z" "2")) in
  snapshotToRestore (disk w1) <> None /\
  (exists lines, console w2 = console w1 ++ lines /\
                 In savedLine lines /\ In syncedLine lines) /\
  ~ (exists lines, console w2 = console w1 ++ lines /\
                   In inSyncLine lines /\ quiet lines).
Proof.
  intros w1 w2. split; [vm_compute; discriminate|]. split.
  - exists (skipn (List.length (console w1)) (console w2)).
    split; [vm_compute; reflexivity|].
    split; vm_compute; repeat first [left; reflexivity | right].
  - intros (lines & E & I & Q).
    vm_compute in E. inversion E; subst lines; clear E.
    vm_compute in I.
    repeat (destruct I as [I|I]; [discriminate I|]). exact I.
Qed.

(* ----------------------------------------------------------------- *)
(** *** The function as it is shipped *)

Lemma syncMetadataWithFiles_rejected : syncMetadataWithFiles = SyntaxError "files".
Proof. reflexivity. Qed.

Lemma call_rejected w :
  call syncMetadataWithFiles w =
  (Throw "SyntaxError: Identifier 'files' has already been declared", w).
Proof. reflexivity. Qed.

(** C1. The reconciliation does not take place. The [try] block of
    [syncMetadataWithFiles] declares [files] twice (lines 1261 and 1310),
    an early SyntaxError, so the function is rejected when the script is
    parsed: a call runs none of its statements and leaves the disk and the
    console as they are, whatever they hold. In [driftedWorld] the record
    of [1700000000000-2.jpg], which is no external link and has no file,
    is not removed, and the video [1700000000000-4.MP4] of the uploads
    directory gets no record. *)
Theorem reconciliation_is_rejected_before_it_runs :
  syncMetadataWithFiles = SyntaxError "files" /\
  (forall w : World,
     fst (call syncMetadataWithFiles w)
     = Throw "SyntaxError: Identifier 'files' has already been declared" /\
     snd (call syncMetadataWithFiles w) = w) /\
  let m := currentMetadata (disk driftedWorld) in
  let m' := currentMetadata (disk (snd (call syncMetadataWithFiles driftedWorld))) in
  (get m "1700000000000-2.jpg" = Some (fileRecord None 999 None) /\
   isExternal (fileRecord None 999 None) = false /\
   has (mediaOnDisk (disk driftedWorld)) "1700000000000-2.jpg" = false /\
   get m' "1700000000000-2.jpg" = Some (fileRecord None 999 None)) /\
  (has (mediaOnDisk (disk driftedWorld)) "1700000000000-4.MP4" = true /\
   get m "1700000000000-4.MP4" = None /\
   get m' "1700000000000-4.MP4" = None).
Proof.
  split; [exact syncMetadataWithFiles_rejected|].
  split; [intros w; now rewrite call_rejected|].
  cbv zeta. rewrite call_rejected. cbn [snd].
  repeat split; reflexivity.
Qed.

(** C9. No run of the reconciliation reports that the metadata is in
    sync. The function is rejected for its second declaration of [files]
    (the defect of C1), so of two calls in a row neither runs a statement:
    the second does not return, the disk is as before the first, and no
    line is logged, the line 'Metadata is already in sync' in
    particular. *)
Theorem second_reconciliation_reports_nothing :
  forall (w : World) (t u : string),
    let w1 := snd (call syncMetadataWithFiles w) in
    let w2 := snd (call syncMetadataWithFiles (later w1 t u)) in
    fst (call syncMetadataWithFiles (later w1 t u)) <> Ret tt /\
    disk w2 = disk w /\
    console w2 = console w /\
    (forall lines, console w2 = console w ++ lines -> ~ In inSyncLine lines).
Proof.
  intros w t u. cbv zeta. rewrite !call_rejected. cbn [fst snd].
  split; [discriminate|]. split; [reflexivity|]. split; [reflexivity|].
  intros lines E I.
  change (console (later w t u)) with (console w) in E.
  rewrite <- (app_nil_r (console w)) in E at 1.
  apply app_inv_head in E. subst lines. destruct I.
Qed.

(* ================================================================= *)
(** ** The metadata store: saving, then loading *)

(** X1. [saveMetadata] returns on every disk, whatever the two metadata
    files held before: afterwards the primary file and its mirror both
    hold the saved map, neither temporary file is left behind, and the
    uploads and the snapshots are untouched; the next [loadMetadata]
    returns the saved map, writes nothing and prints nothing. *)
Theorem save_then_load_round_trip :
  forall (metadata : Metadata) (w : World),
    let w1 := snd (saveMetadata metadata w) in
    let w2 := snd (loadMetadata w1) in
    fst (saveMetadata metadata w) = Ret tt /\
    primary (disk w1) = Some (Json metadata) /\
    mirror (disk w1) = Some (Json metadata) /\
    primaryTmp (disk w1) = None /\ mirrorTmp (disk w1) = None /\
    uploads (disk w1) = uploads (disk w) /\
    snapshots (disk w1) = snapshots (disk w) /\
    fst (loadMetadata w1) = Ret metadata /\
    disk w2 = disk w1 /\ console w2 = console w1.
Proof.
  intros metadata w w1 w2. unfold w2, w1, loadMetadata.
  rewrite saveMetadata_run. cbn [fst snd]. rewrite loadMetadata_run. cbn.
  rewrite app_nil_r. repeat split; reflexivity.
Qed.

(** X2. A second [loadMetadata] right after a first returns the same map
    and leaves the disk as the first left it. When one of the two files
    parsed, the first load leaves a primary file that parses, so the
    second load reads it without a fallback and prints nothing. *)
Theorem load_twice_is_load_once :
  forall w : World,
    let w1 := snd (loadMetadata w) in
    let w2 := snd (loadMetadata w1) in
    fst (loadMetadata w1) = fst (loadMetadata w) /\
    disk w2 = disk w1 /\
    ((exists m, primary (disk w) = Some (Json m)) \/
     (exists m, mirror (disk w) = Some (Json m)) ->
     (exists m, primary (disk w1) = Some (Json m)) /\ console w2 = console w1).
Proof.
  intros w w1 w2. unfold w2, w1, loadMetadata.
  rewrite (loadMetadata_run w). cbn [fst snd]. rewrite loadMetadata_run. cbn [fst snd disk console].
  split; [now rewrite currentMetadata_afterLoad|].
  split; [apply diskAfterLoad_idem|].
  destruct w as [[[[m|x]|] pt [[b|y]|] mt u s] cs t sfx]; cbn;
    intros [[m' H]|[m' H]]; try discriminate;
    (split; [eexists; reflexivity | now rewrite app_nil_r]).
Qed.

Lemma load_twice_is_load_once_witness :
  fst (loadMetadata (snd (loadMetadata
         (worldOf (mkFS (Some (NotJson "{")) None
                        (Some (Json [("a.jpg", fileRecord None 0 None)])) None [] [])))))
  = Ret [("a.jpg", fileRecord None 0 None)].
Proof.
  exact (eq_trans
           (proj1 (load_twice_is_load_once
              (worldOf (mkFS (Some (NotJson "{")) None
                             (Some (Json [("a.jpg", fileRecord None 0 None)])) None [] []))))
           eq_refl).
Defined.

(* ================================================================= *)
(** ** The backup manager *)

Lemma getSnapshot_put_same l n s : getSnapshot (putSnapshot l n s) n = Some s.
Proof.
  induction l as [|[k v] l IH]; cbn [putSnapshot getSnapshot].
  - now rewrite String.eqb_refl.
  - destruct (k =? n)%string eqn:E; cbn [getSnapshot].
    + now rewrite String.eqb_refl.
    + now rewrite E.
Qed.

Lemma getSnapshot_put_other l n s k :
  (n =? k)%string = false -> getSnapshot (putSnapshot l n s) k = getSnapshot l k.
Proof.
  intros N. induction l as [|[k0 v] l IH]; cbn [putSnapshot getSnapshot].
  - now rewrite N.
  - destruct (k0 =? n)%string eqn:E; cbn [getSnapshot].
    + apply String.eqb_eq in E. subst k0. now rewrite N.
    + now rewrite IH.
Qed.

Lemma putSnapshot_put l n s1 s2 :
  putSnapshot (putSnapshot l n s1) n s2 = putSnapshot l n s2.
Proof.
  induction l as [|[k v] l IH]; cbn [putSnapshot].
  - now rewrite String.eqb_refl.
  - destruct (k =? n)%string eqn:E; cbn [putSnapshot].
    + now rewrite String.eqb_refl.
    + now rewrite E, IH.
Qed.

Lemma putSnapshot_names_existing l n s s0 :
  getSnapshot l n = Some s0 -> map fst (putSnapshot l n s) = map fst l.
Proof.
  induction l as [|[k v] l IH]; cbn [putSnapshot getSnapshot map fst]; [discriminate|].
  destruct (k =? n)%string eqn:E; cbn [map fst].
  - apply String.eqb_eq in E. now subst k.
  - intros H. now rewrite IH.
Qed.

(** The loop of lines 1168-1174 on a snapshot directory that has its
    [uploads] subdirectory. *)
Lemma backup_loop_run t name files :
  forall md copies d cs c sfx,
    getSnapshot (snapshots d) name = Some (mkSnapshot md (Some copies)) ->
    forEach files
      (fun file (_ : unit) =>
         s <- readSnapshot name ;;
         match snapUploads s with
         | Some copies =>
             writeSnapshot name
               (mkSnapshot (snapMetadata s)
                           (Some (upsertFile copies (mkFile (fname file) t (bytes file)))))
         | None => throw "ENOENT"
         end) tt (mkWorld d cs c sfx) =
    (Ret tt,
     mkWorld (setSnapshots d
                (putSnapshot (snapshots d) name
                   (mkSnapshot md (Some (restoredUploads t files copies)))))
             cs c sfx).
Proof.
  induction files as [|f files IH]; intros md copies d cs c sfx G.
  - cbn [forEach restoredUploads fold_left]. unfold ret. f_equal. f_equal.
    destruct d as [p pt mi mt u sn]. unfold setSnapshots. cbn in *. f_equal.
    clear - G. induction sn as [|[k v] sn IH]; cbn in *; [discriminate|].
    destruct (k =? name)%string eqn:E.
    + apply String.eqb_eq in E. subst k. congruence.
    + now rewrite <- IH.
  - cbn [forEach]. unfold bind at 1. unfold bind at 1.
    unfold readSnapshot at 1. unfold bind at 1. unfold getDisk at 1.
    cbn [disk]. rewrite G. unfold ret at 1. cbn [snapUploads snapMetadata].
    unfold writeSnapshot, bind, getDisk, putDisk. cbn [disk console clock uniqueSuffix].
    rewrite IH with (md := md)
                    (copies := upsertFile copies (mkFile (fname f) t (bytes f))).
    + cbn [restoredUploads fold_left]. unfold setSnapshots.
      cbn [snapshots primary primaryTmp mirror mirrorTmp uploads].
      now rewrite putSnapshot_put.
    + unfold setSnapshots. cbn [snapshots]. apply getSnapshot_put_same.
Qed.

(** [createBackup] in closed form. *)
Lemma createBackup_run w :
  createBackup w =
  (Ret (Some (backupNameAt (clock w))),
   mkWorld (diskAfterBackup (clock w) (disk w))
           (console w ++ [mkLog LOG "Backup created: " (StrArg (backupNameAt (clock w)))])
           (clock w) (uniqueSuffix w)).
Proof.
  destruct w as [d cs t sfx]. cbn [disk console clock uniqueSuffix].
  unfold createBackup, tryCatch.
  unfold bind at 1. unfold now at 1. cbn [clock].
  fold (backupNameAt t). set (name := backupNameAt t).
  unfold bind at 1. unfold existsBackupDir at 1. unfold bind at 1, getDisk at 1, ret at 1.
  cbn [disk].
  unfold diskAfterBackup, snapshotAfterBackup. fold name.
  destruct (getSnapshot (snapshots d) name) as [s0|] eqn:G0.
  - (* the directory is there already *)
    unfold bind at 1, ret at 1.
    unfold bind at 1. unfold existsSync at 1, bind at 1, getDisk at 1, ret at 1.
    cbn [disk fileAt].
    destruct (primary d) as [c|] eqn:P.
    + unfold bind at 1. unfold bind at 1. unfold readFileSync at 1, bind at 1, getDisk at 1.
      cbn [disk fileAt]. rewrite P. unfold ret at 1.
      unfold bind at 1. unfold readSnapshot at 1, bind at 1, getDisk at 1. cbn [disk].
      rewrite G0. unfold ret at 1.
      unfold writeSnapshot at 1, bind at 1, getDisk at 1, putDisk at 1.
      cbn [disk console clock uniqueSuffix].
      set (d1 := setSnapshots d _).
      assert (G1 : getSnapshot (snapshots d1) name = Some (mkSnapshot (Some c) (snapUploads s0)))
        by (unfold d1, setSnapshots; cbn [snapshots]; apply getSnapshot_put_same).
      unfold bind at 1. unfold readSnapshot at 1, bind at 1, getDisk at 1. cbn [disk].
      rewrite G1. unfold ret at 1. cbn [snapUploads snapMetadata].
      destruct (snapUploads s0) as [copies|] eqn:U.
      * unfold bind at 1, ret at 1. unfold bind at 1, getDisk at 1. cbn [disk].
        unfold bind at 1.
        rewrite backup_loop_run with (md := Some c) (copies := copies) by exact G1.
        unfold bind, emit, ret. cbn [disk console clock uniqueSuffix].
        f_equal. f_equal. unfold d1, setSnapshots.
        cbn [snapshots primary primaryTmp mirror mirrorTmp uploads].
        now rewrite putSnapshot_put.
      * unfold bind at 1. unfold writeSnapshot at 1, bind at 1, getDisk at 1, putDisk at 1.
        cbn [disk console clock uniqueSuffix].
        set (d2 := setSnapshots d1 _).
        assert (G2 : getSnapshot (snapshots d2) name = Some (mkSnapshot (Some c) (Some [])))
          by (unfold d2, setSnapshots; cbn [snapshots]; apply getSnapshot_put_same).
        unfold bind at 1, getDisk at 1. cbn [disk]. unfold bind at 1.
        assert (Eu : uploads d2 = uploads d) by reflexivity. rewrite Eu.
        rewrite backup_loop_run with (md := Some c) (copies := []) by exact G2.
        unfold bind, emit, ret. cbn [disk console clock uniqueSuffix].
        f_equal. f_equal. unfold d2, d1, setSnapshots.
        cbn [snapshots primary primaryTmp mirror mirrorTmp uploads].
        now rewrite !putSnapshot_put.
    + unfold bind at 1, ret at 1.
      unfold bind at 1. unfold readSnapshot at 1, bind at 1, getDisk at 1. cbn [disk].
      rewrite G0. unfold ret at 1.
      destruct s0 as [md0 [copies|]]; cbn [snapUploads snapMetadata].
      * unfold bind at 1, ret at 1. unfold bind at 1, getDisk at 1. cbn [disk].
        unfold bind at 1.
        rewrite backup_loop_run with (md := md0) (copies := copies) by exact G0.
        unfold bind, emit, ret. cbn [disk console clock uniqueSuffix]. reflexivity.
      * unfold bind at 1. unfold writeSnapshot at 1, bind at 1, getDisk at 1, putDisk at 1.
        cbn [disk console clock uniqueSuffix].
        set (d2 := setSnapshots d _).
        assert (G2 : getSnapshot (snapshots d2) name = Some (mkSnapshot md0 (Some [])))
          by (unfold d2, setSnapshots; cbn [snapshots]; apply getSnapshot_put_same).
        unfold bind at 1, getDisk at 1. cbn [disk]. unfold bind at 1.
        assert (Eu : uploads d2 = uploads d) by reflexivity. rewrite Eu.
        rewrite backup_loop_run with (md := md0) (copies := []) by exact G2.
        unfold bind, emit, ret. cbn [disk console clock uniqueSuffix].
        f_equal. f_equal. unfold d2, setSnapshots.
        cbn [snapshots primary primaryTmp mirror mirrorTmp uploads].
        now rewrite !putSnapshot_put.
  - (* a new directory *)
    unfold bind at 1. unfold writeSnapshot at 1, bind at 1, getDisk at 1, putDisk at 1.
    cbn [disk console clock uniqueSuffix].
    set (d0 := setSnapshots d _).
    assert (G1 : getSnapshot (snapshots d0) name = Some (mkSnapshot None None))
      by (unfold d0, setSnapshots; cbn [snapshots]; apply getSnapshot_put_same).
    unfold bind at 1. unfold existsSync at 1, bind at 1, getDisk at 1, ret at 1.
    cbn [disk fileAt].
    assert (Ep : primary d0 = primary d) by reflexivity. rewrite Ep.
    destruct (primary d) as [c|] eqn:P.
    + unfold bind at 1. unfold bind at 1. unfold readFileSync at 1, bind at 1, getDisk at 1.
      cbn [disk fileAt]. rewrite Ep. unfold ret at 1.
      unfold bind at 1. unfold readSnapshot at 1, bind at 1, getDisk at 1. cbn [disk].
      rewrite G1. unfold ret at 1.
      unfold writeSnapshot at 1, bind at 1, getDisk at 1, putDisk at 1.
      cbn [disk console clock uniqueSuffix snapUploads].
      set (d1 := setSnapshots d0 _).
      assert (G2 : getSnapshot (snapshots d1) name = Some (mkSnapshot (Some c) None))
        by (unfold d1, setSnapshots; cbn [snapshots]; apply getSnapshot_put_same).
      unfold bind at 1. unfold readSnapshot at 1, bind at 1, getDisk at 1. cbn [disk].
      rewrite G2. unfold ret at 1. cbn [snapUploads snapMetadata].
      unfold bind at 1. unfold writeSnapshot at 1, bind at 1, getDisk at 1, putDisk at 1.
      cbn [disk console clock uniqueSuffix].
      set (d2 := setSnapshots d1 _).
      assert (G3 : getSnapshot (snapshots d2) name = Some (mkSnapshot (Some c) (Some [])))
        by (unfold d2, setSnapshots; cbn [snapshots]; apply getSnapshot_put_same).
      unfold bind at 1, getDisk at 1. cbn [disk]. unfold bind at 1.
      assert (Eu : uploads d2 = uploads d) by reflexivity. rewrite Eu.
      rewrite backup_loop_run with (md := Some c) (copies := []) by exact G3.
      unfold bind, emit, ret. cbn [disk console clock uniqueSuffix].
      f_equal. f_equal. unfold d2, d1, d0, setSnapshots.
      cbn [snapshots primary primaryTmp mirror mirrorTmp uploads].
      now rewrite !putSnapshot_put.
    + unfold bind at 1, ret at 1.
      unfold bind at 1. unfold readSnapshot at 1, bind at 1, getDisk at 1. cbn [disk].
      rewrite G1. unfold ret at 1. cbn [snapUploads snapMetadata].
      unfold bind at 1. unfold writeSnapshot at 1, bind at 1, getDisk at 1, putDisk at 1.
      cbn [disk console clock uniqueSuffix].
      set (d2 := setSnapshots d0 _).
      assert (G3 : getSnapshot (snapshots d2) name = Some (mkSnapshot None (Some [])))
        by (unfold d2, setSnapshots; cbn [snapshots]; apply getSnapshot_put_same).
      unfold bind at 1, getDisk at 1. cbn [disk]. unfold bind at 1.
      assert (Eu : uploads d2 = uploads d) by reflexivity. rewrite Eu.
      rewrite backup_loop_run with (md := None) (copies := []) by exact G3.
      unfold bind, emit, ret. cbn [disk console clock uniqueSuffix].
      f_equal. f_equal. unfold d2, d0, setSnapshots.
      cbn [snapshots primary primaryTmp mirror mirrorTmp uploads].
      now rewrite !putSnapshot_put.
Qed.

Lemma findFile_In (l : list DiskFile) name g :
  findFile l name = Some g -> In g l /\ fname g = name.
Proof.
  induction l as [|f l IH]; cbn [findFile]; [discriminate|].
  destruct (fname f =? name)%string eqn:E.
  - intros H. inversion H; subst g. apply String.eqb_eq in E. split; [now left|exact E].
  - intros H. destruct (IH H). split; [now right|assumption].
Qed.

Lemma findFile_restored_other t files u name :
  ~ In name (names files) ->
  findFile (restoredUploads t files u) name = findFile u name.
Proof.
  revert u. induction files as [|f files IH]; intros u N; [reflexivity|].
  cbn [restoredUploads fold_left].
  fold (restoredUploads t files (upsertFile u (mkFile (fname f) t (bytes f)))).
  rewrite IH by (intros I; apply N; now right).
  apply findFile_upsert_other. cbn [fname]. apply String.eqb_neq.
  intros E. apply N. left. exact E.
Qed.

Lemma findFile_restored_in t files u f :
  NoDup (names files) -> In f files ->
  findFile (restoredUploads t files u) (fname f) = Some (mkFile (fname f) t (bytes f)).
Proof.
  revert u. induction files as [|g files IH]; intros u D I; [destruct I|].
  cbn [restoredUploads fold_left].
  fold (restoredUploads t files (upsertFile u (mkFile (fname g) t (bytes g)))).
  cbn [names map] in D. inversion D as [|x l N D']; subst.
  destruct I as [->|I].
  - rewrite findFile_restored_other by exact N.
    apply (findFile_upsert_same u (mkFile (fname f) t (bytes f))).
  - now apply IH.
Qed.

Lemma names_upsert_new l f :
  ~ In (fname f) (names l) -> names (upsertFile l f) = names l ++ [fname f].
Proof.
  induction l as [|g l IH]; cbn [upsertFile names map app]; [reflexivity|].
  intros N. destruct (fname g =? fname f)%string eqn:E.
  - apply String.eqb_eq in E. exfalso. apply N. now left.
  - cbn [map]. f_equal. apply IH. intros I. apply N. now right.
Qed.

Lemma NoDup_names_upsert l f : NoDup (names l) -> NoDup (names (upsertFile l f)).
Proof.
  intros D. destruct (in_dec string_dec (fname f) (names l)) as [I|N].
  - now rewrite names_upsert_existing.
  - rewrite names_upsert_new by exact N.
    apply NoDup_incl_NoDup with (l := fname f :: names l).
    + now constructor.
    + rewrite length_app. cbn. lia.
    + intros x Hx. apply in_or_app. cbn in *. tauto.
Qed.

Lemma NoDup_names_restored t files u :
  NoDup (names u) -> NoDup (names (restoredUploads t files u)).
Proof.
  revert u. induction files as [|f files IH]; intros u D; [exact D|].
  cbn [restoredUploads fold_left]. apply IH. now apply NoDup_names_upsert.
Qed.

Lemma names_restoredUploads_inv t files u x :
  In x (names (restoredUploads t files u)) -> In x (names u) \/ In x (names files).
Proof.
  revert u. induction files as [|f files IH]; intros u I; [now left|].
  cbn [restoredUploads fold_left] in I. apply IH in I. destruct I as [I|I].
  - apply names_upsertFile in I. cbn [fname] in I. destruct I as [I| ->]; [now left|].
    right. now left.
  - right. now right.
Qed.

Lemma wp_createBackup_run (Q : option string -> World -> Prop) w :
  Q (Some (backupNameAt (clock w)))
    (mkWorld (diskAfterBackup (clock w) (disk w))
             (console w ++ [mkLog LOG "Backup created: " (StrArg (backupNameAt (clock w)))])
             (clock w) (uniqueSuffix w)) ->
  wp createBackup Q w.
Proof. intros H. unfold wp. now rewrite createBackup_run. Qed.

Lemma backupName_is_backup t : startsWith "backup-" (backupNameAt t) = true.
Proof. reflexivity. Qed.

Lemma backupName_truthy t : truthy (Some (backupNameAt t)) = true.
Proof. reflexivity. Qed.

(** The copies a backup at time [t] leaves of the files of a directory
    without duplicate names. *)
Lemma snapshotAfterBackup_copies t d f :
  NoDup (names (uploads d)) -> In f (uploads d) ->
  exists copies,
    snapUploads (snapshotAfterBackup t d) = Some copies /\
    findFile copies (fname f) = Some (mkFile (fname f) t (bytes f)).
Proof.
  intros D I. unfold snapshotAfterBackup. cbn [snapUploads].
  eexists. split; [reflexivity|]. now apply findFile_restored_in.
Qed.

(** X3. [createBackup] never fails and changes nothing of the live data:
    it returns the name [backup-] followed by the time of the call with
    its [:] and [.] replaced by [-], a name that the restore step and the
    backup list recognise. The snapshot directory of that name then holds
    the text of the primary metadata file, if there is one, and a copy of
    every file of the uploads directory with the same bytes; the other
    snapshot directories are as before; and POST /api/backup answers with
    that name. *)
Theorem backup_copies_the_live_state :
  forall w : World,
    NoDup (names (uploads (disk w))) ->
    let name := backupNameAt (clock w) in
    let w' := snd (createBackup w) in
    fst (createBackup w) = Ret (Some name) /\
    fst (postBackup w) = Ret (Ok name) /\
    startsWith "backup-" name = true /\
    sameStore w w' /\
    (exists s copies,
       getSnapshot (snapshots (disk w')) name = Some s /\
       (forall c, primary (disk w) = Some c -> snapMetadata s = Some c) /\
       snapUploads s = Some copies /\
       forall f, In f (uploads (disk w)) ->
                 exists g, findFile copies (fname f) = Some g /\ bytes g = bytes f) /\
    (forall other, other <> name ->
       getSnapshot (snapshots (disk w')) other = getSnapshot (snapshots (disk w)) other).
Proof.
  intros w D name w'. unfold w', postBackup, tryCatch, bind.
  rewrite createBackup_run. cbn [fst snd disk]. fold name.
  split; [reflexivity|]. split; [reflexivity|]. split; [reflexivity|].
  split; [unfold sameStore; cbn; auto|]. split.
  - unfold diskAfterBackup, setSnapshots. cbn [snapshots]. fold name.
    exists (snapshotAfterBackup (clock w) (disk w)).
    destruct (snapshotAfterBackup (clock w) (disk w)) as [md [copies|]] eqn:E;
      [|discriminate E].
    exists copies. split; [apply getSnapshot_put_same|].
    split.
    { intros c P. unfold snapshotAfterBackup in E. rewrite P in E. now inversion E. }
    split; [reflexivity|].
    intros f I. destruct (snapshotAfterBackup_copies (clock w) (disk w) f D I)
      as (copies' & U & F).
    rewrite E in U. cbn [snapUploads] in U. inversion U; subst copies'.
    eexists. split; [exact F|reflexivity].
  - intros other N. unfold diskAfterBackup, setSnapshots. cbn [snapshots].
    apply getSnapshot_put_other. apply String.eqb_neq.
    intros Eq. apply N. symmetry. exact Eq.
Qed.

Lemma backup_copies_the_live_state_witness :
  fst (createBackup mixedGroupWorld) = Ret (Some "backup-2024-02-01T00-00-00-000Z") /\
  fst (postBackup mixedGroupWorld) = Ret (Ok "backup-2024-02-01T00-00-00-000Z").
Proof.
  pose proof (backup_copies_the_live_state mixedGroupWorld) as H.
  cbv zeta in H.
  assert (D : NoDup (names (uploads (disk mixedGroupWorld)))).
  { cbn. repeat constructor; cbn; intuition discriminate. }
  destruct (H D) as (A & B & _). split; [exact A|exact B].
Defined.

Lemma restoreFromBackup_unknown name w :
  getSnapshot (snapshots (disk w)) name = None ->
  restoreFromBackup name w =
  (Ret false,
   mkWorld (disk w)
           (console w ++ [mkLog ERROR "Error restoring backup:" (StrArg "Backup not found")])
           (clock w) (uniqueSuffix w)).
Proof.
  intros G. unfold restoreFromBackup, tryCatch, bind, existsBackupDir, bind, getDisk, ret.
  rewrite G. reflexivity.
Qed.

Lemma restoreFromBackup_known name s w :
  getSnapshot (snapshots (disk w)) name = Some s ->
  exists w',
    restoreFromBackup name w = (Ret true, w') /\
    disk w' = diskAfterRestore (clock w) s (disk w) /\
    clock w' = clock w /\ uniqueSuffix w' = uniqueSuffix w.
Proof.
  intros G.
  assert (W : wp (restoreFromBackup name)
                 (fun r w' => r = true /\ disk w' = diskAfterRestore (clock w) s (disk w) /\
                              clock w' = clock w /\ uniqueSuffix w' = uniqueSuffix w) w).
  { apply (wp_restoreFromBackup name s); [exact G|].
    intros w' D (lines & (C & U & _) & _). auto. }
  apply wp_elim in W. destruct W as (r & w' & E & -> & H). eauto.
Qed.

(** X4. [restoreFromBackup] of a snapshot directory that exists returns
    [true] and only adds to the live data: the primary metadata file takes
    the text of the snapshot's copy when the snapshot has one, the mirror
    and the snapshots stay as they are, every file of the uploads
    directory is still there, a file the snapshot does not hold keeps its
    contents and its time, every file of the snapshot is there with the
    snapshot's bytes, and no other name appears. *)
Theorem restore_only_adds :
  forall (w : World) (name : string) (s : Snapshot),
    getSnapshot (snapshots (disk w)) name = Some s ->
    let w' := snd (restoreFromBackup name w) in
    let held := match snapUploads s with Some files => files | None => [] end in
    fst (restoreFromBackup name w) = Ret true /\
    primary (disk w') = match snapMetadata s with
                        | Some c => Some c
                        | None => primary (disk w)
                        end /\
    mirror (disk w') = mirror (disk w) /\
    snapshots (disk w') = snapshots (disk w) /\
    (forall x, In x (names (uploads (disk w'))) <->
               In x (names (uploads (disk w))) \/ In x (names held)) /\
    (forall x, ~ In x (names held) ->
               findFile (uploads (disk w')) x = findFile (uploads (disk w)) x) /\
    (NoDup (names held) ->
     forall f, In f held ->
               findFile (uploads (disk w')) (fname f)
               = Some (mkFile (fname f) (clock w) (bytes f))).
Proof.
  intros w name s G w' held.
  destruct (restoreFromBackup_known name s w G) as (w1 & E & D & _).
  unfold w'. rewrite E. cbn [fst snd]. rewrite D. unfold diskAfterRestore.
  cbn [primary mirror snapshots uploads].
  split; [reflexivity|]. split; [reflexivity|]. split; [reflexivity|].
  split; [reflexivity|]. unfold held.
  destruct (snapUploads s) as [files|].
  - split; [|split].
    + intros x. split.
      * apply names_restoredUploads_inv.
      * intros [I|I]; [now apply names_restoredUploads|].
        unfold names in I. apply in_map_iff in I. destruct I as (f & <- & I).
        now apply names_restoredUploads_from.
    + intros x N. now apply findFile_restored_other.
    + intros Dn f I. now apply findFile_restored_in.
  - split; [|split].
    + intros x. cbn. tauto.
    + reflexivity.
    + intros _ f [].
Qed.

Lemma restore_only_adds_witness :
  fst (restoreFromBackup "backup-2024-01-01T00-00-00-000Z" staleSnapshotWorld) = Ret true /\
  mirror (disk (snd (restoreFromBackup "backup-2024-01-01T00-00-00-000Z" staleSnapshotWorld)))
  = mirror (disk staleSnapshotWorld).
Proof.
  pose proof (restore_only_adds staleSnapshotWorld "backup-2024-01-01T00-00-00-000Z" _ eq_refl)
    as (A & _ & B & _).
  split; [exact A|exact B].
Defined.

(** X5. A backup can be restored whatever happened to the live data in
    between, as long as the snapshot directory was left alone: restoring
    the name that [createBackup] returned brings back the text the
    primary metadata file had at the time of the backup and every file the
    uploads directory had then, with the bytes it had then, and removes
    none of the files that are there now. *)
Theorem backup_then_restore_brings_back :
  forall w later : World,
    NoDup (names (uploads (disk w))) ->
    (forall s copies,
       getSnapshot (snapshots (disk w)) (backupNameAt (clock w)) = Some s ->
       snapUploads s = Some copies -> NoDup (names copies)) ->
    getSnapshot (snapshots (disk later)) (backupNameAt (clock w))
    = getSnapshot (snapshots (disk (snd (createBackup w)))) (backupNameAt (clock w)) ->
    let w' := snd (restoreFromBackup (backupNameAt (clock w)) later) in
    fst (restoreFromBackup (backupNameAt (clock w)) later) = Ret true /\
    (forall c, primary (disk w) = Some c -> primary (disk w') = Some c) /\
    (forall f, In f (uploads (disk w)) ->
               exists g, findFile (uploads (disk w')) (fname f) = Some g /\
                         bytes g = bytes f) /\
    (forall x, In x (names (uploads (disk later))) -> In x (names (uploads (disk w')))).
Proof.
  intros w later D Dsnap Same w'.
  rewrite createBackup_run in Same. cbn [snd disk] in Same.
  unfold diskAfterBackup, setSnapshots in Same. cbn [snapshots] in Same.
  rewrite getSnapshot_put_same in Same.
  destruct (restoreFromBackup_known _ _ later Same) as (w1 & E & Dk & _).
  unfold w'. rewrite E. cbn [fst snd]. rewrite Dk. unfold diskAfterRestore.
  cbn [primary uploads]. split; [reflexivity|].
  unfold snapshotAfterBackup at 1 2. cbn [snapMetadata snapUploads].
  split; [intros c P; now rewrite P|].
  assert (Dc : NoDup (names (restoredUploads (clock w) (uploads (disk w))
                               (match snapUploads
                                        match getSnapshot (snapshots (disk w))
                                                (backupNameAt (clock w)) with
                                        | Some s => s
                                        | None => mkSnapshot None None
                                        end with
                                | Some c => c
                                | None => []
                                end)))).
  { apply NoDup_names_restored.
    destruct (getSnapshot (snapshots (disk w)) (backupNameAt (clock w))) as [s0|] eqn:G0.
    - destruct (snapUploads s0) as [c0|] eqn:U0; [now apply (Dsnap s0)|constructor].
    - constructor. }
  split.
  - intros f I.
    pose proof (findFile_restored_in (clock w) (uploads (disk w))
                  (match snapUploads
                           match getSnapshot (snapshots (disk w))
                                   (backupNameAt (clock w)) with
                           | Some s => s
                           | None => mkSnapshot None None
                           end with
                   | Some c => c
                   | None => []
                   end) f D I) as F.
    apply findFile_In in F. destruct F as [F _].
    pose proof (findFile_restored_in (clock later) _ (uploads (disk later)) _ Dc F) as R.
    cbn [fname bytes] in R. eexists. split; [exact R|reflexivity].
  - intros x I. now apply names_restoredUploads.
Qed.

Lemma backup_then_restore_brings_back_witness :
  let w := mixedGroupWorld in
  let later := snd (deleteImage "1706745600000-9.jpg" (snd (createBackup w))) in
  ~ In "1706745600000-9.jpg" (names (uploads (disk later))) /\
  exists g,
    findFile (uploads (disk (snd (restoreFromBackup (backupNameAt (clock w)) later))))
             "1706745600000-9.jpg" = Some g /\
    bytes g = "...".
Proof.
  intros w later.
  assert (D : NoDup (names (uploads (disk w)))).
  { cbn. repeat constructor; cbn; intuition discriminate. }
  assert (S : forall s copies,
             getSnapshot (snapshots (disk w)) (backupNameAt (clock w)) = Some s ->
             snapUploads s = Some copies -> NoDup (names copies))
    by (intros s copies G; discriminate G).
  pose proof (backup_then_restore_brings_back w later D S eq_refl) as (_ & _ & F & _).
  split.
  - cbn. intuition discriminate.
  - exact (F (stored "1706745600000-9.jpg") (or_intror (or_intror (or_introl eq_refl)))).
Defined.

(* ================================================================= *)
(** ** The persistence check and a restore that finds nothing *)

Lemma checkStoragePersistence_run w :
  checkStoragePersistence w =
  (Ret (mkCheck true true (Some (clock w)) None),
   mkWorld (diskAfterMarker (clock w) (disk w)) (console w) (clock w) (uniqueSuffix w)).
Proof.
  unfold checkStoragePersistence, tryCatch.
  unfold bind at 1, now at 1. unfold bind at 1.
  unfold writeUpload at 1, bind at 1, now at 1, bind at 1, getDisk at 1, putDisk at 1.
  cbn [disk console clock uniqueSuffix].
  unfold bind at 1. unfold readUpload at 1, bind at 1, getDisk at 1.
  cbn [disk uploads setUploads].
  change (findFile (upsertFile (uploads (disk w))
                      (mkFile ".persistence-marker" (clock w) (clock w)))
                   ".persistence-marker")
    with (findFile (upsertFile (uploads (disk w))
                      (mkFile ".persistence-marker" (clock w) (clock w)))
                   (fname (mkFile ".persistence-marker" (clock w) (clock w)))).
  rewrite findFile_upsert_same. unfold ret at 1. cbn [bytes].
  unfold bind at 1, existsUpload at 1, bind at 1, getDisk at 1, ret at 1.
  cbn [disk uploads setUploads].
  assert (H : has (names (upsertFile (uploads (disk w))
                            (mkFile ".persistence-marker" (clock w) (clock w))))
                  ".persistence-marker" = true).
  { apply has_In. apply names_upsertFile. now right. }
  rewrite H. reflexivity.
Qed.

(** X6. [checkStoragePersistence] writes its marker before it looks for
    it, so it reports [markerExists] on every disk, also on one that never
    held a marker: it returns writable, marker found, and the time of the
    call as the marker's text. The call leaves the file
    [.persistence-marker] with that text in the uploads directory, changes
    no other file there, no metadata file and no snapshot, and the media
    files the listing sees are the same. *)
Theorem persistence_check_finds_its_own_marker :
  forall w : World,
    let w' := snd (checkStoragePersistence w) in
    fst (checkStoragePersistence w) = Ret (mkCheck true true (Some (clock w)) None) /\
    findFile (uploads (disk w')) ".persistence-marker"
    = Some (mkFile ".persistence-marker" (clock w) (clock w)) /\
    (forall x, x <> ".persistence-marker" ->
               findFile (uploads (disk w')) x = findFile (uploads (disk w)) x) /\
    mediaOnDisk (disk w') = mediaOnDisk (disk w) /\
    primary (disk w') = primary (disk w) /\
    mirror (disk w') = mirror (disk w) /\
    snapshots (disk w') = snapshots (disk w) /\
    console w' = console w.
Proof.
  intros w w'. unfold w'. rewrite checkStoragePersistence_run. cbn [fst snd disk console].
  split; [reflexivity|]. split.
  { unfold diskAfterMarker. cbn [uploads setUploads].
    apply (findFile_upsert_same (uploads (disk w))
             (mkFile ".persistence-marker" (clock w) (clock w))). }
  split.
  { intros x N. unfold diskAfterMarker. cbn [uploads setUploads].
    apply findFile_upsert_other. cbn [fname]. apply String.eqb_neq. congruence. }
  split; [apply mediaOnDisk_afterMarker|].
  repeat split; reflexivity.
Qed.

(** X8. Restoring a name that has no snapshot directory changes nothing.
    For a name that is a single path component and not that of the mirror
    metadata file or of its temporary file, which the backups directory
    holds too, [restoreFromBackup] returns [false] after logging the
    error 'Backup not found', and the disk is as it was. *)
Theorem restore_of_unknown_backup_changes_nothing :
  forall (w : World) (name : string),
    plainName name = true ->
    mirrorName name = false ->
    getSnapshot (snapshots (disk w)) name = None ->
    fst (restoreFromBackup name w) = Ret false /\
    disk (snd (restoreFromBackup name w)) = disk w /\
    console (snd (restoreFromBackup name w))
    = console w ++ [mkLog ERROR "Error restoring backup:" (StrArg "Backup not found")].
Proof.
  intros w name _ _ G.
  rewrite restoreFromBackup_unknown by exact G. cbn. repeat split; reflexivity.
Qed.

Lemma restore_of_unknown_backup_changes_nothing_witness :
  fst (restoreFromBackup "backup-2023" staleSnapshotWorld) = Ret false /\
  disk (snd (restoreFromBackup "backup-2023" staleSnapshotWorld)) = disk staleSnapshotWorld.
Proof.
  destruct (restore_of_unknown_backup_changes_nothing staleSnapshotWorld "backup-2023"
              eq_refl eq_refl eq_refl) as (A & B & _).
  split; [exact A|exact B].
Defined.

(* ================================================================= *)
(** ** Upload acceptance and naming *)

Lemma chars_app (a b : string) : chars (a ++ b) = chars a ++ chars b.
Proof.
  unfold chars. induction a as [|c a IH]; cbn; [reflexivity|]. now rewrite IH.
Qed.

Lemma takeWhile_holds (p : ascii -> bool) l : forallb p (takeWhile p l) = true.
Proof.
  induction l as [|c r IH]; cbn; [reflexivity|].
  destruct (p c) eqn:E; cbn; [now rewrite E, IH|reflexivity].
Qed.

Lemma takeWhile_forallb (p q : ascii -> bool) l :
  forallb q l = true -> forallb q (takeWhile p l) = true.
Proof.
  induction l as [|c r IH]; cbn; [reflexivity|].
  intros H. apply andb_true_iff in H. destruct H as [H1 H2].
  destruct (p c); cbn; [now rewrite H1, IH|reflexivity].
Qed.

Lemma baseChars_noSlash p : forallb Path.notSlash (Path.baseChars p) = true.
Proof. unfold Path.baseChars. rewrite forallb_rev. apply takeWhile_holds. Qed.

Lemma dropWhile_stop (p : ascii -> bool) a x b :
  forallb p a = true -> p x = false -> dropWhile p (a ++ x :: b) = x :: b.
Proof.
  induction a as [|c a IH]; cbn; intros H N.
  - now rewrite N.
  - apply andb_true_iff in H. destruct H as [-> H]. now apply IH.
Qed.

Lemma takeWhile_stop (p : ascii -> bool) a x b :
  forallb p a = true -> p x = false -> takeWhile p (a ++ x :: b) = a.
Proof.
  induction a as [|c a IH]; cbn; intros H N.
  - now rewrite N.
  - apply andb_true_iff in H. destruct H as [-> H]. now rewrite IH.
Qed.

Lemma dropWhile_all (p : ascii -> bool) l : forallb p l = true -> dropWhile p l = [].
Proof.
  induction l as [|c r IH]; cbn; [reflexivity|].
  intros H. apply andb_true_iff in H. destruct H as [-> H]. now apply IH.
Qed.

Lemma dropWhile_head (p : ascii -> bool) l x r : dropWhile p l = x :: r -> p x = false.
Proof.
  induction l as [|c l IH]; cbn; [discriminate|].
  destruct (p c) eqn:E; [exact IH|]. intros H. inversion H; subst. exact E.
Qed.

(** An extension is empty, or a dot followed by characters that are
    neither dots nor, in a path component, slashes. *)
Lemma splitExt_shape base :
  forallb Path.notSlash base = true ->
  snd (Path.splitExt base) = [] \/
  exists T, snd (Path.splitExt base) = "."%char :: T /\
            forallb Path.notDot T = true /\ forallb Path.notSlash T = true.
Proof.
  intros S. unfold Path.splitExt.
  destruct (dropWhile Path.notDot (rev base)) as [|d [|c rpre]] eqn:E;
    [now left|now left|].
  destruct (ofChars base =? "..")%string; [now left|]. right. cbn [snd].
  exists (rev (takeWhile Path.notDot (rev base))).
  apply dropWhile_head in E. unfold Path.notDot in E. apply negb_false_iff in E.
  apply Ascii.eqb_eq in E. subst d. split; [reflexivity|].
  rewrite !forallb_rev. split; [apply takeWhile_holds|].
  apply takeWhile_forallb. now rewrite forallb_rev.
Qed.

Lemma suffixChar_plain c :
  isSuffixChar c = true -> Path.notDot c = true /\ Path.notSlash c = true.
Proof.
  destruct c as [[] [] [] [] [] [] [] []]; vm_compute; intros H;
    first [discriminate H | split; reflexivity].
Qed.

(** The extension of a name made of a unique suffix and an extension. *)
Lemma splitExt_of_stored S E :
  S <> [] -> forallb isSuffixChar S = true ->
  (E = [] \/ exists T, E = "."%char :: T /\ forallb Path.notDot T = true /\
                       forallb Path.notSlash T = true) ->
  forallb Path.notSlash (S ++ E) = true /\
  snd (Path.splitExt (Path.baseChars (S ++ E))) = E.
Proof.
  intros NE HS HE.
  assert (Sd : forallb Path.notDot S = true)
    by (apply forallb_forall; intros c I; rewrite forallb_forall in HS;
        now apply suffixChar_plain, HS).
  assert (Ss : forallb Path.notSlash S = true)
    by (apply forallb_forall; intros c I; rewrite forallb_forall in HS;
        now apply suffixChar_plain, HS).
  assert (Es : forallb Path.notSlash (S ++ E) = true).
  { rewrite forallb_app, Ss. destruct HE as [->|(T & -> & _ & Ts)]; [reflexivity|].
    cbn. exact Ts. }
  split; [exact Es|]. rewrite baseChars_slashFree by exact Es.
  unfold Path.splitExt. destruct HE as [->|(T & -> & Td & Ts)].
  - rewrite app_nil_r. rewrite dropWhile_all by now rewrite forallb_rev. reflexivity.
  - assert (R : rev (S ++ "."%char :: T) = rev T ++ "."%char :: rev S).
    { rewrite rev_app_distr. cbn [rev]. now rewrite <- app_assoc. }
    rewrite R.
    rewrite dropWhile_stop by (rewrite ?forallb_rev; auto).
    rewrite takeWhile_stop by (rewrite ?forallb_rev; auto).
    destruct S as [|c0 S']; [congruence|].
    destruct (rev (c0 :: S')) as [|y ys] eqn:Er.
    { apply (f_equal (@List.length ascii)) in Er. rewrite length_rev in Er. discriminate. }
    assert (N : (ofChars ((c0 :: S') ++ "."%char :: T) =? "..")%string = false).
    { cbn. cbn in Sd. apply andb_true_iff in Sd. destruct Sd as [Sd _].
      unfold Path.notDot in Sd. apply negb_true_iff in Sd. now rewrite Sd. }
    rewrite N. cbn [snd]. now rewrite rev_involutive.
Qed.

(** X9. The name multer stores an upload under, a unique suffix of digits
    and a dash followed by the extension of the original name, has no
    slash and has the extension of the original name, so the listing
    recognises the stored file as media exactly when it recognises the
    original name; and the upload filter accepts every original name that
    the listing recognises, provided the MIME type is an image or a video
    type. *)
Theorem stored_name_keeps_the_extension :
  forall suffix original mime : string,
    suffix <> "" ->
    forallb isSuffixChar (chars suffix) = true ->
    slashFree (storageFilename suffix original) = true /\
    Path.extname (storageFilename suffix original) = Path.extname original /\
    isMedia (storageFilename suffix original) = isMedia original /\
    (isMedia original = true ->
     startsWith "image/" mime || startsWith "video/" mime = true ->
     fileFilter original mime = true).
Proof.
  intros suffix original mime NE HS.
  assert (NS : chars suffix <> []).
  { intros E. apply NE. rewrite <- (ofChars_chars suffix), E. reflexivity. }
  pose proof (splitExt_shape (Path.baseChars (chars original))
                (baseChars_noSlash (chars original))) as Sh.
  destruct (splitExt_of_stored (chars suffix)
              (snd (Path.splitExt (Path.baseChars (chars original)))) NS HS Sh)
    as [Sl Ex].
  assert (C : chars (storageFilename suffix original)
              = chars suffix ++ snd (Path.splitExt (Path.baseChars (chars original)))).
  { unfold storageFilename, Path.extname. now rewrite chars_app, chars_ofChars. }
  assert (Eext : Path.extname (storageFilename suffix original) = Path.extname original).
  { unfold Path.extname at 1. rewrite C, Ex. reflexivity. }
  split; [unfold slashFree; now rewrite C|].
  split; [exact Eext|].
  split; [unfold isMedia, hasExtension; now rewrite Eext|].
  intros M Mi. unfold fileFilter. rewrite Mi, andb_true_r.
  unfold isMedia, hasExtension in M. apply has_In in M.
  unfold mediaExtensions in M. cbn [In] in M.
  repeat (destruct M as [M|M]; [rewrite <- M; reflexivity|]). destruct M.
Qed.

Lemma stored_name_keeps_the_extension_witness :
  Path.extname (storageFilename "1706745600000-123456789" "Holiday.Photo.JPG") = ".JPG" /\
  isMedia (storageFilename "1706745600000-123456789" "Holiday.Photo.JPG") = true.
Proof.
  pose proof (stored_name_keeps_the_extension "1706745600000-123456789" "Holiday.Photo.JPG"
                "image/jpeg" ltac:(discriminate) eq_refl) as (_ & A & B & _).
  split; [exact A|exact B].
Defined.

(* ================================================================= *)
(** ** The periodic backup of the upload route *)

Lemma wp_deriveOrder_disk name g (Q : Z -> World -> Prop) w :
  (forall w', diskAfterLoad (disk w') = diskAfterLoad (disk w) ->
              clock w' = clock w -> uniqueSuffix w' = uniqueSuffix w ->
              Q (derivedOrder (disk w) name g) w') ->
  wp (deriveOrder name g) Q w.
Proof.
  intros H. unfold deriveOrder, derivedOrder in *.
  destruct (extractOrderFromFilename name) as [o|]; [now apply wp_ret, H|].
  destruct g as [g|]; [|now apply wp_ret, H].
  destruct (truthy (Some g)); [|now apply wp_ret, H].
  apply wp_bind, wp_load. apply wp_bind, wp_readdirUploads. apply wp_ret.
  cbn [disk]. rewrite uploads_afterLoad. apply H; [apply diskAfterLoad_idem| |]; reflexivity.
Qed.

(** The disk an upload leaves. *)
Lemma postUpload_disk w file cat desc g :
  let record :=
    uploadedRecord (clock w) file cat desc g
      (derivedOrder (disk w) (originalname file) (if truthy g then g else None)) in
  let m' := set (currentMetadata (disk w)) (filename file) record in
  let saved := diskAfterSave m' (diskAfterLoad (disk w)) in
  disk (snd (postUpload (mkUploadRequest (Some file) cat desc g) w)) =
  if (List.length (keys m') mod 5 =? 0)%nat
  then diskAfterBackup (clock w) saved
  else saved.
Proof.
  intros record m' saved.
  assert (W : wp (postUpload (mkUploadRequest (Some file) cat desc g))
                 (fun _ w' =>
                    disk w' = if (List.length (keys m') mod 5 =? 0)%nat
                              then diskAfterBackup (clock w) saved
                              else saved) w).
  { subst saved m' record. unfold uploadedRecord.
    unfold postUpload. cbn [req_file req_category req_description req_groupId].
    apply wp_bind, wp_now. apply wp_bind, wp_deriveOrder_disk.
    intros w1 Hd Hc Hx.
    apply wp_bind, wp_load. apply wp_bind, wp_save. apply wp_bind.
    cbn [disk clock console uniqueSuffix].
    assert (Em : currentMetadata (disk w1) = currentMetadata (disk w)).
    { rewrite <- (currentMetadata_afterLoad (disk w1)), Hd.
      apply currentMetadata_afterLoad. }
    rewrite Em, Hd.
    destruct (_ mod 5 =? 0)%nat.
    - apply wp_bind, wp_emit. apply wp_bind. apply wp_createBackup_run.
      apply wp_ret. apply wp_ret. cbn [disk clock]. now rewrite Hc.
    - apply wp_ret. apply wp_ret. reflexivity. }
  apply wp_elim in W. destruct W as (r & w' & E & H). now rewrite E.
Qed.

(** X10. The periodic backup of POST /api/upload goes by the number of
    metadata records, not by the number of uploads: when the metadata map
    with the new record in it holds a multiple of five records, the route
    leaves a snapshot directory named after the time of the request that
    holds that metadata map and a copy of every file of the uploads
    directory; otherwise the snapshot directories are as before. *)
Theorem upload_backs_up_on_every_fifth_record :
  forall (w : World) (file : UploadedFile) (cat desc g : option string),
    NoDup (names (uploads (disk w))) ->
    let w' := snd (postUpload (mkUploadRequest (Some file) cat desc g) w) in
    let m' := currentMetadata (disk w') in
    get m' (filename file) <> None /\
    ((List.length (keys m') mod 5 = 0)%nat ->
     exists s copies,
       getSnapshot (snapshots (disk w')) (backupNameAt (clock w)) = Some s /\
       snapMetadata s = Some (Json m') /\
       snapUploads s = Some copies /\
       forall f, In f (uploads (disk w)) ->
                 exists c, findFile copies (fname f) = Some c /\ bytes c = bytes f) /\
    ((List.length (keys m') mod 5 <> 0)%nat ->
     snapshots (disk w') = snapshots (disk w)).
Proof.
  intros w file cat desc g D w' m'.
  destruct (postUpload_spec w file cat desc g) as (w1 & E & Hm & Hu).
  cbv zeta in Hm. pose proof (postUpload_disk w file cat desc g) as Hd. cbv zeta in Hd.
  assert (Ew : w' = w1) by (unfold w'; now rewrite E).
  assert (Em : m' = set (currentMetadata (disk w)) (filename file)
                        (uploadedRecord (clock w) file cat desc g
                           (derivedOrder (disk w) (originalname file)
                              (if truthy g then g else None))))
    by (unfold m'; now rewrite Ew).
  fold w' in Hd. rewrite <- Em in Hd.
  split; [rewrite Em, get_set_same; discriminate|].
  split.
  - intros H5. apply Nat.eqb_eq in H5. rewrite H5 in Hd. rewrite Hd.
    set (saved := diskAfterSave m' (diskAfterLoad (disk w))).
    assert (Du : NoDup (names (uploads saved)))
      by (unfold saved, diskAfterSave; cbn [uploads]; now rewrite uploads_afterLoad).
    unfold diskAfterBackup, setSnapshots. cbn [snapshots].
    rewrite getSnapshot_put_same.
    exists (snapshotAfterBackup (clock w) saved).
    exists (restoredUploads (clock w) (uploads saved)
              (match snapUploads
                       match getSnapshot (snapshots saved) (backupNameAt (clock w)) with
                       | Some s => s
                       | None => mkSnapshot None None
                       end with
               | Some c => c
               | None => []
               end)).
    split; [reflexivity|]. split; [reflexivity|]. split; [reflexivity|].
    intros f I.
    assert (I' : In f (uploads saved))
      by (unfold saved, diskAfterSave; cbn [uploads]; now rewrite uploads_afterLoad).
    eexists. split; [now apply findFile_restored_in|reflexivity].
  - intros H5. apply Nat.eqb_neq in H5. rewrite H5 in Hd. rewrite Hd.
    unfold diskAfterSave. cbn [snapshots]. apply snapshots_afterLoad.
Qed.

Lemma upload_backs_up_on_every_fifth_record_witness :
  let w' := snd (postUpload
                   (mkUploadRequest
                      (Some (mkUploadedFile "1706745600000-10.jpg" "a.jpg" "image/jpeg"))
                      None None None) mixedGroupWorld) in
  snapshots (disk w') = snapshots (disk mixedGroupWorld).
Proof.
  assert (D : NoDup (names (uploads (disk mixedGroupWorld)))).
  { cbn. repeat constructor; cbn; intuition discriminate. }
  pose proof (upload_backs_up_on_every_fifth_record mixedGroupWorld
                (mkUploadedFile "1706745600000-10.jpg" "a.jpg" "image/jpeg")
                None None None D) as (_ & _ & H).
  apply H. vm_compute. discriminate.
Defined.

(* ================================================================= *)
(** ** Deleting one file or one link *)

Lemma delete_absent (m : Metadata) k : get m k = None -> delete m k = m.
Proof.
  unfold delete. induction m as [|[k0 v0] m IH]; cbn [get filter fst]; [reflexivity|].
  destruct (k0 =? k)%string eqn:E; [discriminate|]. cbn [negb].
  intros H. now rewrite IH.
Qed.

Lemma findFile_removeFile_other l name x :
  x <> name -> findFile (removeFile l name) x = findFile l x.
Proof.
  intros N. unfold removeFile. induction l as [|f l IH]; cbn [filter findFile]; [reflexivity|].
  destruct (fname f =? name)%string eqn:E; cbn [negb findFile].
  - apply String.eqb_eq in E.
    destruct (fname f =? x)%string eqn:E'; [|exact IH].
    apply String.eqb_eq in E'. congruence.
  - now rewrite IH.
Qed.

(** DELETE /api/images/:id for an id that names neither a group nor a
    link. *)
Lemma deleteFile_run id w :
  startsWith "group-" id = false -> startsWith "link-" id = false ->
  exists w',
    deleteImage id w =
    (Ret (if has (names (uploads (disk w))) id
          then Ok FileDeleted else Error 404 "File not found"), w') /\
    currentMetadata (disk w') =
      (if has (names (uploads (disk w))) id
       then delete (currentMetadata (disk w)) id else currentMetadata (disk w)) /\
    uploads (disk w') =
      (if has (names (uploads (disk w))) id
       then removeFile (uploads (disk w)) id else uploads (disk w)) /\
    snapshots (disk w') = snapshots (disk w).
Proof.
  intros Hg Hl.
  assert (W : wp (deleteImage id)
                 (fun r w' =>
                    r = (if has (names (uploads (disk w))) id
                         then Ok FileDeleted else Error 404 "File not found") /\
                    currentMetadata (disk w') =
                      (if has (names (uploads (disk w))) id
                       then delete (currentMetadata (disk w)) id
                       else currentMetadata (disk w)) /\
                    uploads (disk w') =
                      (if has (names (uploads (disk w))) id
                       then removeFile (uploads (disk w)) id else uploads (disk w)) /\
                    snapshots (disk w') = snapshots (disk w)) w).
  { unfold deleteImage. apply wp_tryCatch. apply wp_bind, wp_load. rewrite Hg, Hl.
    apply wp_bind, wp_existsUpload. cbn [disk]. rewrite uploads_afterLoad.
    destruct (has (names (uploads (disk w))) id) eqn:H.
    - apply wp_bind, wp_unlinkUpload; [cbn [disk]; now rewrite uploads_afterLoad|].
      apply wp_bind.
      destruct (get (currentMetadata (disk w)) id) as [r|] eqn:G.
      + apply wp_save. apply wp_ret. cbn [disk console clock uniqueSuffix].
        rewrite currentMetadata_afterSave. cbn [diskAfterSave uploads snapshots setUploads].
        rewrite uploads_afterLoad, snapshots_afterLoad. auto.
      + apply wp_ret. apply wp_ret. cbn [disk].
        rewrite delete_absent by exact G.
        assert (Ec : currentMetadata (setUploads (diskAfterLoad (disk w))
                                        (removeFile (uploads (diskAfterLoad (disk w))) id))
                     = currentMetadata (disk w))
          by (rewrite <- (currentMetadata_afterLoad (disk w)); reflexivity).
        rewrite Ec. cbn [setUploads uploads snapshots].
        rewrite uploads_afterLoad, snapshots_afterLoad. auto.
    - apply wp_ret. cbn [disk].
      rewrite currentMetadata_afterLoad, uploads_afterLoad, snapshots_afterLoad. auto. }
  apply wp_elim in W. destruct W as (r & w' & E & -> & H). eauto.
Qed.

(** X11. DELETE /api/images/:id for an id that is a single path
    component (no slash, not [.] or [..]) and starts with neither
    [group-] nor [link-]: when the uploads directory holds a file of that
    name the route answers success, the file is gone and its metadata
    record with it, and every other file and record is as before; when it
    holds none the route answers 404 and changes neither the files nor the
    metadata map, so a record whose file is already missing stays. *)
Theorem delete_file_removes_file_and_record :
  forall (w : World) (id : string),
    plainName id = true ->
    startsWith "group-" id = false ->
    startsWith "link-" id = false ->
    let m := currentMetadata (disk w) in
    let files := names (uploads (disk w)) in
    let w' := snd (deleteImage id w) in
    let m' := currentMetadata (disk w') in
    (In id files ->
     fst (deleteImage id w) = Ret (Ok FileDeleted) /\
     ~ In id (names (uploads (disk w'))) /\
     get m' id = None /\
     (forall k, k <> id -> get m' k = get m k) /\
     (forall x, x <> id ->
                findFile (uploads (disk w')) x = findFile (uploads (disk w)) x)) /\
    (~ In id files ->
     fst (deleteImage id w) = Ret (Error 404 "File not found") /\
     m' = m /\ uploads (disk w') = uploads (disk w)).
Proof.
  intros w id _ Hg Hl m files w' m'.
  destruct (deleteFile_run id w Hg Hl) as (w1 & E & Hm & Hu & _).
  unfold m', w'. rewrite E. cbn [fst snd]. rewrite Hm, Hu. fold files. split.
  - intros I. apply has_In in I. rewrite I. split; [reflexivity|]. split.
    { intros J. apply names_removeFile in J. destruct J as [_ J]. congruence. }
    split; [rewrite get_delete; now rewrite String.eqb_refl|]. split.
    + intros k N. rewrite get_delete.
      destruct (id =? k)%string eqn:Ek; [|reflexivity].
      apply String.eqb_eq in Ek. congruence.
    + intros x N. now apply findFile_removeFile_other.
  - intros N. apply has_false in N. rewrite N. auto.
Qed.

Lemma delete_file_removes_file_and_record_witness :
  fst (deleteImage "1706745600000-9.jpg" mixedGroupWorld) = Ret (Ok FileDeleted) /\
  fst (deleteImage "missing.jpg" mixedGroupWorld) = Ret (Error 404 "File not found").
Proof.
  split.
  - exact (proj1 (proj1 (delete_file_removes_file_and_record mixedGroupWorld
                           "1706745600000-9.jpg" eq_refl eq_refl eq_refl)
                        (or_intror (or_intror (or_introl eq_refl))))).
  - refine (proj1 (proj2 (delete_file_removes_file_and_record mixedGroupWorld
                            "missing.jpg" eq_refl eq_refl eq_refl) _)).
    cbn. intuition discriminate.
Defined.

Lemma link_is_no_group id : startsWith "link-" id = true -> startsWith "group-" id = false.
Proof.
  destruct id as [|c r]; [discriminate|]. unfold startsWith, chars.
  cbn [list_ascii_of_string isPrefix].
  destruct (Ascii.eqb "l" c) eqn:E; [|discriminate].
  apply Ascii.eqb_eq in E. subst c. reflexivity.
Qed.

(** X12. DELETE /api/images/:id for an id that starts with [link-]: when
    the metadata map has a record under that id the route answers success
    and the record is gone, every other record is as before; when it has
    none the route answers 404 and the map is as before. In both cases no
    file of the uploads directory is touched, also not one of that name. *)
Theorem delete_link_removes_the_record_only :
  forall (w : World) (id : string),
    startsWith "link-" id = true ->
    let m := currentMetadata (disk w) in
    let w' := snd (deleteImage id w) in
    let m' := currentMetadata (disk w') in
    uploads (disk w') = uploads (disk w) /\
    (get m id <> None ->
     fst (deleteImage id w) = Ret (Ok LinkDeleted) /\
     get m' id = None /\
     (forall k, k <> id -> get m' k = get m k)) /\
    (get m id = None ->
     fst (deleteImage id w) = Ret (Error 404 "Link not found") /\ m' = m).
Proof.
  intros w id Hl m w' m'. pose proof (link_is_no_group id Hl) as Hg.
  assert (W : wp (deleteImage id)
                 (fun r w1 =>
                    uploads (disk w1) = uploads (disk w) /\
                    match get m id with
                    | Some _ => r = Ok LinkDeleted /\
                                currentMetadata (disk w1) = delete m id
                    | None => r = Error 404 "Link not found" /\
                              currentMetadata (disk w1) = m
                    end) w).
  { unfold deleteImage. apply wp_tryCatch. apply wp_bind, wp_load. rewrite Hg, Hl.
    fold m. destruct (get m id) as [r|] eqn:G.
    - apply wp_bind, wp_save. apply wp_ret. cbn [disk].
      rewrite currentMetadata_afterSave. cbn [diskAfterSave uploads].
      rewrite uploads_afterLoad. auto.
    - apply wp_ret. cbn [disk]. rewrite uploads_afterLoad, currentMetadata_afterLoad. auto. }
  apply wp_elim in W. destruct W as (r & w1 & E & Hu & H).
  unfold m', w'. rewrite E. cbn [fst snd]. split; [exact Hu|].
  destruct (get m id) as [r0|] eqn:G; destruct H as [-> Hm].
  - split; [|intros C; discriminate C].
    intros _. split; [reflexivity|]. rewrite Hm.
    split; [rewrite get_delete; now rewrite String.eqb_refl|].
    intros k N. rewrite get_delete.
    destruct (id =? k)%string eqn:Ek; [|reflexivity].
    apply String.eqb_eq in Ek. congruence.
  - split; [intros C; congruence|]. intros _. auto.
Qed.

Lemma delete_link_removes_the_record_only_witness :
  fst (deleteImage "link-1700000000000-3" mixedGroupWorld) = Ret (Ok LinkDeleted) /\
  fst (deleteImage "link-0" mixedGroupWorld) = Ret (Error 404 "Link not found").
Proof.
  split.
  - refine (proj1 (proj1 (proj2 (delete_link_removes_the_record_only mixedGroupWorld
                                   "link-1700000000000-3" eq_refl)) _)).
    discriminate.
  - exact (proj1 (proj2 (proj2 (delete_link_removes_the_record_only mixedGroupWorld
                                  "link-0" eq_refl)) eq_refl)).
Defined.

(* ================================================================= *)
(** ** The title of a group *)

Section Title.

Variable t : string.
Variable cond : FileMeta -> bool.
Hypothesis cond_withTitle : forall r, cond (withTitleImageId r t) = cond r.

Lemma get_titleStep md f id :
  get (titleStep cond t md f) id =
  if (f =? id)%string
  then option_map (fun r => if cond r then withTitleImageId r t else r) (get md id)
  else get md id.
Proof.
  unfold titleStep. destruct (f =? id)%string eqn:E.
  - apply String.eqb_eq in E. subst f.
    destruct (get md id) as [r|] eqn:G; cbn [option_map]; [|exact G].
    destruct (cond r); [apply get_set_same|exact G].
  - destruct (get md f) as [r|]; [|reflexivity].
    destruct (cond r); [|reflexivity]. rewrite get_set. now rewrite E.
Qed.

Lemma get_title_fold ids md id :
  get (fold_left (titleStep cond t) ids md) id =
  if has ids id
  then option_map (fun r => if cond r then withTitleImageId r t else r) (get md id)
  else get md id.
Proof.
  revert md. induction ids as [|f ids IH]; intros md; cbn [fold_left]; [reflexivity|].
  rewrite IH, get_titleStep. unfold has at 2. cbn [existsb]. fold (has ids id).
  destruct (f =? id)%string eqn:E; cbn [orb]; [|reflexivity].
  destruct (has ids id); [|reflexivity].
  destruct (get md id) as [r|]; cbn [option_map]; [|reflexivity].
  destruct (cond r) eqn:C; [|now rewrite C].
  now rewrite cond_withTitle, C.
Qed.

Lemma keys_titleStep md f : keys (titleStep cond t md f) = keys md.
Proof.
  unfold titleStep. destruct (get md f) as [r|] eqn:G; [|reflexivity].
  destruct (cond r); [|reflexivity].
  clear - G. induction md as [|[k v] md IH]; simpl in *; [discriminate|].
  destruct (k =? f)%string eqn:E; simpl.
  - apply String.eqb_eq in E. now subst.
  - now rewrite IH.
Qed.

Lemma keys_title_fold ids md : keys (fold_left (titleStep cond t) ids md) = keys md.
Proof.
  revert md. induction ids as [|f ids IH]; intros md; cbn [fold_left]; [reflexivity|].
  now rewrite IH, keys_titleStep.
Qed.

End Title.

(** The metadata map the two loops of the route leave. *)
Lemma get_titled g t files m id :
  let md1 := fold_left (titleStep (fun r => groupIs (Some r) g) t) files m in
  let md2 := fold_left (titleStep (fun r => isExternal r && groupIs (Some r) g) t)
                       (keys md1) md1 in
  get md2 id = option_map (titledRecord g t files id) (get m id) /\ keys md2 = keys m.
Proof.
  intros md1 md2. unfold md2, md1.
  rewrite !keys_title_fold. split; [|reflexivity].
  rewrite !get_title_fold by reflexivity.
  unfold titledRecord.
  destruct (get m id) as [r|] eqn:G.
  - apply get_In_keys in G. apply has_In in G. rewrite G.
    destruct (has files id); cbn [orb option_map];
      destruct (groupIs (Some r) g) eqn:Gr; cbn [andb option_map].
    + f_equal. change (groupIs (Some (withTitleImageId r t)) g) with (groupIs (Some r) g).
      change (isExternal (withTitleImageId r t)) with (isExternal r).
      now destruct (isExternal r && groupIs (Some r) g).
    + now rewrite ?Gr, andb_false_r.
    + rewrite ?Gr, andb_true_r. now destruct (isExternal r).
    + now rewrite ?Gr, andb_false_r.
  - destruct (has (keys m) id); destruct (has files id); reflexivity.
Qed.

Lemma putGroupTitle_run g titleImageId w :
  let m := currentMetadata (disk w) in
  let files := names (uploads (disk w)) in
  exists w',
    putGroupTitle g titleImageId w =
    (Ret (match titleRefusal m files g titleImageId with
          | Some (status, message) => Error status message
          | None => Ok (orElse titleImageId "")
          end), w') /\
    uploads (disk w') = uploads (disk w) /\
    snapshots (disk w') = snapshots (disk w) /\
    keys (currentMetadata (disk w')) = keys m /\
    match titleRefusal m files g titleImageId with
    | Some _ => currentMetadata (disk w') = m
    | None =>
        forall id,
          get (currentMetadata (disk w')) id =
          option_map (titledRecord g (orElse titleImageId "") files id) (get m id)
    end.
Proof.
  intros m files.
  assert (W : wp (putGroupTitle g titleImageId)
                 (fun r w' =>
                    r = match titleRefusal m files g titleImageId with
                        | Some (status, message) => Error status message
                        | None => Ok (orElse titleImageId "")
                        end /\
                    uploads (disk w') = uploads (disk w) /\
                    snapshots (disk w') = snapshots (disk w) /\
                    keys (currentMetadata (disk w')) = keys m /\
                    match titleRefusal m files g titleImageId with
                    | Some _ => currentMetadata (disk w') = m
                    | None =>
                        forall id,
                          get (currentMetadata (disk w')) id =
                          option_map (titledRecord g (orElse titleImageId "") files id)
                                     (get m id)
                    end) w).
  { unfold putGroupTitle, titleRefusal. apply wp_tryCatch.
    destruct titleImageId as [t|]; [|apply wp_ret; auto].
    destruct (t =? "")%string eqn:Et; [apply wp_ret; auto|].
    apply wp_bind, wp_load. apply wp_bind, wp_existsUpload.
    cbn [disk]. rewrite uploads_afterLoad. fold m files.
    assert (Same : uploads (diskAfterLoad (disk w)) = uploads (disk w) /\
                   snapshots (diskAfterLoad (disk w)) = snapshots (disk w) /\
                   keys (currentMetadata (diskAfterLoad (disk w))) = keys m /\
                   currentMetadata (diskAfterLoad (disk w)) = m).
    { rewrite uploads_afterLoad, snapshots_afterLoad, currentMetadata_afterLoad. auto. }
    destruct (startsWith "link-" t && negb (isExternalOpt (get m t) && groupIs (get m t) g));
      [apply wp_ret; cbn [disk]; tauto|].
    destruct (negb (startsWith "link-" t) && negb (has files t));
      [apply wp_ret; cbn [disk]; tauto|].
    destruct (negb (groupIs (get m t) g)); [apply wp_ret; cbn [disk]; tauto|].
    apply wp_bind, wp_readdirUploads. apply wp_bind, wp_save. apply wp_ret.
    cbn [disk]. rewrite currentMetadata_afterSave. cbn [diskAfterSave uploads snapshots].
    rewrite uploads_afterLoad, snapshots_afterLoad. fold files.
    destruct (get_titled g t files m "") as [_ K].
    unfold orElse. rewrite Et.
    split; [reflexivity|]. split; [reflexivity|]. split; [reflexivity|].
    split; [exact K|]. intros id. now destruct (get_titled g t files m id). }
  apply wp_elim in W. destruct W as (r & w' & E & -> & H). eauto.
Qed.



(** X14. The title of a group can only be set to one of its members: a
    request whose id has no record that carries the group id, or names a
    link that is no external link, or names a file that is not in the
    uploads directory, or is empty or missing, is answered with status 400
    or 404, and the saved metadata map and the uploads directory are as
    before; and the route answers success only for an id whose record
    carries the group id. *)
Theorem title_outside_the_group_is_refused :
  forall (w : World) (g : string) (titleImageId : option string),
    let m := currentMetadata (disk w) in
    let files := names (uploads (disk w)) in
    let w' := snd (putGroupTitle g titleImageId w) in
    ((titleImageId = None \/ titleImageId = Some "" \/
      exists t, titleImageId = Some t /\
                (groupIs (get m t) g = false \/
                 (startsWith "link-" t = true /\ isExternalOpt (get m t) = false) \/
                 (startsWith "link-" t = false /\ ~ In t files))) ->
     (exists status message,
        fst (putGroupTitle g titleImageId w) = Ret (Error status message) /\
        (status = 400 \/ status = 404)%nat) /\
     currentMetadata (disk w') = m /\
     uploads (disk w') = uploads (disk w)) /\
    (forall t, fst (putGroupTitle g titleImageId w) = Ret (Ok t) ->
               titleImageId = Some t /\ t <> "" /\ groupIs (get m t) g = true).
Proof.
  intros w g titleImageId m files w'.
  destruct (putGroupTitle_run g titleImageId w) as (w1 & E & Hu & _ & Hk & Hget).
  fold m files in E, Hk, Hget. unfold w'. rewrite E. cbn [fst snd]. split.
  - intros Bad.
    assert (R : exists status message,
               titleRefusal m files g titleImageId = Some (status, message) /\
               (status = 400 \/ status = 404)%nat).
    { unfold titleRefusal.
      destruct Bad as [->|[->|(t & -> & Bad)]]; [eauto|cbn; eauto|].
      destruct (t =? "")%string; [eauto|].
      destruct (startsWith "link-" t) eqn:L; cbn [andb negb].
      - destruct (isExternalOpt (get m t) && groupIs (get m t) g) eqn:C; cbn [negb];
          [|eauto].
        apply andb_true_iff in C. destruct C as [C1 C2].
        destruct Bad as [B|[[_ B]|[B _]]]; congruence.
      - destruct (has files t) eqn:H; cbn [negb]; [|eauto].
        destruct (groupIs (get m t) g) eqn:C; cbn [negb]; [|eauto].
        apply has_In in H.
        destruct Bad as [B|[[B _]|[_ B]]]; [congruence|congruence|contradiction]. }
    destruct R as (status & message & R & St). rewrite R in *.
    split; [eauto|]. split; [exact Hget|exact Hu].
  - intros t Hok. unfold titleRefusal in Hok.
    destruct titleImageId as [t0|]; [|discriminate].
    destruct (t0 =? "")%string eqn:Et; [discriminate|].
    destruct (startsWith "link-" t0 && negb (isExternalOpt (get m t0) && groupIs (get m t0) g));
      [discriminate|].
    destruct (negb (startsWith "link-" t0) && negb (has files t0)); [discriminate|].
    destruct (groupIs (get m t0) g) eqn:C; cbn [negb] in Hok; [|discriminate].
    unfold orElse in Hok. rewrite Et in Hok. inversion Hok; subst t0.
    apply String.eqb_neq in Et. auto.
Qed.

(* ================================================================= *)
(** ** Sorting with comparators that agree *)

Lemma insertSorted_ext {A} (cmp1 cmp2 : A -> A -> Z) x l :
  (forall y, In y l -> cmp1 x y = cmp2 x y) ->
  insertSorted cmp1 x l = insertSorted cmp2 x l.
Proof.
  induction l as [|y l IH]; intros H; cbn [insertSorted]; [reflexivity|].
  rewrite (H y) by now left.
  destruct (cmp2 x y <=? 0)%Z; [reflexivity|].
  f_equal. apply IH. intros z I. apply H. now right.
Qed.

Lemma sort_ext_in {A} (cmp1 cmp2 : A -> A -> Z) l :
  (forall a b, In a l -> In b l -> cmp1 a b = cmp2 a b) ->
  sort cmp1 l = sort cmp2 l.
Proof.
  induction l as [|a l IH]; intros H; [reflexivity|].
  unfold sort in *. cbn [fold_right].
  rewrite IH by (intros x y Ix Iy; apply H; now right).
  apply insertSorted_ext. intros y I.
  apply (proj1 (sort_In A cmp2 l y)) in I. apply H; [now left|now right].
Qed.

Lemma insertSorted_map {A B} (f : A -> B) (cmpA : A -> A -> Z) (cmpB : B -> B -> Z) x l :
  (forall y, In y l -> cmpB (f x) (f y) = cmpA x y) ->
  insertSorted cmpB (f x) (map f l) = map f (insertSorted cmpA x l).
Proof.
  induction l as [|y l IH]; intros H; cbn [insertSorted map]; [reflexivity|].
  rewrite (H y) by now left.
  destruct (cmpA x y <=? 0)%Z; [reflexivity|].
  cbn [map]. f_equal. apply IH. intros z I. apply H. now right.
Qed.

Lemma sort_map {A B} (f : A -> B) (cmpA : A -> A -> Z) (cmpB : B -> B -> Z) l :
  (forall a b, In a l -> In b l -> cmpB (f a) (f b) = cmpA a b) ->
  sort cmpB (map f l) = map f (sort cmpA l).
Proof.
  induction l as [|a l IH]; intros H; [reflexivity|].
  unfold sort in *. cbn [fold_right map].
  rewrite IH by (intros x y Ix Iy; apply H; now right).
  apply insertSorted_map. intros y I.
  apply (proj1 (sort_In A cmpA l y)) in I. apply H; [now left|now right].
Qed.

(* ================================================================= *)
(** ** The title of a group, as the group detail shows it *)

Lemma groupIs_titled g t files id r g' :
  groupIs (Some (titledRecord g t files id r)) g' = groupIs (Some r) g'.
Proof. unfold titledRecord. now destruct (_ && _). Qed.

Lemma detailFiles_titled m m' g t files g' :
  (forall id, get m' id = option_map (titledRecord g t files id) (get m id)) ->
  detailFiles m' files g' = detailFiles m files g'.
Proof.
  intros H. unfold detailFiles. apply flat_map_ext. intros file.
  rewrite H. destruct (get m file) as [r|]; cbn [option_map]; [|reflexivity].
  rewrite groupIs_titled. unfold titledRecord. now destruct (_ && (_ || _)).
Qed.

Lemma detailLinks_titled m m' g t files g' :
  keys m' = keys m ->
  (forall id, get m' id = option_map (titledRecord g t files id) (get m id)) ->
  detailLinks m' g' = detailLinks m g'.
Proof.
  intros K H. unfold detailLinks. rewrite K. apply flat_map_ext. intros file.
  rewrite H. destruct (get m file) as [r|]; cbn [option_map]; [|reflexivity].
  rewrite groupIs_titled. unfold titledRecord. now destruct (_ && (_ || _)).
Qed.

Lemma orderIn_titled m m' g t files :
  (forall id, get m' id = option_map (titledRecord g t files id) (get m id)) ->
  forall id, orderIn m' id = orderIn m id.
Proof.
  intros H id. unfold orderIn. rewrite H.
  destruct (get m id) as [r|]; cbn [option_map]; [|reflexivity].
  unfold titledRecord. now destruct (_ && (_ || _)).
Qed.

(** The members the group detail lists: entries of the uploads directory
    with the group id, and external links with the group id. *)
Lemma detail_member m files g f :
  In f (detailFiles m files g ++ detailLinks m g) ->
  exists r, get m (df_id f) = Some r /\ groupIs (Some r) g = true /\
            (In (df_id f) files \/ isExternal r = true).
Proof.
  intros I. apply in_app_or in I. destruct I as [I|I].
  - unfold detailFiles in I. apply in_flat_map in I. destruct I as (file & If & I).
    destruct (get m file) as [r|] eqn:G; [|destruct I].
    destruct (groupIs (Some r) g) eqn:Gr; cbn [andb] in I; [|destruct I].
    destruct (isMedia file); [|destruct I].
    destruct I as [<-|[]]. cbn [df_id]. eauto.
  - unfold detailLinks in I. apply in_flat_map in I. destruct I as (k & Ik & I).
    destruct (get m k) as [r|] eqn:G; [|destruct I].
    destruct (isExternal r) eqn:X; cbn [andb] in I; [|destruct I].
    destruct (groupIs (Some r) g) eqn:Gr; [|destruct I].
    destruct I as [<-|[]]. cbn [df_id]. eauto.
Qed.

Lemma detail_lists_stored_member m files g id r :
  In id files -> get m id = Some r -> groupIs (Some r) g = true -> isMedia id = true ->
  In id (map df_id (detailFiles m files g ++ detailLinks m g)).
Proof.
  intros I G Gr M. rewrite map_app. apply in_or_app. left.
  apply in_map_iff. eexists. split; [|unfold detailFiles; apply in_flat_map].
  2: { exists id. split; [exact I|]. rewrite G, Gr, M. now left. }
  reflexivity.
Qed.

Lemma detail_lists_link_member m files g id r :
  get m id = Some r -> isExternal r = true -> groupIs (Some r) g = true ->
  In id (map df_id (detailFiles m files g ++ detailLinks m g)).
Proof.
  intros G X Gr. rewrite map_app. apply in_or_app. right.
  apply in_map_iff. eexists. split; [|unfold detailLinks; apply in_flat_map].
  2: { exists id. split; [now apply (get_In_keys m id r)|]. rewrite G, X, Gr. now left. }
  reflexivity.
Qed.

(** X15. Once PUT /api/groups/:groupId/title has succeeded for the id
    [t], GET /api/groups/:groupId lists the same members in the same
    order as before and flags as the title exactly the members whose id
    is [t]; a group for which the detail answered 404 still answers 404.
    When [t] is an external link, or a file of a recognised media type,
    it is among the members and is flagged. *)
Theorem chosen_title_is_the_one_flagged :
  forall (localeCompare : string -> string -> Z) (w : World) (g t : string),
    let m := currentMetadata (disk w) in
    let files := names (uploads (disk w)) in
    let w' := snd (putGroupTitle g (Some t) w) in
    t <> "" ->
    groupIs (get m t) g = true ->
    (if startsWith "link-" t then isExternalOpt (get m t) = true else In t files) ->
    (fst (getGroupDetail localeCompare g w) = Ret (Error 404 "Group not found") ->
     fst (getGroupDetail localeCompare g w') = Ret (Error 404 "Group not found")) /\
    (forall d, fst (getGroupDetail localeCompare g w) = Ret (Ok d) ->
       exists d',
         fst (getGroupDetail localeCompare g w') = Ret (Ok d') /\
         map fst (gd_files d') = map fst (gd_files d) /\
         forall f flag, In (f, flag) (gd_files d') -> flag = (df_id f =? t)%string) /\
    (startsWith "link-" t = true \/ isMedia t = true ->
     exists d' f,
       fst (getGroupDetail localeCompare g w') = Ret (Ok d') /\
       In (f, true) (gd_files d') /\ df_id f = t).
Proof.
  intros lc w g t m files w' Ht Hg Hm.
  destruct (putGroupTitle_run g (Some t) w) as (w1 & E & Hu & _ & Hk & Hget).
  fold m files in E, Hk, Hget.
  assert (R : titleRefusal m files g (Some t) = None).
  { unfold titleRefusal. apply String.eqb_neq in Ht. rewrite Ht, Hg.
    destruct (startsWith "link-" t); cbn.
    - now rewrite Hm.
    - apply has_In in Hm. now rewrite Hm. }
  rewrite R in Hget.
  assert (Eo : orElse (Some t) "" = t)
    by (unfold orElse; apply String.eqb_neq in Ht; now rewrite Ht).
  rewrite Eo in Hget.
  assert (Ew : w' = w1) by (unfold w'; now rewrite E).
  rewrite !getGroupDetail_run. cbv zeta. rewrite Ew, Hu. fold m files.
  set (m' := currentMetadata (disk w1)) in *.
  rewrite (detailFiles_titled m m' g t files g Hget).
  rewrite (detailLinks_titled m m' g t files g Hk Hget).
  set (gf := detailFiles m files g ++ detailLinks m g).
  assert (Es : sortDetailFiles lc m' gf = sortDetailFiles lc m gf).
  { unfold sortDetailFiles. apply sort_ext_in. intros a b _ _.
    now rewrite !(orderIn_titled m m' g t files Hget). }
  assert (Ef : gf <> [] -> findTitleImageId m' (map df_id gf) = Some t).
  { destruct gf as [|first rest] eqn:Egf; [congruence|]. intros _.
    assert (I : In first (detailFiles m files g ++ detailLinks m g))
      by (fold gf; rewrite Egf; now left).
    destruct (detail_member m files g first I) as (r & G & Gr & Hor).
    cbn [map findTitleImageId]. rewrite Hget, G. cbn [option_map].
    unfold titledRecord. rewrite Gr.
    assert (C : has files (df_id first) || isExternal r = true).
    { destruct Hor as [If|X]; [apply has_In in If; now rewrite If|now rewrite X, orb_true_r]. }
    rewrite C. cbn [andb titleImageId withTitleImageId truthy].
    apply String.eqb_neq in Ht. now rewrite Ht. }
  split; [|split].
  - destruct gf; [auto|discriminate].
  - intros d Hd. destruct gf as [|first rest] eqn:Egf; [discriminate|].
    inversion Hd; subst d; clear Hd. eexists. split; [reflexivity|].
    cbn [gd_files]. rewrite !map_fst_markTitle, Es. split; [reflexivity|].
    intros f flag I. rewrite Ef in I by discriminate. now apply markTitle_set in I.
  - intros Shown.
    assert (It : In t (map df_id gf)).
    { destruct (get m t) as [r|] eqn:G; [|discriminate Hg].
      destruct (startsWith "link-" t) eqn:L.
      - now apply (detail_lists_link_member m files g t r).
      - destruct Shown as [C|M]; [discriminate|].
        now apply (detail_lists_stored_member m files g t r). }
    destruct gf as [|first rest] eqn:Egf; [destruct It|].
    rewrite Ef by discriminate.
    apply in_map_iff in It. destruct It as (f & Eid & If).
    exists (mkGroupDetail g (markTitle (Some t) (sortDetailFiles lc m' (first :: rest)))
              (orElse match get m' (df_id first) with
                      | Some r => category r | None => None end "fun")
              (orElse match get m' (df_id first) with
                      | Some r => description r | None => None end "")
              (orElse match get m' (df_id first) with
                      | Some r => uploadDate r | None => None end (clock w1))), f.
    split; [reflexivity|]. split; [|exact Eid]. cbn [gd_files].
    unfold markTitle. apply in_map_iff. exists f. split.
    + f_equal. rewrite Eid. apply String.eqb_refl.
    + unfold sortDetailFiles. now apply sort_In.
Qed.

Lemma chosen_title_is_the_one_flagged_witness :
  exists d f,
    fst (getGroupDetail codeUnitCompare "group-1"
           (snd (putGroupTitle "group-1" (Some "b.jpg") threeFileGroupWorld))) = Ret (Ok d) /\
    In (f, true) (gd_files d) /\ df_id f = "b.jpg".
Proof.
  exact (proj2 (proj2 (chosen_title_is_the_one_flagged codeUnitCompare threeFileGroupWorld
                         "group-1" "b.jpg" ltac:(discriminate) eq_refl
                         (or_intror (or_introl eq_refl))))
               (or_intror eq_refl)).
Defined.

(* ================================================================= *)
(** ** The group detail and the zip export name the same members *)

Lemma flat_map_ids {A B C} (f : A -> list B) (g : A -> list C)
    (idB : B -> string) (idC : C -> string) l :
  (forall a, map idB (f a) = map idC (g a)) ->
  map idB (flat_map f l) = map idC (flat_map g l).
Proof.
  intros H. induction l as [|a l IH]; cbn [flat_map]; [reflexivity|].
  now rewrite !map_app, H, IH.
Qed.

Lemma detail_zip_same_ids m files g :
  map df_id (detailFiles m files g ++ detailLinks m g)
  = map zi_id (zipFiles m files g ++ zipLinks m g).
Proof.
  rewrite !map_app. f_equal.
  - unfold detailFiles, zipFiles. apply flat_map_ids. intros file.
    destruct (get m file) as [r|]; [|reflexivity].
    now destruct (groupIs (Some r) g && isMedia file).
  - unfold detailLinks, zipLinks. apply flat_map_ids. intros k.
    destruct (get m k) as [r|]; [|reflexivity].
    now destruct (isExternal r && groupIs (Some r) g).
Qed.

(** The ids of the group detail, in its order: the member ids sorted by
    the order of their records, then by id. *)
Lemma detail_ids_sorted lc m gf :
  map df_id (sortDetailFiles lc m gf)
  = sort (fun a b => compareOrderId lc (orderIn m a) a (orderIn m b) b) (map df_id gf).
Proof.
  unfold sortDetailFiles. symmetry. apply sort_map. reflexivity.
Qed.

Lemma zip_ids_sorted lc m files g :
  map zi_id (sort (fun a b => compareOrderId lc (zi_order a) (zi_id a)
                                             (zi_order b) (zi_id b))
                  (zipFiles m files g ++ zipLinks m g))
  = sort (fun a b => compareOrderId lc (orderIn m a) a (orderIn m b) b)
         (map zi_id (zipFiles m files g ++ zipLinks m g)).
Proof.
  symmetry. apply sort_map. intros a b Ia Ib.
  pose proof (zip_orders m files g) as Z. rewrite Forall_forall in Z.
  now rewrite (Z a Ia), (Z b Ib).
Qed.

Lemma zip_ids_as_detail_ids lc m files g :
  map zi_id
    (sort (fun a b => compareOrderId lc (zi_order a) (zi_id a) (zi_order b) (zi_id b))
          (zipFiles m files g ++ zipLinks m g))
  = map df_id (sortDetailFiles lc m (detailFiles m files g ++ detailLinks m g)).
Proof.
  rewrite zip_ids_sorted, detail_ids_sorted. now rewrite detail_zip_same_ids.
Qed.

(** X16. GET /api/groups/:groupId and GET /api/groups/:groupId/download
    agree on a group: one answers 404 exactly when the other does, and
    otherwise the items of the archive are the members of the detail, id
    by id and in the same order, whatever the collation of the host. *)
Theorem detail_and_download_agree :
  forall (localeCompare : string -> string -> Z) (w : World) (g : string),
    (fst (getGroupDetail localeCompare g w) = Ret (Error 404 "Group not found") <->
     fst (getGroupDownload localeCompare g w) = Ret (Error 404 "Group not found")) /\
    (forall d, fst (getGroupDetail localeCompare g w) = Ret (Ok d) ->
       exists items,
         fst (getGroupDownload localeCompare g w) = Ret (Ok items) /\
         map zi_id items = map (fun p => df_id (fst p)) (gd_files d)).
Proof.
  intros lc w g. rewrite getGroupDetail_run, getGroupDownload_run. cbv zeta.
  set (m := currentMetadata (disk w)). set (files := names (uploads (disk w))).
  pose proof (detail_zip_same_ids m files g) as Ids.
  pose proof (zip_ids_as_detail_ids lc m files g) as Key.
  destruct (detailFiles m files g ++ detailLinks m g) as [|first rest] eqn:Ed;
    destruct (zipFiles m files g ++ zipLinks m g) as [|z zs] eqn:Ez;
    try discriminate Ids.
  - split; [tauto|]. intros d H. discriminate H.
  - split; [split; intros H; discriminate H|].
    intros d H. inversion H; subst d; clear H. eexists. split; [reflexivity|].
    lazy beta iota delta [gd_files].
    rewrite <- (map_map fst df_id), map_fst_markTitle. exact Key.
Qed.

(* ================================================================= *)
(** ** A reordered group, as the group detail shows it *)

Lemma sort_ext_distinct {A} (cmp1 cmp2 : A -> A -> Z) l :
  NoDup l ->
  (forall a b, In a l -> In b l -> a <> b -> cmp1 a b = cmp2 a b) ->
  sort cmp1 l = sort cmp2 l.
Proof.
  induction l as [|a l IH]; intros D H; [reflexivity|].
  inversion D as [|x l' N D']; subst.
  unfold sort in *. cbn [fold_right].
  rewrite IH by (auto; intros x y Ix Iy; apply H; now right).
  apply insertSorted_ext. intros y I.
  apply (proj1 (sort_In A cmp2 l y)) in I.
  apply H; [now left|now right|]. intros ->. contradiction.
Qed.

(** Two lists sorted by an order that is antisymmetric on their elements
    are the same list when they have the same elements. *)
Lemma sorted_perm_unique {A} (R : A -> A -> Prop) l1 :
  forall l2,
    StronglySorted R l1 -> StronglySorted R l2 -> Permutation l1 l2 ->
    (forall x y, In x l1 -> In y l1 -> R x y -> R y x -> x = y) ->
    l1 = l2.
Proof.
  induction l1 as [|a l1 IH]; intros l2 S1 S2 P Anti.
  - apply Permutation_nil in P. now subst.
  - destruct l2 as [|b l2]; [apply Permutation_sym, Permutation_nil in P; discriminate|].
    inversion S1 as [|? ? S1' F1]; subst. inversion S2 as [|? ? S2' F2]; subst.
    assert (Eab : a = b).
    { assert (Ia : In a (b :: l2)) by (eapply Permutation_in; [exact P|now left]).
      assert (Ib : In b (a :: l1))
        by (eapply Permutation_in; [apply Permutation_sym; exact P|now left]).
      destruct Ia as [->|Ia]; [reflexivity|].
      destruct Ib as [->|Ib]; [reflexivity|].
      rewrite Forall_forall in F1, F2.
      apply Anti; [now left|now right|now apply F1|now apply F2]. }
    subst b. f_equal. apply IH; auto.
    + now apply Permutation_cons_inv in P.
    + intros x y Ix Iy. apply Anti; now right.
Qed.

(** The position of an id in the requested order, 0 for an id that is
    not in it. *)
Lemma sorted_by_position (key : string -> nat) l c :
  (forall i x, nth_error l i = Some x -> key x = (c + i)%nat) ->
  StronglySorted (fun a b => (Z.of_nat (key a) - Z.of_nat (key b) <= 0)%Z) l.
Proof.
  revert c. induction l as [|y l IH]; intros c H; constructor.
  - apply (IH (S c)). intros i x E. rewrite (H (S i) x E). lia.
  - apply Forall_forall. intros x I. apply In_nth_error in I. destruct I as [i E].
    rewrite (H O y eq_refl), (H (S i) x E). lia.
Qed.

Lemma indexOf_position fo i x :
  NoDup fo -> nth_error fo i = Some x -> indexOf fo x = Some i.
Proof.
  intros D E. apply nth_indexOf; [exact E|].
  intros j Hj Ej. rewrite NoDup_nth_error in D.
  assert (Hl : (j < List.length fo)%nat)
    by (apply nth_error_Some; rewrite Ej; discriminate).
  specialize (D j i Hl). rewrite E, Ej in D. specialize (D eq_refl). lia.
Qed.

Lemma sort_by_position_is_the_order fo l :
  NoDup fo -> Permutation fo l ->
  sort (fun a b =>
          (Z.of_nat (match indexOf fo a with Some i => i | None => O end)
           - Z.of_nat (match indexOf fo b with Some i => i | None => O end))%Z) l
  = fo.
Proof.
  intros D P. symmetry.
  set (key := fun a => match indexOf fo a with Some i => i | None => O end).
  apply (sorted_perm_unique (cmpLe (fun a b => (Z.of_nat (key a) - Z.of_nat (key b))%Z))).
  - apply (sorted_by_position key fo O). intros i x E. unfold key.
    now rewrite (indexOf_position fo i x D E).
  - apply sort_sorted; unfold cmpLe; intros; lia.
  - eapply Permutation_trans; [exact P|apply sort_perm].
  - intros x y Ix Iy Hxy Hyx. unfold cmpLe, key in *.
    apply In_nth_error in Ix. destruct Ix as [i Ei].
    apply In_nth_error in Iy. destruct Iy as [j Ej].
    rewrite (indexOf_position fo i x D Ei), (indexOf_position fo j y D Ej) in *.
    assert (i = j) by lia. subst j. congruence.
Qed.

(** What a loop of the reorder keeps of a record. *)
Lemma reordered_keeps cond fo id r :
  let r' := reordered cond fo id r in
  groupId r' = groupId r /\ type r' = type r /\ isExternal r' = isExternal r /\
  externalUrl r' = externalUrl r /\ embedUrl r' = embedUrl r /\
  videoType r' = videoType r.
Proof.
  unfold reordered. destruct (cond r); [destruct (indexOf fo id)|];
    cbn; repeat split; reflexivity.
Qed.

Lemma reorder_keeps_fields g fo files id r :
  let r' := reordered (fun r => isExternal r && groupIs (Some r) g) fo id
              (if has files id then reordered (fun r => groupIs (Some r) g) fo id r else r) in
  groupId r' = groupId r /\ type r' = type r /\ isExternal r' = isExternal r /\
  externalUrl r' = externalUrl r /\ embedUrl r' = embedUrl r /\
  videoType r' = videoType r.
Proof.
  cbv zeta.
  destruct (reordered_keeps (fun r => isExternal r && groupIs (Some r) g) fo id
              (if has files id then reordered (fun r => groupIs (Some r) g) fo id r else r))
    as (A1 & A2 & A3 & A4 & A5 & A6).
  cbv zeta in A1, A2, A3, A4, A5, A6. rewrite A1, A2, A3, A4, A5, A6.
  destruct (has files id); [|repeat split; reflexivity].
  apply (reordered_keeps (fun r => groupIs (Some r) g) fo id r).
Qed.

Lemma reorder_sets_position g fo files id r i :
  groupIs (Some r) g = true -> has files id = true \/ isExternal r = true ->
  indexOf fo id = Some i ->
  order (reordered (fun r => isExternal r && groupIs (Some r) g) fo id
           (if has files id then reordered (fun r => groupIs (Some r) g) fo id r else r))
  = Some (Z.of_nat i).
Proof.
  intros Gr Hor Ei. unfold reordered. rewrite Ei. cbv beta.
  destruct (has files id).
  - rewrite Gr.
    match goal with |- context [if ?c then _ else _] => destruct c end; reflexivity.
  - destruct Hor as [C|X]; [discriminate|]. rewrite X, Gr. reflexivity.
Qed.

Lemma detail_after_reorder m m' g fo files :
  keys m' = keys m ->
  (forall id, get m' id =
     option_map
       (fun r =>
          reordered (fun r => isExternal r && groupIs (Some r) g) fo id
            (if has files id then reordered (fun r => groupIs (Some r) g) fo id r else r))
       (get m id)) ->
  detailFiles m' files g ++ detailLinks m' g = detailFiles m files g ++ detailLinks m g.
Proof.
  intros K H. f_equal.
  - unfold detailFiles. apply flat_map_ext. intros file. rewrite H.
    destruct (get m file) as [r|]; cbn [option_map]; [|reflexivity].
    destruct (reorder_keeps_fields g fo files file r) as (Hg & Ht & _).
    cbv zeta in Hg, Ht. set (r' := reordered _ fo file _) in *.
    unfold groupIs. now rewrite Hg, Ht.
  - unfold detailLinks. rewrite K. apply flat_map_ext. intros k. rewrite H.
    destruct (get m k) as [r|]; cbn [option_map]; [|reflexivity].
    destruct (reorder_keeps_fields g fo files k r) as (Hg & _ & Hx & Hu & He & Hv).
    cbv zeta in Hg, Hx, Hu, He, Hv. set (r' := reordered _ fo k _) in *.
    unfold groupIs. now rewrite Hg, Hx, Hu, He, Hv.
Qed.

Lemma keys_reordered g fo files m :
  keys (reorderLinks g fo (reorderFiles g fo files m)) = keys m.
Proof.
  rewrite reorderLinks_fold, keys_reorder_fold.
  now rewrite reorderFiles_fold, keys_reorder_fold.
Qed.

(** X17. When PUT /api/groups/:groupId/order is given the ids of the
    members the group detail lists, each once, in some order, the group
    detail and the zip export afterwards list the members in exactly that
    order, whatever orders the records had before and whatever the
    collation of the host. *)
Theorem reordered_group_is_shown_in_the_requested_order :
  forall (localeCompare : string -> string -> Z) (w : World) (g : string)
         (fileOrder : list string),
    let m := currentMetadata (disk w) in
    let files := names (uploads (disk w)) in
    let w' := snd (putGroupOrder g (Some fileOrder) w) in
    NoDup fileOrder ->
    Permutation fileOrder (map df_id (detailFiles m files g ++ detailLinks m g)) ->
    fileOrder <> [] ->
    (exists d,
       fst (getGroupDetail localeCompare g w') = Ret (Ok d) /\
       map (fun p => df_id (fst p)) (gd_files d) = fileOrder) /\
    (exists items,
       fst (getGroupDownload localeCompare g w') = Ret (Ok items) /\
       map zi_id items = fileOrder).
Proof.
  intros lc w g fo m files w' D P NE.
  destruct (putGroupOrder_spec g fo w) as (w1 & E & Hm & Hu & _).
  fold m files in Hm.
  assert (Ew : w' = w1) by (unfold w'; now rewrite E).
  set (m' := currentMetadata (disk w1)) in *.
  assert (Hget : forall id, get m' id =
            option_map
              (fun r =>
                 reordered (fun r => isExternal r && groupIs (Some r) g) fo id
                   (if has files id
                    then reordered (fun r => groupIs (Some r) g) fo id r else r))
              (get m id))
    by (intros id; rewrite Hm; apply get_reorder).
  assert (Hk : keys m' = keys m) by (rewrite Hm; apply keys_reordered).
  set (gf := detailFiles m files g ++ detailLinks m g) in *.
  assert (Egf : detailFiles m' files g ++ detailLinks m' g = gf)
    by (apply (detail_after_reorder m m' g fo files Hk Hget)).
  assert (Dm : NoDup (map df_id gf))
    by (eapply Permutation_NoDup; [exact P|exact D]).
  (* the order of a member after the request is its position *)
  assert (Ho : forall id, In id (map df_id gf) ->
                 orderIn m' id
                 = Z.of_nat (match indexOf fo id with Some i => i | None => O end)).
  { intros id I. apply in_map_iff in I. destruct I as (f & <- & If).
    destruct (detail_member m files g f If) as (r & G & Gr & Hor).
    assert (Ifo : In (df_id f) fo).
    { eapply Permutation_in; [apply Permutation_sym; exact P|].
      now apply in_map. }
    destruct (indexOf fo (df_id f)) as [i|] eqn:Ei;
      [|apply indexOf_None in Ei; contradiction].
    unfold orderIn. rewrite Hget, G. cbn [option_map].
    rewrite (reorder_sets_position g fo files (df_id f) r i Gr); [reflexivity| |exact Ei].
    destruct Hor as [If'|X]; [left; now apply has_In|now right]. }
  assert (Ids : map df_id (sortDetailFiles lc m' gf) = fo).
  { rewrite detail_ids_sorted.
    transitivity
      (sort (fun a b =>
               (Z.of_nat (match indexOf fo a with Some i => i | None => O end)
                - Z.of_nat (match indexOf fo b with Some i => i | None => O end))%Z)
            (map df_id gf));
      [|now apply sort_by_position_is_the_order].
    apply sort_ext_distinct; [exact Dm|].
    intros a b Ia Ib Nab. unfold compareOrderId. rewrite (Ho a Ia), (Ho b Ib).
    destruct (Z.of_nat _ =? Z.of_nat _)%Z eqn:Eq; [|reflexivity].
    exfalso. apply Z.eqb_eq, Nat2Z.inj in Eq.
    assert (Ia' : In a fo) by (eapply Permutation_in; [apply Permutation_sym; exact P|exact Ia]).
    assert (Ib' : In b fo) by (eapply Permutation_in; [apply Permutation_sym; exact P|exact Ib]).
    apply In_nth_error in Ia'. destruct Ia' as [i Ei].
    apply In_nth_error in Ib'. destruct Ib' as [j Ej].
    rewrite (indexOf_position fo i a D Ei), (indexOf_position fo j b D Ej) in Eq.
    subst j. congruence. }
  assert (Ne : gf <> []).
  { intros En. rewrite En in P. apply Permutation_sym, Permutation_nil in P.
    cbn in P. contradiction. }
  split.
  - rewrite getGroupDetail_run. cbv zeta. rewrite Ew, Hu. fold files m'. rewrite Egf.
    destruct gf as [|first rest] eqn:Eg; [congruence|].
    eexists. split; [reflexivity|]. lazy beta iota delta [gd_files].
    rewrite <- (map_map fst df_id), map_fst_markTitle. exact Ids.
  - rewrite getGroupDownload_run. cbv zeta. rewrite Ew, Hu. fold files m'.
    pose proof (zip_ids_as_detail_ids lc m' files g) as Key. rewrite Egf, Ids in Key.
    pose proof (detail_zip_same_ids m' files g) as Same. rewrite Egf in Same.
    destruct (zipFiles m' files g ++ zipLinks m' g) as [|z zs] eqn:Ez.
    + destruct gf; [congruence|discriminate Same].
    + eexists. split; [reflexivity|exact Key].
Qed.

Lemma reordered_group_is_shown_in_the_requested_order_witness :
  exists d,
    fst (getGroupDetail codeUnitCompare "group-1"
           (snd (putGroupOrder "group-1" (Some ["t.jpg"; "a.jpg"; "b.jpg"])
                               threeFileGroupWorld))) = Ret (Ok d) /\
    map (fun p => df_id (fst p)) (gd_files d) = ["t.jpg"; "a.jpg"; "b.jpg"].
Proof.
  refine (proj1 (reordered_group_is_shown_in_the_requested_order codeUnitCompare
                   threeFileGroupWorld "group-1" ["t.jpg"; "a.jpg"; "b.jpg"] _ _ _)).
  - repeat constructor; cbn; intuition discriminate.
  - vm_compute. apply (Permutation_cons_app ["a.jpg"; "b.jpg"] [] "t.jpg").
    apply Permutation_refl.
  - discriminate.
Defined.

(* ================================================================= *)
(** ** What the listing shows *)

(** The individual items: the external links outside any group, then the
    media files outside any group. *)
Lemma collectedLinks_inds t m :
  snd (collectedLinks t m) =
  flat_map (fun k => match get m k with
                     | Some r => if isExternal r && negb (truthy (groupId r))
                                 then [linkItem t k r] else []
                     | None => []
                     end) (keys m).
Proof.
  unfold collectedLinks.
  assert (G : forall ks groups inds,
             snd (fold_left
                    (fun (acc : list (string * Group) * list Item) linkId =>
                       let (groups, individualFiles) := acc in
                       match get m linkId with
                       | Some fileMeta =>
                           if isExternal fileMeta then
                             let item :=
                               mkItem linkId (orOpt (embedUrl fileMeta) (externalUrl fileMeta))
                                      linkId
                                      (orElse (category fileMeta) "fun")
                                      (orElse (description fileMeta) "")
                                      (orElse (uploadDate fileMeta) t)
                                      (orElse (type fileMeta) "video")
                                      (truthy (groupId fileMeta)) []
                                      true (externalUrl fileMeta) (embedUrl fileMeta)
                                      (videoType fileMeta)
                                      (Some (orderOr999 (order fileMeta)))
                                      (if truthy (groupId fileMeta)
                                       then groupId fileMeta else None) in
                             match groupId fileMeta with
                             | Some g =>
                                 if truthy (groupId fileMeta) then
                                   (pushed groups g fileMeta t
                                      (mkGroupFile linkId
                                         (orOpt (embedUrl fileMeta) (externalUrl fileMeta))
                                         linkId "video" (orderOr999 (order fileMeta)) true
                                         (externalUrl fileMeta) (embedUrl fileMeta)
                                         (videoType fileMeta)),
                                    individualFiles)
                                 else (groups, individualFiles ++ [item])
                             | None => (groups, individualFiles ++ [item])
                             end
                           else acc
                       | None => acc
                       end)
                    ks (groups, inds))
             = inds ++
               flat_map (fun k => match get m k with
                                  | Some r => if isExternal r && negb (truthy (groupId r))
                                              then [linkItem t k r] else []
                                  | None => []
                                  end) ks).
  { induction ks as [|k ks IH]; intros groups inds; cbn [fold_left flat_map].
    - now rewrite app_nil_r.
    - destruct (get m k) as [r|]; [|now rewrite IH].
      destruct (isExternal r); cbn [andb]; [|now rewrite IH].
      destruct (groupId r) as [g|] eqn:Eg.
      + destruct (truthy (Some g)) eqn:Tg; cbn [negb]; rewrite IH.
        * reflexivity.
        * rewrite <- app_assoc. unfold linkItem. now rewrite Eg, Tg.
      + cbn [truthy negb]. rewrite IH, <- app_assoc. unfold linkItem. now rewrite Eg. }
  apply (G (keys m) [] []).
Qed.

Lemma collectedFiles_inds t m mediaFiles acc :
  snd (collectedFiles t m mediaFiles acc) =
  snd acc ++
  flat_map (fun f => if grouped (get m f) then [] else [fileItem t f (get m f)]) mediaFiles.
Proof.
  unfold collectedFiles. revert acc.
  induction mediaFiles as [|f fs IH]; intros [groups inds]; cbn [fold_left flat_map snd].
  - now rewrite app_nil_r.
  - unfold grouped at 1. destruct (get m f) as [r|] eqn:G.
    + destruct (groupId r) as [g|] eqn:Eg.
      * destruct (truthy (Some g)) eqn:Tg; rewrite IH; cbn [snd app].
        -- reflexivity.
        -- now rewrite <- app_assoc.
      * cbn [truthy]. rewrite IH. cbn [snd]. now rewrite <- app_assoc.
    + rewrite IH. cbn [snd]. now rewrite <- app_assoc.
Qed.

Lemma getGroup_putGroup_same groups g v : getGroup (putGroup groups g v) g = Some v.
Proof.
  induction groups as [|[k v'] groups IH]; cbn [putGroup getGroup].
  - now rewrite String.eqb_refl.
  - destruct (k =? g)%string eqn:E; cbn [getGroup].
    + now rewrite String.eqb_refl.
    + now rewrite E.
Qed.

Lemma getGroup_putGroup_other groups g v g' :
  g <> g' -> getGroup (putGroup groups g v) g' = getGroup groups g'.
Proof.
  intros N. induction groups as [|[k v'] groups IH]; cbn [putGroup getGroup].
  - apply String.eqb_neq in N. now rewrite N.
  - destruct (k =? g)%string eqn:E; cbn [getGroup].
    + apply String.eqb_eq in E. subst k. apply String.eqb_neq in N. now rewrite N.
    + now rewrite IH.
Qed.

Lemma getGroup_None_keys groups g : getGroup groups g = None <-> ~ In g (map fst groups).
Proof.
  induction groups as [|[k v] groups IH]; cbn [getGroup map fst In]; [tauto|].
  destruct (k =? g)%string eqn:E.
  - apply String.eqb_eq in E. split; [discriminate|]. intros N. exfalso. apply N. now left.
  - apply String.eqb_neq in E. rewrite IH. tauto.
Qed.

Lemma getGroup_In groups g grp : getGroup groups g = Some grp -> In (g, grp) groups.
Proof.
  induction groups as [|[k v] groups IH]; cbn [getGroup]; [discriminate|].
  destruct (k =? g)%string eqn:E.
  - apply String.eqb_eq in E. intros [= <-]. subst. now left.
  - intros H. right. now apply IH.
Qed.

Lemma In_getGroup groups g grp :
  NoDup (map fst groups) -> In (g, grp) groups -> getGroup groups g = Some grp.
Proof.
  induction groups as [|[k v] groups IH]; cbn [getGroup map fst]; [intros _ []|].
  intros D I. inversion D as [|x l N D']; subst. destruct I as [I|I].
  - inversion I; subst. now rewrite String.eqb_refl.
  - destruct (k =? g)%string eqn:E; [|now apply IH].
    apply String.eqb_eq in E. subst. exfalso. apply N.
    apply in_map_iff. exists (g, grp). auto.
Qed.

Lemma keys_putGroup groups g v :
  map fst (putGroup groups g v) =
  if has (map fst groups) g then map fst groups else map fst groups ++ [g].
Proof.
  induction groups as [|[k v'] groups IH]; cbn [putGroup map fst has existsb app];
    [reflexivity|].
  destruct (k =? g)%string eqn:E; cbn [map fst orb].
  - apply String.eqb_eq in E. now subst.
  - rewrite IH. fold (has (map fst groups) g). now destruct (has (map fst groups) g).
Qed.

Lemma putGroup_Forall_kv (P : string * Group -> Prop) groups g v :
  Forall P groups -> P (g, v) -> Forall P (putGroup groups g v).
Proof.
  induction 1 as [|[k v'] r Hk Hr IH]; cbn [putGroup]; intros Hg.
  - now repeat constructor.
  - destruct (k =? g)%string; constructor; auto.
Qed.

Lemma pushed_keyed groups g r t e :
  gf_filename e = gf_id e ->
  groupsKeyed groups -> groupsKeyed (pushed groups g r t e).
Proof.
  intros He [D F]. unfold pushed, groupsKeyed. split.
  - rewrite keys_putGroup. destruct (has (map fst groups) g) eqn:H; [exact D|].
    apply has_false in H.
    apply NoDup_incl_NoDup with (l := g :: map fst groups).
    + now constructor.
    + rewrite length_app. cbn. lia.
    + intros x Hx. apply in_or_app. cbn in *. tauto.
  - apply putGroup_Forall_kv; [exact F|]. cbn [fst snd g_id g_files]. split; [|split].
    + destruct (getGroup groups g) as [grp|] eqn:G; [|reflexivity].
      apply getGroup_In in G. rewrite Forall_forall in F. now destruct (F _ G).
    + intros E. apply app_eq_nil in E. destruct E as [_ E]. discriminate.
    + apply Forall_app. split; [|now repeat constructor].
      destruct (getGroup groups g) as [grp|] eqn:G; [|constructor].
      apply getGroup_In in G. rewrite Forall_forall in F.
      now destruct (F _ G) as (_ & _ & Hf).
Qed.

Lemma membersOf_push groups g r t e g' :
  membersOf (pushed groups g r t e) g' =
  if (g =? g')%string then membersOf groups g ++ [gf_id e] else membersOf groups g'.
Proof.
  unfold membersOf, pushed. destruct (g =? g')%string eqn:E.
  - apply String.eqb_eq in E. subst g'. rewrite getGroup_putGroup_same. cbn [g_files].
    rewrite map_app. destruct (getGroup groups g); reflexivity.
  - apply String.eqb_neq in E. now rewrite getGroup_putGroup_other.
Qed.

Lemma collectedLinks_groups t m :
  groupsKeyed (fst (collectedLinks t m)) /\
  forall g, membersOf (fst (collectedLinks t m)) g = listedLinks m g.
Proof.
  unfold collectedLinks, listedLinks.
  assert (G : forall ks groups inds,
             groupsKeyed groups ->
             let acc :=
               fold_left
                 (fun (acc : list (string * Group) * list Item) linkId =>
                    let (groups, individualFiles) := acc in
                    match get m linkId with
                    | Some fileMeta =>
                        if isExternal fileMeta then
                          let item :=
                            mkItem linkId (orOpt (embedUrl fileMeta) (externalUrl fileMeta))
                                   linkId
                                   (orElse (category fileMeta) "fun")
                                   (orElse (description fileMeta) "")
                                   (orElse (uploadDate fileMeta) t)
                                   (orElse (type fileMeta) "video")
                                   (truthy (groupId fileMeta)) []
                                   true (externalUrl fileMeta) (embedUrl fileMeta)
                                   (videoType fileMeta)
                                   (Some (orderOr999 (order fileMeta)))
                                   (if truthy (groupId fileMeta)
                                    then groupId fileMeta else None) in
                          match groupId fileMeta with
                          | Some g =>
                              if truthy (groupId fileMeta) then
                                (pushed groups g fileMeta t
                                   (mkGroupFile linkId
                                      (orOpt (embedUrl fileMeta) (externalUrl fileMeta))
                                      linkId "video" (orderOr999 (order fileMeta)) true
                                      (externalUrl fileMeta) (embedUrl fileMeta)
                                      (videoType fileMeta)),
                                 individualFiles)
                              else (groups, individualFiles ++ [item])
                          | None => (groups, individualFiles ++ [item])
                          end
                        else acc
                    | None => acc
                    end)
                 ks (groups, inds) in
             groupsKeyed (fst acc) /\
             forall g, membersOf (fst acc) g =
                       membersOf groups g ++
                       filter (fun k => isExternalOpt (get m k) && grouped (get m k)
                                        && groupIs (get m k) g) ks).
  { induction ks as [|k ks IH]; intros groups inds K; cbn [fold_left filter].
    - cbn [fst]. split; [exact K|]. intros g. now rewrite app_nil_r.
    - unfold isExternalOpt, grouped, groupIs.
      destruct (get m k) as [r|]; [|cbn [andb]; now apply IH].
      destruct (isExternal r); cbn [andb]; [|now apply IH].
      destruct (groupId r) as [g0|] eqn:Eg; [|cbn [truthy andb]; now apply IH].
      destruct (truthy (Some g0)) eqn:Tg; cbn [andb]; [|now apply IH].
      destruct (IH (pushed groups g0 r t
                      (mkGroupFile k (orOpt (embedUrl r) (externalUrl r)) k "video"
                                   (orderOr999 (order r)) true (externalUrl r)
                                   (embedUrl r) (videoType r)))
                   inds
                   (pushed_keyed groups g0 r t
                      (mkGroupFile k (orOpt (embedUrl r) (externalUrl r)) k "video"
                                   (orderOr999 (order r)) true (externalUrl r)
                                   (embedUrl r) (videoType r))
                      eq_refl K)) as [K' M'].
      split; [exact K'|]. intros g. rewrite M', membersOf_push. cbn [gf_id].
      destruct (g0 =? g)%string eqn:E0;
        [apply String.eqb_eq in E0; subst g0; now rewrite <- app_assoc|reflexivity]. }
  destruct (G (keys m) [] [] (conj (NoDup_nil _) (Forall_nil _))) as [K M].
  split; [exact K|]. intros g. now rewrite M.
Qed.

Lemma collectedFiles_groups t m mediaFiles acc :
  groupsKeyed (fst acc) ->
  groupsKeyed (fst (collectedFiles t m mediaFiles acc)) /\
  forall g, membersOf (fst (collectedFiles t m mediaFiles acc)) g =
            membersOf (fst acc) g ++ listedFiles m mediaFiles g.
Proof.
  unfold collectedFiles, listedFiles. revert acc.
  induction mediaFiles as [|f fs IH]; intros [groups inds] K; cbn [fold_left filter fst].
  - split; [exact K|]. intros g. now rewrite app_nil_r.
  - unfold grouped, groupIs. cbn [fst] in K.
    destruct (get m f) as [r|]; [|cbn [andb]; now apply IH].
    destruct (groupId r) as [g0|] eqn:Eg; [|cbn [truthy andb]; now apply IH].
    destruct (truthy (Some g0)) eqn:Tg; cbn [andb]; [|now apply IH].
    destruct (IH (pushed groups g0 r t
                    (mkGroupFile f (Some ("/uploads/" ++ f)%string) f
                                 (orElse (type r) "image") (orderOr999 (order r))
                                 false None None None), inds)
                 (pushed_keyed groups g0 r t
                    (mkGroupFile f (Some ("/uploads/" ++ f)%string) f
                                 (orElse (type r) "image") (orderOr999 (order r))
                                 false None None None)
                    eq_refl K)) as [K' M'].
    split; [exact K'|]. intros g. rewrite M'. cbn [fst]. rewrite membersOf_push. cbn [gf_id].
    destruct (g0 =? g)%string eqn:E0;
        [apply String.eqb_eq in E0; subst g0; now rewrite <- app_assoc|reflexivity].
Qed.

Lemma Forall2_compose {A B C} (R1 : A -> B -> Prop) (R2 : B -> C -> Prop) la lb lc :
  Forall2 R1 la lb -> Forall2 R2 lb lc ->
  Forall2 (fun a c => exists b, R1 a b /\ R2 b c) la lc.
Proof.
  intros H. revert lc. induction H as [|a b la lb Hab H IH]; intros lc H2;
    inversion H2; subst; constructor; eauto.
Qed.

Lemma Forall2_map_l {A A' B} (f : A -> A') (R : A' -> B -> Prop) la lb :
  Forall2 R (map f la) lb -> Forall2 (fun a b => R (f a) b) la lb.
Proof.
  revert lb. induction la as [|a la IH]; intros lb H; inversion H; subst; constructor; auto.
Qed.

Lemma Forall2_Forall_r {A B} (R : A -> B -> Prop) (P : B -> Prop) la lb :
  Forall2 R la lb -> (forall a b, R a b -> P b) -> Forall P lb.
Proof. induction 1; intros H'; constructor; eauto. Qed.

Lemma finishGroup_run lc m group w :
  g_files group <> [] ->
  exists ti,
    resolveTitle m (sortGroupFiles lc (g_files group)) = Some ti /\
    finishGroup lc m group w =
    (Ret (mkGroup (g_id group) (sortGroupFiles lc (g_files group)) (g_category group)
                  (g_description group) (g_uploadDate group) (Some ti)), w).
Proof.
  intros Hne.
  assert (Hne' : sortGroupFiles lc (g_files group) <> []).
  { unfold sortGroupFiles. intros E. apply sort_nil_iff in E. contradiction. }
  destruct (resolveTitle_defined m _ Hne') as [ti E].
  exists ti. split; [exact E|]. unfold finishGroup. now rewrite E.
Qed.

(** Where no group id names an inherited property GET /api/images
    answers the individual items followed by one item per group, sorted
    by upload date. *)
Lemma getImages_run lc w :
  let m := currentMetadata (disk w) in
  let acc := collectedFiles (clock w) m (filter isMedia (names (uploads (disk w))))
                          (collectedLinks (clock w) m) in
  inheritedGroupId m (mediaOnDisk (disk w)) = false ->
  exists groupItems,
    fst (getImages lc w) =
    Ret (Ok (sort (fun a b => lc (i_uploadDate b) (i_uploadDate a))
                  (snd acc ++ groupItems))) /\
    Forall2 (fun kv it =>
               i_id it = g_id (snd kv) /\ i_isGroup it = true /\ i_type it = "group" /\
               i_files it = sortGroupFiles lc (g_files (snd kv)) /\
               exists ti, resolveTitle m (i_files it) = Some ti /\
                          i_url it = ti_url ti /\ i_filename it = ti_filename ti)
            (ownEntries (fst acc)) groupItems.
Proof.
  intros m acc Safe.
  destruct (collectedLinks_groups (clock w) m) as [K0 _].
  destruct (collectedFiles_groups (clock w) m (filter isMedia (names (uploads (disk w))))
              (collectedLinks (clock w) m) K0) as [[_ K] _].
  fold acc in K.
  set (R1 := fun (group g' : Group) =>
               g_id g' = g_id group /\
               g_files g' = sortGroupFiles lc (g_files group) /\
               exists ti, g_titleImage g' = Some ti /\
                          resolveTitle m (g_files g') = Some ti).
  set (R2 := fun (g' : Group) (it : Item) =>
               i_id it = g_id g' /\ i_isGroup it = true /\ i_type it = "group" /\
               i_files it = g_files g' /\
               exists ti, g_titleImage g' = Some ti /\
                          i_url it = ti_url ti /\ i_filename it = ti_filename ti).
  assert (W : wp (getImages lc)
                 (fun r _ =>
                    exists groups' groupItems,
                      r = Ok (sort (fun a b => lc (i_uploadDate b) (i_uploadDate a))
                                   (snd acc ++ groupItems)) /\
                      Forall2 R1 (objectValues (fst acc)) groups' /\
                      Forall2 R2 groups' groupItems) w).
  { unfold getImages. apply wp_tryCatch. apply wp_bind.
    unfold assembleGroups.
    apply wp_bind, wp_load. apply wp_bind, wp_readdirUploads. apply wp_bind, wp_now.
    cbn [disk clock]. rewrite uploads_afterLoad. fold m.
    set (w1 := mkWorld _ _ _ _).
    pose proof (collect_closed (clock w) m (filter isMedia (names (uploads (disk w)))))
      as C.
    unfold mediaOnDisk in Safe. rewrite Safe in C. fold acc in C.
    destruct (collectLinks (clock w) m) as [links|]; [|discriminate C]. rewrite C.
    destruct acc as [groups inds] eqn:Eacc. cbn [fst snd] in *.
    apply wp_bind.
    eapply wp_conseq.
    { apply (forEach_collect (finishGroup lc m) (fun group => g_files group <> []) R1
               (objectValues groups) w1).
      - intros group Hne. destruct (finishGroup_run lc m group w1 Hne) as (ti & Et & Er).
        unfold wp. rewrite Er. split; [|reflexivity].
        unfold R1. cbn [g_id g_files g_titleImage]. eauto.
      - apply Forall_forall. intros grp I. unfold objectValues in I.
        apply in_map_iff in I.
        destruct I as (kv & <- & I). apply (proj1 (In_ownEntries _ _)) in I.
        rewrite Forall_forall in K.
        now destruct (K kv I) as (_ & Hne & _). }
    intros done w2 (groups' & -> & F1 & ->). cbn [app].
    apply wp_ret. cbn [fst snd]. apply wp_bind.
    eapply wp_conseq.
    { apply (forEach_collect groupItem
               (fun g' => exists ti, g_titleImage g' = Some ti) R2 groups' w1).
      - intros g' (ti & Et). unfold wp, groupItem. rewrite Et. unfold ret.
        split; [|reflexivity]. unfold R2. cbn. eauto 10.
      - eapply Forall2_Forall_r; [exact F1|].
        intros a b (_ & _ & ti & Et & _). eauto. }
    intros done w2 (groupItems & -> & F2 & ->). cbn [app].
    apply wp_ret. eauto. }
  apply wp_elim in W. destruct W as (r & w' & E & groups' & groupItems & -> & F1 & F2).
  exists groupItems. rewrite E. split; [reflexivity|].
  unfold objectValues in F1. apply Forall2_map_l in F1.
  pose proof (Forall2_compose _ _ _ _ _ F1 F2) as F.
  eapply Forall2_impl; [|exact F].
  intros kv it (g' & (H1 & H2 & ti & H3 & H4) & (H5 & H6 & H7 & H8 & ti' & H9 & H10 & H11)).
  rewrite H5, H1, H8, H2. repeat split; auto.
  exists ti. rewrite H9 in H3. inversion H3; subst ti'. rewrite <- H2. auto.
Qed.

Lemma listing_groups t m mediaFiles :
  let acc := collectedFiles t m mediaFiles (collectedLinks t m) in
  groupsKeyed (fst acc) /\
  forall g, membersOf (fst acc) g = listedMembers m mediaFiles g.
Proof.
  intros acc. destruct (collectedLinks_groups t m) as [K0 M0].
  destruct (collectedFiles_groups t m mediaFiles (collectedLinks t m) K0) as [K M].
  split; [exact K|]. intros g. unfold acc. rewrite M, M0. reflexivity.
Qed.

Lemma listing_inds t m mediaFiles :
  snd (collectedFiles t m mediaFiles (collectedLinks t m)) =
  flat_map (fun k => match get m k with
                     | Some r => if isExternal r && negb (truthy (groupId r))
                                 then [linkItem t k r] else []
                     | None => []
                     end) (keys m) ++
  flat_map (fun f => if grouped (get m f) then [] else [fileItem t f (get m f)]) mediaFiles.
Proof. now rewrite collectedFiles_inds, collectedLinks_inds. Qed.

Lemma resolveTitle_is_member m files ti :
  resolveTitle m files = Some ti ->
  exists f, In f files /\ ti = mkTitleImage (gf_id f) (gf_url f) (gf_filename f).
Proof.
  unfold resolveTitle.
  destruct (find _ files) as [f|] eqn:E.
  - intros [= <-]. apply find_some in E. destruct E as [I _]. eauto.
  - destruct files as [|f files]; cbn [hd_error]; [discriminate|].
    intros [= <-]. exists f. split; [now left|reflexivity].
Qed.

Lemma NoDup_map_In_eq {A B} (f : A -> B) l a b :
  NoDup (map f l) -> In a l -> In b l -> f a = f b -> a = b.
Proof.
  induction l as [|x l IH]; cbn [map]; [intros _ []|].
  intros D Ia Ib E. inversion D as [|y l' N D']; subst.
  destruct Ia as [->|Ia]; destruct Ib as [->|Ib]; auto.
  - exfalso. apply N. rewrite E. now apply in_map.
  - exfalso. apply N. rewrite <- E. now apply in_map.
Qed.

Lemma Forall2_map_eq {A B C} (f : A -> C) (g : B -> C) (R : A -> B -> Prop) la lb :
  Forall2 R la lb -> (forall a b, In a la -> R a b -> g b = f a) -> map g lb = map f la.
Proof.
  induction 1 as [|a b la lb Hab H IH]; intros H'; cbn [map]; [reflexivity|].
  f_equal; [apply H'; [now left|exact Hab]|].
  apply IH. intros x y I. apply H'. now right.
Qed.

(** X18. GET /api/images answers 500 where the group id of an external
    link or of a media file of the uploads directory names a property
    that a plain object inherits ([constructor], [toString], [__proto__]
    and the like). Everywhere else it answers, and its items that are no
    groups are exactly these: one item for every media file of the uploads
    directory whose record has no group id (or that has no record), with
    the url [/uploads/] followed by its name and the defaults 'fun', the
    empty description, the time of the request and 'image' for the fields
    its record lacks; and one item for every external link of the metadata
    map that has no group id. A file of another type, and a record
    without a file that is no external link, are not listed. *)
Theorem listing_shows_ungrouped_media_and_links :
  forall (localeCompare : string -> string -> Z) (w : World),
    let m := currentMetadata (disk w) in
    let media := mediaOnDisk (disk w) in
    let t := clock w in
    if inheritedGroupId m media
    then fst (getImages localeCompare w) = Ret (Error 500 "Failed to load images")
    else
      exists items,
        fst (getImages localeCompare w) = Ret (Ok items) /\
        (forall it, In it items -> i_isGroup it = false ->
           (exists f, In f media /\ grouped (get m f) = false /\
                      it = fileItem t f (get m f)) \/
           (exists k r, get m k = Some r /\ isExternal r = true /\
                        truthy (groupId r) = false /\ it = linkItem t k r)) /\
        (forall f, In f media -> grouped (get m f) = false ->
                   In (fileItem t f (get m f)) items) /\
        (forall k r, get m k = Some r -> isExternal r = true ->
                     truthy (groupId r) = false -> In (linkItem t k r) items).
Proof.
  intros lc w m media t.
  destruct (inheritedGroupId m media) eqn:Safe; [now apply getImages_inherited|].
  destruct (getImages_run lc w Safe) as (groupItems & E & F). cbv zeta in E, F.
  fold m t in E, F. change (filter isMedia (names (uploads (disk w)))) with media in E, F.
  rewrite listing_inds in E.
  eexists. split; [exact E|]. split; [|split].
  - intros it I G. apply sort_In in I. apply in_app_or in I. destruct I as [I|I].
    + apply in_app_or in I. destruct I as [I|I]; apply in_flat_map in I.
      * destruct I as (k & Ik & I). right.
        destruct (get m k) as [r|] eqn:Gk; [|destruct I].
        destruct (isExternal r) eqn:X; cbn [andb] in I; [|destruct I].
        destruct (truthy (groupId r)) eqn:T; cbn [negb] in I; [destruct I|].
        destruct I as [<-|[]]. exists k, r. auto.
      * destruct I as (f & If & I). left.
        destruct (grouped (get m f)) eqn:Gf; [destruct I|].
        destruct I as [<-|[]]. eauto.
    + exfalso. destruct (Forall2_In_r _ _ _ _ F I) as (kv & _ & _ & Hg & _). congruence.
  - intros f I G. apply sort_In. apply in_or_app. left. apply in_or_app. right.
    apply in_flat_map. exists f. split; [exact I|]. rewrite G. now left.
  - intros k r G X T. apply sort_In. apply in_or_app. left. apply in_or_app. left.
    apply in_flat_map. exists k. split; [now apply (get_In_keys m k r)|].
    rewrite G, X, T. now left.
Qed.

(** X19. Where no group id names a property that a plain object inherits,
    the answer of GET /api/images has exactly one group item for every
    group id that some external link of the metadata map or some media
    file of the uploads directory carries. Its type is 'group', its
    members are exactly those links and files, each once for each time it
    is found, and the file name it shows as its title is the id of one of
    its members. *)
Theorem listing_groups_hold_their_members :
  forall (localeCompare : string -> string -> Z) (w : World),
    let m := currentMetadata (disk w) in
    let media := mediaOnDisk (disk w) in
    inheritedGroupId m media = false ->
    exists items,
      fst (getImages localeCompare w) = Ret (Ok items) /\
      (forall it, In it items -> i_isGroup it = true ->
         i_type it = "group" /\ i_files it <> [] /\
         Permutation (map gf_id (i_files it)) (listedMembers m media (i_id it)) /\
         In (i_filename it) (map gf_id (i_files it))) /\
      (forall g, listedMembers m media g <> [] ->
         exists it, In it items /\ i_isGroup it = true /\ i_id it = g) /\
      (forall it1 it2, In it1 items -> In it2 items ->
         i_isGroup it1 = true -> i_isGroup it2 = true ->
         i_id it1 = i_id it2 -> it1 = it2).
Proof.
  intros lc w m media Safe.
  destruct (getImages_run lc w Safe) as (groupItems & E & F). cbv zeta in E, F.
  fold m in E, F. change (filter isMedia (names (uploads (disk w)))) with media in E, F.
  destruct (listing_groups (clock w) m media) as [[D K] M]. cbv zeta in D, K, M.
  set (acc := collectedFiles (clock w) m media (collectedLinks (clock w) m)) in *.
  assert (Gi : forall it, In it (snd acc ++ groupItems) -> i_isGroup it = true ->
                          In it groupItems).
  { intros it I G. apply in_app_or in I. destruct I as [I|I]; [|exact I]. exfalso.
    unfold acc in I. rewrite listing_inds in I.
    apply in_app_or in I. destruct I as [I|I]; apply in_flat_map in I.
    - destruct I as (k & _ & I). destruct (get m k) as [r|]; [|destruct I].
      destruct (isExternal r); cbn [andb] in I; [|destruct I].
      destruct (truthy (groupId r)) eqn:T; cbn [negb] in I; [destruct I|].
      destruct I as [<-|[]]. cbn [linkItem i_isGroup] in G. congruence.
    - destruct I as (f & _ & I). destruct (grouped (get m f)); [destruct I|].
      destruct I as [<-|[]]. discriminate G. }
  eexists. split; [exact E|]. split; [|split].
  - intros it I G. apply sort_In in I. apply Gi in I; [|exact G].
    destruct (Forall2_In_r _ _ _ _ F I) as ([k grp] & Ikv & Hid & _ & Hty & Hf & ti & Ht & _ & Hn).
    apply (proj1 (In_ownEntries _ _)) in Ikv.
    cbn [snd] in *. rewrite Forall_forall in K. destruct (K _ Ikv) as (Hk & Hne & Hfn).
    cbn [fst snd] in *.
    split; [exact Hty|]. split.
    { rewrite Hf. unfold sortGroupFiles. intros En. apply sort_nil_iff in En. contradiction. }
    split.
    + rewrite Hf, Hid, Hk, <- M. unfold membersOf.
      rewrite (In_getGroup _ _ _ D Ikv). apply Permutation_map, Permutation_sym.
      unfold sortGroupFiles. apply sort_perm.
    + apply resolveTitle_is_member in Ht. destruct Ht as (f & If & ->).
      rewrite Hn. cbn [ti_filename].
      assert (If' : In f (g_files grp))
        by (rewrite Hf in If; unfold sortGroupFiles in If; now apply sort_In in If).
      rewrite Forall_forall in Hfn. rewrite (Hfn f If'). now apply in_map.
  - intros g Hg. rewrite <- M in Hg. unfold membersOf in Hg.
    destruct (getGroup (fst acc) g) as [grp|] eqn:G; [|congruence].
    apply getGroup_In in G.
    destruct (Forall2_In_l _ _ _ _ F (proj2 (In_ownEntries _ _) G))
      as (it & Iit & Hid & Hig & _).
    cbn [snd] in Hid. rewrite Forall_forall in K. destruct (K _ G) as (Hk & _).
    cbn [fst snd] in Hk.
    exists it. split; [|split; [exact Hig|congruence]].
    apply sort_In. apply in_or_app. now right.
  - intros it1 it2 I1 I2 G1 G2 Eid.
    apply sort_In in I1. apply sort_In in I2.
    apply Gi in I1; [|exact G1]. apply Gi in I2; [|exact G2].
    assert (Ids : map i_id groupItems = map fst (ownEntries (fst acc))).
    { apply (Forall2_map_eq fst i_id _ _ _ F).
      intros kv it Ikv (Hid & _). rewrite Hid. rewrite Forall_forall in K.
      now destruct (K kv (proj1 (In_ownEntries _ _) Ikv)). }
    apply (NoDup_map_In_eq i_id groupItems); auto. rewrite Ids.
    apply (Permutation_NoDup (l := map fst (fst acc))); [|exact D].
    apply Permutation_map, Permutation_sym, ownEntries_perm.
Qed.

Lemma listing_groups_hold_their_members_witness :
  exists items it,
    fst (getImages caseBlindCompare tiedGroupWorld) = Ret (Ok items) /\
    In it items /\ i_id it = "group-1" /\
    Permutation (map gf_id (i_files it)) ["B.jpg"; "a.jpg"; "c.jpg"].
Proof.
  destruct (listing_groups_hold_their_members caseBlindCompare tiedGroupWorld eq_refl)
    as (items & E & Members & Found & _).
  destruct (Found "group-1") as (it & I & G & Eid); [discriminate|].
  exists items, it. split; [exact E|]. split; [exact I|]. split; [exact Eid|].
  destruct (Members it I G) as (_ & _ & P & _). rewrite Eid in P. exact P.
Defined.

(* ================================================================= *)
(** ** The title of a group, as the listing shows it *)

Lemma findTitleImageId_first m id ids r t :
  get m id = Some r -> titleImageId r = Some t -> t <> "" ->
  findTitleImageId m (id :: ids) = Some t.
Proof.
  intros G T N. cbn [findTitleImageId]. rewrite G, T. cbn [truthy].
  apply String.eqb_neq in N. now rewrite N.
Qed.

(** After the title route has run, every member the listing puts in the
    group carries the title. *)
Lemma listed_member_titled m m' g t files id :
  (forall id, get m' id = option_map (titledRecord g t files id) (get m id)) ->
  (forall x, In x (filter isMedia files) -> In x files) ->
  In id (listedMembers m' (filter isMedia files) g) ->
  exists r', get m' id = Some r' /\ titleImageId r' = Some t.
Proof.
  intros H Hin I. unfold listedMembers in I. apply in_app_or in I.
  assert (T : forall r, groupIs (Some (titledRecord g t files id r)) g = true ->
                        has files id = true \/
                        isExternal (titledRecord g t files id r) = true ->
                        titleImageId (titledRecord g t files id r) = Some t).
  { intros r Gr Hor. rewrite groupIs_titled in Gr. unfold titledRecord in *. rewrite Gr in *.
    cbn [andb] in *. destruct (has files id); cbn [orb] in *; [reflexivity|].
    destruct (isExternal r) eqn:X; [reflexivity|].
    destruct Hor as [C|C]; [discriminate|]. congruence. }
  destruct I as [I|I].
  - unfold listedLinks in I. apply filter_In in I. destruct I as [_ C].
    rewrite H in *. destruct (get m id) as [r|]; cbn [option_map] in *; [|discriminate C].
    apply andb_true_iff in C. destruct C as [C Gr].
    apply andb_true_iff in C. destruct C as [X _]. cbn [isExternalOpt] in X.
    eexists. split; [reflexivity|]. apply T; [exact Gr|now right].
  - unfold listedFiles in I. apply filter_In in I. destruct I as [Im C].
    rewrite H in *. destruct (get m id) as [r|]; cbn [option_map] in *; [|discriminate C].
    apply andb_true_iff in C. destruct C as [_ Gr].
    eexists. split; [reflexivity|]. apply T; [exact Gr|left].
    apply has_In. now apply Hin.
Qed.

(** Setting a title changes no group id the listing looks up. *)
Lemma listedGroupIds_titled m m' g t files media :
  (forall id, get m' id = option_map (titledRecord g t files id) (get m id)) ->
  keys m' = keys m ->
  listedGroupIds m' media = listedGroupIds m media.
Proof.
  intros Hget Hk.
  assert (L : forall id, lookedUp (get m' id) = lookedUp (get m id)).
  { intros id. rewrite Hget. destruct (get m id) as [r|]; [|reflexivity].
    cbn [option_map lookedUp]. unfold titledRecord. now destruct (_ && _). }
  assert (X : forall id, isExternalOpt (get m' id) = isExternalOpt (get m id)).
  { intros id. rewrite Hget. destruct (get m id) as [r|]; [|reflexivity].
    cbn [option_map isExternalOpt]. unfold titledRecord. now destruct (_ && _). }
  unfold listedGroupIds. rewrite Hk. f_equal; apply flat_map_ext; intros id.
  - now rewrite X, L.
  - apply L.
Qed.

(** X20. Once PUT /api/groups/:groupId/title has succeeded for the id [t]
    of an external link or of a media file, GET /api/images shows the
    group with [t] as the file name of its title, provided no group id of
    a listed link or media file names a property that a plain object
    inherits. *)
Theorem chosen_title_heads_the_group_in_the_listing :
  forall (localeCompare : string -> string -> Z) (w : World) (g t : string),
    let m := currentMetadata (disk w) in
    let files := names (uploads (disk w)) in
    let w' := snd (putGroupTitle g (Some t) w) in
    t <> "" -> g <> "" ->
    groupIs (get m t) g = true ->
    (if startsWith "link-" t then isExternalOpt (get m t) = true
     else In t files /\ isMedia t = true) ->
    inheritedGroupId m (mediaOnDisk (disk w)) = false ->
    exists items it,
      fst (getImages localeCompare w') = Ret (Ok items) /\
      In it items /\ i_id it = g /\ i_isGroup it = true /\ i_filename it = t.
Proof.
  intros lc w g t m files w' Ht Hgne Hg Hm Safe.
  destruct (putGroupTitle_run g (Some t) w) as (w1 & E & Hu & _ & Hk & Hget).
  fold m files in E, Hk, Hget.
  assert (R : titleRefusal m files g (Some t) = None).
  { unfold titleRefusal. apply String.eqb_neq in Ht. rewrite Ht, Hg.
    destruct (startsWith "link-" t); cbn.
    - now rewrite Hm.
    - destruct Hm as [Hm _]. apply has_In in Hm. now rewrite Hm. }
  rewrite R in Hget.
  assert (Eo : orElse (Some t) "" = t)
    by (unfold orElse; apply String.eqb_neq in Ht; now rewrite Ht).
  rewrite Eo in Hget.
  assert (Ew : w' = w1) by (unfold w'; now rewrite E). rewrite Ew.
  set (m' := currentMetadata (disk w1)) in *.
  assert (Safe1 : inheritedGroupId m' (mediaOnDisk (disk w1)) = false).
  { unfold inheritedGroupId, mediaOnDisk. rewrite Hu.
    rewrite (listedGroupIds_titled m m' g t files _ Hget Hk). exact Safe. }
  destruct (getImages_run lc w1 Safe1) as (groupItems & Ei & F). cbv zeta in Ei, F.
  fold m' in Ei, F. rewrite Hu in Ei, F. fold files in Ei, F.
  set (media := filter isMedia files) in *.
  destruct (listing_groups (clock w1) m' media) as [[D K] M]. cbv zeta in D, K, M.
  set (acc := collectedFiles (clock w1) m' media (collectedLinks (clock w1) m')) in *.
  (* [t] is a member of the group in the listing *)
  assert (It : In t (listedMembers m' media g)).
  { destruct (get m t) as [r|] eqn:G; [|discriminate Hg].
    assert (G' : get m' t = Some (titledRecord g t files t r))
      by (rewrite Hget, G; reflexivity).
    assert (Gr : groupIs (get m' t) g = true) by (rewrite G', groupIs_titled; exact Hg).
    assert (Grp : grouped (get m' t) = true).
    { rewrite G'. unfold grouped.
      assert (Eg : groupId (titledRecord g t files t r) = groupId r)
        by (unfold titledRecord; now destruct (_ && _)).
      rewrite Eg. cbn [groupIs] in Hg. destruct (groupId r) as [g0|]; [|discriminate].
      apply String.eqb_eq in Hg. subst g0. cbn [truthy].
      apply String.eqb_neq in Hgne. now rewrite Hgne. }
    unfold listedMembers. apply in_or_app.
    destruct (startsWith "link-" t).
    - left. unfold listedLinks. apply filter_In. split.
      + rewrite Hk. now apply (get_In_keys m t r).
      + rewrite Gr, Grp, !andb_true_r. rewrite G'. cbn [isExternalOpt].
        cbn [isExternalOpt] in Hm. unfold titledRecord. now destruct (_ && _).
    - right. destruct Hm as [If Mt]. unfold listedFiles. apply filter_In. split.
      + unfold media. apply filter_In. now split.
      + now rewrite Gr, Grp. }
  (* the item of the group *)
  assert (Hne : membersOf (fst acc) g <> [])
    by (rewrite M; intros En; rewrite En in It; destruct It).
  unfold membersOf in Hne.
  destruct (getGroup (fst acc) g) as [grp|] eqn:G; [|congruence].
  pose proof (getGroup_In _ _ _ G) as Ig.
  destruct (Forall2_In_l _ _ _ _ F (proj2 (In_ownEntries _ _) Ig))
    as (it & Iit & Hid & Hig & _ & Hf & ti & Hti & _ & Hn).
  cbn [snd] in *. rewrite Forall_forall in K. destruct (K _ Ig) as (Hkid & _ & Hfn).
  cbn [fst snd] in *.
  eexists. exists it. split; [exact Ei|].
  split; [apply sort_In; apply in_or_app; now right|].
  split; [congruence|]. split; [exact Hig|].
  (* its title *)
  assert (Mem : map gf_id (g_files grp) = listedMembers m' media g)
    by (rewrite <- M; unfold membersOf; now rewrite G).
  assert (Ids : forall id, In id (map gf_id (i_files it)) ->
                           In id (listedMembers m' media g)).
  { intros id I. rewrite <- Mem. rewrite Hf in I. apply in_map_iff in I.
    destruct I as (f & <- & If). unfold sortGroupFiles in If. apply sort_In in If.
    now apply in_map. }
  assert (Tin : In t (map gf_id (i_files it))).
  { rewrite <- Mem in It. apply in_map_iff in It. destruct It as (f & <- & If).
    rewrite Hf. apply in_map. unfold sortGroupFiles. now apply sort_In. }
  assert (Ft : findTitleImageId m' (map gf_id (i_files it)) = Some t).
  { destruct (i_files it) as [|f0 rest] eqn:Efl; [destruct Tin|]. cbn [map].
    destruct (listed_member_titled m m' g t files (gf_id f0) Hget) as (r' & Gr' & Tr').
    - intros x Ix. unfold media in Ix. now apply filter_In in Ix.
    - apply Ids. now left.
    - now apply (findTitleImageId_first m' (gf_id f0) (map gf_id rest) r' t). }
  destruct (resolveTitle_member m' (i_files it) t Ft Tin) as (ti' & Hti' & Hid').
  rewrite Hti in Hti'. inversion Hti'; subst ti'.
  apply resolveTitle_is_member in Hti. destruct Hti as (f & If & ->).
  cbn [ti_id ti_filename] in *. rewrite Hn.
  assert (If' : In f (g_files grp))
    by (rewrite Hf in If; unfold sortGroupFiles in If; now apply sort_In in If).
  rewrite Forall_forall in Hfn. now rewrite (Hfn f If').
Qed.

Lemma chosen_title_heads_the_group_in_the_listing_witness :
  exists items it,
    fst (getImages codeUnitCompare
           (snd (putGroupTitle "group-1" (Some "b.jpg") threeFileGroupWorld)))
    = Ret (Ok items) /\
    In it items /\ i_id it = "group-1" /\ i_isGroup it = true /\ i_filename it = "b.jpg".
Proof.
  exact (chosen_title_heads_the_group_in_the_listing codeUnitCompare threeFileGroupWorld
           "group-1" "b.jpg" ltac:(discriminate) ltac:(discriminate) eq_refl
           (conj (or_intror (or_introl eq_refl)) eq_refl) eq_refl).
Defined.

(* ================================================================= *)
(** ** An upload, as the listing shows it *)

Lemma orElse_orElse o d : d <> "" -> orElse (Some (orElse o d)) d = orElse o d.
Proof.
  intros N. unfold orElse. destruct o as [s|].
  - destruct (s =? "")%string eqn:E; [|now rewrite E].
    apply String.eqb_neq in N. destruct (d =? "")%string; reflexivity.
  - destruct (d =? "")%string; reflexivity.
Qed.

Lemma orElse_orElse_empty o : orElse (Some (orElse o "")) "" = orElse o "".
Proof.
  unfold orElse. destruct o as [s|]; [|reflexivity].
  destruct (s =? "")%string eqn:E; [reflexivity|now rewrite E].
Qed.

(** X21. A file that multer has stored in the uploads directory under a
    name of a recognised media type is in the answer of a later
    GET /api/images once POST /api/upload has answered: without a group
    id as an item of its own with the url [/uploads/] followed by its
    name, the category and the description of the request ('fun' and the
    empty description by default) and the type 'video' or 'image' after
    the MIME type; with a group id as a member of the item of that
    group. This holds where no group id of a listed link or media file,
    that of the upload included, names a property that a plain object
    inherits; where one does the listing answers 500. *)
Theorem uploaded_file_is_listed :
  forall (localeCompare : string -> string -> Z) (w : World) (file : UploadedFile)
         (cat desc g : option string) (t u : string),
    In (filename file) (names (uploads (disk w))) ->
    isMedia (filename file) = true ->
    let w' := later (snd (postUpload (mkUploadRequest (Some file) cat desc g) w)) t u in
    if inheritedGroupId (currentMetadata (disk w')) (mediaOnDisk (disk w'))
    then fst (getImages localeCompare w') = Ret (Error 500 "Failed to load images")
    else
    exists items it,
      fst (getImages localeCompare w') = Ret (Ok items) /\
      In it items /\
      if truthy g
      then i_isGroup it = true /\ Some (i_id it) = g /\
           In (filename file) (map gf_id (i_files it))
      else i_isGroup it = false /\ i_id it = filename file /\
           i_url it = Some ("/uploads/" ++ filename file)%string /\
           i_category it = orElse cat "fun" /\
           i_description it = orElse desc "" /\
           i_type it = (if startsWith "video/" (mimetype file) then "video" else "image").
Proof.
  intros lc w file cat desc g t u Hin Hmedia w'.
  destruct (postUpload_spec w file cat desc g) as (w1 & E & Hm & Hu). cbv zeta in Hm.
  set (record := uploadedRecord (clock w) file cat desc g
                   (derivedOrder (disk w) (originalname file)
                      (if truthy g then g else None))) in *.
  assert (Ew : w' = later w1 t u) by (unfold w'; now rewrite E).
  destruct (inheritedGroupId (currentMetadata (disk w')) (mediaOnDisk (disk w')))
    eqn:Safe; [now apply getImages_inherited|].
  destruct (getImages_run lc w' Safe) as (groupItems & Ei & F). cbv zeta in Ei, F.
  rewrite Ew in Ei, F. cbn [later disk clock] in Ei, F. rewrite Hm, Hu in Ei, F.
  set (m' := set (currentMetadata (disk w)) (filename file) record) in *.
  set (media := filter isMedia (names (uploads (disk w)))) in *.
  assert (Im : In (filename file) media) by (unfold media; apply filter_In; now split).
  assert (G : get m' (filename file) = Some record) by apply get_set_same.
  destruct (truthy g) eqn:Tg.
  - (* a member of its group *)
    destruct g as [g0|]; [|discriminate Tg].
    destruct (listing_groups t m' media) as [[D K] M]. cbv zeta in D, K, M.
    set (acc := collectedFiles t m' media (collectedLinks t m')) in *.
    assert (Il : In (filename file) (listedMembers m' media g0)).
    { unfold listedMembers. apply in_or_app. right. unfold listedFiles.
      apply filter_In. split; [exact Im|]. rewrite G. unfold record, uploadedRecord.
      cbn [grouped groupIs groupId]. rewrite Tg. cbn [truthy] in *. rewrite Tg.
      now rewrite String.eqb_refl. }
    rewrite <- M in Il. unfold membersOf in Il.
    destruct (getGroup (fst acc) g0) as [grp|] eqn:Gg; [|destruct Il].
    pose proof (getGroup_In _ _ _ Gg) as Ig.
    destruct (Forall2_In_l _ _ _ _ F (proj2 (In_ownEntries _ _) Ig))
      as (it & Iit & Hid & Hig & _ & Hf & _).
    cbn [snd] in *. rewrite Forall_forall in K. destruct (K _ Ig) as (Hkid & _).
    cbn [fst snd] in *.
    eexists. exists it. unfold w'. rewrite E. cbn [snd]. split; [exact Ei|].
    split; [apply sort_In; apply in_or_app; now right|].
    split; [exact Hig|]. split; [congruence|].
    rewrite Hf. apply in_map_iff in Il. destruct Il as (f & Ef & If).
    apply in_map_iff. exists f. split; [exact Ef|].
    unfold sortGroupFiles. now apply sort_In.
  - (* an item of its own *)
    assert (Gr : grouped (get m' (filename file)) = false).
    { rewrite G. unfold record, uploadedRecord. cbn [grouped groupId]. now rewrite Tg. }
    eexists. exists (fileItem t (filename file) (get m' (filename file))).
    unfold w'. rewrite E. cbn [snd]. split; [exact Ei|]. split.
    + apply sort_In. apply in_or_app. left. rewrite listing_inds.
      apply in_or_app. right. apply in_flat_map. exists (filename file).
      split; [exact Im|]. rewrite Gr. now left.
    + rewrite G. unfold fileItem, record, uploadedRecord.
      cbn [i_isGroup i_id i_url i_category i_description i_type category description type].
      rewrite orElse_orElse by discriminate. rewrite orElse_orElse_empty.
      repeat split. unfold orElse. now destruct (startsWith "video/" (mimetype file)).
Qed.

Lemma uploaded_file_is_listed_witness :
  exists items it,
    fst (getImages codeUnitCompare
           (later (snd (postUpload
                          (mkUploadRequest
                             (Some (mkUploadedFile "1706745600000-9.jpg" "photo.jpg"
                                                   "image/jpeg"))
                             (Some "work") None None) mixedGroupWorld))
                  "2024-03-01T00:00:00.000Z" "1"))
    = Ret (Ok items) /\
    In it items /\
    i_isGroup it = false /\ i_id it = "1706745600000-9.jpg" /\
    i_url it = Some "/uploads/1706745600000-9.jpg" /\
    i_category it = "work" /\ i_description it = "" /\ i_type it = "image".
Proof.
  exact (uploaded_file_is_listed codeUnitCompare mixedGroupWorld
           (mkUploadedFile "1706745600000-9.jpg" "photo.jpg" "image/jpeg")
           (Some "work") None None "2024-03-01T00:00:00.000Z" "1"
           (or_intror (or_intror (or_introl eq_refl))) eq_refl).
Defined.

(** X26. One upload can take the listing down. Once POST /api/upload has
    registered a media file under a group id that names a property every
    plain object inherits ([constructor], [toString], [__proto__] and the
    like), GET /api/images answers 500 to every request, whatever else
    the gallery holds: the listing keeps its groups in a plain object,
    finds the inherited property instead of a group, and fails when it
    pushes to its [files]. *)
Theorem inherited_group_id_breaks_the_listing :
  forall (localeCompare : string -> string -> Z) (w : World) (file : UploadedFile)
         (cat desc : option string) (g t u : string),
    In (filename file) (names (uploads (disk w))) ->
    isMedia (filename file) = true ->
    inherited g = true ->
    let w' := later (snd (postUpload (mkUploadRequest (Some file) cat desc (Some g)) w)) t u in
    fst (getImages localeCompare w') = Ret (Error 500 "Failed to load images").
Proof.
  intros lc w file cat desc g t u Hin Hmedia Hg w'.
  destruct (postUpload_spec w file cat desc (Some g)) as (w1 & E & Hm & Hu).
  cbv zeta in Hm.
  assert (Ew : w' = later w1 t u) by (unfold w'; now rewrite E).
  assert (Tg : truthy (Some g) = true).
  { cbn [truthy]. destruct (g =? "")%string eqn:Eg; [|reflexivity].
    apply String.eqb_eq in Eg. subst g. discriminate Hg. }
  apply getImages_inherited. rewrite Ew. cbn [later disk].
  unfold inheritedGroupId, mediaOnDisk. rewrite Hm, Hu.
  apply existsb_exists. exists g. split; [|exact Hg].
  unfold listedGroupIds. apply in_or_app. right. apply in_flat_map.
  exists (filename file). split; [apply filter_In; now split|].
  rewrite get_set_same. unfold uploadedRecord. cbn [lookedUp groupId].
  rewrite Tg. cbn [truthy] in Tg. cbn [truthy]. rewrite Tg. now left.
Qed.

Lemma inherited_group_id_breaks_the_listing_witness :
  fst (getImages codeUnitCompare
         (later (snd (postUpload
                        (mkUploadRequest
                           (Some (mkUploadedFile "1706745600000-9.jpg" "photo.jpg"
                                                 "image/jpeg"))
                           None None (Some "constructor")) mixedGroupWorld))
                "2024-03-01T00:00:00.000Z" "1"))
  = Ret (Error 500 "Failed to load images").
Proof.
  exact (inherited_group_id_breaks_the_listing codeUnitCompare mixedGroupWorld
           (mkUploadedFile "1706745600000-9.jpg" "photo.jpg" "image/jpeg")
           None None "constructor" "2024-03-01T00:00:00.000Z" "1"
           (or_intror (or_intror (or_introl eq_refl))) eq_refl eq_refl).
Defined.

(* ================================================================= *)
(** ** The entries of the zip export *)

Lemma string_of_uint_digits d :
  Forall (fun c => isDigit c = true) (chars (DecimalString.NilEmpty.string_of_uint d)).
Proof.
  induction d; cbn [DecimalString.NilEmpty.string_of_uint chars list_ascii_of_string];
    constructor; try reflexivity; assumption.
Qed.

Lemma decimalString_digits n : Forall (fun c => isDigit c = true) (chars (decimalString n)).
Proof. apply string_of_uint_digits. Qed.

Lemma decimalString_inj a b : decimalString a = decimalString b -> a = b.
Proof.
  unfold decimalString. intros E.
  apply (f_equal DecimalString.NilEmpty.uint_of_string) in E.
  rewrite !DecimalString.NilEmpty.usu in E. inversion E.
  now apply DecimalNat.Unsigned.to_uint_inj.
Qed.

(** A run of digits followed by something that does not start with a
    digit is read in one way only. *)
Lemma digit_prefix_unique a :
  forall b s1 s2,
    Forall (fun c => isDigit c = true) a -> Forall (fun c => isDigit c = true) b ->
    match s1 with [] => True | c :: _ => isDigit c = false end ->
    match s2 with [] => True | c :: _ => isDigit c = false end ->
    a ++ s1 = b ++ s2 -> a = b.
Proof.
  induction a as [|x a IH]; intros [|y b] s1 s2 Fa Fb N1 N2 E; cbn [app] in E.
  - reflexivity.
  - subst s1. inversion Fb; subst. congruence.
  - subst s2. inversion Fa; subst. congruence.
  - inversion E as [[Exy Eab]]. subst y.
    inversion Fa as [|? ? _ Fa']; subst. inversion Fb as [|? ? _ Fb']; subst.
    f_equal. now apply (IH b s1 s2).
Qed.

Lemma ofChars_inj a b : ofChars a = ofChars b -> a = b.
Proof.
  intros E. apply (f_equal chars) in E. now rewrite !chars_ofChars in E.
Qed.

Lemma chars_inj a b : chars a = chars b -> a = b.
Proof.
  intros E. apply (f_equal ofChars) in E. now rewrite !ofChars_chars in E.
Qed.

Lemma extname_starts_with_dot f :
  match chars (Path.extname f) with [] => True | c :: _ => isDigit c = false end.
Proof.
  unfold Path.extname. rewrite chars_ofChars.
  destruct (splitExt_shape (Path.baseChars (chars f)) (baseChars_noSlash (chars f)))
    as [->|(T & -> & _)]; [exact I|reflexivity].
Qed.

Lemma entrySuffix_no_digit_first z :
  match chars (entrySuffix z) with [] => True | c :: _ => isDigit c = false end.
Proof.
  unfold entrySuffix. destruct (truthy (zi_path z)); [apply extname_starts_with_dot|reflexivity].
Qed.

Lemma numbered_name_inj a b z1 z2 :
  (decimalString a ++ entrySuffix z1)%string = (decimalString b ++ entrySuffix z2)%string ->
  a = b.
Proof.
  intros E. apply (f_equal chars) in E. rewrite !chars_app in E.
  apply decimalString_inj, chars_inj.
  eapply digit_prefix_unique; [apply decimalString_digits|apply decimalString_digits| | |exact E];
    apply entrySuffix_no_digit_first.
Qed.

(** The items of the export: a stored file has a path and its name, a
    link has neither. *)
Lemma zip_item_shape m files g z :
  In z (zipFiles m files g ++ zipLinks m g) ->
  (zi_path z = Some ("uploads/" ++ zi_id z)%string /\ zi_filename z = Some (zi_id z)) \/
  (zi_path z = None /\ zi_filename z = None).
Proof.
  intros I. apply in_app_or in I. destruct I as [I|I].
  - left. unfold zipFiles in I. apply in_flat_map in I. destruct I as (f & _ & I).
    destruct (get m f) as [r|]; [|destruct I].
    destruct (groupIs (Some r) g && isMedia f); [|destruct I].
    destruct I as [<-|[]]. split; reflexivity.
  - right. unfold zipLinks in I. apply in_flat_map in I. destruct I as (k & _ & I).
    destruct (get m k) as [r|]; [|destruct I].
    destruct (isExternal r && groupIs (Some r) g); [|destruct I].
    destruct I as [<-|[]]. split; reflexivity.
Qed.

(** The loop of the entries, on items of that shape. *)
Lemma archiveEntries_run items :
  forall k,
    (forall z, In z items -> truthy (zi_path z) = true -> zi_filename z <> None) ->
    exists entries,
      archiveEntries k items = Some entries /\
      List.length entries = List.length (filter archived items) /\
      forall i z, nth_error (filter archived items) i = Some z ->
        exists e, nth_error entries i = Some e /\
                  ae_name e = (decimalString (k + i + 1) ++ entrySuffix z)%string /\
                  ae_path e = (if truthy (zi_path z) then zi_path z else None).
Proof.
  induction items as [|z items IH]; intros k H.
  - exists []. split; [reflexivity|]. split; [reflexivity|].
    intros [|i] z0 E; discriminate E.
  - assert (H' : forall z0, In z0 items -> truthy (zi_path z0) = true ->
                            zi_filename z0 <> None)
      by (intros z0 I; apply H; now right).
    cbn [archiveEntries filter]. unfold archived at 1 3 4.
    destruct (truthy (zi_path z)) eqn:P; cbn [orb].
    + destruct (zi_filename z) as [fn|] eqn:Fn;
        [|exfalso; apply (H z); [now left|exact P|exact Fn]].
      destruct (IH (S k) H') as (entries & E & L & N). rewrite E. cbn [option_map].
      eexists. split; [reflexivity|]. split; [cbn [List.length]; now rewrite L|].
      intros [|i] z0 Ez; cbn [nth_error] in *.
      * inversion Ez; subst z0. eexists. split; [reflexivity|]. cbn [ae_name ae_path].
        unfold entrySuffix. rewrite P, Fn. rewrite Nat.add_0_r.
        split; [|reflexivity]. f_equal. unfold orElse.
        destruct (fn =? "")%string eqn:Ee; [|reflexivity].
        apply String.eqb_eq in Ee. now subst fn.
      * destruct (N i z0 Ez) as (e & Ee & Hn & Hp). exists e. split; [exact Ee|].
        split; [|exact Hp]. rewrite Hn. do 2 f_equal. lia.
    + destruct (truthy (zi_url z)) eqn:U.
      * destruct (IH (S k) H') as (entries & E & L & N). rewrite E. cbn [option_map].
        eexists. split; [reflexivity|]. split; [cbn [List.length]; now rewrite L|].
        intros [|i] z0 Ez; cbn [nth_error] in *.
        -- inversion Ez; subst z0. eexists. split; [reflexivity|]. cbn [ae_name ae_path].
           unfold entrySuffix. rewrite P, Nat.add_0_r. split; reflexivity.
        -- destruct (N i z0 Ez) as (e & Ee & Hn & Hp). exists e. split; [exact Ee|].
           split; [|exact Hp]. rewrite Hn. do 2 f_equal. lia.
      * apply (IH k H').
Qed.

Lemma getGroupArchive_run lc g w :
  let m := currentMetadata (disk w) in
  let files := names (uploads (disk w)) in
  let groupFiles := zipFiles m files g in
  let externalLinks := zipLinks m g in
  let allItems :=
    sort (fun a b => compareOrderId lc (zi_order a) (zi_id a) (zi_order b) (zi_id b))
         (groupFiles ++ externalLinks) in
  let firstFileMeta :=
    match groupFiles with
    | first :: _ => get m (zi_id first)
    | [] => match externalLinks with
            | first :: _ => get m (zi_id first)
            | [] => None
            end
    end in
  match groupFiles ++ externalLinks with
  | [] => fst (getGroupArchive lc g w) = Ret (Error 404 "Group not found")
  | _ :: _ =>
      exists entries,
        archiveEntries 0 allItems = Some entries /\
        fst (getGroupArchive lc g w) =
        Ret (Ok ((zipFilename
                    (orElse (match firstFileMeta with
                             | Some r => description r | None => None end) "group")
                  ++ ".zip")%string, entries))
  end.
Proof.
  intros m files groupFiles externalLinks allItems firstFileMeta.
  assert (Shape : forall z, In z allItems -> truthy (zi_path z) = true ->
                            zi_filename z <> None).
  { intros z I P. unfold allItems in I. apply sort_In in I.
    destruct (zip_item_shape m files g z I) as [[_ F]|[Pn _]]; [congruence|].
    rewrite Pn in P. discriminate. }
  destruct (archiveEntries_run allItems 0 Shape) as (entries & E & _).
  unfold getGroupArchive, tryCatch, bind, loadMetadata. rewrite loadMetadata_run.
  cbn [readdirUploads bind getDisk ret disk fst snd]. rewrite uploads_afterLoad.
  fold m files groupFiles externalLinks. cbv zeta. fold allItems.
  destruct groupFiles as [|a l] eqn:Eg; destruct externalLinks as [|b l'] eqn:El;
    cbn [app List.length Nat.eqb andb]; try reflexivity;
    exists entries; (split; [exact E|]); fold allItems; rewrite E; reflexivity.
Qed.

Lemma nth_error_map_name entries i e :
  nth_error entries i = Some e -> nth_error (map ae_name entries) i = Some (ae_name e).
Proof. intros E. rewrite nth_error_map, E. reflexivity. Qed.

(** X22. Where GET /api/groups/:groupId/download finds no member it
    answers 404; otherwise every stored file of the group and every link
    of the group that has a URL is handed to the archiver under a name of
    its own, and nothing else is: the member that is the [i]-th of them
    (from 0) in the order of the members is named [i + 1] followed by the
    extension of the stored file, or by [_external_link.txt] for a link; a
    stored file is added from its path in the uploads directory; and no
    two names are the same. (In which order the archiver then writes the
    entries into the zip is not the route's doing.) *)
Theorem archive_entries_are_named_by_member_position :
  forall (localeCompare : string -> string -> Z) (w : World) (g : string),
    (fst (getGroupDownload localeCompare g w) = Ret (Error 404 "Group not found") ->
     fst (getGroupArchive localeCompare g w) = Ret (Error 404 "Group not found")) /\
    (forall items,
       fst (getGroupDownload localeCompare g w) = Ret (Ok items) ->
       exists name entries,
         fst (getGroupArchive localeCompare g w) = Ret (Ok (name, entries)) /\
         (forall i z, nth_error (filter archived items) i = Some z ->
            exists e, In e entries /\
                      ae_name e = (decimalString (i + 1) ++ entrySuffix z)%string /\
                      ae_path e = (if truthy (zi_path z) then zi_path z else None)) /\
         (forall e, In e entries ->
            exists i z, nth_error (filter archived items) i = Some z /\
                        ae_name e = (decimalString (i + 1) ++ entrySuffix z)%string) /\
         NoDup (map ae_name entries)).
Proof.
  intros lc w g. rewrite getGroupDownload_run. cbv zeta.
  pose proof (getGroupArchive_run lc g w) as A. cbv zeta in A.
  set (m := currentMetadata (disk w)) in *. set (files := names (uploads (disk w))) in *.
  destruct (zipFiles m files g ++ zipLinks m g) as [|z0 zs] eqn:Ez.
  - split; [intros _; exact A|]. intros items H. discriminate H.
  - split; [intros H; discriminate H|].
    intros items H. inversion H; subst items; clear H.
    destruct A as (entries & E & Er).
    set (allItems := sort (fun a b => compareOrderId lc (zi_order a) (zi_id a)
                                                     (zi_order b) (zi_id b))
                          (z0 :: zs)) in *.
    assert (Shape : forall z, In z allItems -> truthy (zi_path z) = true ->
                              zi_filename z <> None).
    { intros z I P. unfold allItems in I. apply sort_In in I. rewrite <- Ez in I.
      destruct (zip_item_shape m files g z I) as [[_ F]|[Pn _]]; [congruence|].
      rewrite Pn in P. discriminate. }
    destruct (archiveEntries_run allItems 0 Shape) as (entries' & E' & L & N).
    rewrite E in E'. inversion E'; subst entries'; clear E'.
    eexists. exists entries. split; [exact Er|]. split; [|split].
    + intros i z Z. destruct (N i z Z) as (e & Ee & Hn & Hp).
      exists e. split; [now apply (nth_error_In entries i)|]. now split.
    + intros e I. apply In_nth_error in I. destruct I as (i & Ei).
      assert (Hi : (i < List.length entries)%nat)
        by (apply nth_error_Some; rewrite Ei; discriminate).
      rewrite L in Hi.
      destruct (nth_error (filter archived allItems) i) as [z|] eqn:Z;
        [|apply nth_error_None in Z; lia].
      destruct (N i z Z) as (e' & Ee' & Hn & _).
      rewrite Ei in Ee'. inversion Ee'; subst e'. eauto.
    + apply NoDup_nth_error. intros i j Hi Eij.
      rewrite length_map, L in Hi.
      destruct (nth_error (filter archived allItems) i) as [zi|] eqn:Zi;
        [|apply nth_error_None in Zi; lia].
      destruct (N i zi Zi) as (ei & Ei & Ni & _).
      rewrite (nth_error_map_name entries i ei Ei) in Eij.
      assert (Hj : (j < List.length (map ae_name entries))%nat)
        by (apply nth_error_Some; rewrite <- Eij; discriminate).
      rewrite length_map, L in Hj.
      destruct (nth_error (filter archived allItems) j) as [zj|] eqn:Zj;
        [|apply nth_error_None in Zj; lia].
      destruct (N j zj Zj) as (ej & Ej & Nj & _).
      rewrite (nth_error_map_name entries j ej Ej) in Eij.
      inversion Eij as [En]. rewrite Ni, Nj in En. cbn [Nat.add] in En.
      apply numbered_name_inj in En. lia.
Qed.

Lemma archive_entries_are_named_by_member_position_witness :
  exists name entries,
    fst (getGroupArchive codeUnitCompare "group-7" tripWorld) = Ret (Ok (name, entries)) /\
    NoDup (map ae_name entries).
Proof.
  destruct (proj2 (archive_entries_are_named_by_member_position codeUnitCompare tripWorld
                     "group-7") _ eq_refl) as (name & entries & E & _ & _ & D).
  exists name, entries. split; [exact E|exact D].
Defined.

Lemma sanitized_char_is_safe c :
  isSafeNameChar (lowerChar (if isAsciiLetterOrDigit c then c else "_"%char)) = true.
Proof. destruct c as [[] [] [] [] [] [] [] []]; vm_compute; reflexivity. Qed.

Lemma zipFilename_safe description :
  zipFilename description <> "" /\
  Forall (fun c => isSafeNameChar c = true) (chars (zipFilename description)).
Proof.
  unfold zipFilename, orElse.
  destruct (toLowerCase _ =? "")%string eqn:E.
  - split; [discriminate|]. repeat constructor.
  - split; [now apply String.eqb_neq|].
    unfold toLowerCase. rewrite !chars_ofChars, map_map.
    apply Forall_forall. intros c I. apply in_map_iff in I.
    destruct I as (x & <- & _). apply sanitized_char_is_safe.
Qed.

(** X23. The name of the attachment of a zip export is never empty and is
    safe to put in a header: it is made of lower-case ASCII letters,
    digits and underscores only, followed by [.zip], whatever the
    description of the group holds. *)
Theorem archive_name_is_safe :
  forall (localeCompare : string -> string -> Z) (w : World) (g name : string)
         (entries : list ArchiveEntry),
    fst (getGroupArchive localeCompare g w) = Ret (Ok (name, entries)) ->
    exists base,
      name = (base ++ ".zip")%string /\ base <> "" /\
      Forall (fun c => isSafeNameChar c = true) (chars base).
Proof.
  intros lc w g name entries H.
  pose proof (getGroupArchive_run lc g w) as A. cbv zeta in A.
  destruct (zipFiles _ _ g ++ zipLinks _ g) as [|z0 zs].
  - rewrite A in H. discriminate H.
  - destruct A as (entries' & _ & Er). rewrite Er in H. inversion H; subst.
    eexists. split; [reflexivity|]. apply zipFilename_safe.
Qed.

Lemma archive_name_is_safe_witness :
  exists base,
    "my_trip__2024_.zip" = (base ++ ".zip")%string /\ base <> "" /\
    Forall (fun c => isSafeNameChar c = true) (chars base).
Proof.
  exact (archive_name_is_safe codeUnitCompare tripWorld "group-7" "my_trip__2024_.zip"
           [mkEntry "1.MP4" (Some "uploads/1700000000000-2.MP4") None;
            mkEntry "2.jpg" (Some "uploads/1700000000000-1.jpg") None;
            mkEntry "3_external_link.txt" None
                    (Some ("External Video Link:" ++ newline ++ "https://example.org/v"
                           ++ newline ++ newline ++ "Embed URL:" ++ newline
                           ++ "https://example.org/v")%string)]
           eq_refl).
Defined.

(* ================================================================= *)
(** ** Splitting a URL *)

Lemma isPrefix_app p l : isPrefix p (p ++ l) = true.
Proof.
  induction p as [|c p IH]; cbn [isPrefix app]; [reflexivity|].
  now rewrite Ascii.eqb_refl, IH.
Qed.

Lemma includesChars_after p a l : isPrefix p l = true -> includesChars p (a ++ l) = true.
Proof.
  intros H. induction a as [|c a IH]; cbn [app].
  - destruct l; cbn [includesChars]; now rewrite H.
  - cbn [includesChars]. rewrite IH. apply orb_true_r.
Qed.

(** The characters still to pass over after a separator was recognised. *)
Lemma splitChars_skip sep x b cur :
  splitChars sep (x ++ b) cur (List.length x) = splitChars sep b cur 0.
Proof.
  induction x as [|c x IH]; cbn [app List.length]; [reflexivity|].
  cbn [splitChars]. exact IH.
Qed.

(** At a separator the piece read so far ends. *)
Lemma splitChars_at_separator s0 srest b cur :
  splitChars (s0 :: srest) ((s0 :: srest) ++ b) cur 0 =
  rev cur :: splitChars (s0 :: srest) b [] 0.
Proof.
  cbn [app splitChars].
  change (isPrefix (s0 :: srest) (s0 :: srest ++ b))
    with (isPrefix (s0 :: srest) ((s0 :: srest) ++ b)).
  rewrite isPrefix_app. cbn [List.length].
  replace (S (List.length srest) - 1) with (List.length srest) by lia.
  f_equal. apply splitChars_skip.
Qed.

(** Characters at which no separator starts go to the piece being read. *)
Lemma splitChars_walk sep a l cur :
  (forall a1 a2, a = a1 ++ a2 -> a2 <> [] -> isPrefix sep (a2 ++ l) = false) ->
  splitChars sep (a ++ l) cur 0 = splitChars sep l (rev a ++ cur) 0.
Proof.
  revert cur. induction a as [|c a IH]; intros cur H; [reflexivity|].
  cbn [app splitChars].
  change (isPrefix sep (c :: a ++ l)) with (isPrefix sep ((c :: a) ++ l)).
  rewrite (H [] (c :: a) eq_refl) by discriminate.
  rewrite IH.
  - cbn [rev]. now rewrite <- app_assoc.
  - intros a1 a2 E N. apply (H (c :: a1) a2); [now rewrite E|exact N].
Qed.

(** The first piece is what was read so far and a prefix of the rest. *)
Lemma splitChars_first_piece sep l :
  forall cur, exists p q,
    l = p ++ q /\ hd_error (splitChars sep l cur 0) = Some (rev cur ++ p).
Proof.
  induction l as [|c l IH]; intros cur.
  - exists [], []. split; [reflexivity|]. cbn. now rewrite app_nil_r.
  - cbn [splitChars]. destruct (isPrefix sep (c :: l)).
    + exists [], (c :: l). split; [reflexivity|]. cbn. now rewrite app_nil_r.
    + destruct (IH (c :: cur)) as (p & q & E & H).
      exists (c :: p), q. split; [cbn; now rewrite E|].
      rewrite H. cbn [rev]. now rewrite <- app_assoc.
Qed.

(** For a separator of one character the first piece ends at its first
    occurrence. *)
Lemma splitChars_one_char c a r cur :
  Forall (fun x => Ascii.eqb c x = false) a ->
  match r with [] => True | x :: _ => x = c end ->
  hd_error (splitChars [c] (a ++ r) cur 0) = Some (rev cur ++ a).
Proof.
  revert cur. induction a as [|x a IH]; intros cur Fa Hr.
  - cbn [app]. destruct r as [|y r]; cbn [splitChars hd_error].
    + now rewrite app_nil_r.
    + subst y. cbn [isPrefix]. rewrite Ascii.eqb_refl. cbn. now rewrite app_nil_r.
  - inversion Fa as [|? ? Hx Fa']; subst. cbn [app splitChars isPrefix].
    rewrite Hx. cbn [andb]. rewrite IH by assumption.
    cbn [rev]. now rewrite <- app_assoc.
Qed.

Lemma prefix_starts_like (l p q : list ascii) (c : ascii) :
  l = p ++ q -> match l with [] => True | x :: _ => x = c end ->
  match p with [] => True | x :: _ => x = c end.
Proof. intros -> H. destruct p; [exact I|exact H]. Qed.

(** No [v=] starts at a character that is not followed by [=]. *)
Lemma no_v_eq_without_eq a l :
  Forall (fun x => Ascii.eqb "=" x = false) a ->
  match l with [] => True | x :: _ => Ascii.eqb "=" x = false end ->
  forall a1 a2, a = a1 ++ a2 -> a2 <> [] ->
    isPrefix ["v"; "="]%char (a2 ++ l) = false.
Proof.
  intros Fa Hl a1 a2 -> N. apply Forall_app in Fa. destruct Fa as [_ Fa].
  destruct a2 as [|x a2]; [congruence|]. cbn [app isPrefix].
  destruct (Ascii.eqb "v" x); [cbn [andb]|reflexivity].
  inversion Fa as [|? ? _ Fa2]; subst.
  destruct a2 as [|y a2]; cbn [app].
  - destruct l as [|y l]; [reflexivity|]. cbn [isPrefix]. now rewrite Hl.
  - inversion Fa2 as [|? ? Hy _]; subst. cbn [isPrefix]. now rewrite Hy.
Qed.

(** X24. A YouTube watch URL is registered with its video id: for a URL
    made of a prefix without [=], [youtube.com/watch?v=], an id that is
    not empty and holds neither [=] nor [&], and nothing more or further
    parameters after [&], the kind of the link is 'youtube' and its embed
    URL is [https://www.youtube.com/embed/] followed by the id. *)
Theorem watch_url_embeds_its_id :
  forall pre id rest : string,
    Forall (fun x => Ascii.eqb "=" x = false) (chars pre) ->
    id <> "" ->
    Forall (fun x => Ascii.eqb "=" x = false /\ Ascii.eqb "&" x = false) (chars id) ->
    match chars rest with [] => True | x :: _ => x = "&"%char end ->
    classifyUrl (pre ++ "youtube.com/watch?v=" ++ id ++ rest)
    = ("youtube", ("https://www.youtube.com/embed/" ++ id)%string).
Proof.
  intros pre id rest Fpre Nid Fid Hrest.
  set (url := (pre ++ "youtube.com/watch?v=" ++ id ++ rest)%string).
  assert (Cu : chars url = (chars pre ++ chars "youtube.com/watch?") ++
                           ["v"; "="]%char ++ (chars id ++ chars rest)).
  { unfold url. rewrite !chars_app. rewrite <- app_assoc. reflexivity. }
  assert (I1 : includes "youtube.com" url = true).
  { unfold includes, url. rewrite chars_app. apply includesChars_after.
    rewrite chars_app. reflexivity. }
  assert (I2 : includes "youtube.com/watch?v=" url = true).
  { unfold includes, url. rewrite chars_app. apply includesChars_after.
    rewrite chars_app. apply (isPrefix_app (chars "youtube.com/watch?v=")). }
  assert (Fid1 : Forall (fun x => Ascii.eqb "=" x = false) (chars id))
    by (eapply Forall_impl; [|exact Fid]; intros x [H _]; exact H).
  assert (Fid2 : Forall (fun x => Ascii.eqb "&" x = false) (chars id))
    by (eapply Forall_impl; [|exact Fid]; intros x [_ H]; exact H).
  assert (Hr : match chars rest with [] => True | x :: _ => Ascii.eqb "=" x = false end)
    by (destruct (chars rest); [exact I|subst; reflexivity]).
  (* the pieces around [v=] *)
  assert (S1 : exists pieces p q,
             chars rest = p ++ q /\
             splitChars ["v"; "="]%char (chars url) [] 0
             = (chars pre ++ chars "youtube.com/watch?") :: (chars id ++ p) :: pieces).
  { rewrite Cu. rewrite splitChars_walk.
    - rewrite splitChars_at_separator, app_nil_r, rev_involutive.
      destruct (splitChars_first_piece ["v"; "="]%char (chars id ++ chars rest) [])
        as (p0 & q0 & E0 & H0).
      rewrite (splitChars_walk ["v"; "="]%char (chars id) (chars rest) [])
        in H0 |- * by now apply no_v_eq_without_eq.
      destruct (splitChars_first_piece ["v"; "="]%char (chars rest) (rev (chars id) ++ []))
        as (p & q & E & H).
      destruct (splitChars ["v"; "="]%char (chars rest) (rev (chars id) ++ []) 0)
        as [|piece pieces]; [discriminate H|].
      cbn [hd_error] in H. inversion H; subst piece.
      exists pieces, p, q. split; [exact E|].
      now rewrite app_nil_r, rev_involutive.
    - apply no_v_eq_without_eq; [|reflexivity].
      apply Forall_app. split; [exact Fpre|]. repeat constructor. }
  destruct S1 as (pieces & p & q & Er & S1).
  assert (V : secondThenFirst (split "v=" url) "&" = Some id).
  { unfold secondThenFirst, split. change (chars "v=") with ["v"; "="]%char.
    rewrite S1. cbn [map nth_error]. unfold split. rewrite chars_ofChars.
    change (chars "&") with ["&"%char].
    destruct (splitChars ["&"%char] (chars id ++ p) [] 0) as [|piece ps] eqn:Es.
    - pose proof (splitChars_one_char "&" (chars id) p [] Fid2
                    (prefix_starts_like _ _ _ _ Er Hrest)) as H.
      rewrite Es in H. discriminate H.
    - pose proof (splitChars_one_char "&" (chars id) p [] Fid2
                    (prefix_starts_like _ _ _ _ Er Hrest)) as H.
      rewrite Es in H. cbn [hd_error rev app] in H. inversion H; subst piece.
      cbn [map hd_error]. now rewrite ofChars_chars. }
  unfold classifyUrl. fold url. rewrite I1, I2. cbn [orb]. rewrite V.
  assert (T : truthy (Some id) = true)
    by (cbn [truthy]; apply String.eqb_neq in Nid; now rewrite Nid).
  rewrite T. unfold orElse. apply String.eqb_neq in Nid. now rewrite Nid.
Qed.

Lemma watch_url_embeds_its_id_witness :
  classifyUrl "https://www.youtube.com/watch?v=dQw4w9WgXcQ&t=42s"
  = ("youtube", "https://www.youtube.com/embed/dQw4w9WgXcQ").
Proof.
  apply (watch_url_embeds_its_id "https://www." "dQw4w9WgXcQ" "&t=42s").
  - repeat constructor.
  - discriminate.
  - repeat constructor.
  - reflexivity.
Defined.

(** No separator starts at a character other than its first one. *)
Lemma no_separator_without_its_head c s a l :
  Forall (fun x => Ascii.eqb c x = false) a ->
  forall a1 a2 : list ascii, a = a1 ++ a2 -> a2 <> [] ->
    isPrefix (c :: s) (a2 ++ l) = false.
Proof.
  intros Fa a1 a2 -> N. apply Forall_app in Fa. destruct Fa as [_ Fa].
  destruct a2 as [|x a2]; [congruence|]. cbn [app isPrefix].
  inversion Fa as [|? ? Hx _]; subst. now rewrite Hx.
Qed.

(** X25. A Google Drive file URL is registered with its file id: for
    [https://drive.google.com/file/d/], an id that is not empty and holds
    no [/], and nothing more or a path after [/], in a URL that names no
    YouTube host, the kind of the link is 'googledrive' and its embed URL
    is the preview page of that file. *)
Theorem drive_file_url_embeds_its_id :
  forall id rest : string,
    id <> "" ->
    Forall (fun x => Ascii.eqb "/" x = false) (chars id) ->
    match chars rest with [] => True | x :: _ => x = "/"%char end ->
    includes "youtube.com" ("https://drive.google.com/file/d/" ++ id ++ rest) = false ->
    includes "youtu.be" ("https://drive.google.com/file/d/" ++ id ++ rest) = false ->
    classifyUrl ("https://drive.google.com/file/d/" ++ id ++ rest)
    = ("googledrive", ("https://drive.google.com/file/d/" ++ id ++ "/preview")%string).
Proof.
  intros id rest Nid Fid Hrest Y1 Y2.
  set (url := ("https://drive.google.com/file/d/" ++ id ++ rest)%string) in *.
  assert (Cu : chars url = chars "https://drive.google.com" ++
                           chars "/file/d/" ++ (chars id ++ chars rest)).
  { unfold url. rewrite !chars_app. reflexivity. }
  assert (I1 : includes "drive.google.com" url = true).
  { unfold includes. rewrite Cu.
    apply (includesChars_after _ (chars "https://")). reflexivity. }
  assert (I2 : includes "/file/d/" url = true).
  { unfold includes. rewrite Cu. apply includesChars_after. apply isPrefix_app. }
  assert (S1 : exists pieces p q,
             chars rest = p ++ q /\
             splitChars (chars "/file/d/") (chars url) [] 0
             = chars "https://drive.google.com" :: (chars id ++ p) :: pieces).
  { rewrite Cu.
    destruct (splitChars_first_piece (chars "/file/d/") (chars rest) (rev (chars id) ++ []))
      as (p & q & E & H).
    destruct (splitChars (chars "/file/d/") (chars rest) (rev (chars id) ++ []) 0)
      as [|piece pieces] eqn:Es; [discriminate H|].
    cbn [hd_error] in H. inversion H; subst piece.
    exists pieces, p, q. split; [exact E|].
    set (tail := chars id ++ chars rest).
    transitivity (chars "https://drive.google.com"
                  :: splitChars (chars "/file/d/") tail [] 0).
    { vm_compute chars. cbn [app splitChars isPrefix Ascii.eqb Bool.eqb andb
                            List.length Nat.sub rev]. reflexivity. }
    f_equal. unfold tail.
    rewrite (splitChars_walk (chars "/file/d/") (chars id) (chars rest) [])
      by (apply no_separator_without_its_head; exact Fid).
    rewrite Es. now rewrite !app_nil_r, !rev_involutive. }
  destruct S1 as (pieces & p & q & Er & S1).
  assert (V : secondThenFirst (split "/file/d/" url) "/" = Some id).
  { unfold secondThenFirst, split.
    rewrite S1. cbn [map nth_error]. unfold split. rewrite chars_ofChars.
    change (chars "/") with ["/"%char].
    pose proof (splitChars_one_char "/" (chars id) p [] Fid
                  (prefix_starts_like _ _ _ _ Er Hrest)) as H.
    destruct (splitChars ["/"%char] (chars id ++ p) [] 0) as [|piece ps].
    - discriminate H.
    - cbn [hd_error rev app] in H. inversion H; subst piece.
      cbn [map hd_error]. now rewrite ofChars_chars. }
  unfold classifyUrl. fold url. rewrite Y1, Y2, I1, I2. cbn [orb]. rewrite V.
  apply String.eqb_neq in Nid.
  cbn [truthy]. rewrite Nid. unfold orElse. now rewrite Nid.
Qed.

Lemma drive_file_url_embeds_its_id_witness :
  classifyUrl "https://drive.google.com/file/d/1AbC_x9/view?usp=sharing"
  = ("googledrive", "https://drive.google.com/file/d/1AbC_x9/preview").
Proof.
  apply (drive_file_url_embeds_its_id "1AbC_x9" "/view?usp=sharing").
  - discriminate.
  - repeat constructor.
  - reflexivity.
  - reflexivity.
  - reflexivity.
Defined.
